(* ===== verification/_CoqProject ===== *)
-Q . S2P
Prelude.v
Text.v
Clock.v
Ttl.v
External.v
Reference.v
Approval.v
Cbor.v
Token.v
Line.v
P256der.v
Crc.v
Embed.v
EmbedProps.v
Flash.v
Authority.v
AuthorityGraph.v
AuthorityEval.v
AuthorityProps.v
AuthorityWait.v
Factors.v
Ledgers.v
Inventory.v
TextLines.v
DriverMonad.v
Firmware.v
SoftCore.v
Fence.v
Deadman.v
Channel.v
Seam.v
Templates.v
InventoryCheck.v
Lockfile.v
Remote.v
DriverSsh.v
Transports.v
DriverGeneric.v
DriverBmc.v
DriverVnc.v
TunnelChild.v
DeviceState.v
DriverDevice.v
ScriptedDrivers.v
Grant.v
GrantProps.v
Registry.v
Snapshot.v
Proto.v
Mcp.v
Daemon.v
Proofs.v
Provers.v
TpmCrate.v
Lifecycle.v
LifecycleLogic.v
LifecycleSafe.v
LifecycleProps.v
Listener.v
StoreFile.v
Exchange.v
FrontDoor.v
Client.v
AccessChain.v
Startup.v
Messages.v
StateDir.v
McpSchemas.v
LgcapSign.v
Process.v
Devsim.v
Shadow.v
SteadyDaemon.v
ShadowRefines.v
