(* ===== verification/Prelude.v ===== *)
(** * lychgate: a verification library

    lychgate is a break-glass access daemon.  An operator asks for access to
    a host, approvers prove who they are, and when the proofs reach the
    weight the host's profile demands the daemon opens the host's channels
    (ssh, vnc, bmc, a cooperative device, ...) for at most a day, then
    reverts them.  This library models the program and proves what makes it
    trustworthy: access is never open without a record that will revert it,
    is never opened without the proofs the policy demands, and never lasts
    beyond its cap.

    ** The parts of the program and where they are modelled

    Text, Clock, Ttl model what the code uses of Rust's strings, of
    [SystemTime]/[Duration], and core/src/ttl.rs.

    Approval (core/src/approval.rs) is the request an approver signs: its
    canonical bytes and challenge.

    Authority (core/src/authority.rs) is the approval policy: the
    configuration types, [from_spec] with all its refusals, the iterative
    three-colour cycle search, [evaluate], [max_wait].  AuthorityGraph proves
    the search, AuthorityEval gives satisfaction declaratively and proves
    [evaluate] against it, AuthorityWait proves [max_wait], AuthorityProps
    has the theorems.

    Factors and Ledgers are the proof factors (core/src/totp.rs,
    hmac_factor.rs, password.rs, tpm.rs, fido2.rs, [verify_ed25519]) and the
    two ledgers (daemon/src/totp_ledger.rs, fido2_counters.rs); Proofs is
    [Daemon::verify_proof], which tries them in the order of the source.

    Provers is the other half of the factors, what a client makes a proof
    with (the software authenticators, the assembled tokens, the hashes);
    TpmCrate (tpm/src/real.rs) is the chip's part of it: the key templates,
    registration, signing, sealing and unsealing.

    Inventory holds the data types of core/src/inventory.rs, InventoryCheck
    its load-time validation with every refusal.

    Channel (core/src/channel.rs) applies, unwinds, renews, reverts and
    re-establishes channels over a [DriverSet]; ScriptedDrivers is a concrete
    world in the manner of the code's own fakes.

    Grant (core/src/grant.rs) is the state machine of one host's access, with
    every operation and error; GrantProps gives its diagram, a timed
    transition system and what it can reach.  Registry
    (core/src/registry.rs) is the map of hosts to grants, Snapshot
    (core/src/snapshot.rs) its document and validation, Proto
    (core/src/proto.rs) the socket protocol.

    Daemon is the state the handlers share (the state file of store.rs, the
    driver set, the dead-man, the proof ledgers, the journal of journal.rs)
    and the monad they are written in; Lifecycle (daemon/src/lifecycle.rs)
    has every handler, the periodic pass and the boot recovery.  StoreFile
    has the calls of store.rs and journal.rs on a disk that can lose power,
    and shows that the store of Daemon is what they implement; StateDir has
    the names of the directory's files and the limits of their locks.
    LifecycleLogic is a Hoare logic for them, LifecycleSafe the triple of
    every handler, LifecycleProps the theorems, AccessChain their composition
    with the proof verifier and the policy.

    The drivers behind [ChannelDriver] (daemon/src/drivers, daemon/src/
    transport.rs and the pure logic of core/src/ssh.rs, deadman.rs, bmc.rs,
    vnc.rs, generic.rs): TextLines and Fence (the authorized_keys fence and
    the root posture), Deadman (the backstop's script and crontab), Templates
    (the command templates), DriverMonad (the effects of a driver), Seam (a
    driver behind the channel trait), Remote and Transports (what is handed
    to ssh, curl, mosquitto and a tty), DriverSsh, DriverGeneric, DriverBmc,
    DriverVnc, TunnelChild (the life of the [ssh -L] processes behind
    drivers/tunnel.rs), DriverDevice with the ledger DeviceState
    (daemon/src/device_state.rs), and Lockfile (daemon/src/lockfile.rs) as
    interleaved system calls.

    The process: Startup and Process are [main] of daemon/src/main.rs, from
    the options to the stop; Listener (daemon/src/listener.rs) is a socket.

    The front ends: Exchange is a request over the socket end to end, Client
    every subcommand of cli/src/main.rs, Mcp the JSON-RPC server and its
    tools (mcp/src/rpc.rs, tools.rs), McpSchemas the catalogue it lists and
    the JSON of its answers, FrontDoor the MCP process with the
    principal's key (mcp/src/main.rs, signer.rs, transport.rs) in front of
    the daemon.  Messages has the words: the [Display] of every error type,
    the refusals of the handlers and the texts of the tools, as the pieces
    the formatter writes.

    The devices: Crc, Flash and Firmware are the reference firmware
    (firmware/esp32c3), SoftCore the soft core with the gate it loads
    (fpga/fw/src/main.rs, fpga/rtl), Devsim the simulator (devsim/src).

    Shadow is the repository's own simulation (daemon/src/sim.rs): the
    shadow model, the checker, the harness, the generator and the shrinker.
    SteadyDaemon says what every handler does to one host's grant when
    nothing fails, and ShadowRefines proves the daemon against the shadow.

    Cbor, Token (wire/src/cbor.rs, token.rs, lib.rs) are the canonical
    payloads and signed tokens for devices, Line (wire/src/line.rs) the line
    protocol, P256der (wire/src/p256der.rs) the signature conversion,
    LgcapSign (wire/examples/lgcap-sign.rs) the bench signer; Embed
    (embed/src/lib.rs) is the engine a device runs and EmbedProps its
    theorems.

    ** How the model relates to the code

    Definitions keep the names of the source.  A [Result] is [result], with
    the error enums as inductive types (a message is a constructor with its
    arguments, whose words Messages writes out).  Unsigned integers are [Z]
    with their widths written out where a bound matters ([saturating_add64],
    [checked_mul64], [is_u64]); instants are nanoseconds in [Z] with the
    clock's end.  A [&str] is a string of UTF-8 bytes.  A [BTreeMap] is a
    [gmap] iterated in key order ([btree_iter], [btree_iter_mut]).  [&mut
    self] operations return the new state beside the result, on the error
    branches too.  A panic ([expect], [unreachable!]) is a value of its own,
    [Fault.Panic], so that its absence is a theorem.

    The daemon's handlers run in the state monad of Daemon: every attempt at
    I/O may fail, as an arbitrary environment decides, and [past] records the
    pair of state file and target world after every write and every driver
    call.  A crash is an execution that stops at one of those points; the
    theorems about crashes quantify over them.

    What is not in the repository, or is only a trait there, is an interface:
    [DataEncoding] (base64url, hex), [WireCrypto], [ApprovalKeys],
    [FactorCrypto] and [FactorSigners] (signatures, digests, Argon2, ssh
    keys), [PrincipalKeys] (OpenSSH private keys), [RequestJson],
    [RequestText], [ResponseJson], [AccountJson] (JSON), [StartCrates] (TOML,
    base32, the TPM), [X509]; [Tss] with [ChipLaws] and [ChipWorks] (the TPM
    library), [CharTables] (which characters Unicode prints as they are);
    [SshTransport], [Processes], [Tty], [HttpTransport] and the other seams
    of the drivers; [FlashPart], [I2c] and [Mmio] under the firmware;
    [ChannelDriver] with [DriverContract] (a driver touches only its own
    channel of its own host, and a revert that answers Ok has closed it);
    [DeadmanControl]; [ProofVerifier], against which the handlers are proved
    and which [Proofs.DaemonProofs] discharges; [UptimeClock], [SeqStore] and
    [Gate] with their laws on the device.  Each is a type class; Reference,
    ScriptedDrivers, Proofs and EmbedProps give instances that satisfy the
    laws, and the witnesses evaluate on them.

    ** What is proved

    The daemon: through any sequence of requests, passes and boots, each cut
    short anywhere by a crash and under any I/O and driver failure, whatever
    is open on a target is recorded in the state file; every activity returns
    and none panics; an approval that drives a channel goes back to a real
    proof for the pending request and to proofs of enough weight for the
    profile; the MCP socket cannot reach past its profiles.  The process
    around it never panics either, and starts only well configured; what a
    socket carries is dispatched as it was sent.

    The daemon against its shadow: on every sequence of the simulated users'
    actions the daemon answers and shows what the shadow says, to the second.
    The sequences are those in which no accepted renewal reaches past 24
    hours from the opening (the daemon cannot reload such a grant, and an
    example shows it) and no nonce repeats; the committed seeds are such.

    The front ends: a command leaves the daemon as its operation does; what a
    client registers and signs the daemon accepts; an MCP session under a
    policy that admits it to no profile opens nothing; every JSON-RPC request
    is answered once, under its id, and the catalogue lists exactly the tools
    that run and the arguments they insist on.  No request can put a control
    character into a refusal.  A secret sealed on a TPM opens there and only
    there, and what a registered TPM key signs is accepted.

    The drivers: a driver that answers Ok to an open or a revert read that
    state back from the target (sshd's effective posture, the BMC's account,
    the tunnel's port, the device's report, the configured probe), touched no
    other target, and what it edits in a file it restores; sequence numbers
    are issued once; the lock excludes while no holder dies; a forward dies
    with the daemon, unless it was forked and not yet armed.

    The policy: [from_spec] answers on every configuration and what it
    accepts is acyclic, resolved and reachable; [evaluate] decides exactly
    the declarative satisfaction, is monotone, opens nothing on no proof and
    opens on all of them; the cycle search is exact.

    The proofs: what is accepted is what the authenticator's kind demands; a
    TOTP code is spent once; a FIDO2 counter only advances.

    The grant and its storage: the operations follow the diagram; an open
    grant never has more than a day left; an expired grant stays expired
    until reverted; a channel leaves the record only through a reported
    revert; sweeps report exactly what they change; a registry survives the
    file up to whole seconds, exactly when its intervals are within the cap.
    The file on the disk is the old document or the new one whatever fails or
    loses power; the journal only grows, by numbered lines; no two files of
    the state directory share a name, and every lock call ends.
    A renewal can leave that range: Snapshot and LifecycleProps prove the
    daemon then refuses its own file.

    The inventory: validation accepts exactly the well-formed inventories.

    The device: its gate never outlives its grant, a token opens it once, it
    answers every line, and what the daemon signs it accepts; payloads,
    tokens, lines and signatures round trip and have one encoding, and what
    the bench signer mints it verifies.  The firmware moves the engine only
    by its own steps and a torn flash write never lowers the mark; the soft
    core's gate is enabled for exactly the loaded seconds; the simulator is a
    device with a truthful state file.

    ** Fuel and bounds

    Three recursions of the core are not structural: the cycle search (fuel
    from the sizes of the graph; [AuthorityGraph] proves it never runs out),
    [evaluate] (fuel one more than the number of groups; [evaluate_returns]
    on every accepted policy) and [max_wait] (fuel from the groups and
    factors; [max_wait_returns] on every model).  Running out is the value
    [OutOfFuel], which [daemon_returns_without_panic] excludes.  Decimal
    printing of a u64 uses 20 digits, enough for 2^64 - 1.  Loops that wait
    for the outside take fuel as an argument and their theorems say how much
    is enough: a serial transaction reads at most once per clock tick of its
    budget, the soft core polls until the harness raises a token, key
    generation draws until a scalar is valid; the tunnel and posture loops
    have the attempt counts of the source.  The shrinker makes at most 500
    attempts, as in the source.

    ** What is not modelled

    JSON and TOML text (documents and requests are values behind an
    interface), the log lines of the daemon, the two threads' mutexes (an
    execution is a sequence of whole activities; the lock is an attempt that
    may fail), opening a pty or a fifo, clap's argument parsing, the programs
    the transports run, what happens inside the TPM and the tss-esapi
    library, the picorv32 core and its bus timing, the AVR and USB/IP benches
    and the test tiers.

    Hypotheses worth naming: a disk keeps what was synced, and a power cut
    may undo recent changes of the directory; a flash write changes only its
    own bytes; a failed write of the simulator's mark leaves the file as it
    was; a signature of the cast is good for one key and one message; secret
    files are ASCII where the process is shown not to panic (an example shows
    it can otherwise). *)

From stdpp Require Export prelude gmap strings list sorting.
From Stdlib Require Export ZArith Lia Ascii.

Declare Scope lychgate_scope.
Delimit Scope lychgate_scope with lychgate.
#[global] Open Scope lychgate_scope.
#[global] Open Scope Z_scope.

(** stdpp blocks the simplification of string concatenation; the text lemmas
    compute with it. *)
#[global] Arguments String.append : simpl nomatch.

(** ** Results

    Rust's [Result<A, E>].  The error type comes first so that [result E] is
    a type constructor. *)

Inductive result (E A : Type) : Type :=
| Ok (a : A)
| Err (e : E).
Arguments Ok {E A} a.
Arguments Err {E A} e.

(** The [?] operator: early return of an error of the same type. *)
Notation "'let?' p ':=' r 'in' k" :=
  (match r with Ok p => k | Err err => Err err end)
  (at level 10, p pattern, r at level 100, k at level 200)
  : lychgate_scope.

Definition map_err {E F A} (f : E -> F) (r : result E A) : result F A :=
  match r with Ok a => Ok a | Err e => Err (f e) end.

Definition result_map {E A B} (f : A -> B) (r : result E A) : result E B :=
  match r with Ok a => Ok (f a) | Err e => Err e end.

(** How a computation that is not plainly total ends early: a refusal the
    code returns, a Rust panic ([unreachable!], [expect], an out-of-range
    index), or the exhaustion of the fuel of a modelled loop. *)
Inductive Fault (E : Type) : Type :=
| Refused (e : E)
| Panic
| OutOfFuel.
Arguments Refused {E} e.
Arguments Panic {E}.
Arguments OutOfFuel {E}.

(** [Option::ok_or]. *)
Definition ok_or {E A} (o : option A) (e : E) : result E A :=
  match o with Some a => Ok a | None => Err e end.

Definition is_ok {E A} (r : result E A) : bool :=
  match r with Ok _ => true | Err _ => false end.

#[export] Instance result_eq_dec {E A} `{EqDecision E, EqDecision A} :
  EqDecision (result E A).
Proof. solve_decision. Defined.

(** ** Machine integers

    A [w]-bit unsigned integer is a [Z]; every operation that can leave the
    range says what the code does there (checked, saturating). *)

Definition u8_max : Z := 2 ^ 8 - 1.
Definition u16_max : Z := 2 ^ 16 - 1.
Definition u32_max : Z := 2 ^ 32 - 1.
Definition u64_max : Z := 2 ^ 64 - 1.

Definition is_u8 (z : Z) : Prop := 0 <= z <= u8_max.
Definition is_u32 (z : Z) : Prop := 0 <= z <= u32_max.
Definition is_u64 (z : Z) : Prop := 0 <= z <= u64_max.

#[export] Instance is_u8_dec z : Decision (is_u8 z) := _.
#[export] Instance is_u32_dec z : Decision (is_u32 z) := _.
#[export] Instance is_u64_dec z : Decision (is_u64 z) := _.

Definition checked_add64 (a b : Z) : option Z :=
  if a + b <=? u64_max then Some (a + b) else None.
Definition checked_mul64 (a b : Z) : option Z :=
  if a * b <=? u64_max then Some (a * b) else None.
Definition saturating_add64 (a b : Z) : Z := Z.min u64_max (a + b).
Definition saturating_mul64 (a b : Z) : Z := Z.min u64_max (a * b).
Definition saturating_sub64 (a b : Z) : Z := Z.max 0 (a - b).

Lemma checked_add64_ok a b : a + b <= u64_max -> checked_add64 a b = Some (a + b).
Proof. intros H. unfold checked_add64. by rewrite (proj2 (Z.leb_le _ _)). Qed.
Lemma checked_mul64_ok a b : a * b <= u64_max -> checked_mul64 a b = Some (a * b).
Proof. intros H. unfold checked_mul64. by rewrite (proj2 (Z.leb_le _ _)). Qed.

(** A boolean fact about every byte is checked on the 256 of them. *)
Lemma u8_all (p : Z -> bool) :
  forallb (fun n => p (Z.of_nat n)) (seq 0 256) = true -> forall b, is_u8 b -> p b = true.
Proof.
  rewrite forallb_forall. unfold is_u8, u8_max. intros H b Hb.
  specialize (H (Z.to_nat b)). rewrite Z2Nat.id in H by lia. apply H, in_seq. lia.
Qed.

(** [u64::div_ceil]. *)
Definition div_ceil (a b : Z) : Z := (a + b - 1) / b.

(** ** Tactics *)

(** Case on the scrutinee of a [match] or [if], in the goal or a hypothesis,
    keeping the equation. *)
Ltac case_goal :=
  match goal with
  | |- context [ match ?x with _ => _ end ] =>
      lazymatch x with
      | context [ match _ with _ => _ end ] => fail
      | _ => destruct x eqn:?
      end
  end.
Ltac case_hyp H :=
  match type of H with
  | context [ match ?x with _ => _ end ] =>
      lazymatch x with
      | context [ match _ with _ => _ end ] => fail
      | _ => destruct x eqn:?
      end
  end.

(** Turn boolean comparisons on [Z], [nat] and [bool] into propositions. *)
Ltac bool_prop :=
  repeat match goal with
  | H : (_ <? _) = true |- _ => apply Z.ltb_lt in H
  | H : (_ <? _) = false |- _ => apply Z.ltb_ge in H
  | H : (_ <=? _) = true |- _ => apply Z.leb_le in H
  | H : (_ <=? _) = false |- _ => apply Z.leb_gt in H
  | H : (_ =? _) = true |- _ => apply Z.eqb_eq in H
  | H : (_ =? _) = false |- _ => apply Z.eqb_neq in H
  | H : (_ && _) = true |- _ => apply andb_true_iff in H as [? ?]
  | H : (_ || _) = false |- _ => apply orb_false_iff in H as [? ?]
  | H : negb _ = true |- _ => apply negb_true_iff in H
  | H : negb _ = false |- _ => apply negb_false_iff in H
  | H : bool_decide _ = true |- _ => apply bool_decide_eq_true in H
  | H : bool_decide _ = false |- _ => apply bool_decide_eq_false in H
  end.

(** Split every conjunction of the context and simplify equations. *)
Ltac crush :=
  repeat first
    [ progress simplify_eq/=
    | progress bool_prop
    | progress destruct_and? ];
  try done; try lia.

Create HintDb lychgate.
Create Rewrite HintDb lychgate.

Lemma list_sum_cons x l : list_sum (x :: l) = (x + list_sum l)%nat.
Proof. done. Qed.

(** ** Ordered maps

    Rust's [BTreeMap<String, V>]: stdpp's [gmap] for the contents, with the
    iteration order (ascending byte order of the keys) as a sorted list. *)

Definition key_le {V} (p q : string * V) : Prop := String.le p.1 q.1.

#[export] Instance key_le_dec {V} : RelDecision (@key_le V).
Proof. intros p q. unfold key_le. apply _. Defined.
#[export] Instance key_le_total {V} : Total (@key_le V).
Proof. intros p q. apply (total String.le). Qed.
#[export] Instance key_le_trans {V} : Transitive (@key_le V).
Proof. intros p q r. unfold key_le. intros. by etrans. Qed.

(** [BTreeMap::iter]. *)
Definition btree_iter {V} (m : gmap string V) : list (string * V) :=
  merge_sort key_le (map_to_list m).

(** [BTreeMap::keys]. *)
Definition btree_keys {V} (m : gmap string V) : list string := (btree_iter m).*1.

(** [BTreeSet] iteration. *)
Definition btree_elements (s : gset string) : list string :=
  merge_sort String.le (elements s).

(** A [for (name, v) in map.iter_mut()] loop whose body may replace the value
    and push onto an output vector; [None] is a panic of the body. *)
Definition btree_iter_mut {V B} (f : string -> V -> option (V * list B))
    (m : gmap string V) : option (gmap string V * list B) :=
  fold_left (fun acc '(k, v) =>
      match acc, f k v with
      | Some (m', out), Some (v', o) => Some (<[k := v']> m', out ++ o)
      | _, _ => None
      end) (btree_iter m) (Some (m, [])).

Section BTree.
Context {V : Type}.
Implicit Types m : gmap string V.

Lemma btree_iter_Permutation m : btree_iter m ≡ₚ map_to_list m.
Proof. apply merge_sort_Permutation. Qed.

Lemma elem_of_btree_iter m k v : (k, v) ∈ btree_iter m <-> m !! k = Some v.
Proof. by rewrite btree_iter_Permutation, elem_of_map_to_list. Qed.

Lemma NoDup_btree_keys m : NoDup (btree_keys m).
Proof.
  unfold btree_keys. rewrite btree_iter_Permutation. apply NoDup_fst_map_to_list.
Qed.

Lemma btree_iter_sorted m : StronglySorted key_le (btree_iter m).
Proof. apply StronglySorted_merge_sort; apply _. Qed.

Lemma elem_of_btree_keys m k : k ∈ btree_keys m <-> is_Some (m !! k).
Proof.
  unfold btree_keys. rewrite list_elem_of_fmap. split.
  - intros ([k' v] & -> & H). apply elem_of_btree_iter in H. eauto.
  - intros [v H]. exists (k, v). by rewrite elem_of_btree_iter.
Qed.

Lemma btree_keys_sorted m : StronglySorted String.le (btree_keys m).
Proof.
  unfold btree_keys. pose proof (btree_iter_sorted m) as Hs.
  induction Hs as [|p l Hs IH Hf]; simpl; constructor; [done|].
  rewrite Forall_fmap. eapply Forall_impl; [exact Hf|]. done.
Qed.
End BTree.

Section BTreeIterMut.
Context {V B : Type} (f : string -> V -> option (V * list B)).

Local Definition go (l : list (string * V)) (acc : option (gmap string V * list B)) :=
  fold_left (fun acc '(k, v) =>
    match acc, f k v with
    | Some (m', out), Some (v', o) => Some (<[k := v']> m', out ++ o)
    | _, _ => None
    end) l acc.

Lemma btree_iter_mut_go m : btree_iter_mut f m = go (btree_iter m) (Some (m, [])).
Proof. done. Qed.

Lemma go_spec (g : string -> V -> V * list B) l m out :
  NoDup l.*1 ->
  (forall k v, (k, v) ∈ l -> f k v = Some (g k v)) ->
  (forall k v, (k, v) ∈ l -> m !! k = Some v) ->
  exists m', go l (Some (m, out)) = Some (m', out ++ concat ((fun '(k, v) => (g k v).2) <$> l))
    /\ forall k, m' !! k =
         if decide (k ∈ l.*1) then (fun v => (g k v).1) <$> m !! k else m !! k.
Proof.
  revert m out. induction l as [|[k v] l IH]; intros m out Hnd Hf Hm.
  - exists m. simpl. rewrite app_nil_r. split; [done|]. intros k. done.
  - simpl in Hnd. apply NoDup_cons in Hnd as [Hk Hnd].
    cbn [go fold_left]. rewrite (Hf k v) by left.
    destruct (g k v) as [v' o] eqn:Hg.
    destruct (IH (<[k:=v']> m) (out ++ o)) as (m' & Hgo & Hl).
    + done.
    + intros. apply Hf. by right.
    + intros k0 v0 Hin. rewrite lookup_insert_ne; [apply Hm; by right|].
      intros ->. apply Hk. apply list_elem_of_fmap. by exists (k0, v0).
    + exists m'. split.
      { unfold go in Hgo. rewrite Hgo. cbn. rewrite Hg. cbn. by rewrite (assoc_L (++)). }
      intros k0. rewrite Hl. destruct (decide (k0 = k)) as [->|Hne].
      * rewrite decide_False by done. rewrite decide_True by (cbn; left).
        rewrite lookup_insert_eq. rewrite (Hm k v) by left. cbn. by rewrite Hg.
      * rewrite lookup_insert_ne by done. cbn.
        destruct (decide (k0 ∈ l.*1)) as [Hi|Hi].
        -- rewrite decide_True by (by right). done.
        -- rewrite decide_False by (intros [?|?]%elem_of_cons; done). done.
Qed.

(** A loop whose body never panics updates every value pointwise and
    concatenates the outputs in key order. *)
Lemma btree_iter_mut_spec (g : string -> V -> V * list B) m :
  (forall k v, m !! k = Some v -> f k v = Some (g k v)) ->
  exists m', btree_iter_mut f m =
      Some (m', concat ((fun '(k, v) => (g k v).2) <$> btree_iter m))
    /\ forall k, m' !! k = (fun v => (g k v).1) <$> m !! k.
Proof.
  intros Hf.
  destruct (go_spec g (btree_iter m) m []) as (m' & Hgo & Hl).
  - apply NoDup_btree_keys.
  - intros k v Hin. apply Hf. by apply elem_of_btree_iter.
  - intros k v Hin. by apply elem_of_btree_iter.
  - exists m'. split; [done|]. intros k. rewrite Hl.
    destruct (m !! k) as [v|] eqn:Hk; [|by case_decide].
    rewrite decide_True; [done|]. apply elem_of_btree_keys. eauto.
Qed.
End BTreeIterMut.
