(* ===== verification/Text.v ===== *)
(** * Text: the string operations of the Rust standard library the code uses

    A [&str] is a [string], one [ascii] per UTF-8 byte.  Everything here
    follows the documented behaviour of [core::str] and of integer parsing
    and formatting on such byte strings. *)

From S2P Require Import Prelude.

(** ** Bytes of a string *)

Definition byte_of_ascii (c : ascii) : Z := Z.of_N (N_of_ascii c).
Definition ascii_of_byte (b : Z) : ascii := ascii_of_N (Z.to_N b).

Fixpoint as_bytes (s : string) : list Z :=
  match s with
  | "" => []
  | String c s' => byte_of_ascii c :: as_bytes s'
  end.

Fixpoint str_of_bytes (bs : list Z) : string :=
  match bs with
  | [] => ""
  | b :: bs' => String (ascii_of_byte b) (str_of_bytes bs')
  end.

(** [str::len], in bytes. *)
Definition str_len (s : string) : Z := Z.of_nat (String.length s).

(** [s.bytes().all(p)]. *)
Fixpoint str_forall (p : ascii -> bool) (s : string) : bool :=
  match s with
  | "" => true
  | String c s' => p c && str_forall p s'
  end.

Definition is_ascii_digit (c : ascii) : bool :=
  (48 <=? byte_of_ascii c) && (byte_of_ascii c <=? 57).

(** [str::is_empty]. *)
Definition str_is_empty (s : string) : bool :=
  match s with "" => true | _ => false end.

(** ** Prefixes, suffixes, splitting *)

(** [str::strip_prefix] with a string pattern. *)
Fixpoint strip_prefix (p s : string) : option string :=
  match p, s with
  | "", _ => Some s
  | String a p', String b s' => if bool_decide (a = b) then strip_prefix p' s' else None
  | _, _ => None
  end.

(** [str::strip_suffix] with a [char] pattern. *)
Fixpoint strip_suffix_char (c : ascii) (s : string) : option string :=
  match s with
  | "" => None
  | String a s' =>
      match s' with
      | "" => if bool_decide (a = c) then Some "" else None
      | _ => String a <$> strip_suffix_char c s'
      end
  end.

(** [str::split_once] with a [char] pattern. *)
Fixpoint split_once (c : ascii) (s : string) : option (string * string) :=
  match s with
  | "" => None
  | String a s' =>
      if bool_decide (a = c) then Some ("", s')
      else '(l, r) ← split_once c s'; Some (String a l, r)
  end.

(** [str::split] with a [char] pattern: always at least one piece. *)
Fixpoint split_go (c : ascii) (s : string) : string * list string :=
  match s with
  | "" => ("", [])
  | String a s' =>
      let '(w, ws) := split_go c s' in
      if bool_decide (a = c) then ("", w :: ws) else (String a w, ws)
  end.
Definition split (c : ascii) (s : string) : list string :=
  let '(w, ws) := split_go c s in w :: ws.

(** [str::trim_end_matches] with a set of characters. *)
Fixpoint trim_end_matches (p : ascii -> bool) (s : string) : string :=
  match s with
  | "" => ""
  | String a s' =>
      match trim_end_matches p s' with
      | "" => if p a then "" else String a ""
      | t => String a t
      end
  end.

(** [str::contains] with a [char] pattern. *)
Definition contains_char (c : ascii) (s : string) : bool :=
  negb (str_forall (fun a => negb (bool_decide (a = c))) s).

(** [str::contains] with a string pattern. *)
Fixpoint contains (p s : string) : bool :=
  match strip_prefix p s with
  | Some _ => true
  | None => match s with "" => false | String _ s' => contains p s' end
  end.

(** [str::starts_with]. *)
Definition starts_with (p s : string) : bool :=
  match strip_prefix p s with Some _ => true | None => false end.

(** [char::is_whitespace], as the UTF-8 encodings of the white-space code
    points: U+0009..000D, U+0020, U+0085, U+00A0, U+1680, U+2000..200A,
    U+2028, U+2029, U+202F, U+205F, U+3000. *)
Definition WHITE_SPACE : list (list Z) :=
  [[9]; [10]; [11]; [12]; [13]; [32]; [194; 133]; [194; 160]; [225; 154; 128];
   [226; 128; 128]; [226; 128; 129]; [226; 128; 130]; [226; 128; 131]; [226; 128; 132];
   [226; 128; 133]; [226; 128; 134]; [226; 128; 135]; [226; 128; 136]; [226; 128; 137];
   [226; 128; 138]; [226; 128; 168]; [226; 128; 169]; [226; 128; 175]; [226; 129; 159];
   [227; 128; 128]].

Fixpoint strip_any (ps : list string) (s : string) : option string :=
  match ps with
  | [] => None
  | p :: ps => match strip_prefix p s with Some r => Some r | None => strip_any ps s end
  end.
Fixpoint trim_go (fuel : nat) (ps : list string) (s : string) : string :=
  match fuel with
  | O => s
  | S fuel => match strip_any ps s with Some r => trim_go fuel ps r | None => s end
  end.

(** [str::trim]: every removed character has at least one byte, so the length
    bounds the iterations. *)
Definition trim_start (s : string) : string :=
  trim_go (String.length s) (str_of_bytes <$> WHITE_SPACE) s.
Definition trim_end (s : string) : string :=
  String.rev (trim_go (String.length s) ((fun w => str_of_bytes (rev w)) <$> WHITE_SPACE)
                (String.rev s)).
Definition trim (s : string) : string := trim_end (trim_start s).

(** ** Decimal integers *)

Definition digit_value (c : ascii) : option Z :=
  if is_ascii_digit c then Some (byte_of_ascii c - 48) else None.

(** The accumulation loop of [u64::from_str]: checked multiply, checked add. *)
Fixpoint u64_digits (s : string) (acc : Z) : option Z :=
  match s with
  | "" => Some acc
  | String c s' =>
      d ← digit_value c;
      m ← checked_mul64 acc 10;
      a ← checked_add64 m d;
      u64_digits s' a
  end.

(** [str::parse::<u64>()]: an optional [+], then at least one digit. *)
Definition u64_from_str (s : string) : option Z :=
  match s with
  | "" => None
  | String c s' =>
      if bool_decide (c = "+"%char)
      then if str_is_empty s' then None else u64_digits s' 0
      else u64_digits s 0
  end.

Definition digit_char (d : Z) : ascii := ascii_of_byte (48 + d).

(** Decimal digits, least significant first pushed in front of [acc]. *)
Fixpoint dec_digits (fuel : nat) (n : Z) (acc : string) : string :=
  match fuel with
  | O => acc
  | S fuel =>
      let acc' := String (digit_char (n mod 10)) acc in
      if n / 10 =? 0 then acc' else dec_digits fuel (n / 10) acc'
  end.

(** [Display] of a [u64]: twenty digits are enough for the type. *)
Definition dec_u64 (n : Z) : string := dec_digits 20 n "".

(** ** Lemmas *)

Lemma str_forall_app p s t : str_forall p (s +:+ t) = str_forall p s && str_forall p t.
Proof. induction s as [|c s IH]; cbn; [done|]. by rewrite IH, andb_assoc. Qed.

Lemma str_forall_impl (p q : ascii -> bool) s :
  (forall c, p c = true -> q c = true) -> str_forall p s = true -> str_forall q s = true.
Proof. intros Hpq. induction s; cbn; [done|]. rewrite !andb_true_iff. intros [??]; auto. Qed.

Lemma str_app_nil_r s : s +:+ "" = s.
Proof. induction s; cbn; [done|]. by f_equal. Qed.

Lemma str_app_assoc s t u : (s +:+ t) +:+ u = s +:+ (t +:+ u).
Proof. induction s; cbn; [done|]. by f_equal. Qed.

Lemma str_length_app s t : String.length (s +:+ t) = (String.length s + String.length t)%nat.
Proof. induction s; cbn; [done|]. by f_equal. Qed.

Lemma str_len_app s t : str_len (s +:+ t) = str_len s + str_len t.
Proof. unfold str_len. rewrite str_length_app. lia. Qed.

Lemma str_len_nonneg s : 0 <= str_len s.
Proof. unfold str_len. lia. Qed.

Lemma strip_prefix_app p s : strip_prefix p (p +:+ s) = Some s.
Proof. induction p; cbn; [done|]. by rewrite bool_decide_eq_true_2. Qed.

Lemma strip_prefix_Some p s r : strip_prefix p s = Some r -> s = p +:+ r.
Proof.
  revert s. induction p as [|a p IH]; intros [|b s]; cbn; try naive_solver.
  case_bool_decide; [subst|done]. intros ->%IH. done.
Qed.

Lemma strip_suffix_char_snoc c s : strip_suffix_char c (s +:+ String c "") = Some s.
Proof.
  induction s as [|a s IH]; cbn; [by rewrite bool_decide_eq_true_2|].
  rewrite IH. by destruct (s +:+ _) eqn:E; [destruct s|].
Qed.

Lemma strip_suffix_char_ne a c s : a <> c -> strip_suffix_char c (s +:+ String a "") = None.
Proof.
  intros Hne. induction s as [|b s IH]; cbn; [by rewrite bool_decide_eq_false_2|].
  rewrite IH. by destruct (s +:+ _) eqn:E; [destruct s|].
Qed.

Lemma split_once_app c l r :
  str_forall (fun a => negb (bool_decide (a = c))) l = true ->
  split_once c (l +:+ String c r) = Some (l, r).
Proof.
  induction l as [|a l IH]; cbn; [by rewrite bool_decide_eq_true_2|].
  rewrite andb_true_iff, negb_true_iff. intros [Ha Hl]. rewrite Ha, IH by done. done.
Qed.

Lemma byte_of_ascii_range c : 0 <= byte_of_ascii c < 256.
Proof. unfold byte_of_ascii. pose proof (N_ascii_bounded c). lia. Qed.

Lemma byte_of_ascii_of_byte b : 0 <= b < 256 -> byte_of_ascii (ascii_of_byte b) = b.
Proof.
  intros Hb. unfold byte_of_ascii, ascii_of_byte. rewrite N_ascii_embedding by lia. lia.
Qed.

Lemma ascii_of_byte_of_ascii c : ascii_of_byte (byte_of_ascii c) = c.
Proof. unfold byte_of_ascii, ascii_of_byte. rewrite N2Z.id. apply ascii_N_embedding. Qed.

Lemma byte_of_ascii_inj a b : byte_of_ascii a = byte_of_ascii b -> a = b.
Proof. intros H. by rewrite <-(ascii_of_byte_of_ascii a), H, ascii_of_byte_of_ascii. Qed.

Lemma str_of_as_bytes s : str_of_bytes (as_bytes s) = s.
Proof. induction s; cbn; [done|]. by rewrite ascii_of_byte_of_ascii, IHs. Qed.

Lemma as_str_of_bytes bs : Forall is_u8 bs -> as_bytes (str_of_bytes bs) = bs.
Proof.
  induction 1 as [|b bs Hb _ IH]; cbn; [done|].
  rewrite byte_of_ascii_of_byte, IH; [done|]. unfold is_u8, u8_max in Hb. lia.
Qed.

Lemma as_bytes_app s t : as_bytes (s +:+ t) = as_bytes s ++ as_bytes t.
Proof. induction s; cbn; [done|]. by rewrite IHs. Qed.

Lemma length_as_bytes s : length (as_bytes s) = String.length s.
Proof. induction s; cbn; [done|]. by rewrite IHs. Qed.

Lemma as_bytes_inj s t : as_bytes s = as_bytes t -> s = t.
Proof. intros H. by rewrite <-(str_of_as_bytes s), H, str_of_as_bytes. Qed.

Lemma as_bytes_u8 s : Forall is_u8 (as_bytes s).
Proof.
  induction s as [|c s IH]; cbn; constructor; [|done].
  pose proof (byte_of_ascii_range c). unfold is_u8, u8_max. lia.
Qed.

Lemma digit_char_value d : 0 <= d <= 9 -> digit_value (digit_char d) = Some d.
Proof.
  intros Hd. unfold digit_value, is_ascii_digit, digit_char.
  rewrite byte_of_ascii_of_byte by lia.
  rewrite (proj2 (Z.leb_le 48 (48 + d))), (proj2 (Z.leb_le (48 + d) 57)) by lia.
  cbn. f_equal. lia.
Qed.

Lemma digit_char_is_digit d : 0 <= d <= 9 -> is_ascii_digit (digit_char d) = true.
Proof.
  intros Hd%digit_char_value. unfold digit_value in Hd. by destruct (is_ascii_digit _).
Qed.

Lemma u64_digits_app s t a : u64_digits (s +:+ t) a = (u64_digits s a ≫= u64_digits t).
Proof.
  revert a. induction s as [|c s IH]; intros a; cbn; [done|].
  destruct (digit_value c); cbn; [|done]. destruct (checked_mul64 a 10); cbn; [|done].
  destruct (checked_add64 _ _); cbn; [|done]. apply IH.
Qed.

Lemma dec_digits_acc fuel n acc : dec_digits fuel n acc = dec_digits fuel n "" +:+ acc.
Proof.
  revert n acc. induction fuel as [|fuel IH]; intros n acc; cbn; [done|].
  destruct (n / 10 =? 0); [done|].
  rewrite IH, (IH (n / 10) (String _ "")), str_app_assoc. done.
Qed.

Lemma dec_digits_all_digits fuel n :
  0 <= n -> str_forall is_ascii_digit (dec_digits fuel n "") = true.
Proof.
  revert n. induction fuel as [|fuel IH]; intros n Hn; [done|].
  assert (0 <= n mod 10 < 10) by (apply Z.mod_pos_bound; lia).
  assert (0 <= n / 10) by (apply Z.div_pos; lia).
  cbn [dec_digits]. destruct (n / 10 =? 0).
  - cbn. by rewrite digit_char_is_digit by lia.
  - rewrite dec_digits_acc, str_forall_app, IH by done. cbn.
    by rewrite digit_char_is_digit by lia.
Qed.

Lemma u64_digits_dec fuel n :
  (0 < fuel)%nat -> 0 <= n <= u64_max -> n < 10 ^ Z.of_nat fuel ->
  u64_digits (dec_digits fuel n "") 0 = Some n.
Proof.
  revert n. induction fuel as [|fuel IH]; intros n Hf Hn Hlt; [lia|].
  assert (0 <= n mod 10 < 10) by (apply Z.mod_pos_bound; lia).
  assert (Hdm : n = 10 * (n / 10) + n mod 10) by (apply Z.div_mod; lia).
  assert (0 <= n / 10) by (apply Z.div_pos; lia).
  cbn [dec_digits]. destruct (n / 10 =? 0) eqn:Hz; bool_prop.
  - cbn [u64_digits]. rewrite digit_char_value by lia. cbn [mbind option_bind].
    rewrite checked_mul64_ok by (unfold u64_max; lia). cbn [mbind option_bind].
    rewrite checked_add64_ok by lia. cbn. f_equal. lia.
  - assert (fuel <> 0%nat).
    { intros ->. change (Z.of_nat 1) with 1 in Hlt. rewrite Z.pow_1_r in Hlt.
      rewrite Z.div_small in Hz; lia. }
    rewrite dec_digits_acc, u64_digits_app, IH.
    + cbn [mbind option_bind u64_digits]. rewrite digit_char_value by lia.
      cbn [mbind option_bind]. rewrite checked_mul64_ok by lia. cbn [mbind option_bind].
      rewrite checked_add64_ok by lia. cbn. f_equal. lia.
    + lia.
    + lia.
    + rewrite Nat2Z.inj_succ, Z.pow_succ_r in Hlt by lia. lia.
Qed.

Lemma dec_digits_cons fuel n c acc : dec_digits fuel n (String c acc) <> "".
Proof.
  revert n c acc. induction fuel as [|fuel IH]; intros n c acc; cbn; [done|].
  destruct (n / 10 =? 0); [done|apply IH].
Qed.

Lemma dec_u64_shape n : 0 <= n <= u64_max ->
  exists c s, dec_u64 n = String c s /\ is_ascii_digit c = true.
Proof.
  intros Hn. pose proof (dec_digits_all_digits 20 n ltac:(lia)) as Hd.
  unfold dec_u64. destruct (dec_digits 20 n "") as [|c s] eqn:E.
  - change (dec_digits 20 n "") with
      (if n / 10 =? 0 then String (digit_char (n mod 10)) ""
       else dec_digits 19 (n / 10) (String (digit_char (n mod 10)) "")) in E.
    destruct (n / 10 =? 0); [done|]. by apply dec_digits_cons in E.
  - cbn in Hd. apply andb_true_iff in Hd as [Hc _]. eauto.
Qed.

(** Printing then parsing a [u64] is the identity. *)
Lemma u64_from_str_dec n : 0 <= n <= u64_max -> u64_from_str (dec_u64 n) = Some n.
Proof.
  intros Hn. destruct (dec_u64_shape n Hn) as (c & s & E & Hc).
  assert (Hp : u64_digits (dec_u64 n) 0 = Some n).
  { apply u64_digits_dec; [lia|done|]. unfold u64_max in Hn.
    change (10 ^ Z.of_nat 20) with 100000000000000000000. lia. }
  rewrite E in *. unfold u64_from_str.
  rewrite bool_decide_eq_false_2; [done|]. by intros ->.
Qed.

Lemma dec_u64_digits n : 0 <= n -> str_forall is_ascii_digit (dec_u64 n) = true.
Proof. apply dec_digits_all_digits. Qed.

Lemma dec_u64_nonempty n : 0 <= n <= u64_max -> str_is_empty (dec_u64 n) = false.
Proof. intros (c & s & -> & _)%dec_u64_shape. done. Qed.

#[export] Hint Rewrite strip_prefix_app str_len_app str_forall_app : lychgate.
