(* ===== verification/Clock.v ===== *)
(** * Clock: [std::time::SystemTime] and [std::time::Duration]

    A [Duration] is a number of nanoseconds; a [SystemTime] is a signed
    number of nanoseconds since the Unix epoch.  On the supported platforms
    (Unix) the seconds of a [SystemTime] are an [i64], which is where
    [checked_add] refuses. *)

From S2P Require Import Prelude.

Abbreviation Duration := Z (only parsing).
Abbreviation SystemTime := Z (only parsing).

Definition NANOS_PER_SEC : Z := 1000000000.
Definition UNIX_EPOCH : SystemTime := 0.

(** The first instant past the range of the clock. *)
Definition CLOCK_END : SystemTime := 2 ^ 63 * NANOS_PER_SEC.

Definition from_secs (s : Z) : Duration := s * NANOS_PER_SEC.
Definition as_secs (d : Duration) : Z := d / NANOS_PER_SEC.

(** [Duration::is_zero]. *)
Definition is_zero (d : Duration) : bool := d =? 0.

(** [SystemTime::duration_since]: [None] is the [SystemTimeError] of an
    instant later than [self]. *)
Definition duration_since (self earlier : SystemTime) : option Duration :=
  if earlier <=? self then Some (self - earlier) else None.

(** [SystemTime::checked_add]. *)
Definition checked_add (t : SystemTime) (d : Duration) : option SystemTime :=
  if t + d <? CLOCK_END then Some (t + d) else None.

(** The seconds of an instant since the epoch, as the code computes them
    everywhere ([.map(|d| d.as_secs()).unwrap_or(0)]). *)
Definition epoch_secs (t : SystemTime) : Z :=
  match duration_since t UNIX_EPOCH with Some d => as_secs d | None => 0 end.

Lemma checked_add_Some t d r : checked_add t d = Some r <-> r = t + d /\ t + d < CLOCK_END.
Proof. unfold checked_add. case_goal; bool_prop; naive_solver lia. Qed.

Lemma duration_since_Some t u d :
  duration_since t u = Some d <-> d = t - u /\ u <= t.
Proof. unfold duration_since. case_goal; bool_prop; naive_solver lia. Qed.

Lemma duration_since_ge t u : u <= t -> duration_since t u = Some (t - u).
Proof. intros. by apply duration_since_Some. Qed.

Lemma as_secs_from_secs s : as_secs (from_secs s) = s.
Proof. unfold as_secs, from_secs, NANOS_PER_SEC. apply Z.div_mul. lia. Qed.

Lemma as_secs_mono d e : d <= e -> as_secs d <= as_secs e.
Proof. intros. apply Z.div_le_mono; [done|]. done. Qed.

Lemma as_secs_nonneg d : 0 <= d -> 0 <= as_secs d.
Proof. intros. apply Z.div_pos; done. Qed.

Lemma epoch_secs_nonneg t : 0 <= epoch_secs t.
Proof.
  unfold epoch_secs, duration_since, UNIX_EPOCH. destruct (0 <=? t) eqn:E; bool_prop; [|done].
  apply as_secs_nonneg. lia.
Qed.

Lemma epoch_secs_mono t u : t <= u -> epoch_secs t <= epoch_secs u.
Proof.
  intros Htu. pose proof (epoch_secs_nonneg u). unfold epoch_secs, duration_since, UNIX_EPOCH in *.
  destruct (0 <=? t) eqn:E; bool_prop; [|done].
  rewrite (proj2 (Z.leb_le 0 u)) by lia. apply as_secs_mono. lia.
Qed.

Lemma from_secs_as_secs_le d : from_secs (as_secs d) <= d.
Proof.
  unfold from_secs, as_secs. rewrite Z.mul_comm. apply Z.mul_div_le. done.
Qed.

Lemma as_secs_lt_iff d s : as_secs d < s <-> d < from_secs s.
Proof.
  unfold as_secs, from_secs. split; intros H.
  - pose proof (Z.mul_succ_div_gt d NANOS_PER_SEC ltac:(done)).
    unfold NANOS_PER_SEC in *. nia.
  - apply Z.div_lt_upper_bound; [done|]. unfold NANOS_PER_SEC in *. lia.
Qed.

Lemma as_secs_le_iff d s : s <= as_secs d <-> from_secs s <= d.
Proof. pose proof (as_secs_lt_iff d s). lia. Qed.

(** Whole seconds pass through the flooring of the stored representation. *)
Lemma as_secs_add_secs t s : as_secs (t + from_secs s) = as_secs t + s.
Proof. unfold as_secs, from_secs. by rewrite Z.div_add. Qed.

#[export] Hint Resolve as_secs_nonneg as_secs_mono : lychgate.
