(* ===== verification/Ttl.v ===== *)
(** * Ttl: TTL parsing and policy (core/src/ttl.rs) *)

From S2P Require Import Prelude Text Clock.

(** [MAX_TTL_SECS], 24 hours. *)
Definition MAX_TTL_SECS : Z := 24 * 60 * 60.

(** [RENEWAL_WINDOW_SECS], 2 hours. *)
Definition RENEWAL_WINDOW_SECS : Z := 2 * 60 * 60.

(** The newtype over [Duration]; its constructor is private to the module in
    the source, so every value comes from [from_secs]. *)
Record Ttl := MkTtl { duration : Duration }.

Inductive TtlError :=
| Zero
| ExceedsCap (secs : Z)
| Unparseable (s : string)
| Overflow.

#[export] Instance Ttl_eq_dec : EqDecision Ttl.
Proof. solve_decision. Defined.
#[export] Instance TtlError_eq_dec : EqDecision TtlError.
Proof. solve_decision. Defined.

Definition from_secs (secs : Z) : result TtlError Ttl :=
  if secs =? 0 then Err Zero
  else if MAX_TTL_SECS <? secs then Err (ExceedsCap secs)
  else Ok (MkTtl (Clock.from_secs secs)).

(** The unit of a TTL string: the digits before it and the seconds it counts. *)
Definition split_unit (s : string) : option (string * Z) :=
  match strip_suffix_char "s"%char s with
  | Some d => Some (d, 1)
  | None =>
      match strip_suffix_char "m"%char s with
      | Some d => Some (d, 60)
      | None =>
          match strip_suffix_char "h"%char s with
          | Some d => Some (d, 60 * 60)
          | None => None
          end
      end
  end.

Definition parse (s : string) : result TtlError Ttl :=
  match split_unit s with
  | None => Err (Unparseable s)
  | Some (digits, per_unit) =>
      if str_is_empty digits || negb (str_forall is_ascii_digit digits)
      then Err (Unparseable s)
      else
        let? count := ok_or (u64_from_str digits) Overflow in
        let? secs := ok_or (checked_mul64 count per_unit) Overflow in
        from_secs secs
  end.

(** [Display]. *)
Definition to_string (t : Ttl) : string := dec_u64 (as_secs (duration t)) +:+ "s".

(** The stated invariant of the type: [0 < secs <= MAX_TTL_SECS], whole
    seconds. *)
Definition wf (t : Ttl) : Prop :=
  exists secs, duration t = Clock.from_secs secs /\ 0 < secs <= MAX_TTL_SECS.

(** ** Lemmas *)

Lemma from_secs_Ok secs t :
  from_secs secs = Ok t <->
  secs <> 0 /\ secs <= MAX_TTL_SECS /\ t = MkTtl (Clock.from_secs secs).
Proof. unfold from_secs. repeat case_goal; bool_prop; naive_solver lia. Qed.

Lemma from_secs_wf secs t : 0 <= secs -> from_secs secs = Ok t -> wf t.
Proof. intros ? (? & ? & ->)%from_secs_Ok. exists secs. split; [done|]. lia. Qed.

Lemma u64_digits_range s a n : u64_digits s a = Some n -> 0 <= a <= u64_max -> 0 <= n <= u64_max.
Proof.
  revert a. induction s as [|c s IH]; cbn; intros a Hn Ha; [naive_solver|].
  destruct (digit_value c) as [d|] eqn:Hd; cbn in Hn; [|done].
  assert (0 <= d).
  { unfold digit_value, is_ascii_digit in Hd. repeat case_hyp Hd; crush. }
  unfold checked_mul64, checked_add64 in Hn.
  case_hyp Hn; cbn in Hn; [|done]. case_hyp Hn; cbn in Hn; [|done].
  bool_prop. eapply IH; [done|]. lia.
Qed.

Lemma u64_from_str_range s n : u64_from_str s = Some n -> 0 <= n <= u64_max.
Proof.
  unfold u64_from_str. destruct s; [done|].
  repeat case_goal; intros; try done; eapply u64_digits_range; try done; unfold u64_max; lia.
Qed.

Lemma parse_wf s t : parse s = Ok t -> wf t.
Proof.
  unfold parse. destruct (split_unit s) as [[digits per]|] eqn:Hu; [|done].
  assert (0 < per).
  { unfold split_unit in Hu. repeat case_hyp Hu; naive_solver lia. }
  case_goal; [done|]. destruct (u64_from_str digits) as [count|] eqn:Hc; [|done]. cbn.
  apply u64_from_str_range in Hc. unfold checked_mul64.
  case_goal; cbn; [|done]. intros ?%from_secs_wf; [done|]. bool_prop. nia.
Qed.

Lemma wf_duration t : wf t -> NANOS_PER_SEC <= duration t <= Clock.from_secs MAX_TTL_SECS.
Proof. intros (secs & -> & Hs). unfold Clock.from_secs, NANOS_PER_SEC, MAX_TTL_SECS in *. lia. Qed.

Lemma wf_as_secs t : wf t -> 0 < as_secs (duration t) <= MAX_TTL_SECS.
Proof. intros (secs & -> & Hs). rewrite as_secs_from_secs. done. Qed.

Lemma wf_from_as_secs t : wf t -> Clock.from_secs (as_secs (duration t)) = duration t.
Proof. intros (secs & -> & Hs). by rewrite as_secs_from_secs. Qed.

Lemma from_secs_roundtrip t : wf t -> from_secs (as_secs (duration t)) = Ok t.
Proof.
  intros Hw. pose proof (wf_as_secs t Hw). apply from_secs_Ok. repeat split; [lia..|].
  rewrite wf_from_as_secs by done. by destruct t.
Qed.

(** Parsing what [Display] prints gives the same TTL back. *)
Lemma parse_to_string t : wf t -> parse (to_string t) = Ok t.
Proof.
  intros Hw. pose proof (wf_as_secs t Hw) as Hs.
  unfold parse, split_unit, to_string. rewrite strip_suffix_char_snoc.
  assert (Hu : 0 <= as_secs (duration t) <= u64_max) by (unfold u64_max, MAX_TTL_SECS in *; lia).
  rewrite dec_u64_nonempty, dec_u64_digits by lia. cbn [negb orb].
  rewrite u64_from_str_dec by done. cbn [ok_or].
  rewrite checked_mul64_ok, Z.mul_1_r by (unfold u64_max, MAX_TTL_SECS in *; lia). cbn [ok_or].
  by apply from_secs_roundtrip.
Qed.

#[export] Hint Resolve from_secs_wf parse_wf : lychgate.

(** ** Properties *)

(** Every TTL the parser accepts is positive, in whole seconds and at
    most 24 hours, and printing it gives text the parser maps back to it. *)
Theorem parse_accepts_only_capped s t :
  parse s = Ok t ->
  (exists secs, duration t = Clock.from_secs secs /\ 0 < secs <= MAX_TTL_SECS)
  /\ parse (to_string t) = Ok t.
Proof. intros H%parse_wf. split; [done|by apply parse_to_string]. Qed.

Lemma parse_accepts_only_capped_witness :
  parse "2h" = Ok (MkTtl (Clock.from_secs 7200)) /\ parse "7200s" = Ok (MkTtl (Clock.from_secs 7200)).
Proof.
  split; [vm_compute; reflexivity|].
  exact (proj2 (parse_accepts_only_capped "2h" (MkTtl (Clock.from_secs 7200)) eq_refl)).
Defined.
