(* ===== verification/External.v ===== *)
(** * External: interfaces of the third-party crates the code calls

    [data_encoding], the signature and hash crates and [ssh_key] are not
    part of the repository: they are parameters, one type class of operations
    per crate, and a second class with the documented laws the code relies
    on.  The theorems that need a law take it as a hypothesis of that class. *)

From S2P Require Import Prelude Text.

(** ** [data_encoding] *)

Class DataEncoding := {
  (** [BASE64URL_NOPAD.encode] / [.decode] / [.encode_len] / [.decode_len]. *)
  base64url_encode : list Z -> string;
  base64url_decode : string -> option (list Z);
  base64url_encode_len : Z -> Z;
  base64url_decode_len : Z -> option Z;
  (** [HEXLOWER.encode] / [.decode]. *)
  hexlower_encode : list Z -> string;
  hexlower_decode : string -> option (list Z);
}.

(** The characters of base64url without padding. *)
Definition is_base64url_char (c : ascii) : bool :=
  let b := byte_of_ascii c in
  ((65 <=? b) && (b <=? 90)) || ((97 <=? b) && (b <=? 122))
  || ((48 <=? b) && (b <=? 57)) || (b =? 45) || (b =? 95).

Class DataEncodingLaws `{DataEncoding} : Prop := {
  base64url_decode_encode bs :
    Forall is_u8 bs -> base64url_decode (base64url_encode bs) = Some bs;
  base64url_encode_alphabet bs :
    Forall is_u8 bs -> str_forall is_base64url_char (base64url_encode bs) = true;
  base64url_encode_length bs :
    str_len (base64url_encode bs) = base64url_encode_len (Z.of_nat (length bs));
  base64url_encode_len_eq n :
    0 <= n -> base64url_encode_len n = (8 * n + 5) / 6;
  base64url_decode_length s bs :
    base64url_decode s = Some bs ->
    base64url_decode_len (str_len s) = Some (Z.of_nat (length bs));
  base64url_decode_u8 s bs : base64url_decode s = Some bs -> Forall is_u8 bs;
  hexlower_decode_encode bs :
    Forall is_u8 bs -> hexlower_decode (hexlower_encode bs) = Some bs;
}.

(** ** The signature crates used by the wire format

    [ed25519_dalek], [p256] and [sha2].  Keys, scalars, digests and
    signatures are byte strings; the [_ok] operations are the fallible
    constructors ([from_bytes], [from_sec1_bytes], [from_slice]). *)

Class WireCrypto := {
  ed25519_key_ok : list Z -> bool;
  ed25519_verify : list Z -> list Z -> list Z -> bool;
  ed25519_sign : list Z -> list Z -> list Z;
  p256_key_ok : list Z -> bool;
  p256_sig_ok : list Z -> bool;
  p256_verify_prehash : list Z -> list Z -> list Z -> bool;
  p256_scalar_ok : list Z -> bool;
  p256_sign : list Z -> list Z -> list Z;
  sha256 : list Z -> list Z;
  (** The public halves ([verifying_key]). *)
  ed25519_public : list Z -> list Z;
  p256_public : list Z -> list Z;
}.

Class WireCryptoLaws `{WireCrypto} : Prop := {
  ed25519_public_ok seed : ed25519_key_ok (ed25519_public seed) = true;
  ed25519_sign_length seed m : length (ed25519_sign seed m) = 64%nat;
  ed25519_sign_u8 seed m : Forall is_u8 (ed25519_sign seed m);
  ed25519_verify_sign seed m :
    ed25519_verify (ed25519_public seed) m (ed25519_sign seed m) = true;
  p256_public_ok d : p256_scalar_ok d = true -> p256_key_ok (p256_public d) = true;
  p256_sign_length d m : length (p256_sign d m) = 64%nat;
  p256_sign_u8 d m : Forall is_u8 (p256_sign d m);
  p256_sign_sig_ok d m : p256_scalar_ok d = true -> p256_sig_ok (p256_sign d m) = true;
  p256_verify_sign d m :
    p256_scalar_ok d = true ->
    p256_verify_prehash (p256_public d) (sha256 m) (p256_sign d m) = true;
}.

(** ** The keys of the approval factors: [ssh_key], [p256], [ed25519_dalek] *)

Class ApprovalKeys := {
  (** [ssh_key::PublicKey] and the parse of a trimmed OpenSSH line. *)
  SshPublicKey : Type;
  ssh_from_openssh : string -> result string SshPublicKey;
  (** [fido2]/[tpm] load-time key checks; an error carries its text. *)
  p256_from_sec1 : list Z -> result string unit;
  ed25519_from_bytes : list Z -> result string unit;
}.
