(* ===== verification/Reference.v ===== *)
(** * Reference: instances that inhabit the external interfaces

    An executable base64url and hexadecimal codec (RFC 4648), and simple
    keyed functions for the signature classes.  They show that the laws
    assumed of the third-party crates can hold together, and they run the
    witnesses; no theorem about the code depends on them. *)

From S2P Require Import Prelude Text External.

(** Let [lia] see division and remainder by constants. *)
#[local] Ltac Zify.zify_post_hook ::= Z.div_mod_to_equations.

Definition b64_byte (v : Z) : Z :=
  if v <? 26 then 65 + v else if v <? 52 then 97 + (v - 26)
  else if v <? 62 then 48 + (v - 52) else if v =? 62 then 45 else 95.
Definition b64_char (v : Z) : ascii := ascii_of_byte (b64_byte v).

Definition b64_val (c : ascii) : option Z :=
  let b := byte_of_ascii c in
  if (65 <=? b) && (b <=? 90) then Some (b - 65)
  else if (97 <=? b) && (b <=? 122) then Some (b - 97 + 26)
  else if (48 <=? b) && (b <=? 57) then Some (b - 48 + 52)
  else if b =? 45 then Some 62 else if b =? 95 then Some 63 else None.

Fixpoint b64_encode (bs : list Z) : string :=
  match bs with
  | a :: b :: c :: bs =>
      String (b64_char (a / 4)) (String (b64_char (a mod 4 * 16 + b / 16))
        (String (b64_char (b mod 16 * 4 + c / 64)) (String (b64_char (c mod 64)) (b64_encode bs))))
  | [a; b] =>
      String (b64_char (a / 4)) (String (b64_char (a mod 4 * 16 + b / 16))
        (String (b64_char (b mod 16 * 4)) ""))
  | [a] => String (b64_char (a / 4)) (String (b64_char (a mod 4 * 16)) "")
  | [] => ""
  end.

Fixpoint b64_decode (s : string) : option (list Z) :=
  match s with
  | "" => Some []
  | String c1 (String c2 s2) =>
      v1 ← b64_val c1; v2 ← b64_val c2;
      match s2 with
      | "" => if v2 mod 16 =? 0 then Some [v1 * 4 + v2 / 16] else None
      | String c3 s3 =>
          v3 ← b64_val c3;
          match s3 with
          | "" => if v3 mod 4 =? 0
                  then Some [v1 * 4 + v2 / 16; v2 mod 16 * 16 + v3 / 4] else None
          | String c4 s4 =>
              v4 ← b64_val c4; rest ← b64_decode s4;
              Some (v1 * 4 + v2 / 16 :: v2 mod 16 * 16 + v3 / 4 :: v3 mod 4 * 64 + v4 :: rest)
          end
      end
  | _ => None
  end.

Definition hex_digit (v : Z) : ascii := ascii_of_byte (if v <? 10 then 48 + v else 87 + v).
Definition hex_val (c : ascii) : option Z :=
  let b := byte_of_ascii c in
  if (48 <=? b) && (b <=? 57) then Some (b - 48)
  else if (97 <=? b) && (b <=? 102) then Some (b - 87) else None.
Fixpoint hex_encode (bs : list Z) : string :=
  match bs with
  | [] => ""
  | b :: bs => String (hex_digit (b / 16)) (String (hex_digit (b mod 16)) (hex_encode bs))
  end.
Fixpoint hex_decode (s : string) : option (list Z) :=
  match s with
  | "" => Some []
  | String a (String b s) =>
      x ← hex_val a; y ← hex_val b; rest ← hex_decode s; Some (x * 16 + y :: rest)
  | _ => None
  end.

#[export] Instance RefEncoding : DataEncoding := {|
  base64url_encode := b64_encode;
  base64url_decode := b64_decode;
  base64url_encode_len n := (8 * n + 5) / 6;
  base64url_decode_len n := if n mod 4 =? 1 then None else Some (6 * n / 8);
  hexlower_encode := hex_encode;
  hexlower_decode := hex_decode;
|}.

Lemma b64_byte_range v : 0 <= v < 64 -> 0 <= b64_byte v < 256.
Proof. intros. unfold b64_byte. repeat case_goal; bool_prop; lia. Qed.

Lemma b64_val_char v : 0 <= v < 64 -> b64_val (b64_char v) = Some v.
Proof.
  intros Hv. unfold b64_val, b64_char. rewrite byte_of_ascii_of_byte by by apply b64_byte_range.
  unfold b64_byte. repeat (case_goal; bool_prop); crush; try (f_equal; lia);
    repeat match goal with H : (_ && _) = false |- _ => apply andb_false_iff in H as [?|?] end;
    bool_prop; try lia.
Qed.

Lemma b64_char_alphabet v : 0 <= v < 64 -> is_base64url_char (b64_char v) = true.
Proof.
  intros Hv. unfold is_base64url_char, b64_char.
  rewrite byte_of_ascii_of_byte by by apply b64_byte_range.
  apply Is_true_true. unfold b64_byte.
  destruct (v <? 26) eqn:?; [|destruct (v <? 52) eqn:?;
    [|destruct (v <? 62) eqn:?; [|destruct (v =? 62) eqn:?]]]; bool_prop;
    rewrite ?orb_True, ?andb_True, ?Is_true_true, ?Z.leb_le, ?Z.eqb_eq; lia.
Qed.

(** Induction three bytes at a time. *)
Lemma list_ind3 {A} (P : list A -> Prop) :
  P [] -> (forall a, P [a]) -> (forall a b, P [a; b]) ->
  (forall a b c l, P l -> P (a :: b :: c :: l)) -> forall l, P l.
Proof.
  intros H0 H1 H2 H3. fix IH 1.
  intros [|a [|b [|c l]]]; [exact H0|apply H1|apply H2|apply H3, IH].
Qed.

Ltac u8_bounds :=
  repeat match goal with
  | H : Forall is_u8 (_ :: _) |- _ => apply Forall_cons in H as [? H]
  | H : Forall is_u8 [] |- _ => clear H
  | H : is_u8 _ |- _ => unfold is_u8, u8_max in H
  end.

Lemma b64_decode_encode bs : Forall is_u8 bs -> b64_decode (b64_encode bs) = Some bs.
Proof.
  induction bs as [|a|a b|a b c l IH] using list_ind3; intros H; [done|..]; u8_bounds;
    cbn -[b64_val b64_char Z.mul Z.div Z.modulo Z.add Z.eqb];
    rewrite !b64_val_char by lia; cbn -[Z.mul Z.div Z.modulo Z.add Z.eqb].
  - rewrite (proj2 (Z.eqb_eq _ _)) by lia. do 2 f_equal. lia.
  - rewrite (proj2 (Z.eqb_eq _ _)) by lia. do 2 f_equal; [lia|]. f_equal. lia.
  - rewrite IH by done. cbn -[Z.mul Z.div Z.modulo Z.add]. f_equal.
    f_equal; [lia|]. f_equal; [lia|]. f_equal; lia.
Qed.

Lemma b64_encode_alphabet bs :
  Forall is_u8 bs -> str_forall is_base64url_char (b64_encode bs) = true.
Proof.
  induction bs as [|a|a b|a b c l IH] using list_ind3; intros H; [done|..]; u8_bounds;
    cbn -[is_base64url_char b64_char Z.mul Z.div Z.modulo Z.add];
    rewrite ?b64_char_alphabet by lia; cbn; auto.
Qed.

Lemma b64_encode_length bs :
  str_len (b64_encode bs) = (8 * Z.of_nat (length bs) + 5) / 6.
Proof.
  unfold str_len. induction bs as [|a|a b|a b c l IH] using list_ind3; [done..|].
  cbn -[b64_char Z.mul Z.div Z.modulo Z.add Z.of_nat]. lia.
Qed.

Lemma b64_decode_length s bs :
  b64_decode s = Some bs ->
  (if str_len s mod 4 =? 1 then None else Some (6 * str_len s / 8)) = Some (Z.of_nat (length bs)).
Proof.
  unfold str_len. revert s bs. fix IH 1. intros [|c1 [|c2 [|c3 [|c4 s]]]] bs; cbn -[Z.of_nat Z.eqb Z.mul Z.div Z.modulo Z.add].
  - intros [= <-]. done.
  - done.
  - destruct (b64_val c1), (b64_val c2); cbn -[Z.of_nat Z.eqb Z.mul Z.div Z.modulo Z.add]; try done.
    case_goal; [|done]. intros [= <-]. done.
  - destruct (b64_val c1), (b64_val c2), (b64_val c3); cbn -[Z.of_nat Z.eqb Z.mul Z.div Z.modulo Z.add]; try done.
    case_goal; [|done]. intros [= <-]. done.
  - destruct (b64_val c1), (b64_val c2), (b64_val c3), (b64_val c4);
      cbn -[Z.of_nat Z.eqb Z.mul Z.div Z.modulo Z.add]; try done.
    destruct (b64_decode s) as [r|] eqn:E; [|done]. apply IH in E.
    cbn -[Z.of_nat Z.eqb Z.mul Z.div Z.modulo Z.add]. intros [= <-].
    cbn -[Z.of_nat Z.eqb Z.mul Z.div Z.modulo Z.add].
    destruct (Z.of_nat (String.length s) mod 4 =? 1) eqn:Em; [done|]. bool_prop. simplify_eq.
    rewrite (proj2 (Z.eqb_neq _ _)) by lia. f_equal. lia.
Qed.

Lemma b64_val_range c v : b64_val c = Some v -> 0 <= v < 64.
Proof.
  unfold b64_val. pose proof (byte_of_ascii_range c).
  repeat (case_goal; bool_prop); intros; simplify_eq; lia.
Qed.

Lemma b64_decode_u8 s bs : b64_decode s = Some bs -> Forall is_u8 bs.
Proof.
  assert (Hv : forall c, match b64_val c with Some v => 0 <= v < 64 | None => True end).
  { intros c. destruct (b64_val c) eqn:E; [by eapply b64_val_range|done]. }
  revert s bs. fix IH 1. intros [|c1 [|c2 [|c3 [|c4 s]]]] bs;
    cbn -[Z.mul Z.div Z.modulo Z.add Z.eqb]; try (intros; by simplify_eq).
  - pose proof (Hv c1). pose proof (Hv c2).
    destruct (b64_val c1), (b64_val c2); cbn -[Z.mul Z.div Z.modulo Z.add Z.eqb]; try done.
    case_goal; [|done]. intros [= <-]. repeat constructor; unfold u8_max; lia.
  - pose proof (Hv c1). pose proof (Hv c2). pose proof (Hv c3).
    destruct (b64_val c1), (b64_val c2), (b64_val c3);
      cbn -[Z.mul Z.div Z.modulo Z.add Z.eqb]; try done.
    case_goal; [|done]. intros [= <-]. repeat constructor; unfold u8_max; lia.
  - pose proof (Hv c1). pose proof (Hv c2). pose proof (Hv c3). pose proof (Hv c4).
    destruct (b64_val c1), (b64_val c2), (b64_val c3), (b64_val c4);
      cbn -[Z.mul Z.div Z.modulo Z.add Z.eqb]; try done.
    destruct (b64_decode s) as [r|] eqn:E; [|done]. apply IH in E.
    cbn -[Z.mul Z.div Z.modulo Z.add Z.eqb]. intros [= <-].
    repeat (apply Forall_cons; split; [unfold is_u8, u8_max; lia|]). done.
Qed.

Lemma hex_val_digit v : 0 <= v < 16 -> hex_val (hex_digit v) = Some v.
Proof.
  intros Hv. unfold hex_val, hex_digit. rewrite byte_of_ascii_of_byte by (case_goal; lia).
  destruct (v <? 10) eqn:?; bool_prop.
  - rewrite (proj2 (Z.leb_le 48 _)), (proj2 (Z.leb_le _ 57)) by lia. cbn -[Z.add]. f_equal. lia.
  - rewrite (proj2 (Z.leb_gt _ 57)), andb_false_r by lia.
    rewrite (proj2 (Z.leb_le 97 _)), (proj2 (Z.leb_le _ 102)) by lia. cbn -[Z.add]. f_equal. lia.
Qed.

Lemma hex_decode_encode bs : Forall is_u8 bs -> hex_decode (hex_encode bs) = Some bs.
Proof.
  induction bs as [|b bs IH]; intros H; [done|]; u8_bounds.
  cbn -[hex_val hex_digit Z.mul Z.div Z.modulo Z.add]. rewrite !hex_val_digit by lia.
  cbn -[Z.mul Z.div Z.modulo Z.add]. rewrite IH by done. cbn -[Z.mul Z.div Z.modulo Z.add].
  do 2 f_equal. lia.
Qed.

#[export] Instance RefEncodingLaws : DataEncodingLaws.
Proof.
  split; cbn.
  - apply b64_decode_encode.
  - apply b64_encode_alphabet.
  - apply b64_encode_length.
  - done.
  - apply b64_decode_length.
  - apply b64_decode_u8.
  - apply hex_decode_encode.
Qed.

(** Keyed functions for the signature interface: the public half of a key is
    the key, a signature is a 64-byte checksum of key and message. *)
Fixpoint checksum (n : nat) (acc : Z) (bs : list Z) : list Z :=
  match n with
  | O => []
  | S n => let acc := foldl (fun h b => (h * 31 + b + 7) mod 65521) acc bs in
           acc mod 256 :: checksum n (acc + 1) bs
  end.

Definition ref_sign (key m : list Z) : list Z := checksum 64 1 (key ++ m).

#[export] Instance RefCrypto : WireCrypto := {|
  ed25519_key_ok _ := true;
  ed25519_verify pk m sig := bool_decide (sig = ref_sign pk m);
  ed25519_sign := ref_sign;
  p256_key_ok _ := true;
  p256_sig_ok _ := true;
  p256_verify_prehash pk d sig := bool_decide (sig = ref_sign pk d);
  p256_scalar_ok _ := true;
  p256_sign := ref_sign;
  sha256 m := m;
  ed25519_public k := k;
  p256_public k := k;
|}.

Lemma ref_sign_length k m : length (ref_sign k m) = 64%nat.
Proof. done. Qed.

Lemma checksum_u8 n acc bs : Forall is_u8 (checksum n acc bs).
Proof.
  revert acc. induction n as [|n IH]; intros acc; constructor; [|apply IH].
  unfold is_u8, u8_max. pose proof (Z.mod_pos_bound (foldl (fun h b => (h * 31 + b + 7) mod 65521) acc bs) 256). lia.
Qed.

#[export] Instance RefCryptoLaws : WireCryptoLaws.
Proof.
  split; intros; cbn -[ref_sign];
    solve [done | apply checksum_u8 | by apply bool_decide_eq_true].
Qed.

#[export] Instance RefKeys : ApprovalKeys := {|
  SshPublicKey := string;
  ssh_from_openssh s := Ok s;
  p256_from_sec1 _ := Ok tt;
  ed25519_from_bytes _ := Ok tt;
|}.
