(* ===== verification/Approval.v ===== *)
(** * Approval: the request an operator authorizes (core/src/approval.rs) *)

From S2P Require Import Prelude Text Clock External Reference.

(** [u32::to_be_bytes] / [u64::to_be_bytes]: [w] bytes, most significant
    first. *)
Fixpoint be_bytes (w : nat) (n : Z) : list Z :=
  match w with
  | O => []
  | S w => be_bytes w (n / 256) ++ [n mod 256]
  end.

Record ApprovalRequest := {
  nonce : list Z;
  host : string;
  ttl_secs : Z;
  requested_at : SystemTime;
}.

Definition new (nonce : list Z) (host : string) (ttl_secs : Z) (requested_at : SystemTime)
    : ApprovalRequest :=
  {| nonce := nonce; host := host; ttl_secs := ttl_secs; requested_at := requested_at |}.

(** The domain-separation prefix [b"lychgate-approval\x00v1\x00"]. *)
Definition DOMAIN : list Z := as_bytes "lychgate-approval" ++ [0] ++ as_bytes "v1" ++ [0].

Definition canonical_bytes (r : ApprovalRequest) : list Z :=
  let secs := epoch_secs (requested_at r) in
  DOMAIN
  ++ be_bytes 4 (str_len (host r) mod 2 ^ 32)
  ++ as_bytes (host r)
  ++ be_bytes 8 (ttl_secs r)
  ++ be_bytes 8 secs
  ++ be_bytes 4 (Z.of_nat (length (nonce r)) mod 2 ^ 32)
  ++ nonce r.

Section Challenge.
Context `{DataEncoding}.

Definition challenge_string (r : ApprovalRequest) : string :=
  "lg1.req." +:+ base64url_encode (canonical_bytes r).
End Challenge.

(** The field ranges the Rust types impose: the nonce is a [[u8; 32]], the TTL
    a [u64], the instant on the clock, and the host name shorter than 4 GiB. *)
Definition well_typed (r : ApprovalRequest) : Prop :=
  length (nonce r) = 32%nat /\ Forall is_u8 (nonce r) /\ is_u64 (ttl_secs r)
  /\ 0 <= requested_at r < CLOCK_END /\ str_len (host r) < 2 ^ 32.

(** ** Lemmas *)

Lemma length_be_bytes w n : length (be_bytes w n) = w.
Proof. revert n. induction w; intros; cbn; [done|]. rewrite length_app, IHw. cbn. lia. Qed.

Lemma be_bytes_u8 w n : Forall is_u8 (be_bytes w n).
Proof.
  revert n. induction w as [|w IH]; intros n; cbn [be_bytes]; [constructor|].
  apply Forall_app. split; [apply IH|]. constructor; [|constructor].
  pose proof (Z.mod_pos_bound n 256). unfold is_u8, u8_max. lia.
Qed.

Lemma be_bytes_inj w n m :
  0 <= n < 256 ^ Z.of_nat w -> 0 <= m < 256 ^ Z.of_nat w ->
  be_bytes w n = be_bytes w m -> n = m.
Proof.
  revert n m. induction w as [|w IH]; intros n m Hn Hm E; cbn [be_bytes] in E.
  - change (256 ^ Z.of_nat 0) with 1 in *. lia.
  - rewrite Nat2Z.inj_succ, Z.pow_succ_r in Hn, Hm by lia.
    apply app_inj_tail in E as [E E']. apply IH in E.
    + pose proof (Z.div_mod n 256). pose proof (Z.div_mod m 256). lia.
    + split; [apply Z.div_pos; lia|]. apply Z.div_lt_upper_bound; lia.
    + split; [apply Z.div_pos; lia|]. apply Z.div_lt_upper_bound; lia.
Qed.

Lemma DOMAIN_u8 : Forall is_u8 DOMAIN.
Proof. apply (bool_decide_unpack _). vm_compute. done. Qed.

Lemma canonical_bytes_u8 r : well_typed r -> Forall is_u8 (canonical_bytes r).
Proof.
  intros (_ & Hn & _). unfold canonical_bytes.
  rewrite !Forall_app. split_and!; auto using DOMAIN_u8, be_bytes_u8, as_bytes_u8.
Qed.

Lemma epoch_secs_u64 t : 0 <= t < CLOCK_END -> 0 <= epoch_secs t < 2 ^ 63.
Proof.
  intros Ht. unfold epoch_secs. rewrite duration_since_ge by (unfold UNIX_EPOCH; lia).
  rewrite Z.sub_0_r. split; [apply as_secs_nonneg; lia|].
  apply as_secs_lt_iff. unfold CLOCK_END, from_secs in *. lia.
Qed.

(** Equal canonical bytes come from requests equal in every field, the
    instant up to its whole second. *)
Lemma canonical_bytes_inj r1 r2 :
  well_typed r1 -> well_typed r2 -> canonical_bytes r1 = canonical_bytes r2 ->
  nonce r1 = nonce r2 /\ host r1 = host r2 /\ ttl_secs r1 = ttl_secs r2
  /\ epoch_secs (requested_at r1) = epoch_secs (requested_at r2).
Proof.
  intros (Hn1 & _ & Ht1 & Hr1 & Hh1) (Hn2 & _ & Ht2 & Hr2 & Hh2) E.
  unfold canonical_bytes in E. apply (inj (app DOMAIN)) in E.
  pose proof (str_len_nonneg (host r1)). pose proof (str_len_nonneg (host r2)).
  rewrite !(Z.mod_small (str_len _)) in E by lia.
  apply app_inj_1 in E as [El E]; [|by rewrite !length_be_bytes].
  apply be_bytes_inj in El; [|cbn; lia..].
  apply app_inj_1 in E as [Eh E]; [|rewrite !length_as_bytes; unfold str_len in El; lia].
  apply app_inj_1 in E as [Et E]; [|by rewrite !length_be_bytes].
  apply app_inj_1 in E as [Er E]; [|by rewrite !length_be_bytes].
  apply app_inj_1 in E as [_ E]; [|by rewrite !length_be_bytes].
  unfold is_u64, u64_max in *.
  pose proof (epoch_secs_u64 _ Hr1). pose proof (epoch_secs_u64 _ Hr2).
  repeat split; [done|by apply as_bytes_inj|..].
  - eapply be_bytes_inj in Et; [done|cbn; lia..].
  - eapply be_bytes_inj in Er; [done|cbn; lia..].
Qed.

Lemma challenge_string_canonical `{DataEncodingLaws} r1 r2 :
  well_typed r1 -> well_typed r2 -> challenge_string r1 = challenge_string r2 ->
  canonical_bytes r1 = canonical_bytes r2.
Proof.
  intros H1 H2 E. unfold challenge_string in E. apply (inj (String.app _)) in E.
  assert (Some (canonical_bytes r1) = Some (canonical_bytes r2)); [|congruence].
  rewrite <-(base64url_decode_encode (canonical_bytes r1)) by by apply canonical_bytes_u8.
  rewrite E. apply base64url_decode_encode. by apply canonical_bytes_u8.
Qed.

(** ** Properties *)

(** A challenge string names one request: two well-typed requests with
    the same challenge agree on the nonce, the host, the TTL and the second
    of the request, so an approval signed for one cannot be replayed for
    another. *)
Theorem challenge_string_injective `{DataEncodingLaws} r1 r2 :
  well_typed r1 -> well_typed r2 -> challenge_string r1 = challenge_string r2 ->
  nonce r1 = nonce r2 /\ host r1 = host r2 /\ ttl_secs r1 = ttl_secs r2
  /\ epoch_secs (requested_at r1) = epoch_secs (requested_at r2).
Proof.
  intros H1 H2 E. apply canonical_bytes_inj; [done..|]. by apply challenge_string_canonical.
Qed.

(** Two requests made in the same second share their challenge. *)
Definition sample_request (late : Z) : ApprovalRequest :=
  new (replicate 32 7) "web-1" 3600 (from_secs 1000 + late).

Lemma challenge_string_injective_witness :
  well_typed (sample_request 0)
  /\ challenge_string (sample_request 0) = challenge_string (sample_request 1)
  /\ ttl_secs (sample_request 0) = ttl_secs (sample_request 1).
Proof.
  assert (Hw : forall l, l = 0 \/ l = 1 -> well_typed (sample_request l)).
  { intros l Hl. split; [done|]. split; [by apply (Forall_replicate is_u8 32 7)|].
    split; [by vm_compute|]. split; [|by vm_compute].
    destruct Hl as [-> | ->]; vm_compute; split; congruence. }
  assert (E : challenge_string (sample_request 0) = challenge_string (sample_request 1))
    by (vm_compute; reflexivity).
  split; [apply Hw; by left|]. split; [exact E|].
  exact (proj1 (proj2 (proj2 (challenge_string_injective (sample_request 0) (sample_request 1)
    (Hw 0 (or_introl eq_refl)) (Hw 1 (or_intror eq_refl)) E)))).
Defined.
