(* ===== verification/Cbor.v ===== *)
(** * Cbor: the deterministic CBOR subset of the token payloads
    (wire/src/cbor.rs)

    A [Writer] over a fixed buffer is the capacity with the bytes written so
    far; a [Reader] is the bytes from its position on. *)

From S2P Require Import Prelude Text Approval.

(** [WireError] of wire/src/lib.rs. *)
Inductive WireError :=
| BadPrefix
| BadBase64
| WMalformed (reason : string)
| UnknownVersion
| VersionKeyMismatch
| BadKey
| WBadSignature
| BufferTooSmall.

#[export] Instance WireError_eq_dec : EqDecision WireError.
Proof. solve_decision. Defined.

Definition MAJOR_UINT : Z := 0.
Definition MAJOR_BSTR : Z := 2.
Definition MAJOR_MAP : Z := 5.

(** ** Writing *)

Record Writer := { cap : nat; out : list Z }.

Definition writer_new (capacity : nat) : Writer := {| cap := capacity; out := [] |}.

Definition push (w : Writer) (byte : Z) : result WireError Writer :=
  if (cap w <=? length (out w))%nat then Err BufferTooSmall
  else Ok {| cap := cap w; out := out w ++ [byte] |}.

(** A [for b in bytes { self.push(b)?; }] loop. *)
Fixpoint push_all (w : Writer) (bytes : list Z) : result WireError Writer :=
  match bytes with
  | [] => Ok w
  | b :: rest => let? w := push w b in push_all w rest
  end.

Definition write_head (w : Writer) (major value : Z) : result WireError Writer :=
  let m := Z.shiftl major 5 in
  if value <? 24 then push w (Z.lor m value)
  else if value <=? 255 then
    let? w := push w (Z.lor m 24) in push w value
  else if value <=? 65535 then
    let? w := push w (Z.lor m 25) in push_all w (be_bytes 2 value)
  else if value <=? 4294967295 then
    let? w := push w (Z.lor m 26) in push_all w (be_bytes 4 value)
  else
    let? w := push w (Z.lor m 27) in push_all w (be_bytes 8 value).

Definition write_map (w : Writer) (entries : Z) : result WireError Writer :=
  write_head w MAJOR_MAP entries.

Definition write_uint_entry (w : Writer) (key value : Z) : result WireError Writer :=
  let? w := write_head w MAJOR_UINT key in write_head w MAJOR_UINT value.

Definition write_bstr_entry (w : Writer) (key : Z) (value : list Z) : result WireError Writer :=
  let? w := write_head w MAJOR_UINT key in
  let? w := write_head w MAJOR_BSTR (Z.of_nat (length value)) in
  push_all w value.

(** ** Reading *)

Definition byte (r : list Z) : result WireError (Z * list Z) :=
  match r with
  | [] => Err (WMalformed "truncated")
  | b :: rest => Ok (b, rest)
  end.

(** [n] bytes read one by one. *)
Fixpoint bytes (n : nat) (r : list Z) : result WireError (list Z * list Z) :=
  match n with
  | O => Ok ([], r)
  | S n =>
      let? p := byte r in
      let? q := bytes n p.2 in
      Ok (p.1 :: q.1, q.2)
  end.

(** [from_be_bytes]. *)
Definition from_be_bytes (bs : list Z) : Z := fold_left (fun acc b => 256 * acc + b) bs 0.

(** A wide argument: [n] bytes, refused when it is at most [min]. *)
Definition wide (n : nat) (min : Z) (r : list Z) : result WireError (Z * list Z) :=
  let? p := bytes n r in
  let v := from_be_bytes p.1 in
  if v <=? min then Err (WMalformed "non-minimal integer") else Ok (v, p.2).

Definition read_head (expect_major : Z) (what : string) (r : list Z)
    : result WireError (Z * list Z) :=
  let? p := byte r in
  let '(initial, r) := p in
  if negb (Z.shiftr initial 5 =? expect_major) then Err (WMalformed what)
  else
    let info := Z.land initial 31 in
    if info <=? 23 then Ok (info, r)
    else if info =? 24 then wide 1 23 r
    else if info =? 25 then wide 2 255 r
    else if info =? 26 then wide 4 65535 r
    else if info =? 27 then wide 8 4294967295 r
    else Err (WMalformed "indefinite or reserved length").

Definition read_map (expect_entries : Z) (r : list Z) : result WireError (list Z) :=
  let? p := read_head MAJOR_MAP "not a map" r in
  if negb (p.1 =? expect_entries) then Err (WMalformed "wrong map size") else Ok p.2.

Definition read_key (expect : Z) (r : list Z) : result WireError (list Z) :=
  let? p := read_head MAJOR_UINT "map key is not an unsigned integer" r in
  if negb (p.1 =? expect) then Err (WMalformed "unexpected map key") else Ok p.2.

Definition read_uint_entry (key : Z) (what : string) (r : list Z)
    : result WireError (Z * list Z) :=
  let? r := read_key key r in read_head MAJOR_UINT what r.

Definition read_uint_entry_u32 (key : Z) (r : list Z) : result WireError (Z * list Z) :=
  let? p := read_uint_entry key "expected an unsigned integer" r in
  if p.1 <=? u32_max then Ok p else Err (WMalformed "integer too large for field").

Definition read_bstr16_entry (key : Z) (r : list Z) : result WireError (list Z * list Z) :=
  let? r := read_key key r in
  let? p := read_head MAJOR_BSTR "expected a byte string" r in
  if negb (p.1 =? 16) then Err (WMalformed "wrong byte-string length")
  else bytes 16 p.2.

Definition read_end (r : list Z) : result WireError unit :=
  match r with [] => Ok tt | _ => Err (WMalformed "trailing bytes") end.

(** ** The bytes of each shape *)

Definition head_bytes (major value : Z) : list Z :=
  let m := 32 * major in
  if value <? 24 then [m + value]
  else if value <=? 255 then [m + 24; value]
  else if value <=? 65535 then (m + 25) :: be_bytes 2 value
  else if value <=? 4294967295 then (m + 26) :: be_bytes 4 value
  else (m + 27) :: be_bytes 8 value.

Definition uint_entry_bytes (key value : Z) : list Z :=
  head_bytes MAJOR_UINT key ++ head_bytes MAJOR_UINT value.

Definition bstr_entry_bytes (key : Z) (value : list Z) : list Z :=
  head_bytes MAJOR_UINT key ++ head_bytes MAJOR_BSTR (Z.of_nat (length value)) ++ value.

(** ** Lemmas *)

(** The outcome of writing [bs]: all of them, or the buffer's refusal. *)
Definition written (w : Writer) (bs : list Z) : result WireError Writer :=
  if (length (out w) + length bs <=? cap w)%nat
  then Ok {| cap := cap w; out := out w ++ bs |} else Err BufferTooSmall.

Lemma push_all_written w bs : (length (out w) <= cap w)%nat -> push_all w bs = written w bs.
Proof.
  unfold written. revert w. induction bs as [|b bs IH]; intros w Hw; cbn [push_all].
  - rewrite (proj2 (Nat.leb_le _ _)) by (cbn; lia). rewrite app_nil_r. by destruct w.
  - unfold push. destruct (Nat.leb_spec (cap w) (length (out w))).
    + rewrite (proj2 (Nat.leb_gt _ _)) by (cbn; lia). done.
    + rewrite IH; cbn; rewrite ?length_app; cbn; [|lia].
      rewrite <-(assoc_L (++)). cbn. by replace (length (out w) + 1 + length bs)%nat
        with (length (out w) + S (length bs))%nat by lia.
Qed.

Lemma written_bind w bs bs' :
  (let? w := written w bs in written w bs') = written w (bs ++ bs').
Proof.
  unfold written. destruct (Nat.leb_spec (length (out w) + length bs) (cap w)); cbn;
    rewrite ?length_app.
  - rewrite <-(assoc_L (++)), <-(Nat.add_assoc). done.
  - by rewrite (proj2 (Nat.leb_gt _ _)) by lia.
Qed.

Lemma written_le w bs w' : written w bs = Ok w' -> (length (out w') <= cap w')%nat.
Proof.
  unfold written. case_goal; [|done]. intros. simplify_eq. cbn. rewrite length_app.
  by apply Nat.leb_le.
Qed.

Lemma push_written w b : (length (out w) <= cap w)%nat -> push w b = written w [b].
Proof.
  intros Hw. rewrite <-(push_all_written w [b]) by done. cbn. by destruct (push w b).
Qed.

Lemma push_then w b bs : (length (out w) <= cap w)%nat ->
  (let? w := push w b in push_all w bs) = written w (b :: bs).
Proof. intros Hw. rewrite <-push_all_written by done. done. Qed.

Lemma lor_major major v : 0 <= v < 32 -> Z.lor (Z.shiftl major 5) v = 32 * major + v.
Proof.
  intros Hv. rewrite <-Z.add_nocarry_lor; [rewrite Z.shiftl_mul_pow2 by lia; lia|].
  { apply Z.bits_inj'. intros n Hn. rewrite Z.land_spec, Z.bits_0.
    destruct (Z.ltb_spec n 5).
    - rewrite Z.shiftl_spec_low by lia. done.
    - rewrite (Z.bits_above_log2 v n); [by rewrite andb_false_r|lia|].
      destruct (Z.eq_dec v 0) as [->|]; [cbn; lia|].
      apply Z.log2_lt_pow2; [lia|]. assert (2 ^ 5 <= 2 ^ n) by (apply Z.pow_le_mono_r; lia). lia. }
Qed.

Lemma write_head_written w major value :
  (length (out w) <= cap w)%nat -> 0 <= value ->
  write_head w major value = written w (head_bytes major value).
Proof.
  intros Hw Hv. unfold write_head, head_bytes.
  destruct (Z.ltb_spec value 24); [rewrite lor_major by lia; by apply push_written|].
  destruct (value <=? 255).
  { rewrite lor_major by lia. rewrite <-(push_then w _ [value]) by done.
    destruct (push w _) as [w'|]; [|done]. cbn. by destruct (push w' value). }
  destruct (value <=? 65535); [|destruct (value <=? 4294967295)];
    rewrite lor_major by lia; by apply push_then.
Qed.

Lemma written_then w bs (k : Writer -> result WireError Writer) bs' :
  (length (out w) <= cap w)%nat ->
  (forall w', (length (out w') <= cap w')%nat -> k w' = written w' bs') ->
  (let? w' := written w bs in k w') = written w (bs ++ bs').
Proof.
  intros Hw Hk. rewrite <-written_bind. destruct (written w bs) eqn:Hb; [|done].
  apply Hk. by eapply written_le.
Qed.

Lemma write_uint_entry_written w key value :
  (length (out w) <= cap w)%nat -> 0 <= key -> 0 <= value ->
  write_uint_entry w key value = written w (uint_entry_bytes key value).
Proof.
  intros Hw Hk Hv. unfold write_uint_entry. rewrite write_head_written by done.
  apply written_then; [done|]. intros. by apply write_head_written.
Qed.

Lemma write_bstr_entry_written w key value :
  (length (out w) <= cap w)%nat -> 0 <= key ->
  write_bstr_entry w key value = written w (bstr_entry_bytes key value).
Proof.
  intros Hw Hk. unfold write_bstr_entry. rewrite write_head_written by done.
  apply written_then; [done|]. intros w' Hw'. rewrite write_head_written by (done || lia).
  apply written_then; [done|]. intros. by apply push_all_written.
Qed.

(** *** Reading back *)

Lemma bytes_app l rest : bytes (length l) (l ++ rest) = Ok (l, rest).
Proof. induction l as [|b l IH]; [done|]. cbn. by rewrite IH. Qed.

Lemma bytes_inv n r l rest : bytes n r = Ok (l, rest) -> r = l ++ rest /\ length l = n.
Proof.
  revert r l. induction n as [|n IH]; intros r l Hb; cbn in Hb; [by simplify_eq|].
  destruct r as [|b r]; [done|]. cbn in Hb. destruct (bytes n r) as [[l' rest']|] eqn:Hr; [|done].
  simplify_eq/=. destruct (IH _ _ Hr) as [-> <-]. done.
Qed.

Lemma from_be_bytes_snoc l b : from_be_bytes (l ++ [b]) = 256 * from_be_bytes l + b.
Proof. unfold from_be_bytes. by rewrite fold_left_app. Qed.

Lemma from_be_bytes_be w n : 0 <= n < 256 ^ Z.of_nat w -> from_be_bytes (be_bytes w n) = n.
Proof.
  revert n. induction w as [|w IH]; intros n Hn.
  - change (256 ^ Z.of_nat 0) with 1 in Hn. cbn. lia.
  - cbn [be_bytes]. rewrite from_be_bytes_snoc, IH.
    + pose proof (Z.div_mod n 256). lia.
    + rewrite Nat2Z.inj_succ, Z.pow_succ_r in Hn by lia.
      split; [apply Z.div_pos; lia|]. apply Z.div_lt_upper_bound; lia.
Qed.

Lemma be_from_be_bytes w l :
  length l = w -> Forall is_u8 l ->
  be_bytes w (from_be_bytes l) = l /\ 0 <= from_be_bytes l < 256 ^ Z.of_nat w.
Proof.
  revert l. induction w as [|w IH]; intros l Hl Hu.
  - destruct l; [|done]. cbn. done.
  - destruct (exists_last (l := l)) as (l' & b & ->); [by intros ->|].
    rewrite length_app in Hl. cbn in Hl. apply Forall_app in Hu as [Hu Hb].
    apply Forall_cons in Hb as [Hb _]. unfold is_u8, u8_max in Hb.
    destruct (IH l') as [E Hr]; [lia|done|]. cbn [be_bytes].
    rewrite from_be_bytes_snoc. rewrite Nat2Z.inj_succ, Z.pow_succ_r by lia.
    replace ((256 * from_be_bytes l' + b) / 256) with (from_be_bytes l').
    2:{ rewrite Z.mul_comm, Z.div_add_l by lia. rewrite Z.div_small by lia. lia. }
    replace ((256 * from_be_bytes l' + b) mod 256) with b.
    2:{ rewrite Z.add_comm, Z.mul_comm, Z.mod_add by lia. by rewrite Z.mod_small by lia. }
    rewrite E. split; [done|]. lia.
Qed.

Lemma wide_be n min v rest :
  0 <= v < 256 ^ Z.of_nat n -> min < v -> wide n min (be_bytes n v ++ rest) = Ok (v, rest).
Proof.
  intros Hv Hm. unfold wide.
  pose proof (bytes_app (be_bytes n v) rest) as Hb. rewrite length_be_bytes in Hb. rewrite Hb.
  cbn [fst snd]. rewrite from_be_bytes_be by done. by rewrite (proj2 (Z.leb_gt _ _)).
Qed.

Lemma wide_inv n min r v rest :
  Forall is_u8 r -> wide n min r = Ok (v, rest) ->
  r = be_bytes n v ++ rest /\ min < v < 256 ^ Z.of_nat n.
Proof.
  intros Hu. unfold wide. destruct (bytes n r) as [[l rest']|] eqn:Hb; [|done]. cbn [fst snd].
  case_goal; [done|]. intros. simplify_eq. bool_prop.
  apply bytes_inv in Hb as [-> Hl]. apply Forall_app in Hu as [Hu _].
  destruct (be_from_be_bytes n l Hl Hu) as [-> Hr]. split; [done|]. lia.
Qed.

Lemma shiftr_head major info : 0 <= info < 32 -> Z.shiftr (32 * major + info) 5 = major.
Proof.
  intros Hi. rewrite Z.shiftr_div_pow2 by lia. change (2 ^ 5) with 32.
  rewrite Z.mul_comm, Z.div_add_l by lia. rewrite Z.div_small by lia. lia.
Qed.

Lemma land_head major info : 0 <= info < 32 -> Z.land (32 * major + info) 31 = info.
Proof.
  intros Hi. change 31 with (Z.ones 5). rewrite Z.land_ones by lia. change (2 ^ 5) with 32.
  rewrite Z.add_comm, Z.mul_comm, Z.mod_add by lia. by rewrite Z.mod_small.
Qed.

Lemma head_split b : b = 32 * Z.shiftr b 5 + Z.land b 31.
Proof.
  rewrite Z.shiftr_div_pow2 by lia. change 31 with (Z.ones 5). rewrite Z.land_ones by lia.
  change (2 ^ 5) with 32. apply Z.div_mod. lia.
Qed.

Lemma read_head_info major info what r :
  0 <= info < 32 ->
  read_head major what ((32 * major + info) :: r) =
    if info <=? 23 then Ok (info, r)
    else if info =? 24 then wide 1 23 r
    else if info =? 25 then wide 2 255 r
    else if info =? 26 then wide 4 65535 r
    else if info =? 27 then wide 8 4294967295 r
    else Err (WMalformed "indefinite or reserved length").
Proof.
  intros Hi. unfold read_head, byte. rewrite shiftr_head, land_head by done. by rewrite Z.eqb_refl.
Qed.

Lemma read_head_bytes major value what rest :
  is_u64 value -> read_head major what (head_bytes major value ++ rest) = Ok (value, rest).
Proof.
  unfold is_u64, u64_max. intros Hv. unfold head_bytes.
  destruct (Z.ltb_spec value 24).
  { cbn [app]. rewrite read_head_info by lia. by rewrite (proj2 (Z.leb_le _ _)) by lia. }
  destruct (Z.leb_spec value 255).
  { change [32 * major + 24; value] with ([32 * major + 24] ++ [value]). rewrite <-(assoc_L (++)).
    cbn [app]. rewrite read_head_info by lia. cbn -[wide].
    pose proof (wide_be 1 23 value rest) as Hw. cbn [be_bytes app] in Hw.
    rewrite (Z.mod_small value 256) in Hw by lia. apply Hw; cbn; lia. }
  destruct (Z.leb_spec value 65535);
    [|destruct (Z.leb_spec value 4294967295)];
    rewrite <-app_comm_cons, read_head_info by lia; cbn -[wide be_bytes];
    apply wide_be; cbn; lia.
Qed.

Lemma read_head_inv major value what r rest :
  Forall is_u8 r -> read_head major what r = Ok (value, rest) ->
  r = head_bytes major value ++ rest /\ is_u64 value.
Proof.
  intros Hu Hr. destruct r as [|b r]; [done|]. apply Forall_cons in Hu as [Hb Hu].
  unfold read_head, byte in Hr. case_hyp Hr; [done|]. bool_prop.
  assert (Hi : 0 <= Z.land b 31 < 32).
  { change 31 with (Z.ones 5). rewrite Z.land_ones by lia. apply Z.mod_pos_bound. lia. }
  pose proof (head_split b) as Hsplit. rewrite Heqb0 in Hsplit.
  unfold head_bytes, is_u64, u64_max.
  destruct (Z.leb_spec (Z.land b 31) 23).
  { simplify_eq. rewrite (proj2 (Z.ltb_lt _ _)) by lia. split; [|lia]. cbn. by rewrite <-Hsplit. }
  assert (Hwide : forall n min k, Z.land b 31 = k -> wide n min r = Ok (value, rest) ->
    b :: r = (32 * major + k) :: be_bytes n value ++ rest /\ min < value < 256 ^ Z.of_nat n).
  { intros n min k <- Hw. apply wide_inv in Hw as [-> ?]; [|done]. by rewrite <-Hsplit. }
  destruct (Z.eqb_spec (Z.land b 31) 24).
  { apply (Hwide _ _ 24) in Hr as [-> Hv]; [|done]. cbn in Hv.
    rewrite (proj2 (Z.ltb_ge _ _)) by lia. rewrite (proj2 (Z.leb_le _ _)) by lia. cbn [be_bytes app].
    rewrite (Z.mod_small value 256) by lia. split; [done|lia]. }
  destruct (Z.eqb_spec (Z.land b 31) 25).
  { apply (Hwide _ _ 25) in Hr as [-> Hv]; [|done]. cbn in Hv.
    rewrite (proj2 (Z.ltb_ge _ _)) by lia. rewrite (proj2 (Z.leb_gt _ _)) by lia.
    rewrite (proj2 (Z.leb_le _ _)) by lia. split; [done|lia]. }
  destruct (Z.eqb_spec (Z.land b 31) 26).
  { apply (Hwide _ _ 26) in Hr as [-> Hv]; [|done]. cbn in Hv.
    rewrite (proj2 (Z.ltb_ge _ _)) by lia. rewrite !(proj2 (Z.leb_gt _ _)) by lia.
    rewrite (proj2 (Z.leb_le _ _)) by lia. split; [done|lia]. }
  destruct (Z.eqb_spec (Z.land b 31) 27); [|done].
  apply (Hwide _ _ 27) in Hr as [-> Hv]; [|done]. cbn in Hv.
  rewrite (proj2 (Z.ltb_ge _ _)) by lia. rewrite !(proj2 (Z.leb_gt _ _)) by lia. split; [done|lia].
Qed.

(** The longest encoding of a value of a given width. *)
Lemma head_bytes_length major value :
  is_u64 value ->
  (length (head_bytes major value) <= 9)%nat
  /\ (value <= u32_max -> (length (head_bytes major value) <= 5)%nat)
  /\ (value < 24 -> length (head_bytes major value) = 1%nat).
Proof.
  unfold is_u64, u64_max, u32_max. intros Hv. unfold head_bytes.
  repeat case_goal; bool_prop; cbn [length]; rewrite ?length_be_bytes; split_and!; lia.
Qed.

Lemma head_bytes_u8 major value :
  0 <= major < 8 -> is_u64 value -> Forall is_u8 (head_bytes major value).
Proof.
  unfold is_u64, u64_max. intros Hm Hv. unfold head_bytes.
  assert (Hk : forall k, 0 <= k < 32 -> is_u8 (32 * major + k)) by (unfold is_u8, u8_max; lia).
  repeat case_goal; bool_prop; (apply Forall_cons; split; [apply Hk; lia|]);
    auto using be_bytes_u8. apply Forall_singleton. unfold is_u8, u8_max. lia.
Qed.

(** *** Entries *)

Lemma read_map_bytes n rest : is_u64 n -> read_map n (head_bytes MAJOR_MAP n ++ rest) = Ok rest.
Proof. intros Hn. unfold read_map. rewrite read_head_bytes by done. cbn. by rewrite Z.eqb_refl. Qed.

Lemma read_map_inv n r rest :
  Forall is_u8 r -> read_map n r = Ok rest -> r = head_bytes MAJOR_MAP n ++ rest.
Proof.
  intros Hu. unfold read_map. destruct (read_head _ _ r) as [[v rest']|] eqn:Hr; [|done]. cbn.
  case_goal; [done|]. intros. simplify_eq. bool_prop. subst.
  by apply read_head_inv in Hr as [-> _].
Qed.

Lemma read_key_bytes k rest : is_u64 k -> read_key k (head_bytes MAJOR_UINT k ++ rest) = Ok rest.
Proof. intros Hn. unfold read_key. rewrite read_head_bytes by done. cbn. by rewrite Z.eqb_refl. Qed.

Lemma read_key_inv k r rest :
  Forall is_u8 r -> read_key k r = Ok rest -> r = head_bytes MAJOR_UINT k ++ rest.
Proof.
  intros Hu. unfold read_key. destruct (read_head _ _ r) as [[v rest']|] eqn:Hr; [|done]. cbn.
  case_goal; [done|]. intros. simplify_eq. bool_prop. subst.
  by apply read_head_inv in Hr as [-> _].
Qed.

Lemma read_uint_entry_bytes k v what rest :
  is_u64 k -> is_u64 v ->
  read_uint_entry k what (uint_entry_bytes k v ++ rest) = Ok (v, rest).
Proof.
  intros. unfold read_uint_entry, uint_entry_bytes.
  rewrite <-(assoc_L (++)), read_key_bytes by done. by apply read_head_bytes.
Qed.

Lemma read_uint_entry_inv k v what r rest :
  Forall is_u8 r -> read_uint_entry k what r = Ok (v, rest) ->
  r = uint_entry_bytes k v ++ rest /\ is_u64 v.
Proof.
  intros Hu. unfold read_uint_entry. destruct (read_key k r) as [r'|] eqn:Hk; [|done].
  apply read_key_inv in Hk as ->; [|done]. apply Forall_app in Hu as [_ Hu].
  intros Hr. apply read_head_inv in Hr as [-> Hv]; [|done].
  unfold uint_entry_bytes. by rewrite <-(assoc_L (++)).
Qed.

Lemma read_uint_entry_u32_bytes k v rest :
  is_u64 k -> is_u32 v -> read_uint_entry_u32 k (uint_entry_bytes k v ++ rest) = Ok (v, rest).
Proof.
  intros Hk Hv. unfold read_uint_entry_u32. unfold is_u32, u32_max in *.
  rewrite read_uint_entry_bytes; [|done|unfold is_u64, u64_max; lia]. cbn [fst].
  by rewrite (proj2 (Z.leb_le _ _)) by lia.
Qed.

Lemma read_uint_entry_u32_inv k v r rest :
  Forall is_u8 r -> read_uint_entry_u32 k r = Ok (v, rest) ->
  r = uint_entry_bytes k v ++ rest /\ is_u32 v.
Proof.
  intros Hu. unfold read_uint_entry_u32.
  destruct (read_uint_entry k _ r) as [[v' rest']|] eqn:Hr; [|done]. cbn [fst].
  case_goal; [|done]. intros. simplify_eq. bool_prop.
  apply read_uint_entry_inv in Hr as [-> Hv]; [|done]. split; [done|].
  unfold is_u64, is_u32 in *. lia.
Qed.

Lemma read_bstr16_entry_bytes k v rest :
  is_u64 k -> length v = 16%nat ->
  read_bstr16_entry k (bstr_entry_bytes k v ++ rest) = Ok (v, rest).
Proof.
  intros Hk Hv. unfold read_bstr16_entry, bstr_entry_bytes.
  rewrite <-!(assoc_L (++)), read_key_bytes by done.
  rewrite read_head_bytes by (rewrite Hv; done). cbn [fst snd]. rewrite Hv.
  change (Z.of_nat 16 =? 16) with true. cbn [negb].
  pose proof (bytes_app v rest) as Hb. by rewrite Hv in Hb.
Qed.

Lemma read_bstr16_entry_inv k v r rest :
  Forall is_u8 r -> read_bstr16_entry k r = Ok (v, rest) ->
  r = bstr_entry_bytes k v ++ rest /\ length v = 16%nat.
Proof.
  intros Hu. unfold read_bstr16_entry. destruct (read_key k r) as [r'|] eqn:Hk; [|done].
  apply read_key_inv in Hk as ->; [|done]. apply Forall_app in Hu as [_ Hu].
  destruct (read_head MAJOR_BSTR _ r') as [[n r'']|] eqn:Hn; [|done]. cbn [fst snd].
  case_goal; [done|]. bool_prop. subst. intros Hb.
  apply read_head_inv in Hn as [-> _]; [|done]. apply bytes_inv in Hb as [-> Hl].
  split; [|done]. unfold bstr_entry_bytes. by rewrite Hl, <-!(assoc_L (++)).
Qed.

Lemma uint_entry_bytes_u8 k v : is_u64 k -> is_u64 v -> Forall is_u8 (uint_entry_bytes k v).
Proof. intros. apply Forall_app. split; by apply head_bytes_u8. Qed.

Lemma bstr_entry_bytes_u8 k v :
  is_u64 k -> length v = 16%nat -> Forall is_u8 v -> Forall is_u8 (bstr_entry_bytes k v).
Proof.
  intros Hk Hl Hv. unfold bstr_entry_bytes. rewrite Hl. rewrite !Forall_app.
  split_and!; [by apply head_bytes_u8|by apply head_bytes_u8|done].
Qed.
