(* ===== verification/Token.v ===== *)
(** * Token: capability and revocation tokens (wire/src/token.rs)

    Fixed output buffers are their capacities; what a function writes is the
    bytes it returns.  Keys and signatures are the crates of
    [External.WireCrypto]. *)

From S2P Require Import Prelude Text External Reference Approval Cbor.

Definition CAP_PREFIX : string := "lgcap.".
Definition RVK_PREFIX : string := "lgrvk.".
Definition VER_ED25519 : Z := 1.
Definition VER_P256 : Z := 2.
Definition SIG_LEN : nat := 64.
Definition MAX_PAYLOAD_LEN : nat := 61.
Definition MAX_TOKEN_LEN : Z := 6 + 82 + 1 + 86.

(** [MAX_TTL_SECS] of wire/src/lib.rs. *)
Definition MAX_TTL_SECS : Z := 86400.

Record Capability := {
  cap_ver : Z;
  cap_device_id : list Z;
  cap_grant_nonce : list Z;
  cap_capability : Z;
  cap_ttl_secs : Z;
  cap_issued_seq : Z;
}.

Record Revocation := {
  rvk_ver : Z;
  rvk_device_id : list Z;
  rvk_grant_nonce : list Z;
  rvk_issued_seq : Z;
}.

#[export] Instance Capability_eq_dec : EqDecision Capability.
Proof. solve_decision. Defined.
#[export] Instance Revocation_eq_dec : EqDecision Revocation.
Proof. solve_decision. Defined.

Inductive PublicKey :=
| PkEd25519 (pk : list Z)
| PkP256Sec1 (sec1 : list Z).

Inductive SigningKey :=
| SkEd25519Seed (seed : list Z)
| SkP256Scalar (scalar : list Z).

Definition pk_ver (k : PublicKey) : Z :=
  match k with PkEd25519 _ => VER_ED25519 | PkP256Sec1 _ => VER_P256 end.
Definition sk_ver (k : SigningKey) : Z :=
  match k with SkEd25519Seed _ => VER_ED25519 | SkP256Scalar _ => VER_P256 end.

(** ** The payload codec *)

Definition encode_capability (c : Capability) (capacity : nat) : result WireError (list Z) :=
  let? w := write_map (writer_new capacity) 6 in
  let? w := write_uint_entry w 0 (cap_ver c) in
  let? w := write_bstr_entry w 1 (cap_device_id c) in
  let? w := write_bstr_entry w 2 (cap_grant_nonce c) in
  let? w := write_uint_entry w 3 (cap_capability c) in
  let? w := write_uint_entry w 4 (cap_ttl_secs c) in
  let? w := write_uint_entry w 5 (cap_issued_seq c) in
  Ok (out w).

Definition encode_revocation (r : Revocation) (capacity : nat) : result WireError (list Z) :=
  let? w := write_map (writer_new capacity) 4 in
  let? w := write_uint_entry w 0 (rvk_ver r) in
  let? w := write_bstr_entry w 1 (rvk_device_id r) in
  let? w := write_bstr_entry w 2 (rvk_grant_nonce r) in
  let? w := write_uint_entry w 3 (rvk_issued_seq r) in
  Ok (out w).

Definition read_ver (r : list Z) : result WireError (Z * list Z) :=
  let? p := read_uint_entry 0 "expected an unsigned integer" r in
  if (p.1 =? VER_ED25519) || (p.1 =? VER_P256) then Ok p else Err UnknownVersion.

Definition decode_capability (payload : list Z) : result WireError Capability :=
  let? r := read_map 6 payload in
  let? ver := read_ver r in
  let? device_id := read_bstr16_entry 1 ver.2 in
  let? grant_nonce := read_bstr16_entry 2 device_id.2 in
  let? capability := read_uint_entry_u32 3 grant_nonce.2 in
  let? ttl_secs := read_uint_entry_u32 4 capability.2 in
  let? issued_seq := read_uint_entry 5 "expected an unsigned integer" ttl_secs.2 in
  let? _ := read_end issued_seq.2 in
  Ok {| cap_ver := ver.1; cap_device_id := device_id.1; cap_grant_nonce := grant_nonce.1;
        cap_capability := capability.1; cap_ttl_secs := ttl_secs.1;
        cap_issued_seq := issued_seq.1 |}.

Definition decode_revocation (payload : list Z) : result WireError Revocation :=
  let? r := read_map 4 payload in
  let? ver := read_ver r in
  let? device_id := read_bstr16_entry 1 ver.2 in
  let? grant_nonce := read_bstr16_entry 2 device_id.2 in
  let? issued_seq := read_uint_entry 3 "expected an unsigned integer" grant_nonce.2 in
  let? _ := read_end issued_seq.2 in
  Ok {| rvk_ver := ver.1; rvk_device_id := device_id.1; rvk_grant_nonce := grant_nonce.1;
        rvk_issued_seq := issued_seq.1 |}.

(** The message both schemes sign. *)
Definition signed_message (prefix : string) (payload : list Z) : list Z :=
  as_bytes prefix ++ payload.

Section Crypto.
Context `{DataEncoding, WireCrypto}.

Definition b64_decode (seg : string) (out_len : nat) : result WireError (list Z) :=
  let? len := ok_or (base64url_decode_len (str_len seg)) BadBase64 in
  if Z.of_nat out_len <? len then Err BadBase64
  else ok_or (base64url_decode seg) BadBase64.

Definition verify_sig (key : PublicKey) (message sig : list Z) : result WireError unit :=
  match key with
  | PkEd25519 pk =>
      if negb (ed25519_key_ok pk) then Err BadKey
      else if ed25519_verify pk message sig then Ok tt else Err WBadSignature
  | PkP256Sec1 sec1 =>
      if negb (p256_key_ok sec1) then Err BadKey
      else if negb (p256_sig_ok sig) then Err WBadSignature
      else if p256_verify_prehash sec1 (sha256 message) sig then Ok tt else Err WBadSignature
  end.

(** The payload of a token that verifies. *)
Definition open_token (prefix : string) (key : PublicKey) (token : string)
    : result WireError (list Z) :=
  let? rest := ok_or (strip_prefix prefix token) BadPrefix in
  let? halves := ok_or (split_once "."%char rest) BadBase64 in
  let? payload := b64_decode halves.1 MAX_PAYLOAD_LEN in
  let? sig := b64_decode halves.2 SIG_LEN in
  if negb (Nat.eqb (length sig) SIG_LEN) then Err WBadSignature
  else
    let? _ := verify_sig key (signed_message prefix payload) sig in
    Ok payload.

Definition verify_capability (key : PublicKey) (token : string) : result WireError Capability :=
  let? payload := open_token CAP_PREFIX key token in
  let? c := decode_capability payload in
  if negb (cap_ver c =? pk_ver key) then Err VersionKeyMismatch else Ok c.

Definition verify_revocation (key : PublicKey) (token : string) : result WireError Revocation :=
  let? payload := open_token RVK_PREFIX key token in
  let? r := decode_revocation payload in
  if negb (rvk_ver r =? pk_ver key) then Err VersionKeyMismatch else Ok r.

Definition sign_message (key : SigningKey) (message : list Z) : result WireError (list Z) :=
  match key with
  | SkEd25519Seed seed => Ok (ed25519_sign seed message)
  | SkP256Scalar scalar =>
      if negb (p256_scalar_ok scalar) then Err BadKey else Ok (p256_sign scalar message)
  end.

Definition assemble (prefix : string) (key : SigningKey) (payload : list Z)
    : result WireError string :=
  let? sig := sign_message key (signed_message prefix payload) in
  let total := str_len prefix + base64url_encode_len (Z.of_nat (length payload)) + 1
               + base64url_encode_len (Z.of_nat SIG_LEN) in
  if MAX_TOKEN_LEN <? total then Err BufferTooSmall
  else Ok (prefix +:+ base64url_encode payload +:+ "." +:+ base64url_encode sig).

Definition sign_capability_into (key : SigningKey) (c : Capability) : result WireError string :=
  if negb (cap_ver c =? sk_ver key) then Err VersionKeyMismatch
  else
    let? payload := encode_capability c MAX_PAYLOAD_LEN in
    assemble CAP_PREFIX key payload.

Definition sign_revocation_into (key : SigningKey) (r : Revocation) : result WireError string :=
  if negb (rvk_ver r =? sk_ver key) then Err VersionKeyMismatch
  else
    let? payload := encode_revocation r MAX_PAYLOAD_LEN in
    assemble RVK_PREFIX key payload.
End Crypto.

(** ** The ranges of the Rust types *)

Definition cap_typed (c : Capability) : Prop :=
  (cap_ver c = VER_ED25519 \/ cap_ver c = VER_P256)
  /\ length (cap_device_id c) = 16%nat /\ Forall is_u8 (cap_device_id c)
  /\ length (cap_grant_nonce c) = 16%nat /\ Forall is_u8 (cap_grant_nonce c)
  /\ is_u32 (cap_capability c) /\ is_u32 (cap_ttl_secs c) /\ is_u64 (cap_issued_seq c).

Definition rvk_typed (r : Revocation) : Prop :=
  (rvk_ver r = VER_ED25519 \/ rvk_ver r = VER_P256)
  /\ length (rvk_device_id r) = 16%nat /\ Forall is_u8 (rvk_device_id r)
  /\ length (rvk_grant_nonce r) = 16%nat /\ Forall is_u8 (rvk_grant_nonce r)
  /\ is_u64 (rvk_issued_seq r).

(** ** Lemmas *)

Definition cap_bytes (c : Capability) : list Z :=
  head_bytes MAJOR_MAP 6 ++ uint_entry_bytes 0 (cap_ver c) ++ bstr_entry_bytes 1 (cap_device_id c)
  ++ bstr_entry_bytes 2 (cap_grant_nonce c) ++ uint_entry_bytes 3 (cap_capability c)
  ++ uint_entry_bytes 4 (cap_ttl_secs c) ++ uint_entry_bytes 5 (cap_issued_seq c).

Definition rvk_bytes (r : Revocation) : list Z :=
  head_bytes MAJOR_MAP 4 ++ uint_entry_bytes 0 (rvk_ver r) ++ bstr_entry_bytes 1 (rvk_device_id r)
  ++ bstr_entry_bytes 2 (rvk_grant_nonce r) ++ uint_entry_bytes 3 (rvk_issued_seq r).

(** A chain of writes is one write of everything. *)
Lemma written_step w bs (k : Writer -> result WireError (list Z)) bs' :
  (length (out w) <= cap w)%nat ->
  (forall w', (length (out w') <= cap w')%nat ->
     k w' = result_map out (written w' bs')) ->
  (let? w' := written w bs in k w') = result_map out (written w (bs ++ bs')).
Proof.
  intros Hw Hk. rewrite <-written_bind. destruct (written w bs) eqn:Hb; [|done].
  apply Hk. by eapply written_le.
Qed.

Lemma written_last w bs : (let? w' := written w bs in Ok (out w')) = result_map out (written w bs).
Proof. by destruct (written w bs). Qed.

Ltac write_chain :=
  repeat first
    [ apply written_last
    | apply written_step; [first [done | cbn; lia]|]; intros ? ?;
      first [ rewrite write_uint_entry_written by (done || lia)
            | rewrite write_bstr_entry_written by (done || lia) ] ].

Lemma u32_nonneg v : is_u32 v -> 0 <= v.
Proof. unfold is_u32. lia. Qed.
Lemma u64_nonneg v : is_u64 v -> 0 <= v.
Proof. unfold is_u64. lia. Qed.
#[export] Hint Resolve u32_nonneg u64_nonneg : lychgate.

Lemma encode_capability_bytes c capacity :
  cap_typed c ->
  encode_capability c capacity =
    if (length (cap_bytes c) <=? capacity)%nat then Ok (cap_bytes c) else Err BufferTooSmall.
Proof.
  intros (Hv & _ & _ & _ & _ & Hc%u32_nonneg & Ht%u32_nonneg & Hs%u64_nonneg).
  assert (0 <= cap_ver c) by (unfold VER_ED25519, VER_P256 in Hv; lia).
  transitivity (result_map out (written (writer_new capacity) (cap_bytes c))).
  - unfold encode_capability, write_map, cap_bytes.
    rewrite write_head_written by (cbn; lia). write_chain.
  - unfold written, writer_new. cbn [out cap app length Nat.add]. by destruct (_ <=? _)%nat.
Qed.

Lemma encode_revocation_bytes r capacity :
  rvk_typed r ->
  encode_revocation r capacity =
    if (length (rvk_bytes r) <=? capacity)%nat then Ok (rvk_bytes r) else Err BufferTooSmall.
Proof.
  intros (Hv & _ & _ & _ & _ & Hs%u64_nonneg).
  assert (0 <= rvk_ver r) by (unfold VER_ED25519, VER_P256 in Hv; lia).
  transitivity (result_map out (written (writer_new capacity) (rvk_bytes r))).
  - unfold encode_revocation, write_map, rvk_bytes.
    rewrite write_head_written by (cbn; lia). write_chain.
  - unfold written, writer_new. cbn [out cap app length Nat.add]. by destruct (_ <=? _)%nat.
Qed.

Lemma ver_u64 v : v = VER_ED25519 \/ v = VER_P256 -> is_u64 v /\ v < 24.
Proof. unfold is_u64, u64_max, VER_ED25519, VER_P256. lia. Qed.

Lemma head_small major k : 0 <= k < 24 -> length (head_bytes major k) = 1%nat.
Proof. intros Hk. unfold head_bytes. by rewrite (proj2 (Z.ltb_lt _ _)) by lia. Qed.

Lemma length_bstr_entry k v :
  0 <= k < 24 -> length v = 16%nat -> length (bstr_entry_bytes k v) = 18%nat.
Proof.
  intros Hk Hv. unfold bstr_entry_bytes. rewrite !length_app, Hv.
  rewrite (head_small MAJOR_UINT k) by done.
  done.
Qed.

Lemma length_uint_entry_u32 k v :
  0 <= k < 24 -> is_u32 v -> (length (uint_entry_bytes k v) <= 6)%nat.
Proof.
  unfold is_u32, u32_max. intros Hk Hv. unfold uint_entry_bytes. rewrite length_app.
  rewrite (head_small MAJOR_UINT k) by done.
  destruct (head_bytes_length MAJOR_UINT v) as (_ & Hl & _);
    [unfold is_u64, u64_max; lia|]. unfold u32_max in Hl. lia.
Qed.

Lemma length_uint_entry_u64 k v :
  0 <= k < 24 -> is_u64 v -> (length (uint_entry_bytes k v) <= 10)%nat.
Proof.
  intros Hk Hv. unfold uint_entry_bytes. rewrite length_app.
  rewrite (head_small MAJOR_UINT k) by done.
  destruct (head_bytes_length MAJOR_UINT v) as (Hl & _ & _); [done|]. lia.
Qed.

Lemma length_ver_entry v :
  v = VER_ED25519 \/ v = VER_P256 -> length (uint_entry_bytes 0 v) = 2%nat.
Proof. by intros [-> | ->]. Qed.

Lemma cap_bytes_fit c : cap_typed c -> (length (cap_bytes c) <= MAX_PAYLOAD_LEN)%nat.
Proof.
  intros (Hv & Hd & _ & Hn & _ & Hc & Ht & Hs). unfold cap_bytes. rewrite !length_app.
  rewrite length_ver_entry, !length_bstr_entry by (done || lia).
  pose proof (length_uint_entry_u32 3 _ ltac:(lia) Hc).
  pose proof (length_uint_entry_u32 4 _ ltac:(lia) Ht).
  pose proof (length_uint_entry_u64 5 _ ltac:(lia) Hs).
  change (length (head_bytes MAJOR_MAP 6)) with 1%nat. unfold MAX_PAYLOAD_LEN. lia.
Qed.

Lemma rvk_bytes_fit r : rvk_typed r -> (length (rvk_bytes r) <= MAX_PAYLOAD_LEN)%nat.
Proof.
  intros (Hv & Hd & _ & Hn & _ & Hs). unfold rvk_bytes. rewrite !length_app.
  rewrite length_ver_entry, !length_bstr_entry by (done || lia).
  pose proof (length_uint_entry_u64 3 _ ltac:(lia) Hs).
  change (length (head_bytes MAJOR_MAP 4)) with 1%nat. unfold MAX_PAYLOAD_LEN. lia.
Qed.

Lemma u32_is_u64 v : is_u32 v -> is_u64 v.
Proof. unfold is_u32, is_u64, u32_max, u64_max. lia. Qed.

Lemma small_u64 k : 0 <= k <= 24 -> is_u64 k.
Proof. unfold is_u64, u64_max. lia. Qed.

Lemma cap_bytes_u8 c : cap_typed c -> Forall is_u8 (cap_bytes c).
Proof.
  intros (Hv & Hd & Hd' & Hn & Hn' & Hc & Ht & Hs). unfold cap_bytes. rewrite !Forall_app.
  split_and!; first [apply uint_entry_bytes_u8 | apply bstr_entry_bytes_u8 | apply head_bytes_u8];
    try done; try (by apply small_u64); try (by apply u32_is_u64). by apply ver_u64.
Qed.

Lemma rvk_bytes_u8 r : rvk_typed r -> Forall is_u8 (rvk_bytes r).
Proof.
  intros (Hv & Hd & Hd' & Hn & Hn' & Hs). unfold rvk_bytes. rewrite !Forall_app.
  split_and!; first [apply uint_entry_bytes_u8 | apply bstr_entry_bytes_u8 | apply head_bytes_u8];
    try done; try (by apply small_u64). by apply ver_u64.
Qed.

Lemma read_ver_bytes v rest :
  v = VER_ED25519 \/ v = VER_P256 -> read_ver (uint_entry_bytes 0 v ++ rest) = Ok (v, rest).
Proof.
  intros Hv. unfold read_ver. rewrite read_uint_entry_bytes by (done || by apply ver_u64).
  cbn [fst]. by destruct Hv as [-> | ->].
Qed.

Lemma read_ver_inv v r rest :
  Forall is_u8 r -> read_ver r = Ok (v, rest) ->
  r = uint_entry_bytes 0 v ++ rest /\ (v = VER_ED25519 \/ v = VER_P256).
Proof.
  intros Hu. unfold read_ver. destruct (read_uint_entry 0 _ r) as [[v' rest']|] eqn:Hr; [|done].
  cbn [fst]. case_goal; [|done]. intros. simplify_eq.
  apply read_uint_entry_inv in Hr as [-> _]; [|done]. split; [done|].
  apply orb_true_iff in Heqb as [?|?]; bool_prop; eauto.
Qed.

Lemma decode_cap_bytes c : cap_typed c -> decode_capability (cap_bytes c) = Ok c.
Proof.
  intros (Hv & Hd & Hd' & Hn & Hn' & Hc & Ht & Hs). unfold decode_capability, cap_bytes.
  rewrite read_map_bytes by done. rewrite read_ver_bytes by done. cbn [fst snd].
  rewrite read_bstr16_entry_bytes by done. cbn [fst snd].
  rewrite read_bstr16_entry_bytes by done. cbn [fst snd].
  rewrite read_uint_entry_u32_bytes by done. cbn [fst snd].
  rewrite read_uint_entry_u32_bytes by done. cbn [fst snd].
  rewrite <-(app_nil_r (uint_entry_bytes 5 _)), read_uint_entry_bytes by done. by destruct c.
Qed.

Lemma decode_rvk_bytes r : rvk_typed r -> decode_revocation (rvk_bytes r) = Ok r.
Proof.
  intros (Hv & Hd & Hd' & Hn & Hn' & Hs). unfold decode_revocation, rvk_bytes.
  rewrite read_map_bytes by done. rewrite read_ver_bytes by done. cbn [fst snd].
  rewrite read_bstr16_entry_bytes by done. cbn [fst snd].
  rewrite read_bstr16_entry_bytes by done. cbn [fst snd].
  rewrite <-(app_nil_r (uint_entry_bytes 3 _)), read_uint_entry_bytes by done. by destruct r.
Qed.

(** Peel one entry off a successful decode. *)
Ltac peel H lemma :=
  match type of H with
  | (let? _ := ?x in _) = Ok _ =>
      let E := fresh "E" in
      destruct x as [[]|] eqn:E; [|done]; cbn [fst snd] in H;
      apply lemma in E as [-> ?]; [|assumption];
      match goal with Hu : Forall is_u8 (_ ++ _) |- _ => apply Forall_app in Hu as [? Hu] end
  end.

Lemma decode_capability_inv bs c :
  Forall is_u8 bs -> decode_capability bs = Ok c -> cap_typed c /\ bs = cap_bytes c.
Proof.
  intros Hu Hd. unfold decode_capability in Hd.
  destruct (read_map 6 bs) as [r|] eqn:Hm; [|done].
  apply read_map_inv in Hm as ->; [|done]. apply Forall_app in Hu as [_ Hu].
  peel Hd read_ver_inv. peel Hd read_bstr16_entry_inv. peel Hd read_bstr16_entry_inv.
  peel Hd read_uint_entry_u32_inv. peel Hd read_uint_entry_u32_inv. peel Hd read_uint_entry_inv.
  match type of Hd with (let? _ := read_end ?l in _) = _ => destruct l; [|done] end.
  cbn [read_end] in Hd. simplify_eq. unfold cap_typed, cap_bytes. cbn.
  repeat match goal with
  | H : Forall is_u8 (bstr_entry_bytes _ _) |- _ =>
      unfold bstr_entry_bytes in H; rewrite !Forall_app in H; destruct H as (_ & _ & ?)
  end. rewrite app_nil_r. split_and!; done.
Qed.

Lemma decode_revocation_inv bs r :
  Forall is_u8 bs -> decode_revocation bs = Ok r -> rvk_typed r /\ bs = rvk_bytes r.
Proof.
  intros Hu Hd. unfold decode_revocation in Hd.
  destruct (read_map 4 bs) as [r'|] eqn:Hm; [|done].
  apply read_map_inv in Hm as ->; [|done]. apply Forall_app in Hu as [_ Hu].
  peel Hd read_ver_inv. peel Hd read_bstr16_entry_inv. peel Hd read_bstr16_entry_inv.
  peel Hd read_uint_entry_inv.
  match type of Hd with (let? _ := read_end ?l in _) = _ => destruct l; [|done] end.
  cbn [read_end] in Hd. simplify_eq. unfold rvk_typed, rvk_bytes. cbn.
  repeat match goal with
  | H : Forall is_u8 (bstr_entry_bytes _ _) |- _ =>
      unfold bstr_entry_bytes in H; rewrite !Forall_app in H; destruct H as (_ & _ & ?)
  end. rewrite app_nil_r. split_and!; done.
Qed.

(** ** Properties of the payload codec *)

(** One encoding per capability: every well-typed capability encodes into
    the fixed buffer, decodes back to itself, and a byte string that decodes
    to it is exactly that encoding, so signing and re-encoding can never
    disagree. *)
Theorem capability_codec_bijective (c : Capability) (Hc : cap_typed c) :
  exists bs, encode_capability c MAX_PAYLOAD_LEN = Ok bs /\ (length bs <= MAX_PAYLOAD_LEN)%nat
    /\ decode_capability bs = Ok c
    /\ forall bs', Forall is_u8 bs' -> decode_capability bs' = Ok c -> bs' = bs.
Proof.
  exists (cap_bytes c). rewrite encode_capability_bytes by done.
  pose proof (cap_bytes_fit c Hc) as Hf. rewrite (proj2 (Nat.leb_le _ _)) by done.
  split_and!; [done|done|by apply decode_cap_bytes|].
  intros bs' Hu Hd. by apply decode_capability_inv in Hd as [_ ->].
Qed.

(** One encoding per revocation: every well-typed revocation encodes into
    the fixed buffer, decodes back to itself, and no other byte string
    decodes to it. *)
Theorem revocation_codec_bijective (r : Revocation) (Hr : rvk_typed r) :
  exists bs, encode_revocation r MAX_PAYLOAD_LEN = Ok bs /\ (length bs <= MAX_PAYLOAD_LEN)%nat
    /\ decode_revocation bs = Ok r
    /\ forall bs', Forall is_u8 bs' -> decode_revocation bs' = Ok r -> bs' = bs.
Proof.
  exists (rvk_bytes r). rewrite encode_revocation_bytes by done.
  pose proof (rvk_bytes_fit r Hr) as Hf. rewrite (proj2 (Nat.leb_le _ _)) by done.
  split_and!; [done|done|by apply decode_rvk_bytes|].
  intros bs' Hu Hd. by apply decode_revocation_inv in Hd as [_ ->].
Qed.

(** ** Properties of the tokens *)

Section TokenProps.
Context `{DataEncodingLaws, WireCryptoLaws}.

(** The public half of a signing key, and whether the key is one. *)
Definition public_of (key : SigningKey) : PublicKey :=
  match key with
  | SkEd25519Seed seed => PkEd25519 (ed25519_public seed)
  | SkP256Scalar d => PkP256Sec1 (p256_public d)
  end.
Definition key_ok (key : SigningKey) : Prop :=
  match key with
  | SkEd25519Seed _ => True
  | SkP256Scalar d => p256_scalar_ok d = true
  end.

Lemma b64_decode_encode_fit bs n :
  Forall is_u8 bs -> (length bs <= n)%nat -> b64_decode (base64url_encode bs) n = Ok bs.
Proof.
  intros Hu Hl. unfold b64_decode. pose proof (base64url_decode_encode bs Hu) as Hd.
  rewrite (base64url_decode_length _ _ Hd), Hd. cbn. by rewrite (proj2 (Z.ltb_ge _ _)) by lia.
Qed.

Lemma sign_message_verifies key m :
  key_ok key -> exists sig, sign_message key m = Ok sig /\ length sig = SIG_LEN
    /\ Forall is_u8 sig /\ verify_sig (public_of key) m sig = Ok tt.
Proof.
  destruct key as [seed|d]; cbn; intros Hk.
  - eexists. split; [done|]. split; [apply ed25519_sign_length|]. split; [apply ed25519_sign_u8|].
    by rewrite ed25519_public_ok, ed25519_verify_sign.
  - rewrite Hk. cbn. eexists. split; [done|]. split; [apply p256_sign_length|].
    split; [apply p256_sign_u8|].
    by rewrite p256_public_ok, p256_sign_sig_ok, p256_verify_sign.
Qed.

Lemma base64_no_dot bs :
  Forall is_u8 bs ->
  str_forall (fun a => negb (bool_decide (a = "."%char))) (base64url_encode bs) = true.
Proof.
  intros Hu. eapply str_forall_impl; [|by apply base64url_encode_alphabet].
  intros c Hc. case_bool_decide as E; [|done]. by subst.
Qed.

Lemma assemble_opens prefix key payload :
  str_len prefix = 6 -> key_ok key -> Forall is_u8 payload ->
  (length payload <= MAX_PAYLOAD_LEN)%nat ->
  exists token, assemble prefix key payload = Ok token /\ str_len token <= MAX_TOKEN_LEN
    /\ open_token prefix (public_of key) token = Ok payload.
Proof.
  intros Hp Hk Hu Hl. unfold assemble.
  destruct (sign_message_verifies key (signed_message prefix payload) Hk)
    as (sig & -> & Hsl & Hsu & Hv).
  assert (Hb : base64url_encode_len (Z.of_nat (length payload)) <= 82).
  { rewrite base64url_encode_len_eq by lia. unfold MAX_PAYLOAD_LEN in Hl.
    assert ((8 * Z.of_nat (length payload) + 5) / 6 <= (8 * 61 + 5) / 6)
      by (apply Z.div_le_mono; lia). done. }
  assert (Hs : base64url_encode_len (Z.of_nat SIG_LEN) = 86)
    by (by rewrite base64url_encode_len_eq).
  rewrite Hs, Hp. unfold MAX_TOKEN_LEN. rewrite (proj2 (Z.ltb_ge _ _)) by lia.
  eexists. split; [done|]. split.
  - rewrite !str_len_app, !base64url_encode_length, Hsl, Hs, Hp.
    change (str_len ".") with 1. lia.
  - unfold open_token. rewrite strip_prefix_app. cbn [ok_or].
    change ("." +:+ base64url_encode sig) with (String "."%char (base64url_encode sig)).
    rewrite split_once_app by (by apply base64_no_dot). cbn [ok_or fst snd].
    rewrite !b64_decode_encode_fit by (done || lia). rewrite Hsl. cbn. by rewrite Hv.
Qed.

Lemma signed_capability_opens (key : SigningKey) (c : Capability)
    (Hk : key_ok key) (Hc : cap_typed c) (Hv : cap_ver c = sk_ver key) :
  exists token, sign_capability_into key c = Ok token /\ str_len token <= MAX_TOKEN_LEN
    /\ verify_capability (public_of key) token = Ok c.
Proof.
  unfold sign_capability_into. rewrite Hv, Z.eqb_refl. cbn [negb].
  rewrite encode_capability_bytes by done.
  pose proof (cap_bytes_fit c Hc) as Hf. rewrite (proj2 (Nat.leb_le _ _)) by done.
  destruct (assemble_opens CAP_PREFIX key (cap_bytes c)) as (token & -> & Hl & Ho);
    [done|done|by apply cap_bytes_u8|done|].
  exists token. split; [done|]. split; [done|]. unfold verify_capability. rewrite Ho.
  rewrite decode_cap_bytes by done. rewrite Hv. by destruct key.
Qed.

(** Signed tokens verify: every well-typed capability whose version
    matches the key is signed into a token that fits the fixed buffer, and
    the device holding the public half recovers exactly that capability. *)
Theorem sign_verify_capability (key : SigningKey) (c : Capability)
    (Hk : key_ok key) (Hc : cap_typed c) (Hv : cap_ver c = sk_ver key) :
  exists token, sign_capability_into key c = Ok token /\ str_len token <= MAX_TOKEN_LEN
    /\ verify_capability (public_of key) token = Ok c.
Proof. by apply signed_capability_opens. Qed.

(** Signed revocations verify: every well-typed revocation whose version
    matches the key is signed into a token that fits the fixed buffer and
    verifies back to itself under the public half. *)
Theorem sign_verify_revocation (key : SigningKey) (r : Revocation)
    (Hk : key_ok key) (Hc : rvk_typed r) (Hv : rvk_ver r = sk_ver key) :
  exists token, sign_revocation_into key r = Ok token /\ str_len token <= MAX_TOKEN_LEN
    /\ verify_revocation (public_of key) token = Ok r.
Proof.
  unfold sign_revocation_into. rewrite Hv, Z.eqb_refl. cbn [negb].
  rewrite encode_revocation_bytes by done.
  pose proof (rvk_bytes_fit r Hc) as Hf. rewrite (proj2 (Nat.leb_le _ _)) by done.
  destruct (assemble_opens RVK_PREFIX key (rvk_bytes r)) as (token & -> & Hl & Ho);
    [done|done|by apply rvk_bytes_u8|done|].
  exists token. split; [done|]. split; [done|]. unfold verify_revocation. rewrite Ho.
  rewrite decode_rvk_bytes by done. rewrite Hv. by destruct key.
Qed.

Lemma open_token_inv prefix key token payload :
  open_token prefix key token = Ok payload ->
  Forall is_u8 payload /\ (exists rest, token = prefix +:+ rest) /\
  exists sig, length sig = SIG_LEN /\ verify_sig key (signed_message prefix payload) sig = Ok tt.
Proof.
  unfold open_token. destruct (strip_prefix prefix token) as [rest|] eqn:Hp; [|done]. cbn [ok_or].
  apply strip_prefix_Some in Hp as ->.
  destruct (split_once "."%char rest) as [[l r]|]; [|done]. cbn [ok_or fst snd].
  destruct (b64_decode l MAX_PAYLOAD_LEN) as [pl|] eqn:Hl; [|done].
  destruct (b64_decode r SIG_LEN) as [sig|] eqn:Hr; [|done].
  destruct (Nat.eqb_spec (length sig) SIG_LEN) as [Hs|]; [|done]. cbn [negb].
  destruct (verify_sig _ _ sig) as [[]|] eqn:Hv; [|done]. intros. simplify_eq.
  split; [|eauto 10]. unfold b64_decode in Hl. repeat case_hyp Hl; try done.
  destruct (base64url_decode l) eqn:Hd; [|done]. cbn in Hl. simplify_eq.
  by eapply base64url_decode_u8.
Qed.

Lemma verify_capability_inv key token c :
  verify_capability key token = Ok c ->
  cap_typed c /\ cap_ver c = pk_ver key
  /\ (exists rest, token = CAP_PREFIX +:+ rest)
  /\ exists sig, verify_sig key (signed_message CAP_PREFIX (cap_bytes c)) sig = Ok tt.
Proof.
  intros Hv. unfold verify_capability in Hv.
  destruct (open_token CAP_PREFIX key token) as [payload|] eqn:Ho; [|done].
  destruct (decode_capability payload) as [c'|] eqn:Hd; [|done].
  destruct (Z.eqb_spec (cap_ver c') (pk_ver key)) as [He|]; [|done]. cbn in Hv. simplify_eq.
  apply open_token_inv in Ho as (Hu & (rest & ->) & sig & _ & Hs).
  apply decode_capability_inv in Hd as [Ht ->]; [|done]. split_and!; eauto.
Qed.

Lemma verify_revocation_typed key token r : verify_revocation key token = Ok r -> rvk_typed r.
Proof.
  intros Hv. unfold verify_revocation in Hv.
  destruct (open_token RVK_PREFIX key token) as [payload|] eqn:Ho; [|done].
  destruct (decode_revocation payload) as [r'|] eqn:Hd; [|done].
  destruct (Z.eqb_spec (rvk_ver r') (pk_ver key)) as [He|]; [|done]. cbn in Hv. simplify_eq.
  apply open_token_inv in Ho as (Hu & _). by apply decode_revocation_inv in Hd as [Ht _].
Qed.

(** C22. Only what was signed: a capability a device accepts is well typed,
    of the version of its key, and carries a signature that verifies under
    that key over the capability prefix and the capability's one encoding.
    The token is no revocation, and no revocation message equals that
    signed message, so neither kind can stand in for the other. *)
Theorem verified_capability_is_signed (key : PublicKey) (token : string) (c : Capability)
    (Hv : verify_capability key token = Ok c) :
  cap_typed c /\ cap_ver c = pk_ver key
  /\ (exists sig, verify_sig key (signed_message CAP_PREFIX (cap_bytes c)) sig = Ok tt)
  /\ (forall key', verify_revocation key' token = Err BadPrefix)
  /\ (forall payload, signed_message RVK_PREFIX payload
         <> signed_message CAP_PREFIX (cap_bytes c)).
Proof.
  apply verify_capability_inv in Hv as (Ht & Hver & (rest & ->) & Hs).
  split_and!; eauto; intros; done.
Qed.
End TokenProps.

(** ** Witnesses *)

Definition sample_cap : Capability :=
  {| cap_ver := 1; cap_device_id := replicate 16 7; cap_grant_nonce := replicate 16 9;
     cap_capability := 3; cap_ttl_secs := 600; cap_issued_seq := 70000 |}.
Definition sample_rvk : Revocation :=
  {| rvk_ver := 1; rvk_device_id := replicate 16 7; rvk_grant_nonce := replicate 16 9;
     rvk_issued_seq := 70001 |}.
Definition sample_key : SigningKey := SkEd25519Seed (replicate 32 1).

Lemma sample_cap_typed : cap_typed sample_cap.
Proof. unfold cap_typed. split_and!; [by left|..]; apply (bool_decide_unpack _); by vm_compute. Qed.
Lemma sample_rvk_typed : rvk_typed sample_rvk.
Proof. unfold rvk_typed. split_and!; [by left|..]; apply (bool_decide_unpack _); by vm_compute. Qed.

Lemma capability_codec_bijective_witness :
  cap_typed sample_cap /\
  exists bs, encode_capability sample_cap MAX_PAYLOAD_LEN = Ok bs
    /\ (length bs <= MAX_PAYLOAD_LEN)%nat /\ decode_capability bs = Ok sample_cap
    /\ forall bs', Forall is_u8 bs' -> decode_capability bs' = Ok sample_cap -> bs' = bs.
Proof.
  split; [exact sample_cap_typed|]. exact (capability_codec_bijective sample_cap sample_cap_typed).
Defined.

Lemma revocation_codec_bijective_witness :
  rvk_typed sample_rvk /\
  exists bs, encode_revocation sample_rvk MAX_PAYLOAD_LEN = Ok bs
    /\ (length bs <= MAX_PAYLOAD_LEN)%nat /\ decode_revocation bs = Ok sample_rvk
    /\ forall bs', Forall is_u8 bs' -> decode_revocation bs' = Ok sample_rvk -> bs' = bs.
Proof.
  split; [exact sample_rvk_typed|]. exact (revocation_codec_bijective sample_rvk sample_rvk_typed).
Defined.

Lemma sign_verify_capability_witness :
  cap_typed sample_cap /\ cap_ver sample_cap = sk_ver sample_key /\
  exists token, sign_capability_into sample_key sample_cap = Ok token
    /\ str_len token <= MAX_TOKEN_LEN
    /\ verify_capability (public_of sample_key) token = Ok sample_cap.
Proof.
  split; [exact sample_cap_typed|]. split; [reflexivity|].
  exact (sign_verify_capability sample_key sample_cap I sample_cap_typed eq_refl).
Defined.

Lemma sign_verify_revocation_witness :
  rvk_typed sample_rvk /\ rvk_ver sample_rvk = sk_ver sample_key /\
  exists token, sign_revocation_into sample_key sample_rvk = Ok token
    /\ str_len token <= MAX_TOKEN_LEN
    /\ verify_revocation (public_of sample_key) token = Ok sample_rvk.
Proof.
  split; [exact sample_rvk_typed|]. split; [reflexivity|].
  exact (sign_verify_revocation sample_key sample_rvk I sample_rvk_typed eq_refl).
Defined.

Definition sample_token : string :=
  match sign_capability_into sample_key sample_cap with Ok t => t | Err _ => "" end.

Lemma verified_capability_is_signed_witness :
  let key := public_of sample_key in
  verify_capability key sample_token = Ok sample_cap /\
  (cap_typed sample_cap /\ cap_ver sample_cap = pk_ver key
   /\ (exists sig, verify_sig key (signed_message CAP_PREFIX (cap_bytes sample_cap)) sig = Ok tt)
   /\ (forall key', verify_revocation key' sample_token = Err BadPrefix)
   /\ (forall payload, signed_message RVK_PREFIX payload
          <> signed_message CAP_PREFIX (cap_bytes sample_cap))).
Proof.
  cbn zeta.
  assert (Hv : verify_capability (public_of sample_key) sample_token = Ok sample_cap)
    by (vm_compute; reflexivity).
  split; [exact Hv|]. exact (verified_capability_is_signed _ _ _ Hv).
Defined.
