(* ===== verification/Line.v ===== *)
(** * Line: the device line protocol (wire/src/line.rs)

    Commands and replies as the two ends exchange them, rendered into a
    fixed buffer and parsed back.  A borrowed word is a [string]; the
    fixed-buffer writer is the text written so far, refused when it would
    pass [MAX_LINE_LEN]. *)

From S2P Require Import Prelude Text Clock External Reference Approval Cbor Token.

Definition MAX_LINE_LEN : Z := 4 + MAX_TOKEN_LEN + 16.

Inductive Command :=
| CToken (token : string)
| CRevoke (token : string)
| CStatus
| CSePubkey
| CSeSign (challenge : string).

Inductive CloseReason := Revert | Expiry | Boot.
Inductive FailState := Energized | DeEnergized.

#[export] Instance Command_eq_dec : EqDecision Command.
Proof. solve_decision. Defined.
#[export] Instance CloseReason_eq_dec : EqDecision CloseReason.
Proof. solve_decision. Defined.
#[export] Instance FailState_eq_dec : EqDecision FailState.
Proof. solve_decision. Defined.

Record Report := {
  rp_open : option (list Z * Z);
  rp_seq : Z;
  rp_load : option bool;
  rp_fail : option FailState;
  rp_reason : option CloseReason;
}.

Inductive Reply :=
| AckOpen (nonce : list Z) (remaining_secs : Z)
| AckClosed
| Nak (reason : string)
| State (report : Report)
| Pubkey (hex : string)
| Sig (token : string).

#[export] Instance Report_eq_dec : EqDecision Report.
Proof. solve_decision. Defined.
#[export] Instance Reply_eq_dec : EqDecision Reply.
Proof. solve_decision. Defined.

(** ** The nonce in hexadecimal *)

Definition HEX : string := "0123456789abcdef".

Definition hex_digit (d : Z) : ascii := default "0"%char (String.get (Z.to_nat d) HEX).

Fixpoint hex_nonce (nonce : list Z) : string :=
  match nonce with
  | [] => ""
  | b :: rest =>
      String (hex_digit (Z.shiftr b 4)) (String (hex_digit (Z.land b 15)) (hex_nonce rest))
  end.

(** [char::to_digit(16)]. *)
Definition to_digit16 (c : ascii) : option Z :=
  let b := byte_of_ascii c in
  if (48 <=? b) && (b <=? 57) then Some (b - 48)
  else if (97 <=? b) && (b <=? 102) then Some (b - 97 + 10)
  else if (65 <=? b) && (b <=? 70) then Some (b - 65 + 10)
  else None.

(** The loop over the pairs of digits. *)
Fixpoint hex_pairs (s : string) : result WireError (list Z) :=
  match s with
  | String h (String l rest) =>
      let? hi := ok_or (to_digit16 h) (WMalformed "nonce is not hex") in
      let? lo := ok_or (to_digit16 l) (WMalformed "nonce is not hex") in
      let? bytes := hex_pairs rest in
      Ok (Z.lor (Z.shiftl hi 4) lo :: bytes)
  | _ => Ok []
  end.

Definition parse_hex_nonce (s : string) : result WireError (list Z) :=
  if negb (str_len s =? 32) then Err (WMalformed "nonce is not 32 hex chars")
  else hex_pairs s.

(** ** Rendering *)

(** [Line::push] on the text so far. *)
Definition line_push (line s : string) : result WireError string :=
  if MAX_LINE_LEN <? str_len line + str_len s then Err BufferTooSmall
  else Ok (line +:+ s).

(** [Line::push_u64]: its twenty-digit buffer is [dec_u64]'s. *)
Definition push_u64 (line : string) (n : Z) : result WireError string :=
  line_push line (dec_u64 n).

Definition render_command (cmd : Command) : result WireError string :=
  match cmd with
  | CToken t => let? line := line_push "" "TOK " in line_push line t
  | CRevoke t => let? line := line_push "" "RVK " in line_push line t
  | CStatus => line_push "" "STAT"
  | CSePubkey => line_push "" "SE-PUBKEY?"
  | CSeSign c => let? line := line_push "" "SE-SIGN " in line_push line c
  end.

(** The optional trailers of a report. *)
Definition push_opt (line : string) (s : option string) : result WireError string :=
  match s with Some s => line_push line s | None => Ok line end.

Definition load_trailer (b : bool) : string := if b then " load=on" else " load=off".
Definition fail_trailer (f : FailState) : string :=
  match f with Energized => " fail=energized" | DeEnergized => " fail=de-energized" end.
Definition reason_trailer (r : CloseReason) : string :=
  match r with
  | Revert => " reason=revert" | Expiry => " reason=expiry" | Boot => " reason=boot"
  end.

(** The [match &report.open]. *)
Definition push_head (line : string) (open : option (list Z * Z)) : result WireError string :=
  match open with
  | Some (nonce, remaining) =>
      let? line := line_push line "open " in
      let? line := line_push line (hex_nonce nonce) in
      let? line := line_push line " " in
      push_u64 line remaining
  | None => line_push line "closed"
  end.

Definition render_report (report : Report) : result WireError string :=
  let? line := line_push "" "STATE " in
  let? line := push_head line (rp_open report) in
  let? line := line_push line " seq=" in
  let? line := push_u64 line (rp_seq report) in
  let? line := push_opt line (load_trailer <$> rp_load report) in
  let? line := push_opt line (fail_trailer <$> rp_fail report) in
  push_opt line (reason_trailer <$> rp_reason report).

Definition render_reply (reply : Reply) : result WireError string :=
  match reply with
  | AckOpen nonce remaining_secs =>
      let? line := line_push "" "ACK " in
      let? line := line_push line (hex_nonce nonce) in
      let? line := line_push line " " in
      push_u64 line remaining_secs
  | AckClosed => line_push "" "ACK closed"
  | Nak reason => let? line := line_push "" "NAK " in line_push line reason
  | State report => render_report report
  | Pubkey hex => let? line := line_push "" "PUBKEY " in line_push line hex
  | Sig token => let? line := line_push "" "SIG " in line_push line token
  end.

(** ** Parsing *)

Definition is_eol (c : ascii) : bool :=
  bool_decide (c = "013"%char) || bool_decide (c = "010"%char).

(** [line.trim_end_matches(['\r', '\n'])]. *)
Definition trim_eol (line : string) : string := trim_end_matches is_eol line.

Definition parse_command (line : string) : result WireError Command :=
  let line := trim_eol line in
  if bool_decide (line = "STAT") then Ok CStatus
  else if bool_decide (line = "SE-PUBKEY?") then Ok CSePubkey
  else match strip_prefix "TOK " line with
  | Some rest => Ok (CToken rest)
  | None =>
  match strip_prefix "RVK " line with
  | Some rest => Ok (CRevoke rest)
  | None =>
  match strip_prefix "SE-SIGN " line with
  | Some rest => Ok (CSeSign rest)
  | None => Err (WMalformed "unknown command")
  end end end.

Definition parse_u64 (s what : string) : result WireError Z :=
  if str_is_empty s || negb (str_forall is_ascii_digit s) then Err (WMalformed what)
  else ok_or (u64_from_str s) (WMalformed what).

(** The head of a report: [open <nonce> <remaining>] or [closed], and the
    words left for the trailers. *)
Definition parse_state_head (words : list string)
    : result WireError (option (list Z * Z) * list string) :=
  match words with
  | [] => Err (WMalformed "STATE is neither open nor closed")
  | w :: words =>
      if bool_decide (w = "open") then
        match words with
        | [] => Err (WMalformed "STATE open lacks a nonce")
        | n :: words =>
            let? nonce := parse_hex_nonce n in
            match words with
            | [] => Err (WMalformed "STATE open lacks remaining_secs")
            | r :: words =>
                let? remaining := parse_u64 r "remaining_secs is not a number" in
                Ok (Some (nonce, remaining), words)
            end
        end
      else if bool_decide (w = "closed") then Ok (None, words)
      else Err (WMalformed "STATE is neither open nor closed")
  end.

Definition parse_load (value : string) : result WireError bool :=
  if bool_decide (value = "on") then Ok true
  else if bool_decide (value = "off") then Ok false
  else Err (WMalformed "load is neither on nor off").
Definition parse_fail (value : string) : result WireError FailState :=
  if bool_decide (value = "energized") then Ok Energized
  else if bool_decide (value = "de-energized") then Ok DeEnergized
  else Err (WMalformed "unknown fail state").
Definition parse_reason (value : string) : result WireError CloseReason :=
  if bool_decide (value = "revert") then Ok Revert
  else if bool_decide (value = "expiry") then Ok Expiry
  else if bool_decide (value = "boot") then Ok Boot
  else Err (WMalformed "unknown close reason").

(** One trailer word; the flag is [saw_seq]. *)
Definition parse_trailer (acc : Report * bool) (word : string)
    : result WireError (Report * bool) :=
  let '(r, saw) := acc in
  let? kv := ok_or (split_once "="%char word) (WMalformed "trailer is not key=value") in
  let '(key, value) := kv in
  if bool_decide (key = "seq") then
    let? seq := parse_u64 value "seq is not a number" in
    Ok ({| rp_open := rp_open r; rp_seq := seq; rp_load := rp_load r; rp_fail := rp_fail r;
           rp_reason := rp_reason r |}, true)
  else if bool_decide (key = "load") then
    let? load := parse_load value in
    Ok ({| rp_open := rp_open r; rp_seq := rp_seq r; rp_load := Some load;
           rp_fail := rp_fail r; rp_reason := rp_reason r |}, saw)
  else if bool_decide (key = "fail") then
    let? fail := parse_fail value in
    Ok ({| rp_open := rp_open r; rp_seq := rp_seq r; rp_load := rp_load r;
           rp_fail := Some fail; rp_reason := rp_reason r |}, saw)
  else if bool_decide (key = "reason") then
    let? reason := parse_reason value in
    Ok ({| rp_open := rp_open r; rp_seq := rp_seq r; rp_load := rp_load r;
           rp_fail := rp_fail r; rp_reason := Some reason |}, saw)
  else Err (WMalformed "unknown trailer").

Fixpoint parse_trailers (acc : Report * bool) (words : list string)
    : result WireError (Report * bool) :=
  match words with
  | [] => Ok acc
  | w :: words => let? acc := parse_trailer acc w in parse_trailers acc words
  end.

Definition parse_state (rest : string) : result WireError Report :=
  let words := List.filter (fun w => negb (str_is_empty w)) (split " "%char rest) in
  let? open := parse_state_head words in
  let start := {| rp_open := open.1; rp_seq := 0; rp_load := None; rp_fail := None;
                  rp_reason := None |} in
  let? acc := parse_trailers (start, false) open.2 in
  if negb acc.2 then Err (WMalformed "STATE lacks seq=") else Ok acc.1.

Definition parse_reply (line : string) : result WireError Reply :=
  let line := trim_eol line in
  if bool_decide (line = "ACK closed") then Ok AckClosed
  else match strip_prefix "ACK " line with
  | Some rest =>
      let? halves := ok_or (split_once " "%char rest) (WMalformed "ACK lacks remaining_secs") in
      let? nonce := parse_hex_nonce halves.1 in
      let? remaining_secs := parse_u64 halves.2 "remaining_secs is not a number" in
      Ok (AckOpen nonce remaining_secs)
  | None =>
  match strip_prefix "NAK " line with
  | Some rest => Ok (Nak rest)
  | None =>
  match strip_prefix "STATE " line with
  | Some rest => let? report := parse_state rest in Ok (State report)
  | None =>
  match strip_prefix "PUBKEY " line with
  | Some rest => Ok (Pubkey rest)
  | None =>
  match strip_prefix "SIG " line with
  | Some rest => Ok (Sig rest)
  | None => Err (WMalformed "unknown reply")
  end end end end end.

(** ** What is exchanged

    The texts in closed form, and the messages whose borrowed words survive
    the framing: they do not end in a line break. *)

Definition ends_clean (s : string) : Prop := trim_eol s = s.

Definition report_text (r : Report) : string :=
  "STATE " +:+ match rp_open r with
               | Some (nonce, remaining) =>
                   "open " +:+ hex_nonce nonce +:+ " " +:+ dec_u64 remaining
               | None => "closed"
               end
  +:+ " seq=" +:+ dec_u64 (rp_seq r) +:+ default "" (load_trailer <$> rp_load r)
  +:+ default "" (fail_trailer <$> rp_fail r) +:+ default "" (reason_trailer <$> rp_reason r).

Definition nonce_typed (nonce : list Z) : Prop := length nonce = 16%nat /\ Forall is_u8 nonce.

Definition report_typed (r : Report) : Prop :=
  is_u64 (rp_seq r)
  /\ match rp_open r with Some (n, s) => nonce_typed n /\ is_u64 s | None => True end.

Definition reply_typed (r : Reply) : Prop :=
  match r with
  | AckOpen nonce remaining => nonce_typed nonce /\ is_u64 remaining
  | AckClosed => True
  | Nak w | Pubkey w | Sig w => ends_clean w
  | State report => report_typed report
  end.

Definition command_typed (c : Command) : Prop :=
  match c with CToken w | CRevoke w | CSeSign w => ends_clean w | _ => True end.

(** ** Lemmas on the text *)

#[local] Arguments dec_u64 : simpl never.

Lemma trim_end_app p s t :
  trim_end_matches p (s +:+ t)
  = if str_is_empty (trim_end_matches p t) then trim_end_matches p s
    else s +:+ trim_end_matches p t.
Proof.
  induction s as [|c s IH]; cbn [String.append trim_end_matches].
  - by destruct (trim_end_matches p t).
  - rewrite IH. destruct (trim_end_matches p t) as [|d u]; cbn [str_is_empty]; [done|].
    destruct (s +:+ String d u) eqn:E; [by destruct s|]. done.
Qed.

Lemma trim_all p t : str_forall p t = true -> trim_end_matches p t = "".
Proof.
  induction t as [|c t IH]; cbn; [done|]. intros [Hc Ht]%andb_true_iff. by rewrite IH, Hc.
Qed.

Lemma trim_none p t : str_forall (fun c => negb (p c)) t = true -> trim_end_matches p t = t.
Proof.
  induction t as [|c t IH]; cbn; [done|]. intros [Hc Ht]%andb_true_iff.
  rewrite IH by done. destruct t; [|done]. by destruct (p c).
Qed.

Lemma trim_eol_app s eol : str_forall is_eol eol = true -> trim_eol (s +:+ eol) = trim_eol s.
Proof. intros H. unfold trim_eol. by rewrite trim_end_app, trim_all. Qed.

Lemma ends_clean_app s t : ends_clean s -> ends_clean t -> ends_clean (s +:+ t).
Proof.
  unfold ends_clean, trim_eol. intros Hs Ht. rewrite trim_end_app, Hs, Ht.
  destruct t; [by rewrite str_app_nil_r|done].
Qed.

Lemma digit_not_eol c : is_ascii_digit c = true -> negb (is_eol c) = true.
Proof.
  intros H. unfold is_eol. destruct (decide (c = "013"%char)) as [->|]; [done|].
  destruct (decide (c = "010"%char)) as [->|]; [done|].
  by rewrite !bool_decide_eq_false_2.
Qed.

Lemma dec_u64_clean n : is_u64 n -> ends_clean (dec_u64 n).
Proof.
  intros Hn. apply trim_none. eapply str_forall_impl; [apply digit_not_eol|].
  apply dec_u64_digits. apply Hn.
Qed.

(** *** Hexadecimal *)

Lemma hex_digit_cases (P : Z -> Prop) :
  P 0 -> P 1 -> P 2 -> P 3 -> P 4 -> P 5 -> P 6 -> P 7 -> P 8 -> P 9 -> P 10 -> P 11 ->
  P 12 -> P 13 -> P 14 -> P 15 -> forall d, 0 <= d < 16 -> P d.
Proof.
  intros. assert (d = 0 \/ d = 1 \/ d = 2 \/ d = 3 \/ d = 4 \/ d = 5 \/ d = 6 \/ d = 7 \/ d = 8
    \/ d = 9 \/ d = 10 \/ d = 11 \/ d = 12 \/ d = 13 \/ d = 14 \/ d = 15) by lia.
  intuition (subst; done).
Qed.

Lemma to_digit16_hex d : 0 <= d < 16 -> to_digit16 (hex_digit d) = Some d.
Proof. revert d. by apply hex_digit_cases. Qed.

(** A character that can stand inside a word of a reply. *)
Definition is_word_char (c : ascii) : bool :=
  negb (is_eol c) && negb (bool_decide (c = " "%char)).

Lemma hex_digit_word d : 0 <= d < 16 -> is_word_char (hex_digit d) = true.
Proof. revert d. by apply hex_digit_cases. Qed.

Lemma digit_word c : is_ascii_digit c = true -> is_word_char c = true.
Proof.
  intros H. unfold is_word_char. rewrite digit_not_eol by done.
  destruct (decide (c = " "%char)) as [->|]; [done|]. by rewrite bool_decide_eq_false_2.
Qed.

Lemma nibbles b : is_u8 b ->
  0 <= Z.shiftr b 4 < 16 /\ 0 <= Z.land b 15 < 16
  /\ Z.lor (Z.shiftl (Z.shiftr b 4) 4) (Z.land b 15) = b.
Proof.
  intros Hb.
  pose proof (u8_all (fun b =>
      (0 <=? Z.shiftr b 4) && (Z.shiftr b 4 <? 16) && (0 <=? Z.land b 15) && (Z.land b 15 <? 16)
      && (Z.lor (Z.shiftl (Z.shiftr b 4) 4) (Z.land b 15) =? b)) ltac:(by vm_compute) b Hb) as E.
  cbn beta in E. rewrite !andb_true_iff in E. destruct E as [[[[E1 E2] E3] E4] E5]. bool_prop. lia.
Qed.

Lemma hex_nonce_length nonce : String.length (hex_nonce nonce) = (2 * length nonce)%nat.
Proof. induction nonce as [|b nonce IH]; cbn [hex_nonce String.length length]; [done|]. lia. Qed.

Lemma hex_nonce_word nonce :
  Forall is_u8 nonce -> str_forall is_word_char (hex_nonce nonce) = true.
Proof.
  induction 1 as [|b nonce Hb _ IH]; [done|]. destruct (nibbles b Hb) as (H1 & H2 & _).
  cbn [hex_nonce str_forall]. by rewrite !hex_digit_word, IH by done.
Qed.

Lemma hex_pairs_nonce nonce : Forall is_u8 nonce -> hex_pairs (hex_nonce nonce) = Ok nonce.
Proof.
  induction 1 as [|b nonce Hb _ IH]; [done|]. destruct (nibbles b Hb) as (H1 & H2 & H3).
  cbn [hex_nonce hex_pairs]. rewrite !to_digit16_hex by done. cbn [ok_or]. rewrite IH.
  by rewrite H3.
Qed.

Lemma parse_hex_nonce_hex nonce : nonce_typed nonce -> parse_hex_nonce (hex_nonce nonce) = Ok nonce.
Proof.
  intros [Hl Hu]. unfold parse_hex_nonce, str_len. rewrite hex_nonce_length, Hl.
  by apply hex_pairs_nonce.
Qed.

Lemma parse_u64_dec n what : is_u64 n -> parse_u64 (dec_u64 n) what = Ok n.
Proof.
  intros Hn. unfold parse_u64. rewrite dec_u64_nonempty, dec_u64_digits, u64_from_str_dec;
    [done|apply Hn..].
Qed.

(** *** Words *)

Definition no_space (c : ascii) : bool := negb (bool_decide (c = " "%char)).

Lemma split_app w rest :
  str_forall no_space w = true ->
  split " "%char (w +:+ String " "%char rest) = w :: split " "%char rest.
Proof.
  unfold split. induction w as [|c w IH]; cbn [String.append split_go str_forall].
  - intros _. destruct (split_go " "%char rest). by rewrite bool_decide_eq_true_2.
  - intros [Hc Hw]%andb_true_iff. specialize (IH Hw).
    destruct (split_go " "%char (w +:+ _)), (split_go " "%char rest). simplify_eq.
    unfold no_space in Hc. by rewrite (proj1 (negb_true_iff _) Hc).
Qed.

Lemma split_last w : str_forall no_space w = true -> split " "%char w = [w].
Proof.
  unfold split. induction w as [|c w IH]; cbn [split_go str_forall]; [done|].
  intros [Hc Hw]%andb_true_iff. specialize (IH Hw).
  destruct (split_go " "%char w). simplify_eq.
  unfold no_space in Hc. by rewrite (proj1 (negb_true_iff _) Hc).
Qed.

Fixpoint join (ws : list string) : string :=
  match ws with
  | [] => ""
  | [w] => w
  | w :: ws => w +:+ " " +:+ join ws
  end.

Lemma split_join w ws :
  Forall (fun w => str_forall no_space w = true) (w :: ws) ->
  split " "%char (join (w :: ws)) = w :: ws.
Proof.
  revert w. induction ws as [|v ws IH]; intros w Hw; apply Forall_cons in Hw as [Hw Hws].
  - by apply split_last.
  - change (join (w :: v :: ws)) with (w +:+ String " "%char (join (v :: ws))).
    rewrite split_app by done. by rewrite IH.
Qed.

Definition load_word (b : bool) : string := if b then "load=on" else "load=off".
Definition fail_word (f : FailState) : string :=
  match f with Energized => "fail=energized" | DeEnergized => "fail=de-energized" end.
Definition reason_word (r : CloseReason) : string :=
  match r with Revert => "reason=revert" | Expiry => "reason=expiry" | Boot => "reason=boot" end.

Definition trailer_words (r : Report) : list string :=
  option_list (load_word <$> rp_load r) ++ option_list (fail_word <$> rp_fail r)
  ++ option_list (reason_word <$> rp_reason r).

Definition head_words (o : option (list Z * Z)) : list string :=
  match o with
  | Some (nonce, remaining) => ["open"; hex_nonce nonce; dec_u64 remaining]
  | None => ["closed"]
  end.

Definition report_words (r : Report) : list string :=
  head_words (rp_open r) ++ ("seq=" +:+ dec_u64 (rp_seq r)) :: trailer_words r.

Lemma report_text_words r : report_text r = "STATE " +:+ join (report_words r).
Proof.
  unfold report_text, report_words, head_words. generalize dec_u64, hex_nonce. intros d h.
  destruct r as [[[n s]|] q [[]|] [[]|] [[]|]]; cbn;
    rewrite ?str_app_assoc, ?str_app_nil_r; cbn;
    rewrite ?str_app_assoc, ?str_app_nil_r; reflexivity.
Qed.

Lemma word_no_space w : str_forall is_word_char w = true -> str_forall no_space w = true.
Proof. apply str_forall_impl. intros c [_ H]%andb_true_iff. done. Qed.

Lemma dec_u64_no_space n : is_u64 n -> str_forall no_space (dec_u64 n) = true.
Proof.
  intros Hn. apply word_no_space. eapply str_forall_impl; [apply digit_word|].
  apply dec_u64_digits, Hn.
Qed.

Lemma trailer_words_plain r :
  Forall (fun w => str_forall no_space w = true /\ str_is_empty w = false) (trailer_words r).
Proof. destruct r as [? ? [[]|] [[]|] [[]|]]; repeat constructor. Qed.

Lemma report_words_plain r :
  report_typed r ->
  Forall (fun w => str_forall no_space w = true /\ str_is_empty w = false) (report_words r).
Proof.
  intros [Hq Ho]. apply Forall_app. split.
  - destruct (rp_open r) as [[n s]|]; [|by repeat constructor]. destruct Ho as [[Hl Hu] Hs].
    repeat constructor; cbn.
    + by apply word_no_space, hex_nonce_word.
    + destruct (hex_nonce n) eqn:E; [|done].
      pose proof (hex_nonce_length n) as Hx. rewrite E, Hl in Hx. done.
    + by apply dec_u64_no_space.
    + by apply dec_u64_nonempty.
  - constructor; [|apply trailer_words_plain]. split; [|done].
    rewrite str_forall_app. by rewrite dec_u64_no_space.
Qed.

Lemma parse_trailer_words r acc :
  rp_load acc = None -> rp_fail acc = None -> rp_reason acc = None ->
  parse_trailers (acc, true) (trailer_words r)
  = Ok ({| rp_open := rp_open acc; rp_seq := rp_seq acc; rp_load := rp_load r;
           rp_fail := rp_fail r; rp_reason := rp_reason r |}, true).
Proof.
  destruct acc as [o q l f w]; cbn. intros -> -> ->.
  destruct r as [? ? [[]|] [[]|] [[]|]]; reflexivity.
Qed.

Lemma parse_state_words r : report_typed r -> parse_state (join (report_words r)) = Ok r.
Proof.
  intros Ht. pose proof (report_words_plain r Ht) as Hw. destruct Ht as [Hq Ho].
  unfold parse_state.
  assert (Hs : split " "%char (join (report_words r)) = report_words r).
  { unfold report_words in *. destruct (rp_open r) as [[n s]|]; apply split_join;
      (eapply Forall_impl; [exact Hw|]; by intros ? [? _]). }
  assert (Hf : List.filter (fun w => negb (str_is_empty w)) (report_words r) = report_words r).
  { clear -Hw. induction Hw as [|w ws [_ Hne] _ IH]; [done|]. cbn. rewrite Hne. cbn. by rewrite IH. }
  rewrite Hs, Hf. unfold report_words.
  assert (Hh : parse_state_head (head_words (rp_open r)
      ++ ("seq=" +:+ dec_u64 (rp_seq r)) :: trailer_words r)
    = Ok (rp_open r, ("seq=" +:+ dec_u64 (rp_seq r)) :: trailer_words r)).
  { destruct (rp_open r) as [[n s]|]; [|done]. destruct Ho as [Hn Hr]. cbn.
    by rewrite parse_hex_nonce_hex, parse_u64_dec by done. }
  rewrite Hh. cbn [fst snd parse_trailers]. unfold parse_trailer at 1.
  change ("seq=" +:+ dec_u64 (rp_seq r)) with ("seq" +:+ String "="%char (dec_u64 (rp_seq r))).
  rewrite split_once_app by done. cbn [ok_or]. rewrite bool_decide_eq_true_2 by done.
  rewrite parse_u64_dec by done. rewrite parse_trailer_words by done. by destruct r.
Qed.

(** *** Rendering *)

(** Two pushes are one push of both texts. *)
Lemma push_fuse {A} line s t (k : string -> result WireError A) :
  (let? l := line_push line s in let? l := line_push l t in k l)
  = (let? l := line_push line (s +:+ t) in k l).
Proof.
  unfold line_push. rewrite str_len_app. pose proof (str_len_nonneg t).
  destruct (MAX_LINE_LEN <? str_len line + str_len s) eqn:E1; bool_prop.
  - by rewrite (proj2 (Z.ltb_lt _ _)) by lia.
  - rewrite str_len_app, Z.add_assoc. destruct (_ <? _); [done|]. by rewrite str_app_assoc.
Qed.

Lemma push_fuse_last line s t :
  (let? l := line_push line s in line_push l t) = line_push line (s +:+ t).
Proof.
  pose proof (push_fuse line s t Ok) as H.
  replace (line_push line (s +:+ t)) with (let? l := line_push line (s +:+ t) in Ok l)
    by by destruct (line_push line (s +:+ t)).
  rewrite <-H. destruct (line_push line s); [|done]. by destruct (line_push _ t).
Qed.

Lemma push_fuse_opt {A} line s o (k : string -> result WireError A) :
  (let? l := line_push line s in let? l := push_opt l o in k l)
  = (let? l := line_push line (s +:+ default "" o) in k l).
Proof.
  destruct o as [t|]; cbn [push_opt default]; [apply push_fuse|]. by rewrite str_app_nil_r.
Qed.

Definition reply_text (r : Reply) : string :=
  match r with
  | AckOpen nonce remaining => "ACK " +:+ hex_nonce nonce +:+ " " +:+ dec_u64 remaining
  | AckClosed => "ACK closed"
  | Nak w => "NAK " +:+ w
  | State report => report_text report
  | Pubkey w => "PUBKEY " +:+ w
  | Sig w => "SIG " +:+ w
  end.

Definition command_text (c : Command) : string :=
  match c with
  | CToken w => "TOK " +:+ w
  | CRevoke w => "RVK " +:+ w
  | CStatus => "STAT"
  | CSePubkey => "SE-PUBKEY?"
  | CSeSign w => "SE-SIGN " +:+ w
  end.

Definition head_text (o : option (list Z * Z)) : string :=
  match o with
  | Some (nonce, remaining) => "open " +:+ hex_nonce nonce +:+ " " +:+ dec_u64 remaining
  | None => "closed"
  end.

Lemma push_head_text line o : push_head line o = line_push line (head_text o).
Proof.
  destruct o as [[n s]|]; [|done]. unfold push_head, push_u64.
  rewrite push_fuse. rewrite push_fuse. rewrite push_fuse_last. by rewrite !str_app_assoc.
Qed.

Lemma push_fuse_head {A} line s o (k : string -> result WireError A) :
  (let? l := line_push line s in let? l := push_head l o in k l)
  = (let? l := line_push line (s +:+ head_text o) in k l).
Proof.
  rewrite <-push_fuse. destruct (line_push line s); [|done]. by rewrite push_head_text.
Qed.

Lemma push_fuse_opt_last line s o :
  (let? l := line_push line s in push_opt l o) = line_push line (s +:+ default "" o).
Proof.
  destruct o as [t|]; cbn [push_opt default]; [apply push_fuse_last|].
  rewrite str_app_nil_r. by destruct (line_push line s).
Qed.

Lemma render_report_text r : render_report r = line_push "" (report_text r).
Proof.
  unfold render_report, push_u64. rewrite push_fuse_head.
  rewrite push_fuse. rewrite push_fuse. rewrite push_fuse_opt.
  rewrite push_fuse_opt. rewrite push_fuse_opt_last. unfold report_text, head_text.
  by rewrite !str_app_assoc.
Qed.

Lemma render_reply_text r : render_reply r = line_push "" (reply_text r).
Proof.
  destruct r; cbn [render_reply reply_text]; unfold push_u64;
    [|done|apply push_fuse_last|apply render_report_text|apply push_fuse_last..].
  rewrite push_fuse. rewrite push_fuse. rewrite push_fuse_last. by rewrite !str_app_assoc.
Qed.

Lemma render_command_text c : render_command c = line_push "" (command_text c).
Proof. destruct c; cbn [render_command command_text]; (done || apply push_fuse_last). Qed.

Lemma line_push_empty s :
  line_push "" s = if MAX_LINE_LEN <? str_len s then Err BufferTooSmall else Ok s.
Proof. done. Qed.

Lemma hex_nonce_clean nonce : Forall is_u8 nonce -> ends_clean (hex_nonce nonce).
Proof.
  intros H. apply trim_none. eapply str_forall_impl; [|by apply hex_nonce_word].
  intros c [Hc _]%andb_true_iff. done.
Qed.

Lemma report_text_clean r : report_typed r -> ends_clean (report_text r).
Proof.
  intros [Hq Ho]. unfold report_text. repeat apply ends_clean_app; try done.
  - destruct (rp_open r) as [[n s]|]; [|done]. destruct Ho as [[Hl Hu] Hs].
    repeat apply ends_clean_app; try done; [by apply hex_nonce_clean|by apply dec_u64_clean].
  - by apply dec_u64_clean.
  - by destruct (rp_load r) as [[]|].
  - by destruct (rp_fail r) as [[]|].
  - by destruct (rp_reason r) as [[]|].
Qed.

Lemma reply_text_clean r : reply_typed r -> ends_clean (reply_text r).
Proof.
  destruct r as [nonce s| |w|report|w|w]; cbn [reply_typed reply_text]; intros H;
    [|done|by apply ends_clean_app|by apply report_text_clean|by apply ends_clean_app..].
  destruct H as [[Hl Hu] Hs]. repeat apply ends_clean_app; try done;
    [by apply hex_nonce_clean|by apply dec_u64_clean].
Qed.

Lemma parse_ack_text nonce s eol :
  nonce_typed nonce -> is_u64 s -> str_forall is_eol eol = true ->
  parse_reply (reply_text (AckOpen nonce s) +:+ eol) = Ok (AckOpen nonce s).
Proof.
  intros [Hl Hu] Hs He. unfold parse_reply. rewrite trim_eol_app by done.
  rewrite (reply_text_clean (AckOpen nonce s) (conj (conj Hl Hu) Hs)). cbn [reply_text].
  rewrite bool_decide_eq_false_2.
  - rewrite strip_prefix_app.
    change (hex_nonce nonce +:+ " " +:+ dec_u64 s)
      with (hex_nonce nonce +:+ String " "%char (dec_u64 s)).
    rewrite split_once_app by by apply word_no_space, hex_nonce_word. cbn [ok_or fst snd].
    by rewrite parse_hex_nonce_hex, parse_u64_dec.
  - intros E. apply (f_equal String.length) in E.
    rewrite !str_length_app, hex_nonce_length, Hl in E. cbn in E. lia.
Qed.

Lemma parse_reply_text r eol :
  reply_typed r -> str_forall is_eol eol = true -> parse_reply (reply_text r +:+ eol) = Ok r.
Proof.
  intros Hr He. destruct r as [nonce s| |w|report|w|w];
    [by apply parse_ack_text; [apply Hr..|]|..];
    unfold parse_reply; rewrite trim_eol_app by done; rewrite reply_text_clean by done;
    [done|done| |done|done].
  cbn [reply_text]. rewrite report_text_words. pose proof (parse_state_words report Hr) as Hp.
  revert Hp. generalize (join (report_words report)). intros x Hp.
  transitivity (let? report := parse_state x in Ok (State report)); [reflexivity|by rewrite Hp].
Qed.

Lemma parse_command_text c eol :
  command_typed c -> str_forall is_eol eol = true -> parse_command (command_text c +:+ eol) = Ok c.
Proof.
  intros Hc He. unfold parse_command. rewrite trim_eol_app by done.
  assert (Hcl : ends_clean (command_text c))
    by (destruct c; cbn [command_text]; (done || by apply ends_clean_app)).
  rewrite Hcl. by destruct c.
Qed.

Lemma dec_digits_length fuel n acc :
  (String.length (dec_digits fuel n acc) <= fuel + String.length acc)%nat.
Proof.
  revert n acc. induction fuel as [|fuel IH]; intros n acc; cbn [dec_digits]; [lia|].
  destruct (_ =? 0); cbn [String.length]; [lia|]. etransitivity; [apply IH|]. cbn. lia.
Qed.

Lemma dec_u64_length n : str_len (dec_u64 n) <= 20.
Proof.
  unfold str_len, dec_u64. pose proof (dec_digits_length 20 n "") as H.
  change (String.length "") with 0%nat in H. lia.
Qed.

(** The replies the device composes itself: all but the echoed words. *)
Definition own_reply (r : Reply) : bool :=
  match r with AckOpen _ _ | AckClosed | State _ => true | _ => false end.

Lemma own_reply_fits r :
  reply_typed r -> own_reply r = true -> str_len (reply_text r) <= MAX_LINE_LEN.
Proof.
  assert (Hhex : forall nonce, nonce_typed nonce -> str_len (hex_nonce nonce) = 32).
  { intros nonce [Hl _]. unfold str_len. rewrite hex_nonce_length, Hl. done. }
  assert (Hm : MAX_LINE_LEN = 195) by done. rewrite Hm.
  destruct r as [nonce s| |w|report|w|w]; try done; cbn [reply_typed reply_text]; intros H _.
  - rewrite !str_len_app, Hhex by apply H. pose proof (dec_u64_length s).
    change (str_len "ACK ") with 4. change (str_len " ") with 1. lia.
  - destruct H as [Hq Ho]. unfold report_text. rewrite !str_len_app.
    pose proof (dec_u64_length (rp_seq report)).
    assert (str_len (default "" (load_trailer <$> rp_load report)) <= 9)
      by (by destruct (rp_load report) as [[]|]).
    assert (str_len (default "" (fail_trailer <$> rp_fail report)) <= 18)
      by (by destruct (rp_fail report) as [[]|]).
    assert (str_len (default "" (reason_trailer <$> rp_reason report)) <= 14)
      by (by destruct (rp_reason report) as [[]|]).
    change (str_len "STATE ") with 6. change (str_len " seq=") with 5.
    destruct (rp_open report) as [[n s]|]; [|change (str_len "closed") with 6; lia].
    rewrite !str_len_app, Hhex by apply Ho. pose proof (dec_u64_length s).
    change (str_len "open ") with 5. change (str_len " ") with 1. lia.
Qed.

Lemma own_reply_renders r :
  reply_typed r -> own_reply r = true -> render_reply r = Ok (reply_text r).
Proof.
  intros Ht Ho. rewrite render_reply_text, line_push_empty.
  rewrite (proj2 (Z.ltb_ge _ _)); [done|]. by apply own_reply_fits.
Qed.

(** ** Properties *)

(** The two ends agree on replies: whatever reply the device renders, the
    daemon parses back, with any line break the transport appended; every
    acknowledgement and every state report fits the line buffer, and a line
    is refused only for its length. *)
Theorem reply_roundtrip (r : Reply) (Hr : reply_typed r) :
  (own_reply r = true -> exists line, render_reply r = Ok line)
  /\ match render_reply r with
     | Ok line => str_len line <= MAX_LINE_LEN
         /\ forall eol, str_forall is_eol eol = true -> parse_reply (line +:+ eol) = Ok r
     | Err e => e = BufferTooSmall
     end.
Proof.
  split; [intros Ho; exists (reply_text r); by apply own_reply_renders|].
  rewrite render_reply_text, line_push_empty. destruct (_ <? _) eqn:E; [done|]. bool_prop.
  split; [done|]. intros eol He. by apply parse_reply_text.
Qed.

(** The two ends agree on commands: what the daemon renders, the device
    parses back, and every token that signing can produce fits the buffer. *)
Theorem command_roundtrip (c : Command) (Hc : command_typed c) :
  match render_command c with
  | Ok line => str_len line <= MAX_LINE_LEN
      /\ forall eol, str_forall is_eol eol = true -> parse_command (line +:+ eol) = Ok c
  | Err e => e = BufferTooSmall
      /\ match c with
         | CToken t | CRevoke t => MAX_TOKEN_LEN < str_len t
         | CSeSign t => True
         | _ => False
         end
  end.
Proof.
  rewrite render_command_text, line_push_empty. destruct (_ <? _) eqn:E; bool_prop.
  - split; [done|]. destruct c; try done; cbn [command_text] in E; rewrite str_len_app in E;
      unfold MAX_LINE_LEN in E; change (str_len "TOK ") with 4 in E;
      change (str_len "RVK ") with 4 in E; lia.
  - split; [done|]. intros eol He. by apply parse_command_text.
Qed.

Definition sample_report : Report :=
  {| rp_open := Some (replicate 16 171, 3600); rp_seq := u64_max; rp_load := Some false;
     rp_fail := Some DeEnergized; rp_reason := Some Boot |}.

Lemma reply_roundtrip_witness :
  render_reply (State sample_report)
  = Ok "STATE open abababababababababababababababab 3600 seq=18446744073709551615 load=off fail=de-energized reason=boot"
  /\ match render_reply (State sample_report) with
     | Ok line => str_len line <= MAX_LINE_LEN
         /\ forall eol, str_forall is_eol eol = true
              -> parse_reply (line +:+ eol) = Ok (State sample_report)
     | Err e => e = BufferTooSmall
     end.
Proof.
  split; [by vm_compute|]. apply (reply_roundtrip (State sample_report)).
  split; [by vm_compute|]. split; [|by vm_compute]. split; [done|].
  by apply (Forall_replicate is_u8 16 171).
Defined.

Lemma command_roundtrip_witness :
  match render_command (CToken sample_token) with
  | Ok line => str_len line <= MAX_LINE_LEN
      /\ forall eol, str_forall is_eol eol = true -> parse_command (line +:+ eol) = Ok (CToken sample_token)
  | Err e => e = BufferTooSmall /\ MAX_TOKEN_LEN < str_len sample_token
  end.
Proof. apply (command_roundtrip (CToken sample_token)). by vm_compute. Defined.

(** The line buffer is sized for tokens, not for challenges: the challenge of
    a request for a host whose name has 58 bytes or more does not fit an
    [SE-SIGN] command. *)
Lemma se_sign_overflow `{DataEncodingLaws} (r : ApprovalRequest) :
  well_typed r -> 58 <= str_len (host r) ->
  render_command (CSeSign (challenge_string r)) = Err BufferTooSmall.
Proof.
  intros (Hn & Hu & _) Hh. rewrite render_command_text, line_push_empty.
  rewrite (proj2 (Z.ltb_lt _ _)); [done|].
  unfold challenge_string. cbn [command_text]. rewrite !str_len_app, base64url_encode_length.
  assert (Hlen : Z.of_nat (length (canonical_bytes r)) = 77 + str_len (host r)).
  { unfold canonical_bytes. rewrite !length_app, !length_be_bytes, length_as_bytes, Hn.
    unfold str_len. change (length DOMAIN) with 21%nat. lia. }
  rewrite Hlen, base64url_encode_len_eq by lia.
  assert ((8 * (77 + 58) + 5) / 6 <= (8 * (77 + str_len (host r)) + 5) / 6)
    by (apply Z.div_le_mono; lia).
  change ((8 * (77 + 58) + 5) / 6) with 180 in *.
  change (str_len "SE-SIGN ") with 8. change (str_len "lg1.req.") with 8.
  change MAX_LINE_LEN with 195. lia.
Qed.
