(* ===== verification/P256der.v ===== *)
(** * P256der: raw [r || s] signatures to DER (wire/src/p256der.rs)

    The output array is filled front to back, so a write at a position is an
    append to the bytes written so far. *)

From S2P Require Import Prelude Text Approval Cbor.

Definition MAX_P256_DER_LEN : Z := 72.

(** [half.iter().position(|&b| b != 0).map_or(0, |i| 32 - i)]. *)
Fixpoint position_nonzero (half : list Z) : option nat :=
  match half with
  | [] => None
  | b :: rest => if b =? 0 then S <$> position_nonzero rest else Some O
  end.

Definition significant (half : list Z) : nat :=
  match position_nonzero half with Some i => 32 - i | None => 0 end.

(** [half[32 - significant] & 0x80 != 0]. *)
Definition high_bit (half : list Z) : bool :=
  negb (Z.land (nth (32 - significant half) half 0) 128 =? 0).

Definition integer_len (half : list Z) : nat :=
  if Nat.eqb (significant half) 0 then 1
  else if high_bit half then significant half + 1
  else significant half.

Definition write_integer (half out : list Z) : list Z :=
  let len := integer_len half in
  let out := out ++ [2; Z.of_nat len mod 256] in
  if Nat.eqb (significant half) 0 then out ++ [0]
  else
    let out := if high_bit half then out ++ [0] else out in
    out ++ drop (32 - significant half) half.

Definition p256_raw_sig_to_der (rs : list Z) : result WireError (list Z) :=
  let r := take 32 rs in
  let s := drop 32 rs in
  let body := 2 + Z.of_nat (integer_len r) + 2 + Z.of_nat (integer_len s) in
  if MAX_P256_DER_LEN <? 2 + body then Err BufferTooSmall
  else Ok (write_integer s (write_integer r [48; body mod 256])).

(** ** Specification: strict DER

    An INTEGER is read back only when its length is exact, its value is not
    negative and its encoding is the shortest one (X.690, 8.3.2). *)

Definition der_minimal (content : list Z) : bool :=
  match content with
  | [] => false
  | [b] => b <? 128
  | b :: b' :: _ => (b <? 128) && negb ((b =? 0) && (b' <? 128))
  end.

Definition der_integer (bs : list Z) : option (Z * list Z) :=
  match bs with
  | tag :: len :: rest =>
      let n := Z.to_nat len in
      if (tag =? 2) && (len <? 128) && (n <=? length rest)%nat && der_minimal (take n rest)
      then Some (from_be_bytes (take n rest), drop n rest) else None
  | _ => None
  end.

Definition der_signature (bs : list Z) : option (Z * Z) :=
  match bs with
  | tag :: len :: rest =>
      if (tag =? 48) && (len <? 128) && (len =? Z.of_nat (length rest)) then
        '(r, rest) ← der_integer rest;
        '(s, rest) ← der_integer rest;
        match rest with [] => Some (r, s) | _ => None end
      else None
  | _ => None
  end.

(** ** Lemmas *)

(** The content bytes [write_integer] appends. *)
Definition content (half : list Z) : list Z :=
  if Nat.eqb (significant half) 0 then [0]
  else (if high_bit half then [0] else []) ++ drop (32 - significant half) half.

Lemma write_integer_content half out :
  write_integer half out
  = out ++ [2; Z.of_nat (integer_len half) mod 256] ++ content half.
Proof.
  unfold write_integer, content. destruct (Nat.eqb _ 0); [by rewrite <-app_assoc|].
  destruct (high_bit half); by rewrite <-!app_assoc.
Qed.

Lemma position_nonzero_Some half i :
  position_nonzero half = Some i ->
  (i < length half)%nat /\ take i half = replicate i 0 /\ nth i half 0 <> 0.
Proof.
  revert i. induction half as [|b half IH]; intros i; cbn; [done|].
  destruct (b =? 0) eqn:E; bool_prop.
  - destruct (position_nonzero half) as [j|]; [|done]. cbn. intros [= <-].
    destruct (IH j eq_refl) as (? & Ht & ?). cbn. rewrite Ht, E. split; [lia|done].
  - intros [= <-]. cbn. split; [lia|done].
Qed.

Lemma position_nonzero_None half :
  position_nonzero half = None -> half = replicate (length half) 0.
Proof.
  induction half as [|b half IH]; cbn; [done|]. destruct (b =? 0) eqn:E; [|done]. bool_prop.
  destruct (position_nonzero half); [done|]. intros _. rewrite E. f_equal. by apply IH.
Qed.

Lemma high_bit_ge b : is_u8 b -> negb (Z.land b 128 =? 0) = (128 <=? b).
Proof.
  intros Hb. apply eqb_prop.
  by apply (u8_all (fun b => Bool.eqb (negb (Z.land b 128 =? 0)) (128 <=? b))); [vm_compute|].
Qed.

Lemma from_be_bytes_zeros n l : from_be_bytes (replicate n 0 ++ l) = from_be_bytes l.
Proof. induction n as [|n IH]; [done|]. by rewrite <-IH. Qed.

(** What is known of a 32-byte half: all zero, or led by [32 - n] zeros and a
    first significant byte. *)
Lemma half_shape half :
  length half = 32%nat -> Forall is_u8 half ->
  (significant half = 0%nat /\ from_be_bytes half = 0)
  \/ exists b rest, drop (32 - significant half) half = b :: rest /\ 0 < b <= 255
       /\ nth (32 - significant half) half 0 = b
       /\ (0 < significant half <= 32)%nat /\ length (b :: rest) = significant half
       /\ Forall is_u8 (b :: rest) /\ from_be_bytes half = from_be_bytes (b :: rest).
Proof.
  intros Hl Hu. unfold significant. destruct (position_nonzero half) as [i|] eqn:E.
  - right. apply position_nonzero_Some in E as (Hi & Ht & Hn). rewrite Hl in Hi.
    replace (32 - (32 - i))%nat with i by lia.
    destruct (drop i half) as [|b rest] eqn:Ed.
    { apply (f_equal length) in Ed. rewrite length_drop in Ed. cbn in Ed. lia. }
    assert (Hb : half !! i = Some b).
    { replace i with (i + 0)%nat by lia. rewrite <-lookup_drop, Ed. done. }
    rewrite (nth_lookup_Some _ _ _ _ Hb) in *.
    assert (Hub : Forall is_u8 (b :: rest)) by (rewrite <-Ed; by apply Forall_drop).
    assert (Hr : length (b :: rest) = (32 - i)%nat) by (rewrite <-Ed, length_drop; lia).
    exists b, rest. split; [done|].
    pose proof (proj1 (proj1 (Forall_cons _ _ _) Hub)) as H1. unfold is_u8, u8_max in H1.
    split; [lia|]. split; [done|]. split; [lia|]. split; [done|]. split; [done|].
    rewrite <-(take_drop i half) at 1. rewrite Ht, from_be_bytes_zeros. by rewrite Ed.
  - left. apply position_nonzero_None in E. split; [done|].
    rewrite E, <-(app_nil_r (replicate _ 0)), from_be_bytes_zeros. done.
Qed.

Lemma content_spec half :
  length half = 32%nat -> Forall is_u8 half ->
  length (content half) = integer_len half /\ (1 <= integer_len half <= 33)%nat
  /\ der_minimal (content half) = true /\ from_be_bytes (content half) = from_be_bytes half.
Proof.
  intros Hl Hu. unfold content, integer_len.
  destruct (half_shape half Hl Hu) as [[Hs Hv]|(b & rest & Hd & Hb & Hn & Hs & Hlen & Hub & Hv)].
  - rewrite Hs, Hv. cbn. split; [done|]. split; [lia|]. done.
  - rewrite (proj2 (Nat.eqb_neq _ _)) by lia. unfold high_bit. rewrite Hn, Hd, Hv.
    rewrite high_bit_ge by (unfold is_u8, u8_max; lia).
    destruct (128 <=? b) eqn:Eb; bool_prop.
    + rewrite length_app, Hlen. cbn [length]. split; [lia|]. split; [lia|].
      split; [|done]. cbn. rewrite (proj2 (Z.ltb_ge b 128)) by lia. done.
    + cbn [app]. split; [done|]. split; [lia|]. split; [|done]. cbn.
      destruct rest; [by apply Z.ltb_lt|]. apply andb_true_iff. split; [by apply Z.ltb_lt|].
      rewrite (proj2 (Z.eqb_neq b 0)) by lia. done.
Qed.

Lemma der_integer_write half tail :
  length half = 32%nat -> Forall is_u8 half ->
  der_integer ([2; Z.of_nat (integer_len half) mod 256] ++ content half ++ tail)
  = Some (from_be_bytes half, tail).
Proof.
  intros Hl Hu. destruct (content_spec half Hl Hu) as (Hc & Hi & Hm & Hv).
  rewrite Z.mod_small by lia. cbn [app der_integer]. rewrite Nat2Z.id.
  rewrite <-Hc, take_app_length, drop_app_length. rewrite Hm, Hv.
  rewrite (proj2 (Z.ltb_lt _ _)), (proj2 (Nat.leb_le _ _)); [done|rewrite length_app; lia|lia].
Qed.

(** ** Properties *)

(** A raw signature always converts: the DER fits the 72-byte buffer, and
    a strict DER reader gets back exactly the two integers of the raw form. *)
Theorem der_roundtrip (rs : list Z) (Hl : length rs = 64%nat) (Hu : Forall is_u8 rs) :
  exists der, p256_raw_sig_to_der rs = Ok der /\ Z.of_nat (length der) <= MAX_P256_DER_LEN
    /\ der_signature der = Some (from_be_bytes (take 32 rs), from_be_bytes (drop 32 rs)).
Proof.
  assert (Hr : length (take 32 rs) = 32%nat) by (rewrite length_take; lia).
  assert (Hs : length (drop 32 rs) = 32%nat) by (rewrite length_drop; lia).
  assert (Hru : Forall is_u8 (take 32 rs)) by by apply Forall_take.
  assert (Hsu : Forall is_u8 (drop 32 rs)) by by apply Forall_drop.
  destruct (content_spec _ Hr Hru) as (Hrc & Hri & _ & _).
  destruct (content_spec _ Hs Hsu) as (Hsc & Hsi & _ & _).
  unfold p256_raw_sig_to_der, MAX_P256_DER_LEN.
  rewrite (proj2 (Z.ltb_ge _ _)) by lia. eexists. split; [done|].
  rewrite !write_integer_content, <-!app_assoc. cbn [app].
  split; [cbn [length]; rewrite !length_app; cbn [length]; lia|].
  cbn [der_signature]. rewrite Z.mod_small by lia.
  rewrite Z.eqb_refl, (proj2 (Z.ltb_lt _ _)) by lia. cbn [andb].
  pose proof (der_integer_write (take 32 rs)
    (2 :: Z.of_nat (integer_len (drop 32 rs)) mod 256 :: content (drop 32 rs)) Hr Hru) as H1.
  cbn [app] in H1. rewrite H1. cbn [mbind option_bind].
  pose proof (der_integer_write (drop 32 rs) [] Hs Hsu) as H2. rewrite app_nil_r in H2.
  cbn [app] in H2. rewrite H2. cbn [mbind option_bind].
  rewrite (proj2 (Z.eqb_eq _ _)); [done|]. cbn [length]. rewrite length_app. cbn [length]. lia.
Qed.

Lemma der_roundtrip_witness :
  exists der, p256_raw_sig_to_der (0 :: replicate 63 200) = Ok der
    /\ Z.of_nat (length der) <= MAX_P256_DER_LEN
    /\ der_signature der = Some (from_be_bytes (0 :: replicate 31 200), from_be_bytes (replicate 32 200)).
Proof.
  apply (der_roundtrip (0 :: replicate 63 200)); [done|].
  constructor; [by vm_compute|]. by apply (Forall_replicate is_u8 63 200).
Defined.
