(* ===== verification/Crc.v ===== *)
(** * Crc: the two checksums of the device firmware

    CRC-32 of firmware/esp32c3/logic/src/lib.rs (reflected, table-free) and
    the CRC-16 of the secure element in logic/src/atecc.rs, as the code
    computes them, and the errors they are bound to see. *)

From S2P Require Import Prelude Text Approval Cbor.

(** ** CRC-32 *)

(** One turn of the inner loop: [0u32.wrapping_sub(crc & 1)] is all ones or
    nothing. *)
Definition crc32_bit (crc : Z) : Z :=
  let mask := (0 - Z.land crc 1) `mod` 2 ^ 32 in
  Z.lxor (Z.shiftr crc 1) (Z.land 0xedb88320 mask).

Definition crc32_byte (crc b : Z) : Z := Nat.iter 8 crc32_bit (Z.lxor crc b).

(** [!crc] of a u32. *)
Definition not32 (crc : Z) : Z := Z.lxor crc 0xffffffff.

Definition crc32 (bytes : list Z) : Z := not32 (fold_left crc32_byte bytes 0xffffffff).

(** ** CRC-16 *)

(** One turn of the inner loop, on bit [bit] of the byte. *)
Definition crc16_bit (byte : Z) (crc : Z) (bit : Z) : Z :=
  let data_bit := Z.testbit byte bit in
  let crc_bit := Z.testbit crc 15 in
  let crc := Z.land (Z.shiftl crc 1) 0xffff in
  if xorb data_bit crc_bit then Z.lxor crc 0x8005 else crc.

Definition crc16_byte (crc byte : Z) : Z := fold_left (crc16_bit byte) (seqZ 0 8) crc.

Definition crc16 (data : list Z) : Z := fold_left crc16_byte data 0.

(** [to_le_bytes] and [from_le_bytes]. *)
Definition le_bytes (w : nat) (n : Z) : list Z := rev (be_bytes w n).
Definition from_le_bytes (bs : list Z) : Z := from_be_bytes (rev bs).

(** The check value of CRC-32 and the datasheet's wake response. *)
Example crc32_check : crc32 (as_bytes "123456789") = 0xcbf43926.
Proof. reflexivity. Qed.
Example crc16_check : crc16 [0x04; 0x11] = 0x4333.
Proof. reflexivity. Qed.

(** ** Words *)

Definition is_u16 (z : Z) : Prop := 0 <= z < 2 ^ 16.
Definition is_u32 (z : Z) : Prop := 0 <= z < 2 ^ 32.

Lemma bounded_bits n z : 0 <= n -> (0 <= z < 2 ^ n <-> 0 <= z /\ forall i, n <= i -> Z.testbit z i = false).
Proof.
  intros Hn. split.
  - intros Hz. split; [lia|]. intros i Hi. destruct (decide (z = 0)) as [->|Hz0]; [apply Z.bits_0|].
    apply Z.bits_above_log2; [lia|]. apply Z.log2_lt_pow2; [lia|].
    assert (2 ^ n <= 2 ^ i) by (apply Z.pow_le_mono_r; lia). lia.
  - intros [Hz Hb]. split; [done|]. destruct (decide (z = 0)) as [->|Hz0]; [by apply Z.pow_pos_nonneg|].
    apply Z.log2_lt_pow2; [lia|]. destruct (decide (n <= Z.log2 z)) as [Hl|]; [|lia].
    specialize (Hb _ Hl). rewrite Z.bit_log2 in Hb by lia. done.
Qed.

Lemma lxor_bounded n a b : 0 <= n -> 0 <= a < 2 ^ n -> 0 <= b < 2 ^ n -> 0 <= Z.lxor a b < 2 ^ n.
Proof.
  intros Hn [Ha Ha']%bounded_bits [Hb Hb']%bounded_bits; [|done..]. apply bounded_bits; [done|].
  split; [by apply Z.lxor_nonneg|]. intros i Hi. by rewrite Z.lxor_spec, Ha', Hb'.
Qed.

Lemma lxor_cancel a b c : Z.lxor a b = Z.lxor a c -> b = c.
Proof. intros E. by rewrite <-(Z.lxor_0_l b), <-(Z.lxor_nilpotent a), Z.lxor_assoc, E,
  <-Z.lxor_assoc, Z.lxor_nilpotent, Z.lxor_0_l. Qed.

(** ** CRC-32 loses nothing *)

Lemma crc32_bit_eq crc : 0 <= crc ->
  crc32_bit crc = Z.lxor (Z.shiftr crc 1) (if Z.testbit crc 0 then 0xedb88320 else 0).
Proof.
  intros Hc. unfold crc32_bit. change (Z.land crc 1) with (Z.land crc (Z.ones 1)).
  rewrite Z.land_ones by lia.
  change (2 ^ 1) with 2. rewrite <-Z.bit0_mod. by destruct (Z.testbit crc 0).
Qed.

Lemma crc32_bit_u32 crc : is_u32 crc -> is_u32 (crc32_bit crc).
Proof.
  intros Hc. rewrite crc32_bit_eq by (unfold is_u32 in Hc; lia). apply lxor_bounded; [lia| |].
  - rewrite Z.shiftr_div_pow2 by lia. unfold is_u32 in Hc. split; [apply Z.div_pos; lia|].
    apply Z.div_lt_upper_bound; lia.
  - destruct (Z.testbit crc 0); lia.
Qed.

(** The top bit of the result is the bit shifted out, so a turn can be
    undone. *)
Lemma crc32_bit_inj a b : is_u32 a -> is_u32 b -> crc32_bit a = crc32_bit b -> a = b.
Proof.
  intros Ha Hb E. rewrite !crc32_bit_eq in E by (unfold is_u32 in *; lia).
  apply bounded_bits in Ha as [Ha Ha']; [|lia]. apply bounded_bits in Hb as [Hb Hb']; [|lia].
  assert (E0 : Z.testbit a 0 = Z.testbit b 0).
  { pose proof (f_equal (fun z => Z.testbit z 31) E) as E31. cbn beta in E31.
    rewrite !Z.lxor_spec, !Z.shiftr_spec, Ha', Hb' in E31 by lia.
    destruct (Z.testbit a 0), (Z.testbit b 0); cbn in E31; done. }
  rewrite E0, !(Z.lxor_comm (Z.shiftr _ _)) in E. apply lxor_cancel in E.
  apply Z.bits_inj'. intros n Hn. destruct (decide (n = 0)) as [->|]; [done|].
  pose proof (f_equal (fun z => Z.testbit z (n - 1)) E) as En. cbn beta in En.
  rewrite !Z.shiftr_spec in En by lia. by replace (n - 1 + 1) with n in En by lia.
Qed.

Lemma iter_u32 k a : is_u32 a -> is_u32 (Nat.iter k crc32_bit a).
Proof. induction k; cbn; auto using crc32_bit_u32. Qed.

Lemma iter_inj k a b : is_u32 a -> is_u32 b -> Nat.iter k crc32_bit a = Nat.iter k crc32_bit b -> a = b.
Proof. induction k as [|k IH]; [done|]. cbn. eauto using crc32_bit_inj, iter_u32. Qed.

Lemma crc32_bit_nonneg a : 0 <= a -> 0 <= crc32_bit a.
Proof.
  intros Ha. rewrite crc32_bit_eq by done. apply Z.lxor_nonneg.
  split; intros _; [destruct (Z.testbit a 0); lia|by apply Z.shiftr_nonneg].
Qed.

Lemma iter_nonneg k a : 0 <= a -> 0 <= Nat.iter k crc32_bit a.
Proof. induction k; cbn; auto using crc32_bit_nonneg. Qed.

(** What is not yet at the bottom only moves down. *)
Lemma iter_above k x y : 0 <= x -> 0 <= y ->
  Nat.iter k crc32_bit (Z.lxor x (Z.shiftl y (Z.of_nat k))) = Z.lxor (Nat.iter k crc32_bit x) y.
Proof.
  revert x y. induction k as [|k IH]; intros x y Hx Hy; [cbn; by rewrite Z.shiftl_0_r|].
  rewrite !Nat.iter_succ_r.
  replace (crc32_bit (Z.lxor x (Z.shiftl y (Z.of_nat (S k)))))
    with (Z.lxor (crc32_bit x) (Z.shiftl y (Z.of_nat k))).
  { apply IH; auto using crc32_bit_nonneg. }
  assert (0 <= Z.lxor x (Z.shiftl y (Z.of_nat (S k)))).
  { apply Z.lxor_nonneg. by rewrite Z.shiftl_nonneg. }
  rewrite !crc32_bit_eq by done.
  rewrite Z.lxor_spec, (Z.shiftl_spec_low y) by lia. rewrite xorb_false_r.
  rewrite Z.shiftr_lxor, Z.shiftr_shiftl_l by lia.
  replace (Z.of_nat (S k) - 1) with (Z.of_nat k) by lia.
  by rewrite !Z.lxor_assoc, (Z.lxor_comm (Z.shiftl y _)).
Qed.

Lemma crc32_byte_iter a b : crc32_byte a b = Nat.iter 8 crc32_bit (Z.lxor a b).
Proof. reflexivity. Qed.

Lemma fold_left_cons {A B} (f : A -> B -> A) b l a : fold_left f (b :: l) a = fold_left f l (f a b).
Proof. reflexivity. Qed.

(** ** Little-endian words *)

Lemma length_le_bytes w n : length (le_bytes w n) = w.
Proof. unfold le_bytes. by rewrite length_rev, length_be_bytes. Qed.

Lemma le_bytes_u8 w n : Forall is_u8 (le_bytes w n).
Proof. apply Forall_rev, be_bytes_u8. Qed.

Lemma from_le_bytes_cons b l : from_le_bytes (b :: l) = 256 * from_le_bytes l + b.
Proof. unfold from_le_bytes. cbn [rev]. apply from_be_bytes_snoc. Qed.

Lemma from_le_bytes_le w n : 0 <= n < 256 ^ Z.of_nat w -> from_le_bytes (le_bytes w n) = n.
Proof. intros Hn. unfold from_le_bytes, le_bytes. rewrite rev_involutive. by apply from_be_bytes_be. Qed.

Lemma le_bytes_S w n : le_bytes (S w) n = n `mod` 256 :: le_bytes w (n / 256).
Proof. unfold le_bytes. cbn [be_bytes]. by rewrite rev_app_distr. Qed.

Lemma from_le_bytes_range l : Forall is_u8 l -> 0 <= from_le_bytes l < 256 ^ Z.of_nat (length l).
Proof.
  intros Hu. unfold from_le_bytes. rewrite <-length_rev.
  apply (be_from_be_bytes (length (rev l)) (rev l)); [done|by apply Forall_rev].
Qed.

Lemma from_le_bytes_inj l l' : Forall is_u8 l -> Forall is_u8 l' -> length l = length l' ->
  from_le_bytes l = from_le_bytes l' -> l = l'.
Proof.
  intros Hu Hu' Hl E. apply rev_inj.
  destruct (be_from_be_bytes (length (rev l)) (rev l)) as [Hb _]; [done|by apply Forall_rev|].
  destruct (be_from_be_bytes (length (rev l)) (rev l')) as [Hb' _];
    [by rewrite !length_rev|by apply Forall_rev|]. unfold from_le_bytes in E. congruence.
Qed.

Lemma lxor_byte b W : is_u8 b -> 0 <= W -> Z.lxor b (Z.shiftl W 8) = 256 * W + b.
Proof.
  intros Hb HW. rewrite <-Z.add_nocarry_lxor; [rewrite Z.shiftl_mul_pow2 by lia; lia|].
  apply Z.bits_inj'. intros n Hn. rewrite Z.land_spec, Z.bits_0.
  destruct (decide (n < 8)); [by rewrite (Z.shiftl_spec_low W), andb_false_r by lia|].
  assert (0 <= b < 2 ^ 8) as [_ Hbits]%bounded_bits by (unfold is_u8, u8_max in Hb; lia); [|lia].
  by rewrite Hbits by lia.
Qed.

(** Any run of bytes is one word folded in. *)
Lemma fold_crc32 l s : Forall is_u8 l -> 0 <= s ->
  fold_left crc32_byte l s = Nat.iter (8 * length l) crc32_bit (Z.lxor s (from_le_bytes l)).
Proof.
  intros Hu. revert s. induction Hu as [|b l Hb Hu IH]; intros s Hs.
  { change (s = Z.lxor s 0). by rewrite Z.lxor_0_r. }
  pose proof (from_le_bytes_range l Hu) as [HW _].
  assert (Hsb : 0 <= Z.lxor s b) by (apply Z.lxor_nonneg; unfold is_u8 in Hb; lia).
  assert (Hi : 0 <= crc32_byte s b) by (rewrite crc32_byte_iter; by apply iter_nonneg).
  rewrite fold_left_cons, IH, crc32_byte_iter, <-iter_above by done.
  change (Z.of_nat 8) with 8. rewrite Z.lxor_assoc, lxor_byte, <-from_le_bytes_cons by done.
  rewrite <-Nat.iter_add. f_equal. cbn [length]. lia.
Qed.

Lemma u8_u32 b : is_u8 b -> 0 <= b < 2 ^ 32.
Proof. unfold is_u8, u8_max. lia. Qed.

Lemma crc32_byte_u32 a b : is_u8 b -> is_u32 a -> is_u32 (crc32_byte a b).
Proof.
  intros Hb Ha. rewrite !crc32_byte_iter. set (k := 8%nat). clearbody k. apply iter_u32, lxor_bounded;
    auto using u8_u32 with lia.
Qed.

Lemma crc32_byte_inj x a b : is_u8 x -> is_u32 a -> is_u32 b ->
  crc32_byte a x = crc32_byte b x -> a = b.
Proof.
  intros Hx Ha Hb. rewrite !crc32_byte_iter. set (k := 8%nat). clearbody k. intros E.
  apply iter_inj in E; [|apply lxor_bounded; auto using u8_u32 with lia..].
  rewrite !(Z.lxor_comm _ x) in E. by apply lxor_cancel in E.
Qed.

Lemma fold_crc32_u32 l a : Forall is_u8 l -> is_u32 a -> is_u32 (fold_left crc32_byte l a).
Proof.
  intros Hu. revert a. induction Hu as [|b l Hb Hu IH]; intros a Ha; [done|].
  rewrite fold_left_cons. by apply IH, crc32_byte_u32.
Qed.

Lemma fold_crc32_inj l a b : Forall is_u8 l -> is_u32 a -> is_u32 b ->
  fold_left crc32_byte l a = fold_left crc32_byte l b -> a = b.
Proof.
  intros Hu. revert a b. induction Hu as [|x l Hx Hu IH]; intros a b Ha Hb; [done|].
  rewrite !fold_left_cons. intros E%IH; [|by apply crc32_byte_u32..]. by apply crc32_byte_inj in E.
Qed.

(** A burst of up to 32 bits never goes unnoticed. *)
Lemma crc32_burst p w w' s :
  Forall is_u8 p -> Forall is_u8 w -> Forall is_u8 w' -> Forall is_u8 s ->
  length w = length w' -> (length w <= 4)%nat ->
  crc32 (p ++ w ++ s) = crc32 (p ++ w' ++ s) -> w = w'.
Proof.
  intros Hp Hw Hw' Hs Hl H4 E. unfold crc32, not32 in E.
  rewrite !(Z.lxor_comm _ 0xffffffff) in E. apply lxor_cancel in E. rewrite !fold_left_app in E.
  set (c := fold_left crc32_byte p 0xffffffff) in *.
  assert (Hc : is_u32 c) by (apply fold_crc32_u32; unfold is_u32; [done|lia]).
  apply fold_crc32_inj in E; [|done|by apply fold_crc32_u32..].
  rewrite !fold_crc32, <-Hl in E by (try done; unfold is_u32 in Hc; lia).
  assert (Hr : forall l, Forall is_u8 l -> length l = length w -> 0 <= from_le_bytes l < 2 ^ 32).
  { intros l Hu Hlen. pose proof (from_le_bytes_range l Hu) as [? Hlt]. split; [done|].
    eapply Z.lt_le_trans; [exact Hlt|]. change (2 ^ 32) with (256 ^ 4).
    apply Z.pow_le_mono_r; lia. }
  apply iter_inj in E; [|apply lxor_bounded; [lia|done|by apply Hr]..].
  apply lxor_cancel in E. by apply from_le_bytes_inj.
Qed.

(** ** CRC-16 is linear *)

Lemma crc16_bit_eq byte crc bit :
  crc16_bit byte crc bit =
  Z.lxor (Z.land (Z.shiftl crc 1) 0xffff)
    (if xorb (Z.testbit byte bit) (Z.testbit crc 15) then 0x8005 else 0).
Proof. unfold crc16_bit. destruct (xorb _ _); [done|]. by rewrite Z.lxor_0_r. Qed.

Lemma land_lxor a b m : Z.land (Z.lxor a b) m = Z.lxor (Z.land a m) (Z.land b m).
Proof.
  apply Z.bits_inj'. intros n Hn. rewrite !Z.lxor_spec, !Z.land_spec, Z.lxor_spec.
  by destruct (Z.testbit a n), (Z.testbit b n), (Z.testbit m n).
Qed.

Lemma lxor_swap a b c d : Z.lxor (Z.lxor a b) (Z.lxor c d) = Z.lxor (Z.lxor a c) (Z.lxor b d).
Proof.
  apply Z.bits_inj'. intros n _. rewrite !Z.lxor_spec.
  by destruct (Z.testbit a n), (Z.testbit b n), (Z.testbit c n), (Z.testbit d n).
Qed.

Lemma crc16_bit_linear b b' c c' i :
  crc16_bit (Z.lxor b b') (Z.lxor c c') i = Z.lxor (crc16_bit b c i) (crc16_bit b' c' i).
Proof.
  rewrite !crc16_bit_eq, !Z.lxor_spec, Z.shiftl_lxor, land_lxor, lxor_swap. f_equal.
  by destruct (Z.testbit b i), (Z.testbit b' i), (Z.testbit c 15), (Z.testbit c' 15).
Qed.

Lemma crc16_byte_linear c c' b b' :
  crc16_byte (Z.lxor c c') (Z.lxor b b') = Z.lxor (crc16_byte c b) (crc16_byte c' b').
Proof.
  unfold crc16_byte. generalize (seqZ 0 8). intros l. revert c c'.
  induction l as [|i l IH]; intros c c'; [done|]. by rewrite !fold_left_cons, crc16_bit_linear, IH.
Qed.

Lemma crc16_bit_u16 b c i : is_u16 c -> is_u16 (crc16_bit b c i).
Proof.
  intros Hc. rewrite crc16_bit_eq. apply lxor_bounded; [lia| |destruct (xorb _ _); lia].
  change 0xffff with (Z.ones 16). rewrite Z.land_ones by lia. apply Z.mod_pos_bound. lia.
Qed.

Lemma crc16_byte_u16 c b : is_u16 c -> is_u16 (crc16_byte c b).
Proof.
  unfold crc16_byte. generalize (seqZ 0 8). intros l. revert c.
  induction l as [|i l IH]; intros c Hc; [done|]. rewrite fold_left_cons. by apply IH, crc16_bit_u16.
Qed.

Lemma fold_crc16_u16 l c : is_u16 c -> is_u16 (fold_left crc16_byte l c).
Proof.
  revert c. induction l as [|b l IH]; intros c Hc; [done|].
  rewrite fold_left_cons. by apply IH, crc16_byte_u16.
Qed.

(** A turn on no data forgets nothing: the low bit tells the bit shifted
    out. *)
Lemma crc16_bit_zero c i : is_u16 c -> crc16_bit 0 c i = 0 -> c = 0.
Proof.
  intros Hc E. rewrite crc16_bit_eq, Z.bits_0, xorb_false_l in E.
  assert (H15 : Z.testbit c 15 = false).
  { pose proof (f_equal (fun z => Z.testbit z 0) E) as E0. cbn beta in E0.
    rewrite Z.lxor_spec, Z.land_spec, Z.shiftl_spec_low in E0 by lia.
    destruct (Z.testbit c 15); done. }
  rewrite H15, Z.lxor_0_r in E. apply bounded_bits in Hc as [Hc Hb]; [|lia].
  apply Z.bits_inj'. intros n Hn. rewrite Z.bits_0.
  destruct (decide (15 < n)); [by apply Hb; lia|]. destruct (decide (n = 15)) as [->|]; [done|].
  pose proof (f_equal (fun z => Z.testbit z (n + 1)) E) as En. cbn beta in En.
  rewrite Z.land_spec, Z.shiftl_spec, Z.bits_0 in En by lia. change 0xffff with (Z.ones 16) in En.
  rewrite Z.ones_spec_low, andb_true_r in En by lia. by replace (n + 1 - 1) with n in En by lia.
Qed.

Lemma crc16_byte_zero c : is_u16 c -> crc16_byte c 0 = 0 -> c = 0.
Proof.
  unfold crc16_byte. generalize (seqZ 0 8). intros l. revert c.
  induction l as [|i l IH]; intros c Hc; [done|]. rewrite fold_left_cons. intros E.
  apply IH in E; [|by apply crc16_bit_u16]. by apply crc16_bit_zero in E.
Qed.

Lemma lxor_eq_0 a b : Z.lxor a b = 0 -> a = b.
Proof. apply Z.lxor_eq. Qed.

Lemma fold_crc16_inj l c c' : is_u16 c -> is_u16 c' ->
  fold_left crc16_byte l c = fold_left crc16_byte l c' -> c = c'.
Proof.
  revert c c'. induction l as [|b l IH]; intros c c' Hc Hc'; [done|]. rewrite !fold_left_cons.
  intros E%IH; [|by apply crc16_byte_u16..].
  apply lxor_eq_0, crc16_byte_zero; [by apply lxor_bounded|].
  pose proof (crc16_byte_linear c c' b b) as HL. by rewrite E, !Z.lxor_nilpotent in HL.
Qed.

(** The byte's own contribution is never nothing. *)
Lemma crc16_data_zero : forall b, is_u8 b ->
  (negb (crc16_byte 0 b =? 0) || (b =? 0)) = true.
Proof. apply u8_all. vm_compute. reflexivity. Qed.

(** A changed byte never goes unnoticed. *)
Lemma crc16_one_byte p b b' s : is_u8 b -> is_u8 b' ->
  crc16 (p ++ b :: s) = crc16 (p ++ b' :: s) -> b = b'.
Proof.
  intros Hb Hb' E. unfold crc16 in E. rewrite !fold_left_app, !fold_left_cons in E.
  assert (Hc : is_u16 (fold_left crc16_byte p 0)) by (apply fold_crc16_u16; unfold is_u16; lia).
  apply fold_crc16_inj in E; [|by apply crc16_byte_u16..].
  assert (Hx : is_u8 (Z.lxor b b')).
  { unfold is_u8, u8_max in *. pose proof (lxor_bounded 8 b b'). lia. }
  pose proof (crc16_data_zero _ Hx) as Hz. set (c := fold_left crc16_byte p 0) in *.
  pose proof (crc16_byte_linear c c b b') as HL. rewrite E, !Z.lxor_nilpotent in HL.
  rewrite HL in Hz. cbn [Z.eqb negb orb] in Hz. apply lxor_eq_0. by apply Z.eqb_eq.
Qed.
