(* ===== verification/Embed.v ===== *)
(** * Embed: the device-side grant engine (embed/src/lib.rs)

    The engine over its three hardware traits.  A trait method that takes
    [&self] but observes the world (the uptime clock) returns the advanced
    state too: every reading is its own event.  The trait documentation is
    the [..Laws] classes: the clock never steps back, the mark is durable
    once stored, the gate obeys its last command. *)

From stdpp Require Import relations.
From S2P Require Import Prelude Text External Reference Cbor Token Line.
#[local] Open Scope Z_scope.

(** ** The hardware traits *)

Inductive StoreError := StoreFailed.

Class UptimeClock (C : Type) := { uptime_ms : C -> C * Z }.

Class SeqStore (S : Type) := {
  load : S -> S * result StoreError Z;
  store : S -> Z -> S * result StoreError unit;
}.

Class Gate (G : Type) := {
  set_open : G -> bool -> G;
  gate_load : G -> option bool;
  fail_state : G -> option FailState;
}.

(** ** The engine's state *)

Inductive TrustRoot :=
| TrEd25519 (key : list Z)
| TrP256 (key : list Z).

Definition trust_key (t : TrustRoot) : PublicKey :=
  match t with TrEd25519 k => PkEd25519 k | TrP256 k => PkP256Sec1 k end.

Record Grant := { nonce : list Z; expires_at_ms : Z }.

Record DeviceEngine (C S G : Type) := {
  clock : C;
  seq : S;
  gate : G;
  device_id : list Z;
  trust : TrustRoot;
  grant : option Grant;
  last_close : option CloseReason;
}.
Arguments clock {C S G}.
Arguments seq {C S G}.
Arguments gate {C S G}.
Arguments device_id {C S G}.
Arguments trust {C S G}.
Arguments grant {C S G}.
Arguments last_close {C S G}.

Section Engine.
Context {C S G : Type} `{!UptimeClock C, !SeqStore S, !Gate G} `{DataEncoding, WireCrypto}.
Implicit Types e : DeviceEngine C S G.

Definition set_clock e (c : C) : DeviceEngine C S G :=
  {| clock := c; seq := seq e; gate := gate e; device_id := device_id e; trust := trust e;
     grant := grant e; last_close := last_close e |}.

Definition set_seq e (s : S) : DeviceEngine C S G :=
  {| clock := clock e; seq := s; gate := gate e; device_id := device_id e; trust := trust e;
     grant := grant e; last_close := last_close e |}.

Definition new (id : list Z) (t : TrustRoot) (c : C) (s : S) (g : G) : DeviceEngine C S G :=
  {| clock := c; seq := s; gate := set_open g false; device_id := id; trust := t;
     grant := None; last_close := Some Boot |}.

Definition close e (reason : CloseReason) : DeviceEngine C S G :=
  {| clock := clock e; seq := seq e; gate := set_open (gate e) false; device_id := device_id e;
     trust := trust e; grant := None; last_close := Some reason |}.

Definition tick e : DeviceEngine C S G :=
  match grant e with
  | Some g =>
      let '(c, now) := uptime_ms (clock e) in
      let e := set_clock e c in
      if expires_at_ms g <=? now then close e Expiry else e
  | None => e
  end.

Definition remaining_secs e (g : Grant) : DeviceEngine C S G * Z :=
  let '(c, now) := uptime_ms (clock e) in
  (set_clock e c, div_ceil (saturating_sub64 (expires_at_ms g) now) 1000).

Definition report e : DeviceEngine C S G * Report :=
  let '(s, loaded) := load (seq e) in
  let e := set_seq e s in
  let mark := match loaded with Ok v => v | Err _ => 0 end in
  let '(e, open) :=
    match grant e with
    | Some g => let '(e, secs) := remaining_secs e g in (e, Some (nonce g, secs))
    | None => (e, None)
    end in
  (e, {| rp_open := open; rp_seq := mark; rp_load := gate_load (gate e);
         rp_fail := fail_state (gate e);
         rp_reason := match grant e with None => last_close e | Some _ => None end |}).

(** The part of [accept_token] after the checks against the held grant. *)
Definition accept_fresh e (cap : Capability) (stored : Z) : DeviceEngine C S G * Reply :=
  if cap_issued_seq cap <=? stored then (e, Nak "replay")
  else if MAX_TTL_SECS <? cap_ttl_secs cap then (e, Nak "ttl")
  else
    let '(s, saved) := store (seq e) (cap_issued_seq cap) in
    let e := set_seq e s in
    match saved with
    | Err _ => (e, Nak "store-failed")
    | Ok _ =>
        let '(c, now) := uptime_ms (clock e) in
        let g := {| nonce := cap_grant_nonce cap;
                    expires_at_ms := saturating_add64 now (saturating_mul64 (cap_ttl_secs cap) 1000) |} in
        let e := {| clock := c; seq := seq e; gate := set_open (gate e) true;
                    device_id := device_id e; trust := trust e; grant := Some g;
                    last_close := None |} in
        let '(e, secs) := remaining_secs e g in
        (e, AckOpen (nonce g) secs)
    end.

Definition accept_token e (token : string) : DeviceEngine C S G * Reply :=
  match verify_capability (trust_key (trust e)) token with
  | Err VersionKeyMismatch => (e, Nak "wrong-alg")
  | Err _ => (e, Nak "bad-token")
  | Ok cap =>
      if negb (bool_decide (cap_device_id cap = device_id e)) then (e, Nak "wrong-device")
      else
        let '(s, loaded) := load (seq e) in
        let e := set_seq e s in
        match loaded with
        | Err _ => (e, Nak "store-failed")
        | Ok stored =>
            match grant e with
            | Some g =>
                if bool_decide (nonce g = cap_grant_nonce cap) && (cap_issued_seq cap =? stored)
                then let '(e, secs) := remaining_secs e g in (e, AckOpen (nonce g) secs)
                else if negb (bool_decide (nonce g = cap_grant_nonce cap)) then (e, Nak "busy")
                else accept_fresh e cap stored
            | None => accept_fresh e cap stored
            end
        end
  end.

Definition accept_revocation e (token : string) : DeviceEngine C S G * Reply :=
  match verify_revocation (trust_key (trust e)) token with
  | Err VersionKeyMismatch => (e, Nak "wrong-alg")
  | Err _ => (e, Nak "bad-token")
  | Ok rvk =>
      if negb (bool_decide (rvk_device_id rvk = device_id e)) then (e, Nak "wrong-device")
      else
        let '(s, loaded) := load (seq e) in
        let e := set_seq e s in
        match loaded with
        | Err _ => (e, Nak "store-failed")
        | Ok stored =>
            if rvk_issued_seq rvk <=? stored then (e, Nak "replay")
            else
              let '(s, saved) := store (seq e) (rvk_issued_seq rvk) in
              let e := set_seq e s in
              match saved with
              | Err _ => (e, Nak "store-failed")
              | Ok _ =>
                  match grant e with
                  | None => (e, AckClosed)
                  | Some g =>
                      if bool_decide (nonce g = rvk_grant_nonce rvk)
                      then (close e Revert, AckClosed)
                      else (e, Nak "wrong-grant")
                  end
              end
        end
  end.

(** The reply to one line, before rendering. *)
Definition reply_to e (input : string) : DeviceEngine C S G * Reply :=
  let e := tick e in
  match parse_command input with
  | Ok (CToken token) => accept_token e token
  | Ok (CRevoke token) => accept_revocation e token
  | Ok CStatus => let '(e, r) := report e in (e, State r)
  | Ok CSePubkey | Ok (CSeSign _) => (e, Nak "unsupported")
  | Err _ => (e, Nak "bad-command")
  end.

(** [None] is the panic of [expect("replies fit MAX_LINE_LEN")]. *)
Definition handle_line e (input : string) : DeviceEngine C S G * option string :=
  let '(e, reply) := reply_to e input in
  (e, match render_reply reply with Ok line => Some line | Err _ => None end).
End Engine.

(** ** What the trait documentation promises *)

Class UptimeClockLaws (C : Type) `{!UptimeClock C} := {
  now : C -> Z;
  uptime_reads c : (uptime_ms c).2 = now (uptime_ms c).1;
  uptime_mono c : now c <= now (uptime_ms c).1;
  now_u64 c : is_u64 (now c);
}.

Class SeqStoreLaws (S : Type) `{!SeqStore S} := {
  mark : S -> Z;
  mark_u64 s : is_u64 (mark s);
  load_mark s : mark (load s).1 = mark s;
  load_value s v : (load s).2 = Ok v -> v = mark s;
  store_ok s n : is_u64 n -> mark s < n -> (store s n).2 = Ok tt -> mark (store s n).1 = n;
  store_failed s n err : is_u64 n -> mark s < n -> (store s n).2 = Err err ->
    mark s <= mark (store s n).1;
}.

Class GateLaws (G : Type) `{!Gate G} := {
  is_open : G -> bool;
  is_open_set g b : is_open (set_open g b) = b;
}.

Section Effects.
Context {C S G : Type} `{UptimeClockLaws C, SeqStoreLaws S, GateLaws G}.
Context `{DataEncodingLaws, WireCrypto}.
Implicit Types e : DeviceEngine C S G.

(** The longest time a grant can run, in milliseconds. *)
Definition MAX_GRANT_MS : Z := MAX_TTL_SECS * 1000.

(** What no operation changes, and what only grows. *)
Definition frame e e' : Prop :=
  device_id e' = device_id e /\ trust e' = trust e
  /\ now (clock e) <= now (clock e') /\ mark (seq e) <= mark (seq e').

(** The three effects an operation can have on the access; a token opens
    only when its sequence number passes the mark. *)
Inductive effect e (input : string) : DeviceEngine C S G -> Prop :=
| ef_keep e' : frame e e' -> grant e' = grant e -> gate e' = gate e -> effect e input e'
| ef_close e' : frame e e' -> grant e' = None -> is_open (gate e') = false -> effect e input e'
| ef_open e' token cap g :
    frame e e' -> parse_command input = Ok (CToken token) ->
    verify_capability (trust_key (trust e)) token = Ok cap -> cap_device_id cap = device_id e ->
    mark (seq e) < cap_issued_seq cap -> mark (seq e') = cap_issued_seq cap ->
    cap_ttl_secs cap <= MAX_TTL_SECS -> grant e' = Some g ->
    (forall g0, grant e = Some g0 -> nonce g0 = nonce g) ->
    nonce g = cap_grant_nonce cap ->
    now (clock e) <= expires_at_ms g <= now (clock e') + MAX_GRANT_MS ->
    is_u64 (expires_at_ms g) -> is_open (gate e') = true -> effect e input e'.

Lemma frame_refl e : frame e e.
Proof. unfold frame. auto with lia. Qed.
Lemma frame_trans e1 e2 e3 : frame e1 e2 -> frame e2 e3 -> frame e1 e3.
Proof. unfold frame. intuition (congruence || lia). Qed.

Lemma frame_clock e : frame e (set_clock e (uptime_ms (clock e)).1).
Proof. unfold frame. cbn. pose proof (uptime_mono (clock e)). auto with lia. Qed.

Lemma frame_load e : frame e (set_seq e (load (seq e)).1).
Proof. unfold frame. cbn. pose proof (load_mark (seq e)). auto with lia. Qed.

Lemma frame_store e n :
  mark (seq e) < n -> is_u64 n -> frame e (set_seq e (store (seq e) n).1).
Proof.
  intros Hn Hu. unfold frame. cbn. destruct (store (seq e) n).2 as [[]|err] eqn:Es.
  - pose proof (store_ok _ _ Hu Hn Es). auto with lia.
  - pose proof (store_failed _ _ _ Hu Hn Es). intuition lia.
Qed.

Lemma frame_close e reason : frame e (close e reason).
Proof. unfold frame. cbn. auto with lia. Qed.

Lemma frame_remaining e g : frame e (remaining_secs e g).1.
Proof. unfold remaining_secs. pose proof (frame_clock e). by destruct (uptime_ms (clock e)). Qed.

Lemma remaining_same e g :
  grant (remaining_secs e g).1 = grant e /\ gate (remaining_secs e g).1 = gate e
  /\ seq (remaining_secs e g).1 = seq e /\ last_close (remaining_secs e g).1 = last_close e.
Proof. unfold remaining_secs. by destruct (uptime_ms (clock e)). Qed.

Lemma remaining_u64 e g : is_u64 (expires_at_ms g) -> is_u64 (remaining_secs e g).2.
Proof.
  unfold remaining_secs. intros Hg. pose proof (uptime_reads (clock e)) as Hr.
  pose proof (now_u64 (uptime_ms (clock e)).1) as Hn.
  destruct (uptime_ms (clock e)) as [c t]. cbn in *. subst t.
  unfold div_ceil, saturating_sub64, is_u64, u64_max in *.
  split; [apply Z.div_pos; lia|]. apply Z.div_le_upper_bound; lia.
Qed.

Lemma effect_frame e input e' : effect e input e' -> frame e e'.
Proof. by destruct 1. Qed.

(** Before the effect, steps that only advance the clock or read the store. *)
Lemma effect_after e e1 input e' :
  frame e e1 -> grant e1 = grant e -> gate e1 = gate e ->
  effect e1 input e' -> effect e input e'.
Proof.
  intros Hf Hg Hgt. pose proof Hf as (Hd & Ht & Hc & Hm).
  destruct 1 as [e' Hf'|e' Hf'|e' token cap g Hf'].
  - apply ef_keep; [by eapply frame_trans|congruence..].
  - apply ef_close; [by eapply frame_trans|done..].
  - eapply ef_open; eauto using frame_trans; try congruence; try lia.
    + intros g0 Hg0. rewrite <-Hg in Hg0. eauto.
Qed.

Lemma tick_frame e : frame e (tick e).
Proof.
  unfold tick. destruct (grant e) as [g|] eqn:Hg; [|apply frame_refl].
  pose proof (frame_clock e) as Hf. destruct (uptime_ms (clock e)) as [c t].
  destruct (_ <=? t); [|done]. eapply frame_trans; [exact Hf|apply frame_close].
Qed.

(** After a tick a grant that is held has time left. *)
Lemma tick_live e g : grant (tick e) = Some g -> now (clock (tick e)) < expires_at_ms g.
Proof.
  unfold tick. destruct (grant e) as [g0|] eqn:Hg; [|congruence].
  pose proof (uptime_reads (clock e)) as Hr. destruct (uptime_ms (clock e)) as [c t].
  cbn in Hr. subst t. destruct (_ <=? _) eqn:E; bool_prop; [done|].
  cbn. rewrite Hg. intros [= <-]. done.
Qed.

Lemma tick_cases e :
  (grant (tick e) = grant e /\ gate (tick e) = gate e)
  \/ (grant (tick e) = None /\ is_open (gate (tick e)) = false).
Proof.
  unfold tick. destruct (grant e) as [g|] eqn:Hg; [|by left].
  destruct (uptime_ms (clock e)) as [c t]. destruct (_ <=? t); [|by left].
  right. cbn. by rewrite is_open_set.
Qed.

Lemma accept_fresh_effect e input token cap :
  parse_command input = Ok (CToken token) ->
  verify_capability (trust_key (trust e)) token = Ok cap -> cap_device_id cap = device_id e ->
  (forall g0, grant e = Some g0 -> nonce g0 = cap_grant_nonce cap) ->
  effect e input (accept_fresh e cap (mark (seq e))).1.
Proof.
  intros Hp Hv Hid Hn. pose proof (verify_capability_inv _ _ _ Hv) as [Ht _].
  destruct Ht as (_ & _ & _ & _ & _ & _ & Httl & Hseq).
  unfold accept_fresh. destruct (_ <=? _) eqn:E1; [by apply ef_keep; [apply frame_refl|..]|].
  destruct (_ <? _) eqn:E2; [by apply ef_keep; [apply frame_refl|..]|]. bool_prop.
  pose proof (frame_store e _ E1 Hseq) as Hf.
  destruct (store (seq e) (cap_issued_seq cap)) as [s saved] eqn:Es.
  destruct saved as [[]|]; [|by apply ef_keep].
  assert (Hmark : mark s = cap_issued_seq cap).
  { pose proof (store_ok (seq e) (cap_issued_seq cap) Hseq E1) as Hok. rewrite Es in Hok.
    by apply Hok. }
  cbn [clock set_seq]. pose proof (uptime_mono (clock e)) as Hm1.
  pose proof (uptime_reads (clock e)) as Hr. pose proof (now_u64 (uptime_ms (clock e)).1) as Hu.
  destruct (uptime_ms (clock e)) as [c t]. cbn [fst snd] in *. subst t.
  unfold remaining_secs. cbn [clock].
  pose proof (uptime_mono c) as Hm2. destruct (uptime_ms c) as [c2 t2]. cbn [fst] in *.
  unfold is_u32, is_u64, u32_max, u64_max in *.
  assert (MAX_TTL_SECS = 86400) as HM by done.
  eapply ef_open; cbn; eauto using is_open_set; unfold frame, MAX_GRANT_MS,
    saturating_add64, saturating_mul64, is_u64, u64_max in *; cbn in *; try lia.
  intuition (congruence || lia).
Qed.

Lemma accept_token_effect e input token :
  parse_command input = Ok (CToken token) -> effect e input (accept_token e token).1.
Proof.
  intros Hp. unfold accept_token.
  assert (Hk : effect e input e) by (apply ef_keep; [apply frame_refl|done..]).
  destruct (verify_capability _ token) as [cap|[]] eqn:Hv; try exact Hk.
  case_bool_decide as Hid; [|exact Hk]. cbn [negb].
  pose proof (frame_load e) as Hf. pose proof (load_value (seq e)) as Hl.
  pose proof (load_mark (seq e)) as Hm.
  destruct (load (seq e)) as [s loaded]. cbn [fst snd] in *.
  destruct loaded as [stored|]; [|by apply ef_keep].
  rewrite (Hl _ eq_refl). clear Hl.
  eapply effect_after; [exact Hf|done..|].
  assert (Hk' : effect (set_seq e s) input (set_seq e s))
    by (apply ef_keep; [apply frame_refl|done..]).
  rewrite <-Hm.
  assert (Hfresh : (forall g0, grant e = Some g0 -> nonce g0 = cap_grant_nonce cap) ->
    effect (set_seq e s) input (accept_fresh (set_seq e s) cap (mark (seq (set_seq e s)))).1)
    by (intros; by apply (accept_fresh_effect _ _ token)).
  cbn [grant set_seq]. destruct (grant e) as [g|] eqn:Hg; [|by apply Hfresh].
  case_bool_decide as Hn; cbn [andb negb]; [|exact Hk'].
  destruct (_ =? _).
  - pose proof (frame_remaining (set_seq e s) g) as Hfr.
    pose proof (remaining_same (set_seq e s) g) as (Hg1 & Hg2 & _).
    destruct (remaining_secs (set_seq e s) g) as [e1 secs]. cbn [fst] in *. by apply ef_keep.
  - apply Hfresh. intros g0 [= <-]. done.
Qed.

Lemma accept_revocation_effect e input token : effect e input (accept_revocation e token).1.
Proof.
  unfold accept_revocation.
  assert (Hk : effect e input e) by (apply ef_keep; [apply frame_refl|done..]).
  destruct (verify_revocation _ token) as [rvk|[]] eqn:Hv; try exact Hk.
  case_bool_decide as Hid; [|exact Hk]. cbn [negb].
  pose proof (frame_load e) as Hf. pose proof (load_value (seq e)) as Hl.
  pose proof (load_mark (seq e)) as Hm.
  destruct (load (seq e)) as [s loaded]. cbn [fst snd] in *.
  destruct loaded as [stored|]; [|by apply ef_keep].
  rewrite (Hl _ eq_refl). clear Hl.
  destruct (_ <=? _) eqn:E1; [by apply ef_keep|]. bool_prop.
  pose proof (verify_revocation_typed _ _ _ Hv) as (_ & _ & _ & _ & _ & Hu).
  pose proof (frame_store (set_seq e s) (rvk_issued_seq rvk)) as Hs. cbn [seq set_seq] in Hs.
  specialize (Hs ltac:(lia) Hu).
  cbn [seq set_seq]. destruct (store s (rvk_issued_seq rvk)) as [s2 saved]. cbn [fst] in Hs.
  pose proof (frame_trans _ _ _ Hf Hs) as Hf2.
  destruct saved as [[]|]; [|by apply ef_keep]. cbn [grant set_seq].
  destruct (grant e) as [g|] eqn:Hg; [|by apply ef_keep].
  case_bool_decide; [|by apply ef_keep].
  apply ef_close; [|done|by apply is_open_set]. eapply frame_trans; [exact Hf2|apply frame_close].
Qed.

Lemma report_effect e input : effect e input (report e).1.
Proof.
  unfold report. pose proof (frame_load e) as Hf.
  destruct (load (seq e)) as [s loaded]. cbn [fst] in Hf. cbn [grant set_seq].
  destruct (grant e) as [g|] eqn:Hg; [|by apply ef_keep].
  pose proof (frame_remaining (set_seq e s) g) as Hfr.
  pose proof (remaining_same (set_seq e s) g) as (Hg1 & Hg2 & _).
  destruct (remaining_secs (set_seq e s) g) as [e1 secs].
  apply ef_keep; [by eapply frame_trans|done..].
Qed.

Lemma reply_to_effect e input : effect (tick e) input (reply_to e input).1.
Proof.
  unfold reply_to. assert (Hk : effect (tick e) input (tick e))
    by (apply ef_keep; [apply frame_refl|done..]).
  destruct (parse_command input) as [[token|token| | |c]|] eqn:Hp; try exact Hk.
  - by apply accept_token_effect.
  - apply accept_revocation_effect.
  - pose proof (report_effect (tick e) input). by destruct (report (tick e)).
Qed.

Lemma handle_line_reply e input : (handle_line e input).1 = (reply_to e input).1.
Proof. unfold handle_line. by destruct (reply_to e input). Qed.
End Effects.
