(* ===== verification/EmbedProps.v ===== *)
(** * EmbedProps: what a cooperative device guarantees

    Safety of the access a device gates, over every sequence of lines, ticks
    and reboots; and the end-to-end exchange with the daemon: what it signs
    and renders, the device accepts and acknowledges. *)

From stdpp Require Import relations.
From S2P Require Import Prelude Text External Reference Approval Cbor Token Line Embed.
#[local] Open Scope Z_scope.

Section Device.
Context {C S G : Type} `{UptimeClockLaws C, SeqStoreLaws S, GateLaws G}.
Context `{DataEncodingLaws, WireCryptoLaws}.
Implicit Types e : DeviceEngine C S G.

(** A device lives by handling lines and ticking; a power cycle keeps only the
    identity, the key and the store, and restarts the clock.  A cut in the
    middle of a line may interrupt a write of the store: the mark it leaves
    is then any that is not below the old one. *)
Inductive step e : DeviceEngine C S G -> Prop :=
| st_tick : step e (tick e)
| st_line input : step e (handle_line e input).1
| st_reboot c s g : mark (seq e) <= mark s -> step e (new (device_id e) (trust e) c s g).

(** The gate is open exactly while a grant is held, and a grant never has more
    than the cap left to run. *)
Definition inv e : Prop :=
  is_open (gate e) = bool_decide (is_Some (grant e))
  /\ forall g, grant e = Some g ->
       nonce_typed (nonce g) /\ is_u64 (expires_at_ms g)
       /\ expires_at_ms g <= now (clock e) + MAX_GRANT_MS.

Lemma inv_new id t c s g : inv (new id t c s g : DeviceEngine C S G).
Proof. split; cbn; [by rewrite is_open_set|done]. Qed.

Lemma inv_close e e' : grant e' = None -> is_open (gate e') = false -> inv e'.
Proof. intros Hg Ho. split; [by rewrite Hg, Ho|by rewrite Hg]. Qed.

Lemma inv_keep e e' : frame e e' -> grant e' = grant e -> gate e' = gate e -> inv e -> inv e'.
Proof.
  intros (_ & _ & Hc & _) Hg Hgt [Ho Hb]. unfold inv. rewrite Hg, Hgt. split; [done|].
  intros g E. destruct (Hb g E) as (? & ? & ?). auto with lia.
Qed.

Lemma inv_effect e input e' : effect e input e' -> inv e -> inv e'.
Proof.
  destruct 1 as [e' Hf Hg Hgt|e' Hf Hg Hgt
    |e' token cap g Hf Hp Hv Hid Hm Hm' Httl Hg Hsame Hn Hx Hu Hgt]; intros Hi.
  - by eapply inv_keep.
  - by apply (inv_close e).
  - pose proof (verify_capability_inv _ _ _ Hv) as [(_ & _ & _ & Hl & Hu8 & _) _].
    split; [by rewrite Hg, Hgt|]. rewrite Hg. intros g0 [= <-]. unfold nonce_typed. rewrite Hn.
    split; [done|]. split; [done|apply Hx].
Qed.

Lemma inv_tick e : inv e -> inv (tick e).
Proof.
  intros Hi. destruct (tick_cases e) as [[Hg Hgt]|[Hg Hgt]].
  - by eapply inv_keep; [apply tick_frame|..].
  - by apply (inv_close e).
Qed.

Lemma inv_step e e' : step e e' -> inv e -> inv e'.
Proof.
  destruct 1 as [|input|c s g Hs]; intros Hi; [by apply inv_tick| |apply inv_new].
  rewrite handle_line_reply. eapply inv_effect; [apply reply_to_effect|by apply inv_tick].
Qed.

Lemma inv_reachable e e' : rtc step e e' -> inv e -> inv e'.
Proof. induction 1; eauto using inv_step. Qed.

Lemma step_mark e e' : step e e' ->
  device_id e' = device_id e /\ trust e' = trust e /\ mark (seq e) <= mark (seq e').
Proof.
  destruct 1 as [|input|c s g Hs]; [|rewrite handle_line_reply|cbn; auto with lia].
  - destruct (tick_frame e) as (? & ? & _ & ?). auto.
  - destruct (frame_trans _ _ _ (tick_frame e) (effect_frame _ _ _ (reply_to_effect e input)))
      as (? & ? & _ & ?). auto.
Qed.

Lemma steps_mark e e' : rtc step e e' ->
  device_id e' = device_id e /\ trust e' = trust e /\ mark (seq e) <= mark (seq e').
Proof.
  induction 1 as [|e1 e2 e3 Hs _ (IH1 & IH2 & IH3)]; [auto with lia|].
  apply step_mark in Hs as (? & ? & ?). split_and!; [congruence..|lia].
Qed.

(** A line either leaves the access as it is, closes it, or opens it with a
    token whose number passes the mark. *)
Lemma line_effect e input :
  let e' := (handle_line e input).1 in
  grant e' = None \/ grant e' = grant e
  \/ exists token cap, parse_command input = Ok (CToken token)
       /\ verify_capability (trust_key (trust e)) token = Ok cap
       /\ mark (seq e) < cap_issued_seq cap <= mark (seq e').
Proof.
  cbn zeta. rewrite handle_line_reply. pose proof (reply_to_effect e input) as He.
  destruct (tick_frame e) as (Hid & Ht & _ & Hm).
  destruct He as [e' Hf Hg Hgt|e' Hf Hg Hgt
    |e' token cap g Hf Hp Hv _ Hlt Heq]; [|by left|].
  - destruct (tick_cases e) as [[Hg' _]|[Hg' _]]; [right; left|left]; congruence.
  - right. right. exists token, cap. rewrite Ht in Hv. split_and!; [done|done|lia|lia].
Qed.

(** *** Replies *)

(** A reply that survives rendering and parsing. *)
Definition sendable (r : Reply) : Prop :=
  reply_typed r /\ str_len (reply_text r) <= MAX_LINE_LEN.

Lemma sendable_own r : reply_typed r -> own_reply r = true -> sendable r.
Proof. intros. split; [done|]. by apply own_reply_fits. Qed.

Lemma sendable_roundtrip r :
  sendable r -> exists line, render_reply r = Ok line /\ parse_reply line = Ok r.
Proof.
  intros [Ht Hl]. exists (reply_text r). split.
  - rewrite render_reply_text, line_push_empty. by rewrite (proj2 (Z.ltb_ge _ _)).
  - rewrite <-(str_app_nil_r (reply_text r)). by apply parse_reply_text.
Qed.

Ltac nak := split; [by vm_compute|apply (bool_decide_unpack _); by vm_compute].

Lemma sendable_ack e g :
  nonce_typed (nonce g) -> is_u64 (expires_at_ms g) ->
  sendable (AckOpen (nonce g) (remaining_secs e g).2).
Proof. intros. apply sendable_own; [|done]. split; [done|by apply remaining_u64]. Qed.

Lemma accept_fresh_sendable e cap m : cap_typed cap -> sendable (accept_fresh e cap m).2.
Proof.
  intros (_ & _ & _ & Hl & Hu8 & _ & Httl & _). unfold accept_fresh.
  destruct (_ <=? m); [nak|]. destruct (_ <? _); [nak|].
  destruct (store _ _) as [s [[]|]]; [|nak].
  destruct (uptime_ms _) as [c t] eqn:Ec.
  assert (Hx : is_u64 (saturating_add64 t (saturating_mul64 (cap_ttl_secs cap) 1000))).
  { pose proof (uptime_reads (clock (set_seq e s))) as Hr. rewrite Ec in Hr. cbn [fst snd] in Hr.
    subst t. pose proof (now_u64 c). unfold is_u32, is_u64, u32_max, u64_max, saturating_add64,
      saturating_mul64 in *. unfold u64_max in *. lia. }
  cbn zeta. match goal with |- context [remaining_secs ?e1 ?g] =>
    pose proof (sendable_ack e1 g (conj Hl Hu8) Hx) as Hs; destruct (remaining_secs e1 g) end.
  exact Hs.
Qed.

Lemma accept_token_sendable e token : inv e -> sendable (accept_token e token).2.
Proof.
  intros [_ Hb]. unfold accept_token.
  destruct (verify_capability _ token) as [cap|err] eqn:Hv; [|destruct err; nak].
  apply verify_capability_inv in Hv as [Ht _].
  case_bool_decide; [|nak]. cbn [negb]. destruct (load (seq e)) as [s [stored|]]; [|nak].
  cbn [grant set_seq]. destruct (grant e) as [g|] eqn:Hg; [|by apply accept_fresh_sendable].
  destruct (Hb g eq_refl) as (Hn & Hx & _).
  case_bool_decide; cbn [andb negb]; [|nak].
  destruct (_ =? _); [|by apply accept_fresh_sendable].
  pose proof (sendable_ack (set_seq e s) g Hn Hx) as Hs.
  by destruct (remaining_secs (set_seq e s) g).
Qed.

Lemma accept_revocation_sendable e token : sendable (accept_revocation e token).2.
Proof.
  unfold accept_revocation. destruct (verify_revocation _ token) as [rvk|err]; [|destruct err; nak].
  case_bool_decide; [|nak]. cbn [negb]. destruct (load (seq e)) as [s [stored|]]; [|nak].
  destruct (_ <=? _); [nak|]. destruct (store _ _) as [s2 [[]|]]; [|nak].
  cbn [grant set_seq]. destruct (grant e) as [g|]; [|nak]. case_bool_decide; nak.
Qed.

Lemma report_sendable e : inv e -> sendable (State (report e).2).
Proof.
  intros [_ Hb]. apply sendable_own; [|done]. unfold report.
  pose proof (load_value (seq e)) as Hl.
  destruct (load (seq e)) as [s loaded]. cbn [snd] in Hl.
  assert (Hm : is_u64 (match loaded with Ok v => v | Err _ => 0 end)).
  { destruct loaded as [v|]; [rewrite (Hl v eq_refl); apply mark_u64|done]. }
  cbn [grant set_seq]. destruct (grant e) as [g|] eqn:Hg; [|done].
  destruct (Hb g eq_refl) as (Hn & Hx & _).
  pose proof (remaining_u64 (set_seq e s) g Hx) as Hr.
  destruct (remaining_secs (set_seq e s) g) as [e1 secs]. split; [done|]. by split.
Qed.

Lemma reply_to_sendable e input : inv e -> sendable (reply_to e input).2.
Proof.
  intros Hi%inv_tick. unfold reply_to.
  destruct (parse_command input) as [[token|token| | |c]|]; [..|nak].
  - by apply accept_token_sendable.
  - apply accept_revocation_sendable.
  - pose proof (report_sendable (tick e) Hi). by destruct (report (tick e)).
  - nak.
  - nak.
Qed.

Lemma handle_line_answer e input :
  inv e -> exists line, (handle_line e input).2 = Some line
    /\ parse_reply line = Ok (reply_to e input).2.
Proof.
  intros Hi. destruct (sendable_roundtrip _ (reply_to_sendable e input Hi)) as (line & Hr & Hp).
  exists line. split; [|done]. unfold handle_line. destruct (reply_to e input). cbn in *.
  by rewrite Hr.
Qed.

(** *** Acceptance *)

Lemma tick_none e : grant e = None -> tick e = e.
Proof. unfold tick. by intros ->. Qed.

(** The store works: the mark can be read, and the number saved. *)
Definition store_works e (n : Z) : Prop :=
  (load (seq e)).2 = Ok (mark (seq e)) /\ (store (load (seq e)).1 n).2 = Ok tt.

(** A signed token survives the framing of the line. *)
Lemma base64_clean bs : Forall is_u8 bs -> ends_clean (base64url_encode bs).
Proof.
  intros Hu. apply trim_none. eapply str_forall_impl; [|by apply base64url_encode_alphabet].
  intros c Hc. unfold is_eol. apply negb_true_iff, orb_false_iff.
  split; (case_bool_decide; [by subst|done]).
Qed.

Lemma signed_command_parses key cap token :
  key_ok key -> cap_typed cap -> sign_capability_into key cap = Ok token ->
  str_len token <= MAX_TOKEN_LEN ->
  exists line, render_command (CToken token) = Ok line /\ parse_command line = Ok (CToken token).
Proof.
  intros Hk Hc Hs Hlen. exists (command_text (CToken token)). split.
  - rewrite render_command_text, line_push_empty. rewrite (proj2 (Z.ltb_ge _ _)); [done|].
    cbn [command_text]. rewrite str_len_app. change (str_len "TOK ") with 4.
    unfold MAX_LINE_LEN. lia.
  - rewrite <-(str_app_nil_r (command_text _)). apply parse_command_text; [|done]. cbn.
    unfold sign_capability_into in Hs. destruct (_ =? _); [|done]. cbn [negb] in Hs.
    rewrite encode_capability_bytes in Hs by done.
    destruct (_ <=? _)%nat; [|done]. unfold assemble in Hs.
    destruct (sign_message_verifies key (signed_message CAP_PREFIX (cap_bytes cap)) Hk)
      as (sig & Hsig & _ & Hu & _). rewrite Hsig in Hs. destruct (_ <? _); [done|].
    injection Hs as Hs. clear Hlen. subst token.
    apply (ends_clean_app CAP_PREFIX); [done|].
    apply ends_clean_app; [by apply base64_clean, cap_bytes_u8|].
    apply (ends_clean_app "."); [done|by apply base64_clean].
Qed.

Lemma accept_token_opens e token cap :
  verify_capability (trust_key (trust e)) token = Ok cap -> cap_device_id cap = device_id e ->
  grant e = None -> mark (seq e) < cap_issued_seq cap -> cap_ttl_secs cap <= MAX_TTL_SECS ->
  store_works e (cap_issued_seq cap) ->
  exists secs, (accept_token e token).2 = AckOpen (cap_grant_nonce cap) secs
    /\ 0 <= secs <= cap_ttl_secs cap /\ is_open (gate (accept_token e token).1) = true.
Proof.
  intros Hv Hid Hg Hm Httl [Hl Hs]. unfold accept_token. rewrite Hv.
  rewrite bool_decide_eq_true_2 by done. cbn [negb].
  pose proof (load_mark (seq e)). destruct (load (seq e)) as [s loaded]. cbn [fst snd] in *.
  subst loaded. cbn [grant set_seq]. rewrite Hg. unfold accept_fresh.
  rewrite (proj2 (Z.leb_gt _ _)), (proj2 (Z.ltb_ge _ _)) by lia.
  cbn [seq set_seq]. destruct (store s _) as [s2 saved]. cbn [snd] in Hs. subst saved.
  cbn [clock set_seq]. pose proof (uptime_reads (clock e)) as Hr.
  destruct (uptime_ms (clock e)) as [c t]. cbn [fst snd] in Hr. subst t.
  unfold remaining_secs. cbn [clock expires_at_ms].
  pose proof (uptime_reads c) as Hr2. pose proof (uptime_mono c) as Hm2.
  destruct (uptime_ms c) as [c2 t2]. cbn [fst snd] in *. subst t2.
  eexists. split; [done|]. split; [|apply is_open_set].
  apply verify_capability_inv in Hv as [(_ & _ & _ & _ & _ & _ & Ht & _) _].
  unfold div_ceil, saturating_sub64, saturating_add64, saturating_mul64, is_u32 in *.
  pose proof (now_u64 c). unfold is_u64 in *. change MAX_TTL_SECS with 86400 in *.
  change u64_max with 18446744073709551615 in *.
  split; [apply Z.div_pos; lia|]. apply Z.lt_succ_r, Z.div_lt_upper_bound; lia.
Qed.

(** ** Properties *)

(** C6. The gate never outlives its grant.  However a device is driven after
    boot (any lines, ticks and power cycles), its gate is open only while a
    grant is held, no grant has more than 24 hours left, and after any tick
    an open gate means an unexpired grant: a reboot or a lapsed deadline
    always closes. *)
Theorem gate_never_outlives_grant (id : list Z) (t : TrustRoot) (c : C) (s : S) (g : G) e
    (Hsteps : rtc step (new id t c s g) e) :
  (is_open (gate e) = true <-> exists gr, grant e = Some gr)
  /\ (forall gr, grant e = Some gr -> expires_at_ms gr <= now (clock e) + MAX_GRANT_MS)
  /\ (is_open (gate (tick e)) = true ->
        exists gr, grant (tick e) = Some gr /\ now (clock (tick e)) < expires_at_ms gr).
Proof.
  pose proof (inv_reachable _ _ Hsteps (inv_new _ _ _ _ _)) as Hi.
  pose proof (inv_tick _ Hi) as [Ho' _]. destruct Hi as [Ho Hb].
  split; [rewrite Ho; apply bool_decide_eq_true|]. split; [apply Hb|].
  rewrite Ho'. intros [gr Hg]%bool_decide_eq_true. exists gr. split; [done|by apply tick_live].
Qed.

(** C16. A captured token is dead: a line that opened or extended the access
    never does so again.  After it, through any lines, ticks and power
    cycles, the same token leaves the grant as it is or finds it lapsed. *)
Theorem token_opens_once e (input : string)
    (Hopen : grant (handle_line e input).1 <> None)
    (Hnew : grant (handle_line e input).1 <> grant e) :
  forall e' input', rtc step (handle_line e input).1 e' ->
    parse_command input' = parse_command input ->
    grant (handle_line e' input').1 = None \/ grant (handle_line e' input').1 = grant e'.
Proof.
  intros e' input' Hsteps Hsame.
  destruct (line_effect e input) as [?|[?|(token & cap & Hp & Hv & Hlt)]]; [done|done|].
  destruct (steps_mark _ _ (rtc_l _ _ _ _ (st_line e input) Hsteps)) as (_ & Ht & _).
  destruct (steps_mark _ _ Hsteps) as (_ & _ & Hm).
  destruct (line_effect e' input') as [?|[?|(token' & cap' & Hp' & Hv' & Hlt')]];
    [by left|by right|].
  rewrite Hsame, Hp in Hp'. simplify_eq. rewrite Ht in Hv'.
  assert (cap' = cap) as -> by congruence. lia.
Qed.

(** Every line is answered: whatever bytes a booted device receives, in
    any state it can reach, it renders a reply that fits the line buffer
    (the [expect] never fires), and the daemon parses exactly that reply. *)
Theorem device_answers_every_line (id : list Z) (t : TrustRoot) (c : C) (s : S) (g : G) e
    (input : string) (Hsteps : rtc step (new id t c s g) e) :
  exists line, (handle_line e input).2 = Some line
    /\ parse_reply line = Ok (reply_to e input).2.
Proof.
  apply handle_line_answer. by apply (inv_reachable _ _ Hsteps), inv_new.
Qed.

(** C26. Daemon and device meet: a capability the daemon signs for this device,
    with a number past its mark and a TTL within the cap, fits the line the
    daemon sends; an idle device whose store works opens its gate on it and
    answers with an acknowledgement the daemon parses: the grant's nonce and
    at most the TTL. *)
Theorem issued_capability_opens (key : SigningKey) (cap : Capability) e (Hinv : inv e)
    (Hkey : key_ok key) (Hcap : cap_typed cap) (Hver : cap_ver cap = sk_ver key)
    (Htrust : trust_key (trust e) = public_of key) (Hid : cap_device_id cap = device_id e)
    (Hidle : grant e = None) (Hseq : mark (seq e) < cap_issued_seq cap)
    (Httl : cap_ttl_secs cap <= MAX_TTL_SECS) (Hstore : store_works e (cap_issued_seq cap)) :
  exists token line answer secs,
    sign_capability_into key cap = Ok token /\ render_command (CToken token) = Ok line
    /\ (handle_line e line).2 = Some answer
    /\ parse_reply answer = Ok (AckOpen (cap_grant_nonce cap) secs)
    /\ 0 <= secs <= cap_ttl_secs cap /\ is_open (gate (handle_line e line).1) = true.
Proof.
  destruct (signed_capability_opens key cap Hkey Hcap Hver) as (token & Hsig & Hlen & Hver').
  destruct (signed_command_parses key cap token Hkey Hcap Hsig Hlen) as (line & Hline & Hparse).
  destruct (handle_line_answer e line Hinv) as (answer & Hans & Hrep).
  exists token, line, answer. rewrite handle_line_reply. unfold reply_to in *.
  rewrite tick_none, Hparse in * by done.
  destruct (accept_token_opens e token cap) as (secs & Hr & Hs & Ho);
    [by rewrite Htrust|done..|].
  exists secs. rewrite Hrep, Hr. done.
Qed.
End Device.

(** ** Witnesses: a simulated board *)

Definition clamp64 (z : Z) : Z := Z.max 0 (Z.min u64_max z).

#[export] Instance RefClock : UptimeClock Z := {| uptime_ms c := (clamp64 (c + 1), clamp64 (c + 1)) |}.
#[export] Instance RefSeq : SeqStore Z :=
  {| load s := (s, Ok (clamp64 s)); store _ n := (n, Ok tt) |}.
#[export] Instance RefGate : Gate bool :=
  {| set_open _ b := b; gate_load _ := None; fail_state _ := None |}.

#[export] Instance RefClockLaws : UptimeClockLaws Z.
Proof.
  refine {| now := clamp64 |}; intros; cbn; unfold is_u64, clamp64, u64_max; lia.
Defined.
#[export] Instance RefSeqLaws : SeqStoreLaws Z.
Proof.
  refine {| mark := clamp64 |}; cbn; intros; simplify_eq; try done;
    unfold is_u64, clamp64, u64_max in *; lia.
Defined.
#[export] Instance RefGateLaws : GateLaws bool.
Proof. by refine {| is_open := id |}. Defined.

Definition board_new : DeviceEngine Z Z bool :=
  new (replicate 16 7) (TrEd25519 (ed25519_public (replicate 32 1))) 0 5 true.
Definition tok_line : string := "TOK " +:+ sample_token.
Definition board_open : DeviceEngine Z Z bool := (handle_line board_new tok_line).1.

Lemma board_steps : rtc step board_new board_open.
Proof. unfold board_open. apply rtc_once. exact (st_line board_new tok_line). Qed.

Lemma gate_never_outlives_grant_witness :
  is_open (gate board_open) = true /\ rtc step board_new board_open
  /\ exists gr, grant (tick board_open) = Some gr
       /\ now (clock (tick board_open)) < expires_at_ms gr.
Proof.
  split; [by vm_compute|].
  split; [exact board_steps|].
  apply (gate_never_outlives_grant _ _ _ _ _ _ board_steps). by vm_compute.
Defined.

Lemma token_opens_once_witness :
  grant board_open <> None /\
  (grant (handle_line board_open tok_line).1 = None
   \/ grant (handle_line board_open tok_line).1 = grant board_open).
Proof.
  unfold board_open.
  assert (H1 : grant (handle_line board_new tok_line).1 <> None) by (vm_compute; discriminate).
  assert (H2 : grant (handle_line board_new tok_line).1 <> grant board_new)
    by (vm_compute; discriminate).
  split; [exact H1|].
  exact (token_opens_once board_new tok_line H1 H2 _ tok_line (rtc_refl _ _) eq_refl).
Defined.

Lemma device_answers_every_line_witness :
  exists line, (handle_line board_open "STAT").2 = Some line
    /\ parse_reply line = Ok (reply_to board_open "STAT").2.
Proof.
  exact (device_answers_every_line _ _ _ _ _ _ "STAT" board_steps).
Defined.

Lemma issued_capability_opens_witness :
  exists token line answer secs,
    sign_capability_into sample_key sample_cap = Ok token
    /\ render_command (CToken token) = Ok line
    /\ (handle_line board_new line).2 = Some answer
    /\ parse_reply answer = Ok (AckOpen (replicate 16 9) secs)
    /\ 0 <= secs <= 600 /\ is_open (gate (handle_line board_new line).1) = true.
Proof.
  apply (issued_capability_opens sample_key sample_cap board_new);
    [apply inv_new|exact I|exact sample_cap_typed|reflexivity..|by vm_compute|by vm_compute|].
  by split; vm_compute.
Defined.
