(* ===== verification/Flash.v ===== *)
(** * Flash: the sequence mark of the reference firmware

    The two-slot record codec (firmware/esp32c3/logic/src/lib.rs) and the
    [SeqStore] the firmware builds on it (firmware/esp32c3/src/main.rs).
    The flash part is a parameter. *)

From S2P Require Import Prelude Text Approval Cbor Crc Embed.

(** ** The records *)

Definition SLOT_LEN : nat := 16.
Definition REGION_LEN : nat := 32.
Definition MAGIC : list Z := as_bytes "LGSQ".

Definition encode_slot (seq : Z) : list Z :=
  let body := MAGIC ++ le_bytes 8 seq in
  body ++ le_bytes 4 (crc32 body).

Definition decode_slot (slot : list Z) : option Z :=
  if negb (bool_decide (length slot = SLOT_LEN)) || negb (bool_decide (take 4 slot = MAGIC)) then None
  else if negb (crc32 (take 12 slot) =? from_le_bytes (drop 12 slot)) then None
  else Some (from_le_bytes (take 8 (drop 4 slot))).

Definition read_mark (region : list Z) : Z :=
  match decode_slot (take SLOT_LEN region), decode_slot (drop SLOT_LEN region) with
  | Some a, Some b => Z.max a b
  | Some a, None => a
  | None, Some b => b
  | None, None => 0
  end.

Definition write_plan (region : list Z) (seq : Z) : nat * list Z :=
  let target :=
    match decode_slot (take SLOT_LEN region), decode_slot (drop SLOT_LEN region) with
    | Some a_seq, Some b_seq => if b_seq <=? a_seq then 1%nat else 0%nat
    | Some _, None => 1%nat
    | None, _ => 0%nat
    end in
  (target, encode_slot seq).

(** ** The store over a flash part *)

(** [FlashStorage]: read and write at an offset, each free to fail. *)
Class FlashPart (F : Type) := {
  flash_read : F -> Z -> nat -> F * option (list Z);
  flash_write : F -> Z -> list Z -> F * bool;
}.

Definition SEQ_FLASH_OFFSET : Z := 0x3ff000.

Module FlashSeq.
Section Store.
Context {F : Type} `{!FlashPart F}.

Definition load (f : F) : F * result StoreError Z :=
  let '(f, region) := flash_read f SEQ_FLASH_OFFSET REGION_LEN in
  (f, match region with Some region => Ok (read_mark region) | None => Err StoreFailed end).

Definition store (f : F) (seq : Z) : F * result StoreError unit :=
  let '(f, region) := flash_read f SEQ_FLASH_OFFSET REGION_LEN in
  match region with
  | None => (f, Err StoreFailed)
  | Some region =>
      let '(slot, bytes) := write_plan region seq in
      let offset := SEQ_FLASH_OFFSET + Z.of_nat (slot * SLOT_LEN) in
      let '(f, ok) := flash_write f offset bytes in
      (f, if ok then Ok tt else Err StoreFailed)
  end.
End Store.
End FlashSeq.

#[export] Instance flash_seq {F} `{!FlashPart F} : SeqStore F :=
  {| Embed.load := FlashSeq.load; Embed.store := FlashSeq.store |}.

(** ** The codec *)

Lemma MAGIC_u8 : Forall is_u8 MAGIC.
Proof. apply as_bytes_u8. Qed.

Lemma crc32_u32 l : Forall is_u8 l -> is_u32 (crc32 l).
Proof.
  intros Hl. unfold crc32, not32. apply lxor_bounded; [lia| |lia].
  apply fold_crc32_u32; [done|]. unfold is_u32. lia.
Qed.

Lemma length_encode_slot seq : length (encode_slot seq) = SLOT_LEN.
Proof. unfold encode_slot. by rewrite !length_app, !length_le_bytes. Qed.

Lemma body_u8 seq : Forall is_u8 (MAGIC ++ le_bytes 8 seq).
Proof. apply Forall_app; auto using MAGIC_u8, le_bytes_u8. Qed.

Lemma encode_slot_u8 seq : Forall is_u8 (encode_slot seq).
Proof. unfold encode_slot. apply Forall_app; auto using body_u8, le_bytes_u8. Qed.

(** The parts of a 16-byte slot. *)
Lemma decode_slot_parts body crc : length body = 12%nat -> length crc = 4%nat ->
  decode_slot (body ++ crc) =
  if bool_decide (take 4 body = MAGIC) && (crc32 body =? from_le_bytes crc)
  then Some (from_le_bytes (drop 4 body)) else None.
Proof.
  intros Hb Hc. unfold decode_slot.
  rewrite length_app, Hb, Hc. rewrite bool_decide_true by done. cbn [negb orb].
  rewrite take_app_le by lia. rewrite take_app_length' by done. rewrite drop_app_length' by done.
  rewrite drop_app_le by lia. rewrite take_app_length' by (rewrite length_drop; lia).
  case_bool_decide; cbn [negb andb]; [|done]. by destruct (_ =? _).
Qed.

Lemma decode_encode_slot seq : is_u64 seq -> decode_slot (encode_slot seq) = Some seq.
Proof.
  intros Hs. unfold encode_slot. rewrite decode_slot_parts by (by rewrite ?length_app, !length_le_bytes).
  rewrite take_app_length' by done. rewrite bool_decide_true by done.
  rewrite from_le_bytes_le, Z.eqb_refl by (apply crc32_u32, body_u8).
  cbn [andb]. rewrite drop_app_length' by done. f_equal. apply from_le_bytes_le.
  unfold is_u64, u64_max in Hs. lia.
Qed.

Lemma decode_slot_u64 slot v : Forall is_u8 slot -> decode_slot slot = Some v -> is_u64 v.
Proof.
  unfold decode_slot. intros Hu. case_match eqn:E; [done|]. case_match; [done|]. intros [= <-].
  pose proof (from_le_bytes_range (take 8 (drop 4 slot))) as Hr.
  apply orb_false_iff in E as [E _]. apply negb_false_iff, bool_decide_eq_true in E.
  rewrite length_take, length_drop, E in Hr. cbn in Hr.
  assert (Forall is_u8 (take 8 (drop 4 slot))) as ?%Hr by by apply Forall_take, Forall_drop.
  unfold is_u64, u64_max. lia.
Qed.

(** ** Where the mark is *)

(** A region with one of its slots replaced. *)
Definition patch (region : list Z) (i : nat) (slot : list Z) : list Z :=
  if Nat.eqb i 0 then slot ++ drop SLOT_LEN region else take SLOT_LEN region ++ slot.

Definition slot_of (region : list Z) (i : nat) : list Z :=
  if Nat.eqb i 0 then take SLOT_LEN region else drop SLOT_LEN region.

Lemma length_slots (region : list Z) : length region = REGION_LEN ->
  length (take SLOT_LEN region) = SLOT_LEN /\ length (drop SLOT_LEN region) = SLOT_LEN.
Proof. intros Hl. rewrite length_take, length_drop, Hl. done. Qed.

(** The slot a plan spares holds the mark. *)
Lemma read_mark_patch region seq slot : length region = REGION_LEN -> length slot = SLOT_LEN ->
  Forall is_u8 slot ->
  read_mark (patch region (write_plan region seq).1 slot) =
  match decode_slot slot with Some v => Z.max v (read_mark region) | None => read_mark region end.
Proof.
  intros Hl Hs Hu. destruct (length_slots _ Hl) as [Ha Hb].
  pose proof (decode_slot_u64 slot) as Hd. unfold is_u64 in Hd.
  unfold write_plan, patch, read_mark. cbn [fst].
  destruct (decode_slot (take SLOT_LEN region)) as [a|] eqn:Ea,
    (decode_slot (drop SLOT_LEN region)) as [b|] eqn:Eb;
    [destruct (Z.leb_spec b a)|..]; cbn [Nat.eqb];
    rewrite take_app_length', drop_app_length', ?Ea, ?Eb by done;
    destruct (decode_slot slot) as [v|]; try specialize (Hd v Hu eq_refl); lia.
Qed.

Lemma read_mark_u64 region : Forall is_u8 region -> is_u64 (read_mark region).
Proof.
  intros Hu. unfold read_mark.
  pose proof (decode_slot_u64 (take SLOT_LEN region)) as Ha.
  pose proof (decode_slot_u64 (drop SLOT_LEN region)) as Hb.
  unfold is_u64 in *. destruct (decode_slot (take SLOT_LEN region)) as [a|];
    [specialize (Ha a (Forall_take _ _ _ Hu) eq_refl)|];
    (destruct (decode_slot (drop SLOT_LEN region)) as [b|];
     [specialize (Hb b (Forall_drop _ _ _ Hu) eq_refl)|]); unfold u64_max in *; lia.
Qed.

(** ** Torn writes *)

(** A record whose first [k] bytes made it onto an older one. *)
Definition torn (k : nat) (new old : list Z) : list Z := take k new ++ drop k old.

Lemma torn_app k (a b x y : list Z) : length a = length b ->
  torn k (a ++ x) (b ++ y) = torn k a b ++ torn (k - length a) x y.
Proof.
  intros Hl. unfold torn. rewrite take_app, drop_app, Hl.
  destruct (decide (k <= length b)%nat).
  - replace (k - length b)%nat with 0%nat by lia. rewrite !take_0, !drop_0, app_nil_r. by rewrite app_assoc.
  - rewrite (drop_ge b) by lia. by rewrite app_nil_r, <-app_assoc.
Qed.

Lemma torn_same k (a : list Z) : torn k a a = a.
Proof. apply take_drop. Qed.

Lemma torn_early k (a b : list Z) : k = 0%nat -> torn k a b = b.
Proof. by intros ->. Qed.

Lemma torn_late k (a b : list Z) : length a = length b -> (length a <= k)%nat -> torn k a b = a.
Proof. intros Hl Hk. unfold torn. rewrite (take_ge a), (drop_ge b) by lia. apply app_nil_r. Qed.

Lemma length_torn k (a b : list Z) : length a = length b -> length (torn k a b) = length a.
Proof. intros Hl. unfold torn. rewrite length_app, length_take, length_drop. lia. Qed.

Lemma torn_u8 k a b : Forall is_u8 a -> Forall is_u8 b -> Forall is_u8 (torn k a b).
Proof. intros. apply Forall_app. auto using Forall_take, Forall_drop. Qed.

(** The two words of a record's number. *)
Lemma le_bytes_split n : le_bytes 8 n = le_bytes 4 n ++ le_bytes 4 (n / 2 ^ 32).
Proof.
  rewrite !le_bytes_S. change (le_bytes 0 _) with (@nil Z). cbn [app].
  rewrite !Z.div_div by lia. done.
Qed.

Lemma decode_body (body : list Z) (crc : list Z) : length body = 8%nat -> length crc = 4%nat ->
  decode_slot ((MAGIC ++ body) ++ crc) =
  if crc32 (MAGIC ++ body) =? from_le_bytes crc then Some (from_le_bytes body) else None.
Proof.
  intros Hb Hc. rewrite decode_slot_parts by (rewrite ?length_app, ?Hb; done).
  by rewrite take_app_length', drop_app_length', bool_decide_true by done.
Qed.

Lemma read_crc body : Forall is_u8 body -> from_le_bytes (le_bytes 4 (crc32 body)) = crc32 body.
Proof. intros Hb. apply from_le_bytes_le. apply (crc32_u32 _ Hb). Qed.

Lemma read_number n : is_u64 n -> from_le_bytes (le_bytes 8 n) = n.
Proof. intros Hn. apply from_le_bytes_le. unfold is_u64, u64_max in Hn. lia. Qed.

(** A record half written over another of the same upper word reads as one
    of the two or as none: what differs is within one burst. *)
Lemma torn_slot_reads k n o : is_u64 n -> is_u64 o -> n / 2 ^ 32 = o / 2 ^ 32 ->
  decode_slot (torn k (encode_slot n) (encode_slot o)) ∈ [None; Some n; Some o].
Proof.
  intros Hn Ho Hhi. unfold encode_slot. set (cn := le_bytes 4 _). set (co := le_bytes 4 _).
  assert (Hlen : forall x, length (MAGIC ++ le_bytes 8 x) = 12%nat).
  { intros x. by rewrite length_app, length_le_bytes. }
  rewrite torn_app by (by rewrite !Hlen). rewrite Hlen. rewrite torn_app by done.
  rewrite torn_same. change (length MAGIC) with 4%nat. set (body := torn (k - 4) _ _).
  assert (Hb8 : length body = 8%nat) by (unfold body; by rewrite length_torn, length_le_bytes).
  assert (Hc4 : length (torn (k - 12) cn co) = 4%nat).
  { apply length_torn. unfold cn, co. by rewrite !length_le_bytes. }
  rewrite decode_body by done. destruct (Z.eqb_spec (crc32 (MAGIC ++ body)) (from_le_bytes (torn (k - 12) cn co))) as [E|];
    [|set_solver].
  destruct (decide (k <= 12)%nat) as [Hk|Hk].
  - rewrite torn_early in E by lia. unfold co in E. rewrite read_crc in E by apply body_u8.
    unfold body in E |- *. rewrite !le_bytes_split, Hhi in E |- *.
    rewrite torn_app, torn_same in E by done. rewrite torn_app, torn_same by done.
    apply crc32_burst in E; auto using MAGIC_u8, le_bytes_u8, torn_u8.
    2, 3: rewrite length_torn by done; done.
    rewrite E, <-le_bytes_split, read_number by done. set_solver.
  - unfold body. rewrite torn_late by (rewrite !length_le_bytes; lia).
    rewrite read_number by done. set_solver.
Qed.

Lemma slot_mark region seq o : is_u64 o -> length region = REGION_LEN -> Forall is_u8 region ->
  slot_of region (write_plan region seq).1 = encode_slot o -> o <= read_mark region.
Proof.
  intros Ho Hl Hu. pose proof (decode_encode_slot o Ho) as Hd. set (e := encode_slot o) in *.
  clearbody e. unfold slot_of, write_plan, read_mark. cbn [fst].
  destruct (decode_slot (take SLOT_LEN region)) as [a|] eqn:Ea,
    (decode_slot (drop SLOT_LEN region)) as [b|] eqn:Eb;
    [destruct (Z.leb_spec b a)|..]; cbn [Nat.eqb]; intros E; rewrite E in *; simplify_eq; lia.
Qed.

Lemma read_mark_new region seq : length region = REGION_LEN -> is_u64 seq -> read_mark region <= seq ->
  read_mark (patch region (write_plan region seq).1 (encode_slot seq)) = seq.
Proof.
  intros Hl Hs Hle. rewrite read_mark_patch by auto using length_encode_slot, encode_slot_u8.
  rewrite decode_encode_slot by done. lia.
Qed.

Lemma read_mark_never_back region seq slot : length region = REGION_LEN ->
  length slot = SLOT_LEN -> Forall is_u8 slot ->
  read_mark region <= read_mark (patch region (write_plan region seq).1 slot).
Proof. intros. rewrite read_mark_patch by done. destruct (decode_slot slot); lia. Qed.

(** ** Properties of the codec *)

(** C31. Power can fail at any byte.  A new mark is written beside the old
    one: once complete it reads back, whatever the cut leaves in the slot
    the mark never falls below the old one, and a cut over an earlier record
    of the same upper word leaves exactly the old mark or the new one. *)
Theorem torn_write_keeps_mark (region : list Z) (seq : Z)
    (Hlen : length region = REGION_LEN) (Hu : Forall is_u8 region)
    (Hseq : is_u64 seq) (Hnew : read_mark region < seq) :
  let '(i, bytes) := write_plan region seq in
  read_mark (patch region i bytes) = seq
  /\ (forall garbage, length garbage = SLOT_LEN -> Forall is_u8 garbage ->
        read_mark region <= read_mark (patch region i garbage))
  /\ (forall k o, is_u64 o -> slot_of region i = encode_slot o -> seq / 2 ^ 32 = o / 2 ^ 32 ->
        let cut := patch region i (torn k bytes (slot_of region i)) in
        read_mark cut = read_mark region \/ read_mark cut = seq).
Proof.
  destruct (write_plan region seq) as [i bytes] eqn:E.
  assert (i = (write_plan region seq).1 /\ bytes = encode_slot seq) as [-> ->]
    by (rewrite E; unfold write_plan in E; by simplify_eq).
  split; [apply read_mark_new; auto with lia|]. split; [eauto using read_mark_never_back|].
  intros k o Ho Hslot Hhi. pose proof (slot_mark _ _ _ Ho Hlen Hu Hslot) as Hle.
  cbv zeta. rewrite Hslot, read_mark_patch; [|done|..].
  - pose proof (torn_slot_reads k seq o Hseq Ho Hhi) as Hr.
    rewrite !elem_of_cons in Hr. destruct Hr as [->|[->|[->|[]%elem_of_nil]]]; lia.
  - rewrite length_torn; [apply length_encode_slot|by rewrite !length_encode_slot].
  - apply torn_u8; apply encode_slot_u8.
Qed.

Lemma torn_write_keeps_mark_witness :
  let region := encode_slot 4 ++ encode_slot 5 in
  let '(i, bytes) := write_plan region 6 in
  i = 0%nat /\ read_mark (patch region i bytes) = 6
  /\ (let cut := patch region i (torn 7 bytes (slot_of region i)) in
      read_mark cut = 5 \/ read_mark cut = 6).
Proof.
  pose proof (torn_write_keeps_mark (encode_slot 4 ++ encode_slot 5) 6) as H.
  destruct H as (H1 & _ & H3); [reflexivity| |split; vm_compute; discriminate|reflexivity|].
  - apply Forall_app; split; apply encode_slot_u8.
  - split; [reflexivity|]. split; [exact H1|].
    apply (H3 7%nat 4); [split; vm_compute; discriminate|reflexivity..].
Defined.

(** ** The firmware's store keeps the engine's contract *)

(** What the records rely on of the part: a read tells the cells, and a
    write changes no cell outside the bytes it was given, done or not. *)
Class FlashLaws (F : Type) `{!FlashPart F} := {
  cell : F -> Z -> Z;
  cell_u8 f a : is_u8 (cell f a);
  read_keeps f a n x : cell (flash_read f a n).1 x = cell f x;
  read_tells f a n bs : (flash_read f a n).2 = Some bs -> bs = cell f <$> seqZ a (Z.of_nat n);
  write_confined f a bs x :
    x < a \/ a + Z.of_nat (length bs) <= x -> cell (flash_write f a bs).1 x = cell f x;
  write_done f a bs : Forall is_u8 bs ->
    (flash_write f a bs).2 = true -> cell (flash_write f a bs).1 <$> seqZ a (Z.of_nat (length bs)) = bs;
}.

Section Contract.
Context {F : Type} `{FlashLaws F}.
Implicit Types f : F.

Definition cells f (a : Z) (n : nat) : list Z := cell f <$> seqZ a (Z.of_nat n).
Definition region f : list Z := cells f SEQ_FLASH_OFFSET REGION_LEN.

Lemma cells_u8 f a n : Forall is_u8 (cells f a n).
Proof. apply Forall_fmap, Forall_true. intros x. apply cell_u8. Qed.

Lemma length_cells f a n : length (cells f a n) = n.
Proof. unfold cells. rewrite length_fmap, length_seqZ. lia. Qed.

Lemma cells_ext f f' a n :
  (forall x, a <= x < a + Z.of_nat n -> cell f' x = cell f x) -> cells f' a n = cells f a n.
Proof.
  intros E. unfold cells. apply list_fmap_ext. intros i x Hx. apply E.
  apply lookup_seqZ in Hx. lia.
Qed.

Lemma region_slots f : region f = cells f SEQ_FLASH_OFFSET SLOT_LEN
  ++ cells f (SEQ_FLASH_OFFSET + 16) SLOT_LEN.
Proof.
  unfold region, cells. rewrite <-fmap_app. f_equal.
Qed.

Lemma region_write f i bs : (i < 2)%nat -> length bs = SLOT_LEN -> Forall is_u8 bs ->
  let '(f', ok) := flash_write f (SEQ_FLASH_OFFSET + Z.of_nat (i * SLOT_LEN)) bs in
  exists slot, length slot = SLOT_LEN /\ Forall is_u8 slot /\ (ok = true -> slot = bs)
    /\ region f' = patch (region f) i slot.
Proof.
  intros Hi Hb Hu. set (a := SEQ_FLASH_OFFSET + Z.of_nat (i * SLOT_LEN)).
  pose proof (write_confined f a bs) as Hc. pose proof (write_done f a bs Hu) as Hd.
  destruct (flash_write f a bs) as [f' ok]. cbn [fst snd] in *. rewrite Hb in *.
  exists (cells f' a SLOT_LEN). split; [apply length_cells|]. split; [apply cells_u8|].
  split; [by intros; apply Hd|]. rewrite !region_slots.
  assert (i = 0%nat \/ i = 1%nat) as [->| ->] by lia; unfold a in *; cbn [Nat.mul] in *;
    unfold patch; cbn [Nat.eqb].
  - rewrite drop_app_length' by (by rewrite length_cells). f_equal.
    apply cells_ext. intros x Hx. apply Hc. change (Z.of_nat SLOT_LEN) with 16 in *. lia.
  - rewrite take_app_length' by (by rewrite length_cells). f_equal.
    apply cells_ext. intros x Hx. apply Hc. change (Z.of_nat (SLOT_LEN + 0)) with 16 in *; change (Z.of_nat SLOT_LEN) with 16 in *. lia.
Qed.

Lemma region_read f a n : region (flash_read f a n).1 = region f.
Proof. apply cells_ext. intros. apply read_keeps. Qed.

Lemma plan_target r n : ((write_plan r n).1 < 2)%nat.
Proof. unfold write_plan. cbn [fst]. repeat case_match; lia. Qed.

Lemma length_region f : length (region f) = REGION_LEN.
Proof. apply length_cells. Qed.

(** What a store leaves. *)
Lemma store_region f n :
  let '(f', r) := FlashSeq.store f n in
  region f' = region f /\ r = Err StoreFailed
  \/ exists slot, length slot = SLOT_LEN /\ Forall is_u8 slot
       /\ region f' = patch (region f) (write_plan (region f) n).1 slot
       /\ (r = Ok tt -> slot = encode_slot n).
Proof.
  unfold FlashSeq.store. pose proof (region_read f SEQ_FLASH_OFFSET REGION_LEN) as Hr.
  pose proof (read_tells f SEQ_FLASH_OFFSET REGION_LEN) as Ht.
  destruct (flash_read f SEQ_FLASH_OFFSET REGION_LEN) as [f1 [bs|]]; cbn [fst snd] in *; [|by left].
  specialize (Ht _ eq_refl). fold (cells f SEQ_FLASH_OFFSET REGION_LEN) in Ht. fold (region f) in Ht.
  subst bs. pose proof (plan_target (region f) n) as Hi.
  destruct (write_plan (region f) n) as [i bytes] eqn:Ep. cbn [fst] in *.
  assert (bytes = encode_slot n) as -> by (unfold write_plan in Ep; by simplify_eq).
  pose proof (region_write f1 i (encode_slot n) Hi (length_encode_slot n) (encode_slot_u8 n)) as Hw.
  destruct (flash_write f1 _ _) as [f2 ok]. destruct Hw as (slot & ? & ? & Hok & Hreg).
  right. exists slot. rewrite <-Hr. split_and!; [done..|]. destruct ok; [auto|done].
Qed.

#[export] Instance flash_seq_laws : SeqStoreLaws F.
Proof.
  refine {| mark f := read_mark (region f) |}.
  - intros f. apply read_mark_u64, cells_u8.
  - intros f. cbn. unfold FlashSeq.load. pose proof (region_read f SEQ_FLASH_OFFSET REGION_LEN) as Hr.
    destruct (flash_read f _ _). cbn [fst] in *. by rewrite Hr.
  - intros f v. cbn. unfold FlashSeq.load. pose proof (read_tells f SEQ_FLASH_OFFSET REGION_LEN) as Ht.
    destruct (flash_read f _ _) as [f' [bs|]]; cbn [fst snd] in *; [|done].
    rewrite (Ht _ eq_refl). by intros [= <-].
  - intros f n Hn Hlt Hok. cbn in *. pose proof (store_region f n) as Hs.
    destruct (FlashSeq.store f n) as [f' r]. cbn [fst snd] in *. subst r.
    destruct Hs as [[_ [=]]|(slot & _ & _ & -> & ->)]; [|done].
    apply read_mark_new; [apply length_region|done|lia].
  - intros f n err Hn Hlt Herr. cbn in *. pose proof (store_region f n) as Hs.
    destruct (FlashSeq.store f n) as [f' r]. cbn [fst snd] in *.
    destruct Hs as [[-> _]|(slot & Hl & Hu & -> & _)]; [lia|].
    apply read_mark_never_back; [apply length_region|done..].
Defined.
End Contract.

(** ** A flash part in memory *)

Fixpoint poke (f : gmap Z Z) (a : Z) (bs : list Z) : gmap Z Z :=
  match bs with [] => f | b :: bs => <[a := b]> (poke f (a + 1) bs) end.

Definition peek (f : gmap Z Z) (a : Z) : Z := default 255 (f !! a) `mod` 256.

#[export] Instance ram_flash : FlashPart (gmap Z Z) := {|
  flash_read f a n := (f, Some (peek f <$> seqZ a (Z.of_nat n)));
  flash_write f a bs := (poke f a bs, true);
|}.

Lemma peek_poke_ne f a bs x : x < a \/ a + Z.of_nat (length bs) <= x -> peek (poke f a bs) x = peek f x.
Proof.
  revert a. induction bs as [|b bs IH]; intros a Hx; [done|]. cbn [poke length] in *.
  unfold peek at 1. rewrite lookup_insert_ne by lia. apply IH. lia.
Qed.

#[export] Instance ram_flash_laws : FlashLaws (gmap Z Z).
Proof.
  refine {| cell := peek |}; cbn.
  - intros f a. unfold peek, is_u8, u8_max. pose proof (Z.mod_pos_bound (default 255 (f !! a)) 256). lia.
  - done.
  - intros f a n bs [= <-]. done.
  - intros f a bs x. apply peek_poke_ne.
  - intros f a bs Hu _. revert a. induction Hu as [|b bs Hb Hu IH]; intros a; [done|].
    cbn [poke length]. rewrite seqZ_cons by lia. rewrite Nat2Z.inj_succ, Z.pred_succ. cbn. f_equal.
    + unfold peek. rewrite lookup_insert_eq. cbn. apply Z.mod_small. unfold is_u8, u8_max in Hb. lia.
    + etrans; [|apply (IH (Z.succ a))]. apply list_fmap_ext. intros i x Hx. apply lookup_seqZ in Hx.
      unfold peek. rewrite lookup_insert_ne by lia. by rewrite Z.add_1_r.
Defined.

(** Two stores on a fresh part alternate between the slots. *)
Example stores_alternate :
  let f1 := (FlashSeq.store (∅ : gmap Z Z) 4).1 in
  let f2 := (FlashSeq.store f1 5).1 in
  (FlashSeq.load f2).2 = Ok 5 /\ read_mark (take SLOT_LEN (region f2) ++ replicate 16 0) = 4.
Proof. vm_compute. done. Qed.
