(* ===== verification/Authority.v ===== *)
(** * Authority: weighted-threshold approval (core/src/authority.rs)

    The configuration spec, the validated model and its construction with
    every check ([from_spec]), the evaluation of a gate against the proofs
    gathered so far, and the longest wait of a gate. *)

From S2P Require Import Prelude Text Clock Ttl External.

(** ** Configuration spec *)

Inductive AuthKind := KEd25519 | KTotp | KPassword | KFido2 | KTpm | KHmac.

Record AuthenticatorSpec := {
  as_id : string;
  as_kind : AuthKind;
  as_public_key : option string;
  as_secret_file : option string;
  as_hash_file : option string;
  as_alg : option string;
  as_credential_id : option string;
}.

Record FactorSpec := {
  fs_weight : Z;
  fs_authenticator : option string;
  fs_group : option string;
  fs_wait : option string;
}.

(** [AuthorityBody]: an authority without an id. *)
Record AuthorityBody := { ab_threshold : Z; ab_factor : list FactorSpec }.

(** [AuthoritySpec] (a group). *)
Record AuthoritySpec := { gs_id : string; gs_threshold : Z; gs_factor : list FactorSpec }.

Record ProfileSpec := {
  ps_id : string;
  ps_threshold : Z;
  ps_factor : list FactorSpec;
  ps_mcp : bool;
}.

Record ApprovalSpec := {
  spec_authenticator : list AuthenticatorSpec;
  spec_group : list AuthoritySpec;
  spec_profile : list ProfileSpec;
}.

(** ** Runtime model *)

(** [fido2::Alg] and [fido2::Fido2Credential]. *)
Inductive Alg := Es256 | EdDsa.
Record Fido2Credential := { cred_alg : Alg; cred_id : list Z; cred_public_key : list Z }.

Inductive Factor :=
| Authenticator_ (id : string)
| Group (id : string)
| Wait (dur : Duration).

Record WeightedFactor := { weight : Z; factor : Factor }.

Record Authority := { threshold : Z; factors : list WeightedFactor }.

(** [&'static str] of the [kind] fields. *)
Inductive AuthorityError :=
| NoProfiles
| EmptyId (kind : string)
| DuplicateAuthenticator (id : string)
| DuplicateGroup (id : string)
| DuplicateProfile (id : string)
| MissingMaterial (id kind field : string)
| BadPublicKey (id message : string)
| Fido2UnknownAlg (id alg : string)
| Fido2BadKey (id message : string)
| ZeroThreshold (kind id : string)
| ZeroWeight (kind id : string)
| NoFactors (kind id : string)
| BadFactor (kind id message : string)
| BadWait (kind id : string) (e : TtlError)
| Unsatisfiable (kind id : string) (threshold available : Z)
| DanglingAuthenticator (referrer_kind referrer id : string)
| DanglingGroup (referrer_kind referrer id : string)
| GroupCycle (id : string).

Inductive Missing :=
| MissingAuthenticator (id : string)
| MissingGroup (id : string)
| MissingWait (remaining : Duration).

Record Outcome := {
  out_weight : Z;
  out_threshold : Z;
  met : bool;
  missing : list Missing;
}.

#[export] Instance Factor_eq_dec : EqDecision Factor.
Proof. solve_decision. Defined.
#[export] Instance Missing_eq_dec : EqDecision Missing.
Proof. solve_decision. Defined.
#[export] Instance AuthorityError_eq_dec : EqDecision AuthorityError.
Proof. solve_decision. Defined.

(** ** Building one authority *)

(** How many of the three factor kinds a spec names. *)
Definition factor_set (fs : FactorSpec) : nat :=
  let b (o : option string) := match o with Some _ => 1%nat | None => 0%nat end in
  (b (fs_authenticator fs) + b (fs_group fs) + b (fs_wait fs))%nat.

(** The factor of one spec, once exactly one kind is known to be named. *)
Definition build_factor (kind id : string) (fs : FactorSpec) : result AuthorityError Factor :=
  match fs_authenticator fs, fs_group fs, fs_wait fs with
  | Some a, _, _ => Ok (Authenticator_ a)
  | None, Some g, _ => Ok (Group g)
  | None, None, Some w =>
      let? t := map_err (BadWait kind id) (Ttl.parse w) in
      Ok (Wait (Ttl.duration t))
  | None, None, None => Err (BadFactor kind id "names none of authenticator/group/wait")
  end.

Fixpoint build_factors (kind id : string) (specs : list FactorSpec)
    (facs : list WeightedFactor) (available : Z)
    : result AuthorityError (list WeightedFactor * Z) :=
  match specs with
  | [] => Ok (facs, available)
  | fs :: specs =>
      if fs_weight fs =? 0 then Err (ZeroWeight kind id)
      else if negb (bool_decide (factor_set fs = 1%nat)) then
        Err (BadFactor kind id
               (if bool_decide (factor_set fs = 0%nat)
                then "names none of authenticator/group/wait"
                else "names more than one of authenticator/group/wait"))
      else
        let? f := build_factor kind id fs in
        build_factors kind id specs
          (facs ++ [{| weight := fs_weight fs; factor := f |}])
          (available + fs_weight fs)
  end.

Definition build_authority (kind id : string) (thr : Z) (specs : list FactorSpec)
    : result AuthorityError Authority :=
  if str_is_empty id then Err (EmptyId kind)
  else if thr =? 0 then Err (ZeroThreshold kind id)
  else match specs with
  | [] => Err (NoFactors kind id)
  | _ =>
      let? (facs, available) := build_factors kind id specs [] 0 in
      if available <? thr then Err (Unsatisfiable kind id thr available)
      else Ok {| threshold := thr; factors := facs |}
  end.

(** ** The group graph *)

(** The groups an authority refers to, in factor order. *)
Definition group_children (a : Authority) : list string :=
  omap (fun wf => match factor wf with Group id => Some id | _ => None end) (factors a).

Inductive Colour := White | Grey | Black.
#[export] Instance Colour_eq_dec : EqDecision Colour.
Proof. solve_decision. Defined.

(** The inner [for wf in &self.groups[node].factors] loop of the search:
    indexing [colour] with an unknown name panics. *)
Fixpoint push_children (colour : gmap string Colour) (cs : list string)
    (stack : list (string * bool)) : result (Fault AuthorityError) (list (string * bool)) :=
  match cs with
  | [] => Ok stack
  | child :: cs =>
      match colour !! child with
      | None => Err Panic
      | Some Grey => Err (Refused (GroupCycle child))
      | Some White => push_children colour cs ((child, true) :: stack)
      | Some Black => push_children colour cs stack
      end
  end.

(** The [while let Some((node, entering)) = stack.pop()] loop. *)
Fixpoint dfs (fuel : nat) (groups : gmap string Authority) (colour : gmap string Colour)
    (stack : list (string * bool)) : result (Fault AuthorityError) (gmap string Colour) :=
  match stack with
  | [] => Ok colour
  | (node, entering) :: rest =>
      match fuel with
      | O => Err OutOfFuel
      | S fuel =>
          if entering : bool then
            let colour := <[node := Grey]> colour in
            match groups !! node with
            | None => Err Panic
            | Some a =>
                let? stack := push_children colour (group_children a) ((node, false) :: rest) in
                dfs fuel groups colour stack
            end
          else dfs fuel groups (<[node := Black]> colour) rest
      end
  end.

(** Iterations enough for one start node: each group is entered once from
    white, pushing at most its children and its own leave entry. *)
Definition dfs_fuel (groups : gmap string Authority) : nat :=
  (size groups * (2 * list_sum ((fun p => length (factors p.2)) <$> map_to_list groups) + 2) + 2)%nat.

Fixpoint dfs_starts (groups : gmap string Authority) (starts : list string)
    (colour : gmap string Colour) : result (Fault AuthorityError) (gmap string Colour) :=
  match starts with
  | [] => Ok colour
  | start :: starts =>
      match colour !! start with
      | None => Err Panic
      | Some White =>
          let? colour := dfs (dfs_fuel groups) groups colour [(start, true)] in
          dfs_starts groups starts colour
      | Some _ => dfs_starts groups starts colour
      end
  end.

Definition check_group_acyclic (groups : gmap string Authority)
    : result (Fault AuthorityError) unit :=
  let? _ := dfs_starts groups (btree_keys groups) ((fun _ => White) <$> groups) in
  Ok tt.

(** ** The validated model *)

Section Model.
Context `{DataEncoding, ApprovalKeys}.

Inductive Authenticator :=
| Ed25519 (pk : SshPublicKey)
| Totp (secret_file : string)
| Password (hash_file : string)
| Hmac (secret_file : string)
| Fido2 (cred : Fido2Credential)
| Tpm (public_key : list Z).

Record AuthorityModel := {
  authenticators : gmap string Authenticator;
  groups : gmap string Authority;
  profiles : gmap string Authority;
  mcp_profiles : gset string;
}.

(** [fido2::check_public_key]. *)
Definition fido2_check_public_key (alg : Alg) (pk : list Z) : result string unit :=
  match alg with
  | Es256 => map_err (fun e => "es256 key: " +:+ e) (p256_from_sec1 pk)
  | EdDsa =>
      if bool_decide (length pk = 32%nat)
      then map_err (fun e => "eddsa key: " +:+ e) (ed25519_from_bytes pk)
      else Err "eddsa key is not 32 bytes"
  end.

(** [tpm::check_public_key]. *)
Definition tpm_check_public_key (pk : list Z) : result string unit :=
  map_err (fun e => "p256 key: " +:+ e) (p256_from_sec1 pk).

(** The [match a.kind] of [from_spec]. *)
Definition build_authenticator (a : AuthenticatorSpec)
    : result AuthorityError Authenticator :=
  let missing kind field := MissingMaterial (as_id a) kind field in
  match as_kind a with
  | KEd25519 =>
      let? line := ok_or (as_public_key a) (missing "ed25519" "public-key") in
      let? pk := map_err (BadPublicKey (as_id a)) (ssh_from_openssh (trim line)) in
      Ok (Ed25519 pk)
  | KTotp =>
      let? f := ok_or (as_secret_file a) (missing "totp" "secret-file") in Ok (Totp f)
  | KPassword =>
      let? f := ok_or (as_hash_file a) (missing "password" "hash-file") in Ok (Password f)
  | KHmac =>
      let? f := ok_or (as_secret_file a) (missing "hmac" "secret-file") in Ok (Hmac f)
  | KFido2 =>
      let? alg :=
        match as_alg a with
        | Some s => if bool_decide (s = "es256") then Ok Es256
                    else if bool_decide (s = "eddsa") then Ok EdDsa
                    else Err (Fido2UnknownAlg (as_id a) s)
        | None => Err (missing "fido2" "alg")
        end in
      let? cred_id_b64 := ok_or (as_credential_id a) (missing "fido2" "credential-id") in
      let? pub_b64 := ok_or (as_public_key a) (missing "fido2" "public-key") in
      let decode s field :=
        ok_or (base64url_decode (trim s))
          (Fido2BadKey (as_id a) (field +:+ " is not base64url")) in
      let? credential_id := decode cred_id_b64 "credential-id" in
      let? public_key := decode pub_b64 "public-key" in
      let? _ := map_err (Fido2BadKey (as_id a)) (fido2_check_public_key alg public_key) in
      Ok (Fido2 {| cred_alg := alg; cred_id := credential_id; cred_public_key := public_key |})
  | KTpm =>
      let? pub_b64 := ok_or (as_public_key a) (missing "tpm" "public-key") in
      let? public_key :=
        ok_or (base64url_decode (trim pub_b64))
          (BadPublicKey (as_id a) "public-key is not base64url") in
      let? _ := map_err (BadPublicKey (as_id a)) (tpm_check_public_key public_key) in
      Ok (Tpm public_key)
  end.

Fixpoint build_authenticators (specs : list AuthenticatorSpec)
    (acc : gmap string Authenticator) : result AuthorityError (gmap string Authenticator) :=
  match specs with
  | [] => Ok acc
  | a :: specs =>
      if str_is_empty (as_id a) then Err (EmptyId "authenticator")
      else
        let? auth := build_authenticator a in
        match acc !! as_id a with
        | Some _ => Err (DuplicateAuthenticator (as_id a))
        | None => build_authenticators specs (<[as_id a := auth]> acc)
        end
  end.

Fixpoint build_groups (specs : list AuthoritySpec) (acc : gmap string Authority)
    : result AuthorityError (gmap string Authority) :=
  match specs with
  | [] => Ok acc
  | g :: specs =>
      let? a := build_authority "group" (gs_id g) (gs_threshold g) (gs_factor g) in
      match acc !! gs_id g with
      | Some _ => Err (DuplicateGroup (gs_id g))
      | None => build_groups specs (<[gs_id g := a]> acc)
      end
  end.

Fixpoint build_profiles (specs : list ProfileSpec) (acc : gmap string Authority)
    (mcp : gset string) : result AuthorityError (gmap string Authority * gset string) :=
  match specs with
  | [] => Ok (acc, mcp)
  | p :: specs =>
      let? a := build_authority "profile" (ps_id p) (ps_threshold p) (ps_factor p) in
      match acc !! ps_id p with
      | Some _ => Err (DuplicateProfile (ps_id p))
      | None =>
          build_profiles specs (<[ps_id p := a]> acc)
            (if ps_mcp p then {[ps_id p]} ∪ mcp else mcp)
      end
  end.

(** [check_refs]; the referrer's label is its kind and its id. *)
Fixpoint check_refs_go (m : AuthorityModel) (referrer_kind referrer : string)
    (facs : list WeightedFactor) : result AuthorityError unit :=
  match facs with
  | [] => Ok tt
  | wf :: facs =>
      match factor wf with
      | Authenticator_ id =>
          match authenticators m !! id with
          | None => Err (DanglingAuthenticator referrer_kind referrer id)
          | Some _ => check_refs_go m referrer_kind referrer facs
          end
      | Group id =>
          match groups m !! id with
          | None => Err (DanglingGroup referrer_kind referrer id)
          | Some _ => check_refs_go m referrer_kind referrer facs
          end
      | Wait _ => check_refs_go m referrer_kind referrer facs
      end
  end.
Definition check_refs (m : AuthorityModel) (referrer_kind referrer : string) (a : Authority) :=
  check_refs_go m referrer_kind referrer (factors a).

(** [for (id, authority) in &map { model.check_refs(..)?; }]. *)
Fixpoint check_all_refs (m : AuthorityModel) (kind : string) (l : list (string * Authority))
    : result AuthorityError unit :=
  match l with
  | [] => Ok tt
  | (id, a) :: l => let? _ := check_refs m kind id a in check_all_refs m kind l
  end.

Definition from_spec (spec : ApprovalSpec)
    : result (Fault AuthorityError) AuthorityModel :=
  let? auths := map_err Refused (build_authenticators (spec_authenticator spec) ∅) in
  let? grps := map_err Refused (build_groups (spec_group spec) ∅) in
  let? (profs, mcp) := map_err Refused (build_profiles (spec_profile spec) ∅ ∅) in
  if bool_decide (profs = ∅) then Err (Refused NoProfiles)
  else
    let model := {| authenticators := auths; groups := grps;
                    profiles := profs; mcp_profiles := mcp |} in
    let? _ := map_err Refused (check_all_refs model "group" (btree_iter grps)) in
    let? _ := map_err Refused (check_all_refs model "profile" (btree_iter profs)) in
    let? _ := check_group_acyclic grps in
    Ok model.

Definition resolve_override (m : AuthorityModel) (profile_id : string) (body : AuthorityBody)
    : result AuthorityError Authority :=
  let? a := build_authority "override" profile_id (ab_threshold body) (ab_factor body) in
  let? _ := check_refs m "override for profile" profile_id a in
  Ok a.

(** [AuthorityModel::profile]. *)
Definition profile (m : AuthorityModel) (id : string) : option Authority := profiles m !! id.
Definition mcp_allowed (m : AuthorityModel) (p : string) : bool :=
  bool_decide (p ∈ mcp_profiles m).
Definition profile_ids (m : AuthorityModel) : list string := btree_keys (profiles m).

(** ** Evaluation *)

(** One pass over the factors, given which of them hold; [None] is a
    recursion that did not return. *)
Fixpoint eval_factors (ok : Factor -> option bool) (elapsed : Duration)
    (facs : list WeightedFactor) (w : Z) (miss : list Missing) : option (Z * list Missing) :=
  match facs with
  | [] => Some (w, miss)
  | wf :: facs =>
      b ← ok (factor wf);
      if b : bool then eval_factors ok elapsed facs (w + weight wf) miss
      else
        eval_factors ok elapsed facs w
          (miss ++ [match factor wf with
                    | Authenticator_ id => MissingAuthenticator id
                    | Group id => MissingGroup id
                    | Wait dur => MissingWait (Z.max 0 (dur - elapsed))
                    end])
  end.

(** [evaluate]: the recursion into groups is bounded by [fuel]. *)
Fixpoint evaluate_fuel (fuel : nat) (grps : gmap string Authority) (a : Authority)
    (satisfied : gset string) (elapsed : Duration) : option Outcome :=
  match fuel with
  | O => None
  | S fuel =>
      let ok f :=
        match f with
        | Authenticator_ id => Some (bool_decide (id ∈ satisfied))
        | Group id =>
            match grps !! id with
            | Some g => met <$> evaluate_fuel fuel grps g satisfied elapsed
            | None => Some false
            end
        | Wait dur => Some (dur <=? elapsed)
        end in
      '(w, miss) ← eval_factors ok elapsed (factors a) 0 [];
      Some {| out_weight := w; out_threshold := threshold a;
              met := threshold a <=? w; missing := miss |}
  end.

(** One level per group and one for the authority itself. *)
Definition evaluate (m : AuthorityModel) (a : Authority) (satisfied : gset string)
    (elapsed : Duration) : option Outcome :=
  evaluate_fuel (S (size (groups m))) (groups m) a satisfied elapsed.

(** ** The longest wait *)

(** [max_wait_inner], threading the [seen] set. *)
Fixpoint max_wait_fuel (fuel : nat) (grps : gmap string Authority)
    (facs : list WeightedFactor) (seen : gset string) (mx : Duration)
    {struct fuel} : option (Duration * gset string) :=
  match fuel with
  | O => None
  | S fuel =>
      match facs with
      | [] => Some (mx, seen)
      | wf :: facs =>
          '(w, seen) ←
            match factor wf with
            | Wait dur => Some (dur, seen)
            | Group id =>
                if bool_decide (id ∈ seen) then Some (0, seen)
                else
                  let seen := {[id]} ∪ seen in
                  match grps !! id with
                  | Some g => max_wait_fuel fuel grps (factors g) seen 0
                  | None => Some (0, seen)
                  end
            | Authenticator_ _ => Some (0, seen)
            end;
          max_wait_fuel fuel grps facs seen (if mx <? w then w else mx)
      end
  end.

(** The work is bounded by the factors of every group plus those of [a]. *)
Definition max_wait (m : AuthorityModel) (a : Authority) : option Duration :=
  fst <$> max_wait_fuel
    (S (length (factors a)
        + list_sum ((fun p => S (length (factors p.2))) <$> map_to_list (groups m))))
    (groups m) (factors a) ∅ 0.
End Model.
