(* ===== verification/AuthorityGraph.v ===== *)
(** * AuthorityGraph: the cycle check of the group graph

    The iterative three-colour search of [check_group_acyclic] terminates
    within its fuel, never indexes out of range, refuses exactly the cyclic
    graphs, and on success yields a topological order of the groups. *)

From S2P Require Import Prelude Text Clock Ttl External Authority.

Section Graph.
Context (G : gmap string Authority).

(** [y] is a group named by a factor of the group [x]. *)
Definition edge (x y : string) : Prop :=
  exists a, G !! x = Some a /\ y ∈ group_children a.

(** Every group reference resolves ([check_refs] has run). *)
Definition refs_closed : Prop := forall x y, edge x y -> is_Some (G !! y).

(** A topological order, a group before the groups it refers to. *)
Inductive topo : list string -> Prop :=
| topo_nil : topo []
| topo_cons x D :
    x ∉ D -> is_Some (G !! x) -> (forall y, edge x y -> y ∈ D) -> topo D -> topo (x :: D).

Lemma topo_closed D : topo D -> forall x y, x ∈ D -> edge x y -> y ∈ D.
Proof.
  induction 1 as [|x D Hx _ He _ IH]; intros z y Hz Hy; [by apply elem_of_nil in Hz|].
  apply elem_of_cons in Hz as [->|Hz]; right; eauto.
Qed.

Lemma topo_tc D : topo D -> forall x y, x ∈ D -> tc edge x y -> y ∈ D.
Proof. intros HD x y Hx Ht. induction Ht; eauto using topo_closed. Qed.

Lemma topo_acyclic D : topo D -> forall x, x ∈ D -> ~ tc edge x x.
Proof.
  induction 1 as [|x D Hx _ He HD IH]; intros z Hz Ht; [by apply elem_of_nil in Hz|].
  apply elem_of_cons in Hz as [->|Hz]; [|by eapply IH].
  apply Hx. inversion Ht as [? ? E|? y ? E Ht']; subst; eauto using topo_tc.
Qed.

Lemma topo_self D x : topo D -> x ∈ D -> ~ edge x x.
Proof. intros HD Hx He. eapply topo_acyclic; eauto. by apply tc_once. Qed.

Lemma topo_size D : topo D -> (length D <= size G)%nat.
Proof.
  intros HD. assert (Hs : size (list_to_set D : gset string) = length D).
  { induction HD as [|x D Hx _ _ _ IH]; [done|]. cbn.
    rewrite size_union, size_singleton by set_solver. lia. }
  rewrite <-Hs, <-(size_dom G). apply subseteq_size. intros x.
  rewrite elem_of_list_to_set, elem_of_dom. clear Hs.
  induction HD as [|y D _ Hy _ _ IH]; [by intros ?%elem_of_nil|].
  intros [->|?]%elem_of_cons; eauto.
Qed.

Lemma topo_suffix l D : topo (l ++ D) -> topo D.
Proof. induction l as [|x l IH]; [done|]. cbn. inversion 1; subst; auto. Qed.

(** ** The search invariant *)

(** What holds of an entry [(x, false)] of the stack with [up] above it:
    every child of [x] is finished or waits above, nothing above is [x]
    itself, and everything above is reachable from [x]. *)
Definition entry_ok (D : list string) (up : list (string * bool)) (x : string) : Prop :=
  (forall c, edge x c -> c ∈ D \/ exists b, (c, b) ∈ up)
  /\ (forall y b, (y, b) ∈ up -> y <> x /\ tc edge x y).

Record inv (colour : gmap string Colour) (stack : list (string * bool)) (D : list string)
    : Prop := {
  inv_dom x : is_Some (colour !! x) <-> is_Some (G !! x);
  inv_stack x b : (x, b) ∈ stack -> is_Some (G !! x);
  inv_topo : topo D;
  inv_black x : colour !! x = Some Black -> x ∈ D;
  inv_done x : x ∈ D ->
    colour !! x = Some Black \/ (colour !! x = Some Grey /\ exists r, stack = (x, false) :: r);
  inv_grey x : colour !! x = Some Grey <-> (x, false) ∈ stack;
  inv_entry up x down : stack = up ++ (x, false) :: down -> entry_ok D up x;
}.

Lemma grey_below colour n b rest D x :
  inv colour ((n, b) :: rest) D -> (x, false) ∈ rest -> n <> x /\ tc edge x n.
Proof.
  intros I Hx. apply list_elem_of_split in Hx as (up & down & ->).
  destruct (inv_entry _ _ _ I ((n, b) :: up) x down) as [_ H]; [done|].
  apply (H n b). left.
Qed.

(** Leaving a node: it is blackened and, the first time, finished. *)
Lemma inv_leave colour n rest D :
  inv colour ((n, false) :: rest) D ->
  exists D', (D' = D \/ D' = n :: D) /\ n ∈ D' /\ inv (<[n := Black]> colour) rest D'.
Proof.
  intros I. assert (Hch : forall c, edge n c -> c ∈ D).
  { intros c Hc. destruct (inv_entry _ _ _ I [] n rest) as [H _]; [done|].
    destruct (H c Hc) as [?|[b Hb]]; [done|]. by apply elem_of_nil in Hb. }
  assert (Hn : is_Some (G !! n)) by (apply (inv_stack _ _ _ I n false); left).
  set (D' := if decide (n ∈ D) then D else n :: D).
  assert (HnD : n ∈ D') by (unfold D'; case_decide; [done|left]).
  assert (Hsub : forall x, x ∈ D -> x ∈ D') by (intros; unfold D'; case_decide; [done|by right]).
  exists D'. split; [unfold D'; case_decide; auto|]. split; [done|]. split.
  - intros x. rewrite lookup_insert. case_decide; subst; [|apply I]. naive_solver.
  - intros x b Hx. apply (inv_stack _ _ _ I x b). by right.
  - unfold D'. case_decide; [apply I|]. constructor; auto. apply I.
  - intros x. rewrite lookup_insert. case_decide; subst; [done|].
    intros. apply Hsub. by apply (inv_black _ _ _ I).
  - intros x Hx. left. rewrite lookup_insert. case_decide as Hne; [done|].
    assert (HxD : x ∈ D).
    { unfold D' in Hx. case_decide; [done|]. apply elem_of_cons in Hx as [->|]; done. }
    destruct (inv_done _ _ _ I x HxD) as [?|[_ [r Hr]]]; [done|]. by simplify_eq.
  - intros x. rewrite lookup_insert. case_decide as Hne; subst.
    + split; [done|]. intros Hx. by eapply grey_below in Hx as [? _].
    + rewrite (inv_grey _ _ _ I x), elem_of_cons. split; [|by right].
      intros [?|?]; [by simplify_eq|done].
  - intros up x down ->.
    destruct (inv_entry _ _ _ I ((n, false) :: up) x down) as [H1 H2]; [done|]. split.
    + intros c Hc. destruct (H1 c Hc) as [?|[b Hb]]; [auto|].
      apply elem_of_cons in Hb as [?|Hb]; [|eauto]. simplify_eq. auto.
    + intros y b Hy. apply (H2 y b). by right.
Qed.

Lemma push_children_spec colour cs st :
  match push_children colour cs st with
  | Ok st' => exists pushed, st' = pushed ++ st
      /\ (length pushed <= length cs)%nat
      /\ (forall y b, (y, b) ∈ pushed ->
            b = true /\ y ∈ cs /\ colour !! y = Some White)
      /\ (forall c, c ∈ cs -> colour !! c = Some Black \/ (c, true) ∈ pushed)
  | Err (Refused e) => exists c, e = GroupCycle c /\ c ∈ cs /\ colour !! c = Some Grey
  | Err Panic => exists c, c ∈ cs /\ colour !! c = None
  | Err OutOfFuel => False
  end.
Proof.
  revert st. induction cs as [|c cs IH]; intros st; cbn.
  { exists []. split_and!; [done|done|by intros ?? ?%elem_of_nil|by intros ? ?%elem_of_nil]. }
  destruct (colour !! c) as [[]|] eqn:Hc.
  - specialize (IH ((c, true) :: st)). destruct (push_children _ _ _) as [st'|[| |]].
    + destruct IH as (p & -> & Hl & Hp & Hb). exists (p ++ [(c, true)]).
      split_and!; [by rewrite <-(assoc_L (++))|rewrite length_app; cbn; lia|..].
      * intros y b [?|?%list_elem_of_singleton]%elem_of_app.
        -- destruct (Hp y b) as (? & ? & ?); [done|]. split_and!; [done|by right|done].
        -- simplify_eq. split_and!; [done|left|done].
      * intros y [->|Hy]%elem_of_cons; [right; apply elem_of_app; right; left|].
        destruct (Hb y Hy); [by left|]. right. apply elem_of_app. by left.
    + destruct IH as (y & ? & ? & ?). exists y. split_and!; [done|by right|done].
    + destruct IH as (y & ? & ?). exists y. split; [by right|done].
    + done.
  - exists c. split_and!; [done|left|done].
  - specialize (IH st). destruct (push_children _ _ _) as [st'|[| |]].
    + destruct IH as (p & -> & Hl & Hp & Hb). exists p. split_and!; [done|lia|..].
      * intros y b Hy. destruct (Hp y b Hy) as (? & ? & ?). split_and!; [done|by right|done].
      * intros y [->|Hy]%elem_of_cons; [by left|eauto].
    + destruct IH as (y & ? & ? & ?). exists y. split_and!; [done|by right|done].
    + destruct IH as (y & ? & ?). exists y. split; [by right|done].
    + done.
  - exists c. split; [left|done].
Qed.

Lemma split_pushed (pushed : list (string * bool)) n rest up x down :
  (forall y b, (y, b) ∈ pushed -> b = true) ->
  pushed ++ (n, false) :: rest = up ++ (x, false) :: down ->
  (up = pushed /\ x = n /\ down = rest)
  \/ exists up', up = pushed ++ (n, false) :: up' /\ rest = up' ++ (x, false) :: down.
Proof.
  revert up. induction pushed as [|[y b] p IH]; intros up Ht E; cbn in E.
  - destruct up as [|e up]; cbn in E; simplify_eq; [by left|]. right. by exists up.
  - destruct up as [|e up]; cbn in E; simplify_eq.
    + specialize (Ht x false ltac:(left)). done.
    + destruct (IH up) as [(-> & -> & ->)|(up' & -> & ->)]; [|done|by left|right; by exists up'].
      intros y' b' Hy. apply (Ht y' b'). by right.
Qed.

(** Entering a node that is not grey: its colour becomes grey and its white
    children go on the stack above its own leave entry. *)
Lemma inv_enter colour n rest D pushed :
  refs_closed ->
  inv colour ((n, true) :: rest) D ->
  (forall y b, (y, b) ∈ pushed ->
     b = true /\ edge n y /\ <[n := Grey]> colour !! y = Some White) ->
  (forall c, edge n c -> <[n := Grey]> colour !! c = Some Black \/ (c, true) ∈ pushed) ->
  inv (<[n := Grey]> colour) (pushed ++ (n, false) :: rest) D.
Proof.
  intros Hcl I Hp Hb.
  assert (Hng : colour !! n <> Some Grey).
  { intros [?|Hg]%(inv_grey _ _ _ I)%elem_of_cons; [done|].
    by eapply grey_below in Hg as [? _]. }
  assert (Hn : is_Some (G !! n)) by (apply (inv_stack _ _ _ I n true); left).
  assert (HD : forall x, x ∈ D -> colour !! x = Some Black).
  { intros x Hx. destruct (inv_done _ _ _ I x Hx) as [?|[_ [r ?]]]; [done|]. by simplify_eq. }
  assert (Hpn : n ∈ D -> pushed = []).
  { intros HnD. destruct pushed as [|[y b] p]; [done|].
    destruct (Hp y b ltac:(left)) as (_ & He & Hw). exfalso.
    assert (y ∈ D) as HyD by (eapply topo_closed; eauto; apply I).
    rewrite lookup_insert in Hw. case_decide; [done|]. by rewrite HD in Hw. }
  split.
  - intros x. rewrite lookup_insert. case_decide; subst; [naive_solver|apply I].
  - intros x b [Hx|[?|Hx]%elem_of_cons]%elem_of_app; simplify_eq; [|done|].
    + destruct (Hp x b Hx) as (_ & He & _). eauto.
    + apply (inv_stack _ _ _ I x b). by right.
  - apply I.
  - intros x. rewrite lookup_insert. case_decide; [done|]. apply I.
  - intros x Hx. rewrite lookup_insert. case_decide; subst; [|left; auto].
    right. split; [done|]. rewrite Hpn by done. cbn. eauto.
  - intros x. rewrite lookup_insert, elem_of_app, elem_of_cons. case_decide; subst.
    + split; [auto|done].
    + rewrite (inv_grey _ _ _ I x), elem_of_cons. split; [naive_solver|].
      intros [Hx|[?|?]]; [|by simplify_eq|by right]. by destruct (Hp x false Hx).
  - intros up x down E. apply split_pushed in E as [(-> & -> & ->)|(up' & -> & ->)];
      [..|intros y b Hy; by destruct (Hp y b Hy)].
    + split.
      * intros c Hc. destruct (Hb c Hc) as [Hbl|?]; [|eauto]. left.
        rewrite lookup_insert in Hbl. case_decide; [done|]. by apply (inv_black _ _ _ I).
      * intros y b Hy. destruct (Hp y b Hy) as (_ & He & Hw). split; [|by apply tc_once].
        intros ->. by rewrite lookup_insert_eq in Hw.
    + destruct (inv_entry _ _ _ I ((n, true) :: up') x down) as [H1 H2]; [done|].
      assert (Hxn : n <> x /\ tc edge x n) by (apply (H2 n true); left).
      split.
      * intros c Hc. destruct (H1 c Hc) as [?|[b Hbc]]; [by left|]. right.
        apply elem_of_cons in Hbc as [?|?]; simplify_eq.
        -- exists false. apply elem_of_app. right. left.
        -- exists b. apply elem_of_app. right. by right.
      * intros y b [Hy|[?|Hy]%elem_of_cons]%elem_of_app; simplify_eq; [|done|].
        -- destruct (Hp y b Hy) as (_ & He & Hw). split.
           ++ intros ->. rewrite lookup_insert_ne in Hw by naive_solver.
              assert (colour !! x = Some Grey); [|congruence].
              apply (inv_grey _ _ _ I). right. apply elem_of_app. right. left.
           ++ eapply tc_r; naive_solver.
        -- apply (H2 y b). by right.
Qed.

(** ** Termination measure *)

Definition whites (colour : gmap string Colour) : nat :=
  size (filter (fun p => p.2 = White) colour).
Fixpoint stack_weight (st : list (string * bool)) : nat :=
  match st with
  | [] => 0
  | (_, b) :: st => (if b : bool then 2 else 1) + stack_weight st
  end%nat.
Definition max_degree : nat :=
  list_sum ((fun p => length (factors p.2)) <$> map_to_list G).
Definition measure (colour : gmap string Colour) (st : list (string * bool)) : nat :=
  (whites colour * (2 * max_degree + 2) + stack_weight st)%nat.

Lemma whites_insert_le colour n c :
  c <> White -> (whites (<[n := c]> colour) <= whites colour)%nat.
Proof.
  intros Hc. unfold whites. rewrite map_filter_insert_False by done.
  rewrite map_filter_delete. rewrite map_size_delete. case_match; unfold id; lia.
Qed.

Lemma whites_insert_lt colour n c :
  c <> White -> colour !! n = Some White ->
  (whites (<[n := c]> colour) < whites colour)%nat.
Proof.
  intros Hc Hn. unfold whites. rewrite map_filter_insert_False by done.
  rewrite map_filter_delete.
  assert (Hf : filter (fun p => p.2 = White) colour !! n = Some White).
  { by apply map_lookup_filter_Some. }
  rewrite map_size_delete, Hf.
  assert (size (filter (fun p => p.2 = White) colour) <> 0%nat); [|lia].
  intros Hz%map_size_empty_inv. rewrite Hz in Hf. by rewrite lookup_empty in Hf.
Qed.

Lemma degree_le n a : G !! n = Some a -> (length (group_children a) <= max_degree)%nat.
Proof.
  intros Hn. assert (length (group_children a) <= length (factors a))%nat.
  { unfold group_children. induction (factors a) as [|wf l IH]; [done|].
    cbn. destruct (factor wf); cbn in *; lia. }
  apply elem_of_map_to_list in Hn. unfold max_degree.
  induction (map_to_list G) as [|p l IH]; [by apply elem_of_nil in Hn|].
  rewrite fmap_cons, list_sum_cons.
  apply elem_of_cons in Hn as [<-|Hn]; cbn [snd]; [lia|]. apply IH in Hn. lia.
Qed.

Lemma stack_weight_app st st' :
  stack_weight (st ++ st') = (stack_weight st + stack_weight st')%nat.
Proof. induction st as [|[x b] st IH]; simpl; lia. Qed.

Lemma stack_weight_le st : (stack_weight st <= 2 * length st)%nat.
Proof. induction st as [|[x []] st IH]; simpl; lia. Qed.

(** Entering a node decreases the measure: a white node uses up its colour,
    a finished node pushes nothing. *)
Lemma measure_enter colour n rest D a pushed fuel :
  inv colour ((n, true) :: rest) D -> G !! n = Some a ->
  (length pushed <= length (group_children a))%nat ->
  (forall y b, (y, b) ∈ pushed ->
     y ∈ group_children a /\ <[n := Grey]> colour !! y = Some White) ->
  (measure colour ((n, true) :: rest) <= S fuel)%nat ->
  (measure (<[n := Grey]> colour) (pushed ++ (n, false) :: rest) <= fuel)%nat.
Proof.
  intros I Ha Hl Hp Hm. pose proof (degree_le n a Ha). pose proof (stack_weight_le pushed).
  unfold measure in *. rewrite stack_weight_app. simpl in Hm |- *.
  destruct (colour !! n) as [[]|] eqn:Hn.
  - pose proof (whites_insert_lt colour n Grey ltac:(done) Hn). nia.
  - apply (inv_grey _ _ _ I) in Hn. apply elem_of_cons in Hn as [?|Hn]; [done|].
    by eapply grey_below in Hn as [? _].
  - assert (pushed = []) as ->.
    { destruct pushed as [|[y b] p]; [done|].
      destruct (Hp y b ltac:(left)) as (Hy & Hw). exfalso.
      assert (n ∈ D) by by apply (inv_black _ _ _ I).
      assert (HyD : y ∈ D).
      { eapply (topo_closed D); [apply I|done|]. by exists a. }
      rewrite lookup_insert in Hw. case_decide; [done|].
      destruct (inv_done _ _ _ I y HyD) as [?|[_ [r ?]]]; [congruence|by simplify_eq]. }
    pose proof (whites_insert_le colour n Grey ltac:(done)). simpl. nia.
  - destruct (proj2 (inv_dom _ _ _ I n)); [eauto|congruence].
Qed.

(** ** Correctness of one search *)

Lemma dfs_correct fuel colour stack D :
  refs_closed -> inv colour stack D -> (measure colour stack <= fuel)%nat ->
  match dfs fuel G colour stack with
  | Ok colour' => exists D', inv colour' [] D'
      /\ (forall x, x ∈ D -> x ∈ D') /\ (forall x b, (x, b) ∈ stack -> x ∈ D')
  | Err (Refused e) => exists c, e = GroupCycle c /\ tc edge c c
  | Err _ => False
  end.
Proof.
  intros Hcl. revert colour stack D. induction fuel as [|fuel IH]; intros colour stack D I Hm.
  { destruct stack as [|[n []] rest]; cbn in *.
    - exists D. split_and!; [done|done|by intros ?? ?%elem_of_nil].
    - unfold measure in Hm. simpl in Hm. lia.
    - unfold measure in Hm. simpl in Hm. lia. }
  destruct stack as [|[n []] rest]; cbn [dfs].
  - exists D. split_and!; [done|done|by intros ?? ?%elem_of_nil].
  - destruct (inv_stack _ _ _ I n true ltac:(left)) as [a Ha]. rewrite Ha.
    pose proof (push_children_spec (<[n := Grey]> colour) (group_children a)
                  ((n, false) :: rest)) as Hps.
    destruct (push_children _ _ _) as [st'|[e| |]].
    + destruct Hps as (pushed & -> & Hl & Hp & Hb).
      assert (I' : inv (<[n := Grey]> colour) (pushed ++ (n, false) :: rest) D).
      { apply inv_enter; [done|done|..].
        - intros y b Hy. destruct (Hp y b Hy) as (? & ? & ?). split_and!; [done| |done].
          by exists a.
        - intros c (a' & Ha' & Hc). simplify_eq. auto. }
      assert (Hm' : (measure (<[n := Grey]> colour) (pushed ++ (n, false) :: rest) <= fuel)%nat).
      { eapply measure_enter in Hm; eauto. intros y b Hy. by destruct (Hp y b Hy). }
      specialize (IH _ _ _ I' Hm'). destruct (dfs _ _ _ _) as [colour'|[| |]]; [|done..].
      destruct IH as (D' & HI & HD & Hst). exists D'. split_and!; [done|done|].
      intros x b [?|Hx]%elem_of_cons; simplify_eq.
      * apply (Hst n false). apply elem_of_app. right. left.
      * apply (Hst x b). apply elem_of_app. right. by right.
    + destruct Hps as (c & -> & Hc & Hg). exists c. split; [done|].
      assert (He : edge n c) by by exists a.
      rewrite lookup_insert in Hg. case_decide; [subst; by apply tc_once|].
      apply (inv_grey _ _ _ I) in Hg. apply elem_of_cons in Hg as [?|Hg]; [done|].
      eapply grey_below in Hg as [_ Ht]; [|done]. by eapply tc_r.
    + destruct Hps as (c & Hc & Hn). rewrite lookup_insert in Hn. case_decide; [done|].
      destruct (Hcl n c ltac:(by exists a)) as [ac Hac].
      destruct (proj2 (inv_dom _ _ _ I c)); [eauto|congruence].
    + done.
  - destruct (inv_leave colour n rest D I) as (D' & HD' & Hn & I').
    assert (Hm' : (measure (<[n := Black]> colour) rest <= fuel)%nat).
    { pose proof (whites_insert_le colour n Black ltac:(done)).
      unfold measure in *. simpl in Hm. nia. }
    specialize (IH _ _ _ I' Hm'). destruct (dfs _ _ _ _) as [colour'|[| |]]; [|done..].
    destruct IH as (D'' & HI & HD & Hst). exists D''. split_and!; [done|..].
    + intros x Hx. apply HD. destruct HD' as [->| ->]; [done|by right].
    + intros x b [?|Hx]%elem_of_cons; simplify_eq; eauto.
Qed.

Lemma dfs_whites fuel colour stack :
  match dfs fuel G colour stack with
  | Ok colour' => (whites colour' <= whites colour)%nat
  | Err _ => True
  end.
Proof.
  revert colour stack. induction fuel as [|fuel IH]; intros colour [|[n []] rest]; cbn; try done.
  - destruct (G !! n); [|done]. destruct (push_children _ _ _) as [st|]; [|done].
    specialize (IH (<[n := Grey]> colour) st). destruct (dfs _ _ _ _); [|done].
    pose proof (whites_insert_le colour n Grey ltac:(done)). lia.
  - specialize (IH (<[n := Black]> colour) rest). destruct (dfs _ _ _ _); [|done].
    pose proof (whites_insert_le colour n Black ltac:(done)). lia.
Qed.

(** ** Correctness of the check *)

Lemma dfs_starts_correct starts colour D :
  refs_closed -> inv colour [] D -> (forall x, x ∈ starts -> is_Some (G !! x)) ->
  (whites colour <= size G)%nat ->
  match dfs_starts G starts colour with
  | Ok colour' => exists D', topo D' /\ (forall x, x ∈ starts -> x ∈ D')
      /\ (forall x, x ∈ D -> x ∈ D')
  | Err (Refused e) => exists c, e = GroupCycle c /\ tc edge c c
  | Err _ => False
  end.
Proof.
  intros Hcl. revert colour D. induction starts as [|x starts IH]; intros colour D I Hs Hw; cbn.
  { exists D. split_and!; [apply I|by intros ? ?%elem_of_nil|done]. }
  assert (Hskip : x ∈ D ->
    match dfs_starts G starts colour with
    | Ok colour' => exists D', topo D' /\ (forall y, y ∈ x :: starts -> y ∈ D')
        /\ (forall y, y ∈ D -> y ∈ D')
    | Err (Refused e) => exists c, e = GroupCycle c /\ tc edge c c
    | Err _ => False
    end).
  { intros Hx. specialize (IH colour D I ltac:(intros; apply Hs; by right) Hw).
    destruct (dfs_starts _ _ _) as [colour'|[| |]]; [|done..].
    destruct IH as (D' & ? & Hst & HD). exists D'. split_and!; [done| |done].
    intros y [->|?]%elem_of_cons; auto. }
  destruct (Hs x ltac:(left)) as [a Ha].
  destruct (colour !! x) as [[]|] eqn:Hc.
  - assert (I' : inv colour [(x, true)] D).
    { destruct I as [I1 I2 I3 I4 I5 I6 I7]. split; try done.
      - intros y b ?%list_elem_of_singleton. simplify_eq. eauto.
      - intros y Hy. destruct (I5 y Hy) as [?|[_ [r ?]]]; [by left|done].
      - intros y. rewrite I6, list_elem_of_singleton. split; [by intros ?%elem_of_nil|done].
      - intros up y down E. destruct up as [|? up]; cbn in E; simplify_eq.
        by destruct up. }
    assert (Hm : (measure colour [(x, true)] <= dfs_fuel G)%nat).
    { unfold measure, dfs_fuel. fold max_degree. simpl. nia. }
    pose proof (dfs_correct (dfs_fuel G) colour [(x, true)] D Hcl I' Hm) as Hd.
    pose proof (dfs_whites (dfs_fuel G) colour [(x, true)]) as Hwd.
    destruct (dfs _ _ _ _) as [colour'|[| |]]; [|done..].
    destruct Hd as (D' & I'' & HD & Hst).
    specialize (IH colour' D' I'' ltac:(intros; apply Hs; by right) ltac:(lia)).
    destruct (dfs_starts _ _ _) as [?|[| |]]; [|done..].
    destruct IH as (D'' & ? & Hst' & HD'). exists D''. split_and!; [done| |auto].
    intros y [->|?]%elem_of_cons; [|auto]. apply HD'. apply (Hst x true). left.
  - apply (inv_grey _ _ _ I) in Hc. by apply elem_of_nil in Hc.
  - apply Hskip. by apply (inv_black _ _ _ I).
  - destruct (proj2 (inv_dom _ _ _ I x)); [eauto|congruence].
Qed.

(** Acyclicity of the group graph. *)
Definition acyclic : Prop := forall x, ~ tc edge x x.

Lemma inv_init : inv ((fun _ => White) <$> G) [] [].
Proof.
  split.
  - intros x. rewrite lookup_fmap. by rewrite fmap_is_Some.
  - by intros ?? ?%elem_of_nil.
  - constructor.
  - intros x. rewrite lookup_fmap. by destruct (G !! x).
  - by intros ? ?%elem_of_nil.
  - intros x. rewrite lookup_fmap. split; [by destruct (G !! x)|by intros ?%elem_of_nil].
  - intros up x down E. by destruct up.
Qed.

Lemma check_group_acyclic_topo :
  refs_closed ->
  match check_group_acyclic G with
  | Ok _ => exists D, topo D /\ forall x, is_Some (G !! x) -> x ∈ D
  | Err (Refused e) => exists c, e = GroupCycle c /\ tc edge c c
  | Err _ => False
  end.
Proof.
  intros Hcl. unfold check_group_acyclic.
  assert (Hw : (whites ((fun _ => White) <$> G) <= size G)%nat).
  { unfold whites. etrans; [apply map_size_filter|]. by rewrite map_size_fmap. }
  pose proof (dfs_starts_correct (btree_keys G) _ [] Hcl inv_init
    ltac:(intros x; apply elem_of_btree_keys) Hw) as H.
  destruct (dfs_starts _ _ _) as [?|[| |]]; [|done..].
  destruct H as (D & HD & Hst & _). exists D. split; [done|].
  intros x Hx. apply Hst. by apply elem_of_btree_keys.
Qed.

Lemma topo_total_acyclic D :
  topo D -> (forall x, is_Some (G !! x) -> x ∈ D) -> acyclic.
Proof.
  intros HD Hall x Hx. eapply topo_acyclic; [exact HD| |exact Hx]. apply Hall.
  inversion Hx as [? ? [a [Ha _]]|? ? ? [a [Ha _]] _]; eauto.
Qed.
End Graph.
