(* ===== verification/AuthorityEval.v ===== *)
(** * AuthorityEval: what evaluating a gate means

    A declarative account of when an authority is satisfied, and the proof
    that [evaluate] decides it on every model [from_spec] accepts: the
    recursion returns, is monotone in proofs and in time, opens nothing on no
    proof, and can always be opened by all the proofs. *)

From S2P Require Import Prelude Text Clock Ttl External Authority AuthorityGraph.

(** ** Satisfaction, declaratively *)

Fixpoint weight_sum (fs : list WeightedFactor) : Z :=
  match fs with [] => 0 | wf :: fs => weight wf + weight_sum fs end.

Section Sat.
Context (G : gmap string Authority) (S : gset string) (t : Duration).

Inductive sat_factor : Factor -> Prop :=
| sat_authenticator id : id ∈ S -> sat_factor (Authenticator_ id)
| sat_group id g : G !! id = Some g -> sat_authority g -> sat_factor (Group id)
| sat_wait dur : dur <= t -> sat_factor (Wait dur)
with sat_authority : Authority -> Prop :=
| sat_threshold a fs :
    (** Some selection of the factors, all satisfied, reaches the threshold. *)
    sublist fs (factors a) ->
    (forall wf, wf ∈ fs -> sat_factor (factor wf)) ->
    threshold a <= weight_sum fs -> sat_authority a.
End Sat.

Scheme sat_factor_mind := Induction for sat_factor Sort Prop
  with sat_authority_mind := Induction for sat_authority Sort Prop.

(** What [build_authority] guarantees of one authority, for specs whose
    numbers are [u32]s. *)
Record valid_authority (a : Authority) : Prop := {
  va_threshold : 0 < threshold a;
  va_weights : Forall (fun wf => 0 < weight wf) (factors a);
  va_available : threshold a <= weight_sum (factors a);
  va_waits : forall wf dur, wf ∈ factors a -> factor wf = Wait dur ->
    0 < dur <= Clock.from_secs MAX_TTL_SECS;
}.

Lemma weight_sum_app l1 l2 : weight_sum (l1 ++ l2) = weight_sum l1 + weight_sum l2.
Proof. induction l1; cbn; lia. Qed.

Lemma weight_sum_nonneg l : Forall (fun wf => 0 < weight wf) l -> 0 <= weight_sum l.
Proof. induction 1; cbn; lia. Qed.

(** A selection of satisfied factors never outweighs all of them. *)
Lemma weight_sum_sublist (P : WeightedFactor -> bool) fs l :
  sublist fs l -> Forall (fun wf => 0 < weight wf) l -> Forall (fun wf => P wf = true) fs ->
  weight_sum fs <= weight_sum (List.filter P l).
Proof.
  induction 1 as [|wf fs l _ IH|wf fs l _ IH]; intros Hw HP; [done|..];
    apply Forall_cons in Hw as [Hwf Hw]; cbn.
  - apply Forall_cons in HP as [HPw HP]. rewrite HPw. cbn.
    specialize (IH Hw HP). lia.
  - specialize (IH Hw HP). destruct (P wf); cbn; lia.
Qed.

Lemma filter_sublist {A} (P : A -> bool) (l : list A) : sublist (List.filter P l) l.
Proof. induction l as [|x l IH]; cbn; [constructor|]. destruct (P x); by constructor. Qed.

(** ** The factor loop *)

Lemma eval_factors_spec ok el facs w miss w' miss' :
  eval_factors ok el facs w miss = Some (w', miss') ->
  w' = w + weight_sum (List.filter (fun wf => bool_decide (ok (factor wf) = Some true)) facs)
  /\ (forall wf, wf ∈ facs -> exists b, ok (factor wf) = Some b).
Proof.
  revert w miss. induction facs as [|wf facs IH]; intros w miss E; cbn in *.
  { simplify_eq. split; [lia|]. by intros ? ?%elem_of_nil. }
  destruct (ok (factor wf)) as [[]|] eqn:Hok; cbn in E; [..|done];
    apply IH in E as [-> Hall].
  - rewrite bool_decide_eq_true_2 by done. cbn. split; [lia|].
    intros x [->|?]%elem_of_cons; eauto.
  - rewrite bool_decide_eq_false_2 by done. split; [done|].
    intros x [->|?]%elem_of_cons; eauto.
Qed.

Lemma eval_factors_total ok el facs w miss :
  (forall wf, wf ∈ facs -> is_Some (ok (factor wf))) ->
  is_Some (eval_factors ok el facs w miss).
Proof.
  revert w miss. induction facs as [|wf facs IH]; intros w miss Hok; cbn; [eauto|].
  destruct (Hok wf ltac:(left)) as [[] ->]; cbn; apply IH; intros; apply Hok; by right.
Qed.

(** The report of what is missing: one entry per factor that does not hold,
    in factor order. *)
Lemma eval_factors_missing ok el facs w miss w' miss' :
  eval_factors ok el facs w miss = Some (w', miss') ->
  (length miss' = length miss + length (List.filter
     (fun wf => negb (bool_decide (ok (factor wf) = Some true))) facs))%nat.
Proof.
  revert w miss. induction facs as [|wf facs IH]; intros w miss E; cbn in *.
  { simplify_eq. lia. }
  destruct (ok (factor wf)) as [[]|] eqn:Hok; cbn in E; [..|done]; apply IH in E.
  - by rewrite bool_decide_eq_true_2.
  - rewrite bool_decide_eq_false_2 by done. cbn. rewrite length_app in E. cbn in E. lia.
Qed.

(** ** Evaluation decides satisfaction *)

Section Eval.
Context (G : gmap string Authority) (S : gset string) (t : Duration).
Context (HG : forall id g, G !! id = Some g -> valid_authority g).

(** The truth of one factor, as the evaluation computes it. *)
Local Definition factor_ok (fuel : nat) (f : Factor) : option bool :=
  match f with
  | Authenticator_ id => Some (bool_decide (id ∈ S))
  | Group id =>
      match G !! id with
      | Some g => met <$> evaluate_fuel fuel G g S t
      | None => Some false
      end
  | Wait dur => Some (dur <=? t)
  end.

Lemma evaluate_fuel_unfold fuel a :
  evaluate_fuel (Datatypes.S fuel) G a S t =
  '(w, miss) ← eval_factors (factor_ok fuel) t (factors a) 0 [];
  Some {| out_weight := w; out_threshold := threshold a;
          met := threshold a <=? w; missing := miss |}.
Proof. done. Qed.

Lemma evaluate_fuel_sat fuel a o :
  Forall (fun wf => 0 < weight wf) (factors a) ->
  evaluate_fuel fuel G a S t = Some o -> (met o = true <-> sat_authority G S t a).
Proof.
  revert a o. induction fuel as [|fuel IH]; intros a o Hw; [done|].
  rewrite evaluate_fuel_unfold.
  destruct (eval_factors _ _ _ _ _) as [[w miss]|] eqn:E; [|done]. cbn.
  intros [= <-]. cbn. apply eval_factors_spec in E as [-> Hall].
  assert (Hf : forall wf, wf ∈ factors a ->
    (factor_ok fuel (factor wf) = Some true <-> sat_factor G S t (factor wf))).
  { intros wf Hwf. destruct (Hall wf Hwf) as [b Hb].
    destruct (factor wf) as [id|id|dur]; cbn in *.
    - simplify_eq. split; [intros [= ?%bool_decide_eq_true]; by constructor|].
      inversion 1; subst. f_equal. by apply bool_decide_eq_true.
    - destruct (G !! id) as [g|] eqn:Hg.
      + destruct (evaluate_fuel fuel G g S t) as [o|] eqn:Eo; [|done].
        cbn. apply IH in Eo; [|by eapply va_weights, HG].
        split; [intros [= Hm]; econstructor; [done|]; by apply Eo|].
        inversion 1; subst. simplify_eq. f_equal. by apply Eo.
      + split; [done|]. inversion 1; subst; congruence.
    - split; [intros [= ?%Z.leb_le]; by constructor|].
      inversion 1; subst. f_equal. by apply Z.leb_le. }
  rewrite Z.leb_le. split.
  - intros Hle. econstructor; [apply filter_sublist| |exact Hle].
    intros wf Hwf. apply list_elem_of_In in Hwf. apply filter_In in Hwf as [Hin Hok].
    apply bool_decide_eq_true in Hok. apply Hf; [by apply list_elem_of_In|done].
  - inversion 1 as [? fs Hsub Hsat Hthr]; subst. etrans; [exact Hthr|].
    cbn. apply weight_sum_sublist; [done|done|].
    apply Forall_forall. intros wf Hwf. apply bool_decide_eq_true.
    apply Hf; [|auto]. by eapply elem_of_sublist.
Qed.

Lemma evaluate_fuel_total fuel D a :
  topo G D -> (length D < fuel)%nat ->
  (forall c, c ∈ group_children a -> is_Some (G !! c) -> c ∈ D) ->
  is_Some (evaluate_fuel fuel G a S t).
Proof.
  revert D a. induction fuel as [|fuel IH]; intros D a HD Hl Hc; [lia|].
  rewrite evaluate_fuel_unfold.
  destruct (eval_factors_total (factor_ok fuel) t (factors a) 0 []) as [[w miss] ->];
    [|cbn; eauto].
  intros wf Hwf. destruct (factor wf) as [id|id|dur] eqn:Hfac; cbn; [eauto| |eauto].
  destruct (G !! id) as [g|] eqn:Hg; [|eauto]. apply fmap_is_Some.
  assert (Hid : id ∈ D).
  { apply Hc; [|eauto]. unfold group_children. apply list_elem_of_omap.
    exists wf. by rewrite Hfac. }
  apply list_elem_of_split in Hid as (l1 & l2 & ->).
  apply topo_suffix in HD. inversion HD as [|x l _ _ He HD']; subst.
  apply (IH l2); [done|rewrite length_app in Hl; cbn in Hl; lia|].
  intros c Hcc _. apply He. by exists g.
Qed.
End Eval.

Lemma sat_monotone G S S' t t' a :
  S ⊆ S' -> t <= t' -> sat_authority G S t a -> sat_authority G S' t' a.
Proof.
  intros HS Ht H. induction H as [id Hid|id g Hg _ IH|dur Hd|a fs Hsub _ IH Hthr]
    using sat_authority_mind
    with (P := fun f _ => sat_factor G S' t' f).
  - constructor. set_solver.
  - by econstructor.
  - constructor. lia.
  - by econstructor.
Qed.

(** Nothing is satisfied by no proof and no elapsed time. *)
Lemma sat_none G a :
  (forall id g, G !! id = Some g -> valid_authority g) -> valid_authority a ->
  ~ sat_authority G ∅ 0 a.
Proof.
  intros HG Ha H. revert Ha.
  induction H as [id Hid|id g Hg _ IH|dur Hd|a fs Hsub _ IH Hthr] using sat_authority_mind
    with (P := fun f _ => match f with Wait dur => dur <= 0 | _ => False end).
  - set_solver.
  - by eapply IH, HG.
  - done.
  - intros Ha. destruct fs as [|wf fs].
    { pose proof (va_threshold a Ha). cbn in Hthr. lia. }
    specialize (IH wf ltac:(left)). destruct (factor wf) as [| |dur] eqn:Hf; [done..|].
    assert (Hin : wf ∈ factors a) by (eapply elem_of_sublist; [|done]; left).
    pose proof (va_waits a Ha wf dur Hin Hf). lia.
Qed.

(** Every authenticator proved and every wait elapsed satisfies a valid
    authority whose references resolve. *)
Lemma sat_factors_all G S a :
  valid_authority a ->
  (forall id, Authenticator_ id ∈ factor <$> factors a -> id ∈ S) ->
  (forall id, Group id ∈ factor <$> factors a ->
     exists g, G !! id = Some g /\ sat_authority G S (Clock.from_secs MAX_TTL_SECS) g) ->
  sat_authority G S (Clock.from_secs MAX_TTL_SECS) a.
Proof.
  intros Ha Hauth Hgrp. apply (sat_threshold _ _ _ a (factors a)).
  - done.
  - intros wf Hwf. assert (factor wf ∈ factor <$> factors a).
    { apply list_elem_of_fmap. eauto. }
    destruct (factor wf) as [id|id|dur] eqn:Hf.
    + constructor. auto.
    + destruct (Hgrp id) as (g & ? & ?); [done|]. by econstructor.
    + constructor. by eapply va_waits in Hf as [_ ?].
  - apply Ha.
Qed.

(** ** What [from_spec] validates *)

(** The [u32] fields of a spec are in range. *)
Definition factors_typed (l : list FactorSpec) : Prop :=
  Forall (fun fs => is_u32 (fs_weight fs)) l.
Definition spec_typed (spec : ApprovalSpec) : Prop :=
  Forall (fun g => is_u32 (gs_threshold g) /\ factors_typed (gs_factor g)) (spec_group spec)
  /\ Forall (fun p => is_u32 (ps_threshold p) /\ factors_typed (ps_factor p)) (spec_profile spec).

Lemma build_factor_wait kind id fs dur :
  build_factor kind id fs = Ok (Wait dur) -> 0 < dur <= Clock.from_secs MAX_TTL_SECS.
Proof.
  unfold build_factor.
  destruct (fs_authenticator fs), (fs_group fs), (fs_wait fs) as [w|]; try done.
  destruct (Ttl.parse _) as [t|] eqn:Ht; cbn; [|done]. intros [= <-].
  apply Ttl.parse_wf, Ttl.wf_duration in Ht. unfold NANOS_PER_SEC in Ht. lia.
Qed.

Lemma build_factors_spec kind id specs facs av facs' av' :
  factors_typed specs -> build_factors kind id specs facs av = Ok (facs', av') ->
  exists new, facs' = facs ++ new /\ av' = av + weight_sum new
    /\ Forall (fun wf => 0 < weight wf) new
    /\ (forall wf dur, wf ∈ new -> factor wf = Wait dur ->
          0 < dur <= Clock.from_secs MAX_TTL_SECS).
Proof.
  revert facs av. induction specs as [|fs specs IH]; intros facs av Ht E; cbn in E.
  { simplify_eq. exists []. rewrite app_nil_r. split_and!; [done|simpl; lia|done|].
    by intros ?? ?%elem_of_nil. }
  apply Forall_cons in Ht as [Hw Ht]. unfold is_u32 in Hw.
  destruct (fs_weight fs =? 0) eqn:Hz; [done|]. destruct (negb _); [done|].
  destruct (build_factor kind id fs) as [f|] eqn:Hf; [|done].
  apply IH in E as (new & -> & -> & Hn & Hd); [|done].
  exists ({| weight := fs_weight fs; factor := f |} :: new).
  split_and!; [by rewrite <-(assoc_L (++))|cbn; lia|..].
  - constructor; [|done]. cbn. bool_prop. lia.
  - intros wf dur [->|?]%elem_of_cons; [|eauto]. cbn. intros ->. by eapply build_factor_wait.
Qed.

Lemma build_authority_valid kind id thr specs a :
  is_u32 thr -> factors_typed specs -> build_authority kind id thr specs = Ok a ->
  valid_authority a.
Proof.
  intros Ht Hs. unfold build_authority. unfold is_u32 in Ht.
  case_goal; [done|]. case_goal; [done|]. case_match; [done|].
  destruct (build_factors _ _ _ _ _) as [[facs av]|] eqn:E; [|done].
  apply build_factors_spec in E as (new & -> & -> & Hn & Hd); [|done].
  case_goal; [done|]. intros [= <-]. bool_prop. split; cbn; auto with lia.
Qed.

Section Valid.
Context `{DataEncoding, ApprovalKeys}.

(** The references of an authority resolve in the model. *)
Definition refs_resolve (m : AuthorityModel) (a : Authority) : Prop :=
  (forall id, Authenticator_ id ∈ factor <$> factors a -> is_Some (authenticators m !! id))
  /\ (forall id, Group id ∈ factor <$> factors a -> is_Some (groups m !! id)).

Record valid_model (m : AuthorityModel) : Prop := {
  vm_groups id g : groups m !! id = Some g -> valid_authority g /\ refs_resolve m g;
  vm_profiles id p : profiles m !! id = Some p -> valid_authority p /\ refs_resolve m p;
  vm_order : exists D, topo (groups m) D /\ forall x, is_Some (groups m !! x) -> x ∈ D;
}.

Lemma build_groups_valid specs acc m :
  Forall (fun g => is_u32 (gs_threshold g) /\ factors_typed (gs_factor g)) specs ->
  (forall id g, acc !! id = Some g -> valid_authority g) ->
  build_groups specs acc = Ok m -> forall id g, m !! id = Some g -> valid_authority g.
Proof.
  intros Ht. revert acc. induction Ht as [|s specs [Hthr Hf] _ IH]; intros acc Ha E; cbn in E.
  { by simplify_eq. }
  destruct (build_authority _ _ _ _) as [a|] eqn:Hb; [|done].
  case_hyp E; [done|]. eapply IH; [|exact E]. intros id g.
  rewrite lookup_insert. case_decide; [|eauto]. intros [= <-].
  by eapply build_authority_valid.
Qed.

Lemma build_profiles_valid specs acc mcp m mcp' :
  Forall (fun p => is_u32 (ps_threshold p) /\ factors_typed (ps_factor p)) specs ->
  (forall id g, acc !! id = Some g -> valid_authority g) ->
  build_profiles specs acc mcp = Ok (m, mcp') ->
  forall id g, m !! id = Some g -> valid_authority g.
Proof.
  intros Ht. revert acc mcp.
  induction Ht as [|s specs [Hthr Hf] _ IH]; intros acc mcp Ha E; cbn in E.
  { by simplify_eq. }
  destruct (build_authority _ _ _ _) as [a|] eqn:Hb; [|done].
  case_hyp E; [done|]. eapply IH; [|exact E]. intros id g.
  rewrite lookup_insert. case_decide; [|eauto]. intros [= <-].
  by eapply build_authority_valid.
Qed.

Lemma check_refs_resolve m kind id a :
  check_refs m kind id a = Ok tt <-> refs_resolve m a.
Proof.
  unfold check_refs, refs_resolve. induction (factors a) as [|wf l IH]; cbn.
  { split; [|done]. intros _. split; by intros ? ?%elem_of_nil. }
  destruct (factor wf) as [x|x|d]; cbn.
  - destruct (authenticators m !! x) eqn:E.
    + rewrite IH. split; intros [H1 H2]; (split; intros id'; [specialize (H1 id')|specialize (H2 id')]);
        rewrite elem_of_cons in *; naive_solver.
    + split; [done|]. intros [H1 _]. destruct (H1 x ltac:(left)). congruence.
  - destruct (groups m !! x) eqn:E.
    + rewrite IH. split; intros [H1 H2]; (split; intros id'; [specialize (H1 id')|specialize (H2 id')]);
        rewrite elem_of_cons in *; naive_solver.
    + split; [done|]. intros [_ H1]. destruct (H1 x ltac:(left)). congruence.
  - rewrite IH. split; intros [H1 H2]; (split; intros id'; [specialize (H1 id')|specialize (H2 id')]);
      rewrite elem_of_cons in *; naive_solver.
Qed.

Lemma check_all_refs_resolve m kind l :
  check_all_refs m kind l = Ok tt -> forall id a, (id, a) ∈ l -> refs_resolve m a.
Proof.
  induction l as [|[x b] l IH]; cbn; intros E id a; [by intros ?%elem_of_nil|].
  destruct (check_refs m kind x b) as [[]|] eqn:Hc; [|done].
  intros [?|?]%elem_of_cons; simplify_eq; [|eauto]. by eapply check_refs_resolve.
Qed.

Lemma group_children_elem a id : id ∈ group_children a <-> Group id ∈ factor <$> factors a.
Proof.
  unfold group_children. rewrite list_elem_of_omap, list_elem_of_fmap.
  split; intros (wf & H1 & H2); exists wf.
  - destruct (factor wf) eqn:E; naive_solver.
  - rewrite <-H1. naive_solver.
Qed.

Lemma refs_closed_groups m :
  (forall id g, groups m !! id = Some g -> refs_resolve m g) -> refs_closed (groups m).
Proof.
  intros Hg x y (a & Ha & Hy%group_children_elem). destruct (Hg x a Ha) as [_ Hres]. eauto.
Qed.

(** [from_spec] returns: it never panics and never runs out of its bounds,
    and what it accepts is valid. *)
Lemma from_spec_outcome spec :
  spec_typed spec ->
  match from_spec spec with
  | Ok m => valid_model m
  | Err (Refused _) => True
  | Err _ => False
  end.
Proof.
  intros [Htg Htp]. unfold from_spec.
  destruct (build_authenticators _ _) as [auths|]; [|done]. cbn.
  destruct (build_groups _ _) as [grps|] eqn:Eg; [|done]. cbn.
  destruct (build_profiles _ _ _) as [[profs mcp]|] eqn:Ep; [|done]. cbn.
  case_goal; [done|].
  destruct (check_all_refs _ "group" _) as [[]|] eqn:Erg; [|done]. cbn.
  destruct (check_all_refs _ "profile" _) as [[]|] eqn:Erp; [|done]. cbn.
  set (m := {| authenticators := auths; groups := grps; profiles := profs;
               mcp_profiles := mcp |}) in *.
  assert (Hrg : forall id g, groups m !! id = Some g -> refs_resolve m g).
  { intros id g Hg%elem_of_btree_iter. by eapply check_all_refs_resolve in Erg. }
  pose proof (check_group_acyclic_topo grps (refs_closed_groups m Hrg)) as Hac.
  destruct (check_group_acyclic grps) as [[]|[| |]]; [|done..].
  split; cbn.
  - intros id g Hg. split; [|eauto]. by eapply build_groups_valid in Eg.
  - intros id p Hp. split; [by eapply build_profiles_valid in Ep|].
    apply elem_of_btree_iter in Hp. by eapply check_all_refs_resolve in Erp.
  - done.
Qed.

Lemma resolve_override_valid m pid body a :
  is_u32 (ab_threshold body) -> factors_typed (ab_factor body) ->
  resolve_override m pid body = Ok a -> valid_authority a /\ refs_resolve m a.
Proof.
  intros Ht Hf. unfold resolve_override.
  destruct (build_authority _ _ _ _) as [b|] eqn:Hb; [|done].
  destruct (check_refs _ _ _ _) as [[]|] eqn:Hc; [|done]. intros [= <-].
  split; [by eapply build_authority_valid|by eapply check_refs_resolve].
Qed.

(** ** Evaluation on a valid model *)

Section OnModel.
Context (m : AuthorityModel) (Hm : valid_model m).
Context (a : Authority) (Ha : valid_authority a) (Hr : refs_resolve m a).

Lemma evaluate_returns S t : exists o, evaluate m a S t = Some o.
Proof using Hm.
  destruct (vm_order m Hm) as (D & HD & Hall).
  eapply evaluate_fuel_total; [exact HD| |auto]. pose proof (topo_size _ _ HD). lia.
Qed.

Lemma evaluate_sat S t o :
  evaluate m a S t = Some o -> (met o = true <-> sat_authority (groups m) S t a).
Proof using Hm Ha.
  apply evaluate_fuel_sat; [|apply Ha]. intros id g Hg. by eapply vm_groups in Hg as [? _].
Qed.

Lemma sat_groups_all id g :
  groups m !! id = Some g ->
  sat_authority (groups m) (dom (authenticators m)) (Clock.from_secs MAX_TTL_SECS) g.
Proof using Hm.
  destruct (vm_order m Hm) as (D & HD & Hall). intros Hg.
  assert (Hid : id ∈ D) by eauto. clear Hall. revert id g Hg Hid.
  induction HD as [|x D Hx _ He HD IH]; intros id g Hg Hid; [by apply elem_of_nil in Hid|].
  apply elem_of_cons in Hid as [->|Hid]; [|eauto].
  destruct (vm_groups m Hm x g Hg) as [Hv [H1 H2]].
  apply sat_factors_all; [done|..].
  - intros y Hy. apply elem_of_dom. auto.
  - intros y Hy. destruct (H2 y Hy) as [gy Hgy]. exists gy. split; [done|].
    apply (IH y); [done|]. apply He. exists g. split; [done|].
    by apply group_children_elem.
Qed.

Lemma sat_all :
  sat_authority (groups m) (dom (authenticators m)) (Clock.from_secs MAX_TTL_SECS) a.
Proof using Hm Ha Hr.
  destruct Hr as [H1 H2]. apply sat_factors_all; [done|..].
  - intros y Hy. apply elem_of_dom. auto.
  - intros y Hy. destruct (H2 y Hy) as [g Hg]. eauto using sat_groups_all.
Qed.
End OnModel.
End Valid.
