(* ===== verification/AuthorityProps.v ===== *)
(** * AuthorityProps: the properties of the approval authority *)

From S2P Require Import Prelude Text Clock Ttl External Reference Authority AuthorityGraph AuthorityEval.

(** The authorities a request can be evaluated against: a profile of the
    model, or a host's override of one. *)
Definition effective `{DataEncoding, ApprovalKeys} (m : AuthorityModel) (a : Authority) : Prop :=
  (exists id, profile m id = Some a)
  \/ (exists id body, is_u32 (ab_threshold body) /\ factors_typed (ab_factor body)
        /\ resolve_override m id body = Ok a).

Lemma effective_valid `{DataEncoding, ApprovalKeys} m a :
  valid_model m -> effective m a -> valid_authority a /\ refs_resolve m a.
Proof.
  intros Hm [[id Hp]|(id & body & Ht & Hf & Ho)].
  - by eapply vm_profiles in Hp.
  - by eapply resolve_override_valid.
Qed.

Lemma from_spec_Ok_valid `{DataEncoding, ApprovalKeys} spec m :
  spec_typed spec -> from_spec spec = Ok m -> valid_model m.
Proof. intros Ht E. pose proof (from_spec_outcome spec Ht) as Ho. by rewrite E in Ho. Qed.

(** ** A small policy for the witnesses *)

Definition auth_factor (w : Z) (id : string) : FactorSpec :=
  {| fs_weight := w; fs_authenticator := Some id; fs_group := None; fs_wait := None |}.
Definition group_factor (w : Z) (id : string) : FactorSpec :=
  {| fs_weight := w; fs_authenticator := None; fs_group := Some id; fs_wait := None |}.
Definition wait_factor (w : Z) (d : string) : FactorSpec :=
  {| fs_weight := w; fs_authenticator := None; fs_group := None; fs_wait := Some d |}.
Definition totp_auth (id : string) : AuthenticatorSpec :=
  {| as_id := id; as_kind := KTotp; as_public_key := None; as_secret_file := Some "s";
     as_hash_file := None; as_alg := None; as_credential_id := None |}.

(** Two operators form a group; the profile wants the group, or one operator
    and a five-minute wait. *)
Definition sample_spec : ApprovalSpec := {|
  spec_authenticator := [totp_auth "alice"; totp_auth "bob"];
  spec_group := [{| gs_id := "ops"; gs_threshold := 2;
                    gs_factor := [auth_factor 1 "alice"; auth_factor 1 "bob"] |}];
  spec_profile := [{| ps_id := "claude"; ps_threshold := 2; ps_mcp := true;
                      ps_factor := [group_factor 2 "ops"; auth_factor 1 "alice";
                                    wait_factor 1 "5m"] |}];
|}.

Definition sample_model : AuthorityModel :=
  match from_spec sample_spec with
  | Ok m => m
  | Err _ => {| authenticators := ∅; groups := ∅; profiles := ∅; mcp_profiles := ∅ |}
  end.

Definition sample_authority : Authority :=
  match profile sample_model "claude" with Some a => a | None => {| threshold := 0; factors := [] |} end.

Lemma sample_typed : spec_typed sample_spec.
Proof. split; apply (bool_decide_unpack _); vm_compute; done. Qed.

Lemma sample_from_spec : from_spec sample_spec = Ok sample_model.
Proof. vm_compute. reflexivity. Qed.

Lemma sample_profile : effective sample_model sample_authority.
Proof. left. exists "claude". vm_compute. reflexivity. Qed.

(** ** Properties *)

(** C4. On every policy [from_spec] accepts, evaluating a profile or a host
    override returns, and reports the gate as met exactly when some selection
    of its factors, each satisfied (a proof that is in, a group itself
    satisfied, a wait that has elapsed), has weights reaching the threshold. *)
Theorem evaluate_decides `{DataEncoding, ApprovalKeys} spec m a S t :
  spec_typed spec -> from_spec spec = Ok m -> effective m a ->
  exists o, evaluate m a S t = Some o
    /\ (met o = true <-> sat_authority (groups m) S t a).
Proof.
  intros Ht Hm Ha. eapply from_spec_Ok_valid in Hm; [|done].
  destruct (effective_valid m a Hm Ha) as [Hv Hr].
  destruct (evaluate_returns m Hm a S t) as [o Ho].
  exists o. split; [done|]. by eapply evaluate_sat.
Qed.

Lemma evaluate_decides_witness :
  exists o, evaluate sample_model sample_authority {["alice"]} (Clock.from_secs 300) = Some o
    /\ (met o = true <->
        sat_authority (groups sample_model) {["alice"]} (Clock.from_secs 300) sample_authority).
Proof.
  exact (evaluate_decides sample_spec sample_model sample_authority _ _
           sample_typed sample_from_spec sample_profile).
Defined.

(** Fail-closed: with no proof gathered and no time elapsed, no gate of
    an accepted policy is met. *)
Theorem no_proof_never_opens `{DataEncoding, ApprovalKeys} spec m a :
  spec_typed spec -> from_spec spec = Ok m -> effective m a ->
  exists o, evaluate m a ∅ 0 = Some o /\ met o = false.
Proof.
  intros Ht Hm Ha. eapply from_spec_Ok_valid in Hm; [|done].
  destruct (effective_valid m a Hm Ha) as [Hv Hr].
  destruct (evaluate_returns m Hm a ∅ 0) as [o Ho]. exists o. split; [done|].
  apply not_true_is_false. rewrite (evaluate_sat m Hm a Hv ∅ 0 o Ho).
  apply sat_none; [|done]. intros id g Hg. by eapply vm_groups in Hg as [? _].
Qed.

Lemma no_proof_never_opens_witness :
  exists o, evaluate sample_model sample_authority ∅ 0 = Some o /\ met o = false.
Proof.
  exact (no_proof_never_opens sample_spec sample_model sample_authority
           sample_typed sample_from_spec sample_profile).
Defined.

(** No accepted policy is unopenable: when every configured authenticator
    has proved and the longest possible wait has elapsed, every gate is met. *)
Theorem all_proofs_open `{DataEncoding, ApprovalKeys} spec m a S t :
  spec_typed spec -> from_spec spec = Ok m -> effective m a ->
  dom (authenticators m) ⊆ S -> Clock.from_secs MAX_TTL_SECS <= t ->
  exists o, evaluate m a S t = Some o /\ met o = true.
Proof.
  intros Ht Hm Ha HS Htime. eapply from_spec_Ok_valid in Hm; [|done].
  destruct (effective_valid m a Hm Ha) as [Hv Hr].
  destruct (evaluate_returns m Hm a S t) as [o Ho]. exists o. split; [done|].
  rewrite (evaluate_sat m Hm a Hv S t o Ho). eapply sat_monotone; [exact HS|exact Htime|].
  by apply sat_all.
Qed.

Lemma all_proofs_open_witness :
  exists o, evaluate sample_model sample_authority {["alice"; "bob"]} (Clock.from_secs 86400) = Some o
    /\ met o = true.
Proof.
  apply (all_proofs_open sample_spec sample_model sample_authority _ _
           sample_typed sample_from_spec sample_profile).
  - vm_compute. set_solver.
  - vm_compute. done.
Defined.

(** More proofs and more time never close a gate that is met. *)
Theorem evaluate_monotone `{DataEncoding, ApprovalKeys} spec m a S S' t t' o :
  spec_typed spec -> from_spec spec = Ok m -> effective m a ->
  S ⊆ S' -> t <= t' -> evaluate m a S t = Some o -> met o = true ->
  exists o', evaluate m a S' t' = Some o' /\ met o' = true.
Proof.
  intros Ht Hm Ha HS Htime Ho Hmet. eapply from_spec_Ok_valid in Hm; [|done].
  destruct (effective_valid m a Hm Ha) as [Hv Hr].
  destruct (evaluate_returns m Hm a S' t') as [o' Ho']. exists o'. split; [done|].
  rewrite (evaluate_sat m Hm a Hv S' t' o' Ho'). eapply sat_monotone; [exact HS|exact Htime|].
  by rewrite <-(evaluate_sat m Hm a Hv S t o Ho).
Qed.

Lemma evaluate_monotone_witness :
  exists o', evaluate sample_model sample_authority {["alice"; "bob"]} (Clock.from_secs 60) = Some o'
    /\ met o' = true.
Proof.
  eapply (evaluate_monotone sample_spec sample_model sample_authority
           {["alice"; "bob"]} {["alice"; "bob"]} 0 (Clock.from_secs 60)
           _ sample_typed sample_from_spec sample_profile).
  - done.
  - vm_compute. done.
  - vm_compute. reflexivity.
  - reflexivity.
Defined.

(** C23. The cycle check: on a group graph whose references resolve it returns
    within its bounds, accepts exactly the acyclic graphs, and otherwise names
    a group that lies on a cycle. *)
Theorem check_group_acyclic_correct G :
  refs_closed G ->
  (check_group_acyclic G = Ok tt <-> acyclic G)
  /\ (forall f, check_group_acyclic G = Err f ->
        exists c, f = Refused (GroupCycle c) /\ tc (edge G) c c).
Proof.
  intros Hcl. pose proof (check_group_acyclic_topo G Hcl) as Hc.
  destruct (check_group_acyclic G) as [[]|[e| |]]; [| |done..].
  - destruct Hc as (D & HD & Hall). split; [|done]. split; [|done].
    intros _. by eapply topo_total_acyclic.
  - destruct Hc as (c & -> & Ht). split; [|naive_solver].
    split; [done|]. intros Hac. by destruct (Hac c).
Qed.

Lemma check_group_acyclic_correct_witness :
  check_group_acyclic (groups sample_model) = Ok tt <-> acyclic (groups sample_model).
Proof.
  apply (check_group_acyclic_correct (groups sample_model)).
  intros x y (a & Ha & Hy).
  assert (Hx : x ∈ btree_keys (groups sample_model)) by (apply elem_of_btree_keys; eauto).
  vm_compute in Hx. apply list_elem_of_singleton in Hx as ->.
  vm_compute in Ha. injection Ha as <-. vm_compute in Hy. by apply elem_of_nil in Hy.
Defined.

(** Building the policy always answers: whatever the configuration,
    [from_spec] accepts or refuses with a named error and neither panics nor
    runs away, and an accepted policy has every reference resolved and every
    threshold reachable. *)
Theorem from_spec_total `{DataEncoding, ApprovalKeys} spec :
  spec_typed spec ->
  (exists e, from_spec spec = Err (Refused e))
  \/ (exists m, from_spec spec = Ok m
        /\ acyclic (groups m)
        /\ forall id a, profile m id = Some a \/ groups m !! id = Some a ->
             0 < threshold a <= weight_sum (factors a) /\ refs_resolve m a).
Proof.
  intros Ht. pose proof (from_spec_outcome spec Ht) as Ho.
  destruct (from_spec spec) as [m|[e| |]]; [|by eauto|done..].
  right. exists m. split; [done|]. split.
  - destruct (vm_order m Ho) as (D & HD & Hall). by eapply topo_total_acyclic.
  - intros id a [Hp|Hg].
    + destruct (vm_profiles m Ho id a Hp) as [[] ?]. auto.
    + destruct (vm_groups m Ho id a Hg) as [[] ?]. auto.
Qed.

Lemma from_spec_total_witness :
  (exists e, from_spec sample_spec = Err (Refused e))
  \/ (exists m, from_spec sample_spec = Ok m
        /\ acyclic (groups m)
        /\ forall id a, profile m id = Some a \/ groups m !! id = Some a ->
             0 < threshold a <= weight_sum (factors a) /\ refs_resolve m a).
Proof. exact (from_spec_total sample_spec sample_typed). Defined.

(** A cyclic policy is refused by name, and a node re-pushed through a
    diamond is not mistaken for one. *)
Example cyclic_refused :
  check_group_acyclic
    (<["a" := {| threshold := 1; factors := [{| weight := 1; factor := Group "b" |}] |}]>
     (<["b" := {| threshold := 1; factors := [{| weight := 1; factor := Group "a" |}] |}]> ∅))
  = Err (Refused (GroupCycle "a")).
Proof. vm_compute. reflexivity. Qed.

Example diamond_accepted :
  check_group_acyclic
    (<["a" := {| threshold := 1; factors := [{| weight := 1; factor := Group "b" |};
                                             {| weight := 1; factor := Group "c" |}] |}]>
     (<["b" := {| threshold := 1; factors := [{| weight := 1; factor := Wait 1 |}] |}]>
      (<["c" := {| threshold := 1; factors := [{| weight := 1; factor := Group "b" |}] |}]> ∅)))
  = Ok tt.
Proof. vm_compute. reflexivity. Qed.
