(* ===== verification/AuthorityWait.v ===== *)
(** * AuthorityWait: the longest wait of an authority

    [max_wait] of core/src/authority.rs recurses into groups without relying
    on their acyclicity: the [seen] set alone stops it.  It returns on every
    model and answers with the longest wait reachable from the authority. *)

From S2P Require Import Prelude Text Clock External Authority.

(** A wait somewhere in the graph below a list of factors. *)
Inductive wait_in (G : gmap string Authority) : list WeightedFactor -> Duration -> Prop :=
| wait_here facs wf dur : wf ∈ facs -> factor wf = Wait dur -> wait_in G facs dur
| wait_below facs wf id g dur :
    wf ∈ facs -> factor wf = Group id -> G !! id = Some g -> wait_in G (factors g) dur ->
    wait_in G facs dur.

Section Wait.
Context (G : gmap string Authority).

(** What is left to visit: the factors of the groups not yet seen. *)
Definition cost (seen : gset string) (p : string * Authority) : nat :=
  if bool_decide (p.1 ∈ seen) then 0 else S (length (factors p.2)).
Definition unseen (seen : gset string) : nat := list_sum (cost seen <$> map_to_list G).

Lemma cost_mono seen seen' p : seen ⊆ seen' -> (cost seen' p <= cost seen p)%nat.
Proof. intros Hs. unfold cost. repeat case_bool_decide; try lia; set_solver. Qed.

Lemma sum_mono seen seen' l :
  seen ⊆ seen' -> (list_sum (cost seen' <$> l) <= list_sum (cost seen <$> l))%nat.
Proof.
  intros Hs. induction l as [|p l IH]; [done|]. rewrite !fmap_cons, !list_sum_cons.
  pose proof (cost_mono seen seen' p Hs). lia.
Qed.

Lemma unseen_mono seen seen' : seen ⊆ seen' -> (unseen seen' <= unseen seen)%nat.
Proof. apply sum_mono. Qed.

Lemma unseen_visit seen id g :
  G !! id = Some g -> id ∉ seen ->
  (unseen ({[id]} ∪ seen) + S (length (factors g)) <= unseen seen)%nat.
Proof.
  intros Hg Hid. unfold unseen. apply elem_of_map_to_list in Hg.
  apply list_elem_of_split in Hg as (l1 & l2 & E). rewrite E, !fmap_app, !list_sum_app.
  cbn [fmap list_fmap]. rewrite !list_sum_cons.
  assert (Hs : seen ⊆ {[id]} ∪ seen) by set_solver.
  pose proof (sum_mono _ _ l1 Hs). pose proof (sum_mono _ _ l2 Hs).
  assert (cost ({[id]} ∪ seen) (id, g) = 0%nat)
    by (unfold cost; rewrite bool_decide_eq_true_2; [done|set_solver]).
  assert (cost seen (id, g) = S (length (factors g)))
    by (unfold cost; by rewrite bool_decide_eq_false_2).
  lia.
Qed.

(** What a visit establishes: everything newly seen has been entered, and the
    answer bounds the waits met and is one of them. *)
Record visited (facs : list WeightedFactor) (seen seen' : gset string) (mx w : Duration) : Prop := {
  vs_grow : seen ⊆ seen';
  vs_ge : mx <= w;
  vs_children wf id : wf ∈ facs -> factor wf = Group id -> id ∈ seen';
  vs_waits wf dur : wf ∈ facs -> factor wf = Wait dur -> dur <= w;
  vs_new id g : id ∈ seen' -> id ∉ seen -> G !! id = Some g ->
    (forall wf c, wf ∈ factors g -> factor wf = Group c -> c ∈ seen')
    /\ (forall wf dur, wf ∈ factors g -> factor wf = Wait dur -> dur <= w);
  vs_attained : w = mx \/ wait_in G facs w;
}.

Lemma wait_in_cons wf facs dur : wait_in G facs dur -> wait_in G (wf :: facs) dur.
Proof. destruct 1; [eapply wait_here|eapply wait_below]; eauto; by right. Qed.

(** One factor, answering [w1], then the rest of the list. *)
Lemma visited_cons wf facs seen seen1 seen2 mx w1 w2 :
  seen ⊆ seen1 ->
  (forall id, factor wf = Group id -> id ∈ seen1) ->
  (forall dur, factor wf = Wait dur -> dur <= w1) ->
  (forall id g, id ∈ seen1 -> id ∉ seen -> G !! id = Some g ->
     (forall wf c, wf ∈ factors g -> factor wf = Group c -> c ∈ seen1)
     /\ (forall wf dur, wf ∈ factors g -> factor wf = Wait dur -> dur <= w1)) ->
  (w1 <= mx \/ wait_in G [wf] w1) ->
  visited facs seen1 seen2 (if mx <? w1 then w1 else mx) w2 ->
  visited (wf :: facs) seen seen2 mx w2.
Proof.
  intros Hs Hc Hw Hn Ha [Hg Hge Hch Hws Hnew Hat].
  assert (Hmx : mx <= w2 /\ w1 <= w2) by (destruct (mx <? w1) eqn:E; bool_prop; lia).
  split.
  - set_solver.
  - lia.
  - intros wf' id [->|Hin]%elem_of_cons Hf; [by apply Hg, Hc|eauto].
  - intros wf' dur [->|Hin]%elem_of_cons Hf; [specialize (Hw _ Hf); lia|eauto].
  - intros id g Hid Hni HG. destruct (decide (id ∈ seen1)) as [H1|H1]; [|by eapply Hnew].
    destruct (Hn id g H1 Hni HG) as [Hc1 Hw1]. split; [intros; apply Hg; eauto|].
    intros wf' dur Hin Hf. specialize (Hw1 _ _ Hin Hf). lia.
  - destruct Hat as [->|Hat]; [|right; by apply wait_in_cons].
    destruct (mx <? w1) eqn:E; bool_prop; [|by left]. destruct Ha as [|Ha]; [lia|].
    right. inversion Ha as [? wf' ? Hin|? wf' id g ? Hin]; subst;
      apply list_elem_of_singleton in Hin as ->; [eapply wait_here|eapply wait_below]; eauto; by left.
Qed.

Lemma max_wait_fuel_spec fuel facs seen mx :
  (length facs + unseen seen < fuel)%nat -> 0 <= mx ->
  exists w seen', max_wait_fuel fuel G facs seen mx = Some (w, seen')
    /\ visited facs seen seen' mx w.
Proof.
  revert facs seen mx. induction fuel as [|fuel IH]; intros facs seen mx Hf Hmx; [lia|].
  cbn [max_wait_fuel]. destruct facs as [|wf facs].
  { exists mx, seen. split; [done|]. split; try (by intros ? ? ?%elem_of_nil); try done; by left. }
  cbn [length] in Hf.
  assert (Hrest : forall seen1 w1, seen ⊆ seen1 ->
    exists w seen', max_wait_fuel fuel G facs seen1 (if mx <? w1 then w1 else mx) = Some (w, seen')
      /\ visited facs seen1 seen' (if mx <? w1 then w1 else mx) w).
  { intros seen1 w1 Hs. apply IH; [pose proof (unseen_mono _ _ Hs); lia|].
    destruct (mx <? w1) eqn:E; bool_prop; lia. }
  destruct (factor wf) as [id|id|dur] eqn:Hfac; cbn [mbind option_bind].
  - destruct (Hrest seen 0 ltac:(done)) as (w & seen' & -> & Hv). exists w, seen'. split; [done|].
    eapply visited_cons; [..|exact Hv]; try done; try congruence; auto.
  - case_bool_decide as Hid; cbn [mbind option_bind].
    { destruct (Hrest seen 0 ltac:(done)) as (w & seen' & -> & Hv). exists w, seen'.
      split; [done|]. eapply visited_cons; [..|exact Hv]; try done; try congruence; auto. }
    destruct (G !! id) as [g|] eqn:Hg.
    + pose proof (unseen_visit seen id g Hg Hid).
      destruct (IH (factors g) ({[id]} ∪ seen) 0) as (w1 & seen1 & -> & Hv1); [lia|done|].
      cbn [mbind option_bind]. pose proof (vs_grow _ _ _ _ _ Hv1) as Hgr.
      destruct (Hrest seen1 w1 ltac:(set_solver)) as (w & seen' & -> & Hv). exists w, seen'.
      split; [done|]. eapply visited_cons; [..|exact Hv].
      * set_solver.
      * intros id' E. rewrite Hfac in E. injection E as <-. set_solver.
      * congruence.
      * intros id' g' Hin Hni Hg'. destruct (decide (id' = id)) as [->|Hne].
        -- assert (g' = g) as -> by congruence.
           split; [apply (vs_children _ _ _ _ _ Hv1)|apply (vs_waits _ _ _ _ _ Hv1)].
        -- apply (vs_new _ _ _ _ _ Hv1 id' g'); [done|set_solver|done].
      * destruct (vs_attained _ _ _ _ _ Hv1) as [->|Hw]; [by left|right].
        eapply wait_below; eauto. by apply list_elem_of_singleton.
    + cbn [mbind option_bind].
      destruct (Hrest ({[id]} ∪ seen) 0 ltac:(set_solver)) as (w & seen' & -> & Hv).
      exists w, seen'. split; [done|]. eapply visited_cons; [..|exact Hv].
      * set_solver.
      * intros id' E. rewrite Hfac in E. injection E as <-. set_solver.
      * congruence.
      * intros id' g' Hin Hni Hg'. assert (id' = id) as -> by set_solver. congruence.
      * by left.
  - destruct (Hrest seen dur ltac:(done)) as (w & seen' & -> & Hv). exists w, seen'. split; [done|].
    eapply visited_cons; [..|exact Hv]; try done; try congruence.
    + intros d E. rewrite Hfac in E. injection E as <-. lia.
    + right. eapply wait_here; [by apply list_elem_of_singleton|done].
Qed.

(** Once every group entered is closed under references, the bound reaches
    everything below. *)
Lemma visited_bounds facs seen' mx w dur :
  visited facs ∅ seen' mx w -> wait_in G facs dur -> dur <= w.
Proof.
  intros Hv.
  assert (Hclosed : forall facs' d, wait_in G facs' d ->
    (forall wf id, wf ∈ facs' -> factor wf = Group id -> id ∈ seen') ->
    (forall wf d', wf ∈ facs' -> factor wf = Wait d' -> d' <= w) -> d <= w).
  { induction 1 as [facs' wf d Hin Hf|facs' wf id g d Hin Hf Hg _ IH]; intros Hc Hw; [eauto|].
    destruct (vs_new _ _ _ _ _ Hv id g) as [Hc' Hw']; eauto. set_solver. }
  intros Hd. eapply Hclosed; [exact Hd|apply (vs_children _ _ _ _ _ Hv)|apply (vs_waits _ _ _ _ _ Hv)].
Qed.
End Wait.

Lemma max_wait_visited `{DataEncoding, ApprovalKeys} (m : AuthorityModel) (a : Authority) :
  exists d seen, max_wait m a = Some d /\ visited (groups m) (factors a) ∅ seen 0 d.
Proof.
  unfold max_wait. edestruct (max_wait_fuel_spec (groups m)) as (w & seen' & -> & Hv).
  2: done.
  - unfold unseen. apply Nat.lt_succ_r, Nat.add_le_mono_l.
    induction (map_to_list (groups m)) as [|p l IH]; [done|].
    rewrite !fmap_cons, !list_sum_cons. unfold cost at 1. case_bool_decide; lia.
  - by exists w, seen'.
Qed.

Lemma max_wait_returns `{DataEncoding, ApprovalKeys} (m : AuthorityModel) (a : Authority) :
  is_Some (max_wait m a).
Proof. destruct (max_wait_visited m a) as (d & seen & -> & _). eauto. Qed.

(** The longest wait: on every model, cyclic or not, [max_wait] returns;
    its answer bounds every wait reachable from the authority through its
    groups, and is one of them, or zero when there is none. *)
Theorem max_wait_is_longest `{DataEncoding, ApprovalKeys} (m : AuthorityModel) (a : Authority) :
  exists d, max_wait m a = Some d
    /\ (forall dur, wait_in (groups m) (factors a) dur -> dur <= d)
    /\ (d = 0 \/ wait_in (groups m) (factors a) d).
Proof.
  destruct (max_wait_visited m a) as (d & seen & -> & Hv). exists d. split; [done|].
  split; [intros; by eapply visited_bounds|apply Hv].
Qed.
