(* ===== verification/Factors.v ===== *)
(** * Factors: the proof factors of the approval authority

    The pure verifiers of core/src/totp.rs, hmac_factor.rs, password.rs,
    tpm.rs and fido2.rs, and [verify_ed25519] of core/src/authority.rs.  The
    hash, signature, SSH and JSON crates are the class [FactorCrypto]. *)

From S2P Require Import Prelude Text Clock External Approval Authority.

(** The payload of an [lgfido2.] token, and the part of clientDataJSON that is
    read. *)
Record AssertionToken := {
  at_credential_id : string;
  at_authenticator_data : string;
  at_client_data_json : string;
  at_signature : string;
}.
Record ClientDataIn := { ty : string; challenge : string }.

(** How [argon2]'s [verify_password] ends. *)
Inductive PasswordVerdict := PvOk | PvWrong | PvError (text : string).

Class FactorCrypto `{ApprovalKeys} := {
  (** [hmac] over [sha1] and [sha2]: the tag of a key and a message. *)
  hmac_sha1 : list Z -> list Z -> list Z;
  hmac_sha256 : list Z -> list Z -> list Z;
  factor_sha256 : list Z -> list Z;
  (** [p256] and [ed25519_dalek]: signatures are parsed to bytes. *)
  ecdsa_from_der : list Z -> result string (list Z);
  ecdsa_verify : list Z -> list Z -> list Z -> bool;
  eddsa_from_slice : list Z -> result string (list Z);
  eddsa_verify : list Z -> list Z -> list Z -> bool;
  (** [argon2::password_hash]. *)
  PasswordHash : Type;
  password_hash_new : string -> result string PasswordHash;
  hash_is_none : PasswordHash -> bool;
  verify_password : list Z -> PasswordHash -> PasswordVerdict;
  (** [ssh_key]. *)
  SshSig : Type;
  sshsig_parse : string -> result string SshSig;
  sshsig_namespace : SshSig -> string;
  sshsig_signer : SshPublicKey -> SshSig -> bool;
  sshsig_verify : SshPublicKey -> string -> list Z -> SshSig -> bool;
  (** [serde_json], and the [Debug] text of a string. *)
  assertion_from_slice : list Z -> result string AssertionToken;
  client_data_from_slice : list Z -> result string ClientDataIn;
  debug_str : string -> string;
}.

Class FactorCryptoLaws `{FactorCrypto} : Prop := {
  hmac_sha1_length key m : length (hmac_sha1 key m) = 20%nat;
  hmac_sha1_u8 key m : Forall is_u8 (hmac_sha1 key m);
  hmac_sha256_length key m : length (hmac_sha256 key m) = 32%nat;
  hmac_sha256_u8 key m : Forall is_u8 (hmac_sha256 key m);
}.

(** [ApprovalError] of core/src/approval.rs. *)
Inductive ApprovalError :=
| TokenMalformed (text : string)
| WrongNamespace (ns : string)
| UnknownApprover (text : string)
| BadSignature
| AlreadyUsed
| CloneSuspected.

#[export] Instance ApprovalError_eq_dec : EqDecision ApprovalError.
Proof. solve_decision. Defined.

Definition APPROVAL_NAMESPACE : string := "lychgate-approval".

Section Verifiers.
Context `{DataEncoding, FactorCrypto}.

(** ** TOTP (core/src/totp.rs) *)

Definition STEP_SECS : Z := 30.
Definition DIGITS : nat := 6.

Definition counter_at (now : SystemTime) : Z := epoch_secs now / STEP_SECS.

(** [format!("{:0width$}", n, width = DIGITS)]. *)
Fixpoint zeros (n : nat) : string :=
  match n with O => "" | S n => String "0"%char (zeros n) end.
Definition zero_padded (n : Z) : string :=
  let s := dec_u64 n in zeros (DIGITS - String.length s) +:+ s.

Definition code_at (secret : list Z) (counter : Z) : string :=
  let hs := hmac_sha1 secret (be_bytes 8 counter) in
  let at_ i := nth i hs 0 in
  let offset := Z.to_nat (Z.land (at_ 19%nat) 15) in
  let bin :=
    Z.lor (Z.lor (Z.lor (Z.shiftl (Z.land (at_ offset) 127) 24)
                        (Z.shiftl (at_ (offset + 1)%nat) 16))
                 (Z.shiftl (at_ (offset + 2)%nat) 8))
          (at_ (offset + 3)%nat) in
  zero_padded (bin mod 10 ^ Z.of_nat DIGITS).

Definition ct_eq (a b : list Z) : bool :=
  if negb (Nat.eqb (length a) (length b)) then false
  else fold_left (fun diff '(x, y) => Z.lor diff (Z.lxor x y)) (zip a b) 0 =? 0.

(** The body of the scan: the last counter that matches wins. *)
Definition try_counter (secret : list Z) (code : string) (found : option Z) (counter : Z)
    : option Z :=
  if ct_eq (as_bytes (code_at secret counter)) (as_bytes code) then Some counter else found.

Definition matches (secret : list Z) (code : string) (now : SystemTime) (skew_steps : Z)
    : option Z :=
  let code := trim code in
  if negb (str_len code =? Z.of_nat DIGITS) || negb (str_forall is_ascii_digit code) then None
  else
    let center := counter_at now in
    let lo := saturating_sub64 center skew_steps in
    let hi := saturating_add64 center skew_steps in
    fold_left (try_counter secret code) (seqZ lo (hi - lo + 1)) None.

(** ** HMAC (core/src/hmac_factor.rs) *)

Definition HMAC_PREFIX : string := "lghmac.".

Inductive HmacError := HmMalformed | HmMismatch.

Definition hmac_sign (secret : list Z) (challenge : string) : string :=
  HMAC_PREFIX +:+ base64url_encode (hmac_sha256 secret (as_bytes challenge)).

Definition hmac_verify (secret : list Z) (token challenge : string) : result HmacError unit :=
  let? b64 := ok_or (strip_prefix HMAC_PREFIX token) HmMalformed in
  let? presented := ok_or (base64url_decode b64) HmMalformed in
  if negb (Nat.eqb (length presented) 32) then Err HmMalformed
  else if bool_decide (hmac_sha256 secret (as_bytes challenge) = presented) then Ok tt
  else Err HmMismatch.

(** ** Passwords (core/src/password.rs) *)

Definition password_parse (phc : string) : result string PasswordHash :=
  let? parsed := password_hash_new phc in
  if hash_is_none parsed then Err "hash string carries no digest" else Ok parsed.

Definition password_verify (phc password : string) : result string bool :=
  let? parsed := password_parse phc in
  match verify_password (as_bytes password) parsed with
  | PvOk => Ok true
  | PvWrong => Ok false
  | PvError e => Err e
  end.

(** ** TPM signatures (core/src/tpm.rs) *)

Definition TPM_PREFIX : string := "lgtpm.".

Inductive TpmError := TpmMalformed (text : string) | TpmBadSignature | TpmUnsupportedKey (text : string).

Definition tpm_verify (public_key : list Z) (token challenge : string) : result TpmError unit :=
  let? payload := ok_or (strip_prefix TPM_PREFIX token) (TpmMalformed "not an lgtpm token") in
  let? der := ok_or (base64url_decode (trim payload)) (TpmMalformed "token is not base64url") in
  let? _ := map_err (fun e => TpmUnsupportedKey ("p256 key: " +:+ e)) (p256_from_sec1 public_key) in
  let? sig := map_err (fun e => TpmMalformed ("signature: " +:+ e)) (ecdsa_from_der der) in
  if ecdsa_verify public_key (as_bytes challenge) sig then Ok tt else Err TpmBadSignature.

(** ** FIDO2 assertions (core/src/fido2.rs) *)

Definition RP_ID : string := "lychgate".
Definition FIDO2_PREFIX : string := "lgfido2.".
Definition FLAG_UP : Z := 1.

Inductive Fido2Error :=
| F2Malformed (text : string)
| F2WrongCredential
| F2ChallengeMismatch
| F2WrongRelyingParty
| F2UserNotPresent
| F2BadSignature
| F2UnsupportedKey (text : string).

Definition unb64 (s what : string) : result Fido2Error (list Z) :=
  ok_or (base64url_decode (trim s)) (F2Malformed (what +:+ " is not base64url")).

Definition verify_signature (cred : Fido2Credential) (signed signature : list Z)
    : result Fido2Error unit :=
  match cred_alg cred with
  | Es256 =>
      let? _ := map_err (fun e => F2UnsupportedKey ("es256 key: " +:+ e))
                  (p256_from_sec1 (cred_public_key cred)) in
      let? sig := map_err (fun e => F2Malformed ("es256 signature: " +:+ e))
                    (ecdsa_from_der signature) in
      if ecdsa_verify (cred_public_key cred) signed sig then Ok tt else Err F2BadSignature
  | EdDsa =>
      if negb (Nat.eqb (length (cred_public_key cred)) 32)
      then Err (F2UnsupportedKey "eddsa key is not 32 bytes")
      else
        let? _ := map_err (fun e => F2UnsupportedKey ("eddsa key: " +:+ e))
                    (ed25519_from_bytes (cred_public_key cred)) in
        let? sig := map_err (fun e => F2Malformed ("eddsa signature: " +:+ e))
                      (eddsa_from_slice signature) in
        if eddsa_verify (cred_public_key cred) signed sig then Ok tt else Err F2BadSignature
  end.

(** The prefix, the base64 and the JSON of a token. *)
Definition assertion_of (token : string) : result Fido2Error AssertionToken :=
  let? payload := ok_or (strip_prefix FIDO2_PREFIX token) (F2Malformed "not an lgfido2 token") in
  let? raw := unb64 payload "token" in
  map_err (fun e => F2Malformed ("token json: " +:+ e)) (assertion_from_slice raw).

Definition fido2_verify (cred : Fido2Credential) (token expected : string)
    : result Fido2Error unit :=
  let? tok := assertion_of token in
  let? id := unb64 (at_credential_id tok) "credentialId" in
  if negb (bool_decide (id = cred_id cred)) then Err F2WrongCredential
  else
    let? auth_data := unb64 (at_authenticator_data tok) "authenticatorData" in
    let? client_data := unb64 (at_client_data_json tok) "clientDataJSON" in
    let? signature := unb64 (at_signature tok) "signature" in
    let? cd := map_err (fun e => F2Malformed ("clientDataJSON: " +:+ e))
                 (client_data_from_slice client_data) in
    if negb (bool_decide (ty cd = "webauthn.get"))
    then Err (F2Malformed ("clientData type is " +:+ debug_str (ty cd) +:+ ", not "
                           +:+ debug_str "webauthn.get"))
    else if negb (bool_decide (challenge cd = base64url_encode (as_bytes expected)))
    then Err F2ChallengeMismatch
    else if (length auth_data <? 37)%nat then Err (F2Malformed "authenticatorData too short")
    else if negb (bool_decide (take 32 auth_data = factor_sha256 (as_bytes RP_ID)))
    then Err F2WrongRelyingParty
    else if Z.land (nth 32 auth_data 0) FLAG_UP =? 0 then Err F2UserNotPresent
    else verify_signature cred (auth_data ++ factor_sha256 client_data) signature.

Definition token_counter (token : string) : result Fido2Error Z :=
  let? tok := assertion_of token in
  let? auth_data := unb64 (at_authenticator_data tok) "authenticatorData" in
  if (length auth_data <? 37)%nat then Err (F2Malformed "authenticatorData too short")
  else Ok (nth 33 auth_data 0 * 2 ^ 24 + nth 34 auth_data 0 * 2 ^ 16
           + nth 35 auth_data 0 * 2 ^ 8 + nth 36 auth_data 0).

(** ** The authenticators of a model, by kind (core/src/authority.rs) *)

Definition of_kind {A} (f : Authenticator -> option A) (m : AuthorityModel) : list (string * A) :=
  omap (fun '(id, a) => pair id <$> f a) (btree_iter (authenticators m)).

Definition fido2_credentials : AuthorityModel -> list (string * Fido2Credential) :=
  of_kind (fun a => match a with Fido2 cred => Some cred | _ => None end).
Definition tpm_credentials : AuthorityModel -> list (string * list Z) :=
  of_kind (fun a => match a with Tpm pk => Some pk | _ => None end).

(** [verify_ed25519]. *)
Definition verify_ed25519 (m : AuthorityModel) (request : ApprovalRequest) (token : string)
    : result ApprovalError string :=
  let? sig := map_err (fun e => TokenMalformed ("not a valid SSHSIG: " +:+ e))
                (sshsig_parse (trim token)) in
  if negb (bool_decide (sshsig_namespace sig = APPROVAL_NAMESPACE))
  then Err (WrongNamespace (sshsig_namespace sig))
  else
    let matched := head (of_kind (fun a =>
      match a with
      | Ed25519 pk => if sshsig_signer pk sig then Some pk else None
      | _ => None
      end) m) in
    let? found := ok_or matched
      (UnknownApprover "signer is not a configured ed25519 authenticator") in
    let '(id, pk) := found in
    if sshsig_verify pk APPROVAL_NAMESPACE (as_bytes (challenge_string request)) sig
    then Ok id else Err BadSignature.
End Verifiers.

(** ** Lemmas *)

Lemma rev_app_app s t : String.rev_app s t = String.rev_app s "" +:+ t.
Proof.
  revert t. induction s as [|c s IH]; intros t; [done|]. cbn [String.rev_app].
  rewrite IH, (IH (String c "")), str_app_assoc. done.
Qed.

Lemma rev_cons c s : String.rev (String c s) = String.rev s +:+ String c "".
Proof. unfold String.rev. cbn [String.rev_app]. apply rev_app_app. Qed.

Lemma rev_snoc s c : String.rev (s +:+ String c "") = String c (String.rev s).
Proof. induction s as [|d s IH]; [done|]. cbn [String.append]. by rewrite rev_cons, IH, rev_cons. Qed.

Lemma rev_rev s : String.rev (String.rev s) = s.
Proof. induction s as [|c s IH]; [done|]. by rewrite rev_cons, rev_snoc, IH. Qed.

Lemma str_forall_rev p s : str_forall p (String.rev s) = str_forall p s.
Proof.
  induction s as [|c s IH]; [done|]. rewrite rev_cons, str_forall_app, IH. cbn.
  by rewrite andb_true_r, andb_comm.
Qed.

(** No pattern of a list applies to a text whose first character starts none. *)
Lemma strip_any_none ps (q : ascii -> bool) c s :
  forallb (fun p => match p with "" => false | String a _ => negb (q a) end) ps = true ->
  q c = true -> strip_any ps (String c s) = None.
Proof.
  induction ps as [|[|a p] ps IH]; cbn; [done|done|]. intros [Ha Hps]%andb_true_iff Hc.
  rewrite bool_decide_eq_false_2; [by apply IH|]. intros ->. by rewrite Hc in Ha.
Qed.

Lemma trim_go_none ps q fuel s :
  forallb (fun p => match p with "" => false | String a _ => negb (q a) end) ps = true ->
  str_forall q s = true -> trim_go fuel ps s = s.
Proof.
  intros Hps Hs. destruct fuel as [|fuel]; [done|]. destruct s as [|c s].
  - assert (E : strip_any ps "" = None).
    { clear Hs. induction ps as [|[|a p] ps IH]; cbn in *; [done|done|].
      apply andb_true_iff in Hps as [_ Hps]. by apply IH. }
    cbn [trim_go]. by rewrite E.
  - cbn in Hs. apply andb_true_iff in Hs as [Hc _]. cbn [trim_go].
    by rewrite (strip_any_none ps q).
Qed.

Lemma trim_unchanged q s :
  forallb (fun p => match p with "" => false | String a _ => negb (q a) end)
    (str_of_bytes <$> WHITE_SPACE) = true ->
  forallb (fun p => match p with "" => false | String a _ => negb (q a) end)
    ((fun w => str_of_bytes (rev w)) <$> WHITE_SPACE) = true ->
  str_forall q s = true -> trim s = s.
Proof.
  intros H1 H2 Hs. unfold trim, trim_end, trim_start. rewrite (trim_go_none _ q _ s) by done.
  rewrite (trim_go_none _ q); [apply rev_rev|done|by rewrite str_forall_rev].
Qed.

Lemma trim_digits s : str_forall is_ascii_digit s = true -> trim s = s.
Proof. apply trim_unchanged; by vm_compute. Qed.

Lemma trim_base64url s : str_forall is_base64url_char s = true -> trim s = s.
Proof. apply trim_unchanged; by vm_compute. Qed.

(** *** Constant-time equality *)

Lemma ct_fold_eq a b diff :
  length a = length b ->
  fold_left (fun diff '(x, y) => Z.lor diff (Z.lxor x y)) (zip a b) diff = 0
  <-> diff = 0 /\ a = b.
Proof.
  revert b diff. induction a as [|x a IH]; intros [|y b] diff Hl; try done; cbn.
  - naive_solver.
  - rewrite IH by (cbn in Hl; lia). rewrite Z.lor_eq_0_iff, Z.lxor_eq_0_iff. naive_solver.
Qed.

Lemma ct_eq_spec a b : ct_eq a b = true <-> a = b.
Proof.
  unfold ct_eq. destruct (Nat.eqb_spec (length a) (length b)) as [Hl|Hl]; cbn [negb].
  - rewrite Z.eqb_eq, ct_fold_eq by done. naive_solver.
  - split; [done|]. by intros ->.
Qed.

(** *** TOTP *)

(** A scan that keeps the last hit. *)
Lemma fold_last {A} (P : A -> Prop) (f : option A -> A -> option A) l found :
  (forall found c, (P c /\ f found c = Some c) \/ (~ P c /\ f found c = found)) ->
  fold_left f l found = found /\ (forall c, c ∈ l -> ~ P c)
  \/ exists c, fold_left f l found = Some c /\ c ∈ l /\ P c.
Proof.
  intros Hf. revert found. induction l as [|c l IH]; intros found.
  { left. split; [done|]. by intros c ?%elem_of_nil. }
  cbn [fold_left]. destruct (Hf found c) as [[Hc ->]|[Hc ->]].
  - right. destruct (IH (Some c)) as [[-> _]|(c' & -> & Hin & Hc')]; [exists c|exists c'];
      rewrite elem_of_cons; auto.
  - destruct (IH found) as [[-> Hn]|(c' & -> & Hin & Hc')]; [left|right; exists c'];
      [split; [done|]; intros c' [->|?]%elem_of_cons; auto|rewrite elem_of_cons; auto].
Qed.

Section TotpLemmas.
Context `{DataEncoding, FactorCryptoLaws}.

Lemma zeros_digits n : str_forall is_ascii_digit (zeros n) = true.
Proof. by induction n. Qed.
Lemma zeros_length n : String.length (zeros n) = n.
Proof. induction n; cbn; congruence. Qed.

Lemma dec_small_length n : 0 <= n < 10 ^ 6 -> (String.length (dec_u64 n) <= 6)%nat.
Proof.
  intros Hn. assert (Hgen : forall fuel k m acc, 0 <= m < 10 ^ Z.of_nat k -> (0 < k)%nat ->
    (String.length (dec_digits fuel m acc) <= k + String.length acc)%nat).
  { clear. induction fuel as [|fuel IH]; intros k m acc Hm Hk; cbn [dec_digits]; [lia|].
    destruct (m / 10 =? 0) eqn:E; bool_prop; [cbn; lia|].
    destruct k as [|k]; [lia|]. rewrite Nat2Z.inj_succ, Z.pow_succ_r in Hm by lia.
    assert (0 <= m / 10 < 10 ^ Z.of_nat k)
      by (split; [apply Z.div_pos; lia|apply Z.div_lt_upper_bound; lia]).
    destruct k as [|k]; [cbn in *; lia|].
    etransitivity; [apply (IH (S k)); [done|lia]|]. cbn. lia. }
  pose proof (Hgen 20%nat 6%nat n "" ltac:(done) ltac:(lia)) as Hl. cbn [String.length] in Hl.
  unfold dec_u64. lia.
Qed.

Lemma code_at_shape secret counter :
  str_len (code_at secret counter) = Z.of_nat DIGITS
  /\ str_forall is_ascii_digit (code_at secret counter) = true.
Proof.
  unfold code_at, zero_padded. set (n := _ mod _).
  assert (Hn : 0 <= n < 10 ^ 6) by (apply Z.mod_pos_bound; lia).
  unfold str_len. rewrite str_length_app, zeros_length, str_forall_app, zeros_digits.
  pose proof (dec_small_length n Hn). unfold DIGITS. split; [lia|].
  apply dec_u64_digits. lia.
Qed.

Lemma try_counter_spec secret code found c :
  (code_at secret c = code /\ try_counter secret code found c = Some c)
  \/ (code_at secret c <> code /\ try_counter secret code found c = found).
Proof.
  unfold try_counter. destruct (ct_eq _ _) eqn:E; [left|right]; (split; [|done]).
  - by apply ct_eq_spec, as_bytes_inj in E.
  - intros Heq. rewrite Heq in E. by rewrite (proj2 (ct_eq_spec _ _) eq_refl) in E.
Qed.

Lemma matches_fold secret code l :
  fold_left (try_counter secret code) l None = None /\ (forall c, c ∈ l -> code_at secret c <> code)
  \/ exists c, fold_left (try_counter secret code) l None = Some c
       /\ c ∈ l /\ code_at secret c = code.
Proof.
  apply (fold_last (fun c => code_at secret c = code)). intros. apply try_counter_spec.
Qed.

(** A match names a counter within one step of now whose code was typed. *)
Lemma matches_sound secret code now c :
  matches secret code now 1 = Some c ->
  counter_at now - 1 <= c <= counter_at now + 1 /\ code_at secret c = trim code.
Proof.
  unfold matches. destruct (_ || _); [done|]. set (l := seqZ _ _).
  destruct (matches_fold secret (trim code) l) as [[-> _]|(c' & -> & Hin & Hc)]; [done|].
  intros [= <-]. split; [|done]. subst l. apply elem_of_seqZ in Hin.
  unfold saturating_sub64, saturating_add64 in Hin. lia.
Qed.

Lemma matches_complete secret now c :
  0 <= c -> counter_at now - 1 <= c <= counter_at now + 1 -> counter_at now < u64_max ->
  exists c', matches secret (code_at secret c) now 1 = Some c'
    /\ code_at secret c' = code_at secret c.
Proof.
  intros Hpos Hc Hmax. unfold matches. destruct (code_at_shape secret c) as [Hl Hd].
  rewrite trim_digits by done. rewrite Hl, Hd, Z.eqb_refl. cbn [negb orb].
  set (l := seqZ _ _).
  destruct (matches_fold secret (code_at secret c) l) as [[-> Hn]|(c' & -> & _ & Hc')];
    [|eauto].
  exfalso. apply (Hn c); [|done]. subst l. apply elem_of_seqZ.
  unfold saturating_sub64, saturating_add64. lia.
Qed.
End TotpLemmas.

(** *** The kinds of a model *)

Lemma elem_of_of_kind `{DataEncoding, FactorCrypto} {A} (f : Authenticator -> option A) m id x :
  (id, x) ∈ of_kind f m <-> exists a, authenticators m !! id = Some a /\ f a = Some x.
Proof.
  unfold of_kind. rewrite list_elem_of_omap. split.
  - intros ([k a] & Hin & Hf). apply elem_of_btree_iter in Hin.
    destruct (f a) eqn:Hfa; cbn in Hf; [|done]. simplify_eq. eauto.
  - intros (a & Ha & Hf). exists (id, a). rewrite elem_of_btree_iter. by rewrite Hf.
Qed.

(** ** Properties *)

(** An authenticator app's code works: within one 30-second step of the
    server's clock, in either direction, the code of the step is recognised;
    and a recognised code is always the six-digit code of a step within one
    of now. *)
Theorem totp_window_exact `{DataEncoding, FactorCryptoLaws} (secret : list Z) (now : SystemTime)
    (Hclock : 0 <= now < CLOCK_END) :
  (forall c, 0 <= c -> counter_at now - 1 <= c <= counter_at now + 1 ->
     exists c', matches secret (code_at secret c) now 1 = Some c'
       /\ code_at secret c' = code_at secret c)
  /\ (forall code c, matches secret code now 1 = Some c ->
        counter_at now - 1 <= c <= counter_at now + 1 /\ code_at secret c = trim code
        /\ str_len (trim code) = 6).
Proof.
  split.
  - intros c H0' Hc. apply matches_complete; [done|done|]. unfold counter_at, STEP_SECS.
    pose proof (epoch_secs_u64 now Hclock) as Hu. unfold is_u64, u64_max in *.
    apply Z.div_lt_upper_bound; lia.
  - intros code c [Hw Hc]%matches_sound. split; [done|]. split; [done|].
    rewrite <-Hc. apply code_at_shape.
Qed.
