(* ===== verification/Ledgers.v ===== *)
(** * Ledgers: the two anti-replay records of the proof factors

    The single-use ledger of daemon/src/totp_ledger.rs and the counter ledger
    of daemon/src/fido2_counters.rs.  Each is a file of its own, read,
    changed and replaced under a lock; every attempt at an I/O may fail, and
    a failed write leaves the old file. *)

From S2P Require Import Prelude Text Clock External.

Definition RETAIN_SECS : Z := 600.
Definition LEDGER_VERSION : Z := 1.

Record Entry := { authenticator : string; counter : Z; at_ : Z }.
Record TotpDoc := { td_version : Z; consumed : list Entry }.
Record CountersDoc := { cd_version : Z; counters : gmap string Z }.

#[export] Instance Entry_eq_dec : EqDecision Entry.
Proof. solve_decision. Defined.

(** What a path holds: nothing, text that does not parse, or a document. *)
Inductive LedgerFile (D : Type) := Absent | Corrupt | Present (doc : D).
Arguments Absent {D}.
Arguments Corrupt {D}.
Arguments Present {D} doc.

Inductive IoError := IoFailed | InvalidData.

Inductive CounterVerdict := CvOk | CvRegressed.

Record Ledgers := {
  totp_file : LedgerFile TotpDoc;
  counters_file : LedgerFile CountersDoc;
  attempts : nat;
}.

Definition LM (A : Type) : Type := Ledgers -> Ledgers * result IoError A.
Definition lret {A} (a : A) : LM A := fun l => (l, Ok a).
Definition lfail {A} (e : IoError) : LM A := fun l => (l, Err e).
Definition lbind {A B} (m : LM A) (k : A -> LM B) : LM B := fun l =>
  match m l with
  | (l', Ok a) => k a l'
  | (l', Err e) => (l', Err e)
  end.
Notation "'let*' x ':=' m 'in' k" := (lbind m (fun x => k))
  (at level 200, x binder, m at level 100, k at level 200) : lychgate_scope.

Section Ledger.
Context `{DataEncoding} (io_ok : nat -> bool).

Definition attempt : LM unit := fun l =>
  ({| totp_file := totp_file l; counters_file := counters_file l; attempts := S (attempts l) |},
   if io_ok (attempts l) then Ok tt else Err IoFailed).

(** *** The TOTP ledger *)

Definition totp_read : LM TotpDoc :=
  let* _ := attempt in
  fun l =>
    match totp_file l with
    | Absent => (l, Ok {| td_version := LEDGER_VERSION; consumed := [] |})
    | Corrupt => (l, Err InvalidData)
    | Present doc =>
        (l, if negb (td_version doc =? LEDGER_VERSION) then Err InvalidData else Ok doc)
    end.

Definition totp_write (doc : TotpDoc) : LM unit :=
  let* _ := attempt in
  fun l => ({| totp_file := Present doc; counters_file := counters_file l;
               attempts := attempts l |}, Ok tt).

Definition kept (now_secs : Z) (e : Entry) : bool :=
  saturating_sub64 now_secs (at_ e) <=? RETAIN_SECS.

Definition spends (id : string) (c : Z) (e : Entry) : bool :=
  bool_decide (authenticator e = id) && (counter e =? c).

Definition consume (id : string) (c : Z) (now : SystemTime) : LM bool :=
  let* _ := attempt in
  let* doc := totp_read in
  let now_secs := epoch_secs now in
  let live := List.filter (kept now_secs) (consumed doc) in
  if existsb (spends id c) live then
    let* _ := totp_write {| td_version := td_version doc; consumed := live |} in lret false
  else
    let* _ := totp_write {| td_version := td_version doc;
      consumed := live ++ [{| authenticator := id; counter := c; at_ := now_secs |}] |} in
    lret true.

(** *** The counter ledger *)

Definition counters_read : LM CountersDoc :=
  let* _ := attempt in
  fun l =>
    match counters_file l with
    | Absent => (l, Ok {| cd_version := LEDGER_VERSION; counters := ∅ |})
    | Corrupt => (l, Err InvalidData)
    | Present doc =>
        (l, if negb (cd_version doc =? LEDGER_VERSION) then Err InvalidData else Ok doc)
    end.

Definition counters_write (doc : CountersDoc) : LM unit :=
  let* _ := attempt in
  fun l => ({| totp_file := totp_file l; counters_file := Present doc;
               attempts := attempts l |}, Ok tt).

Definition observe (credential_id : list Z) (c : Z) : LM CounterVerdict :=
  let key := base64url_encode credential_id in
  let* _ := attempt in
  let* doc := counters_read in
  let stored := default 0 (counters doc !! key) in
  if (0 <? stored) && (c <=? stored) then lret CvRegressed
  else if 0 <? c then
    let* _ := counters_write {| cd_version := cd_version doc;
                                counters := <[key := c]> (counters doc) |} in
    lret CvOk
  else lret CvOk.
End Ledger.

(** ** What the files record *)

Definition spent (l : Ledgers) : list Entry :=
  match totp_file l with Present doc => consumed doc | _ => [] end.

Definition mark_of `{DataEncoding} (l : Ledgers) (credential_id : list Z) : Z :=
  match counters_file l with
  | Present doc => default 0 (counters doc !! base64url_encode credential_id)
  | _ => 0
  end.

Section LedgerLemmas.
Context `{DataEncoding} (io_ok : nat -> bool).

(** Consuming touches only the TOTP file: it keeps every live entry, accepts
    only a pair that is not recorded live, and then records it. *)
Lemma consume_spec id c now l l' r :
  consume io_ok id c now l = (l', r) ->
  counters_file l' = counters_file l
  /\ (forall e, e ∈ spent l -> kept (epoch_secs now) e = true -> e ∈ spent l')
  /\ (r = Ok true ->
        {| authenticator := id; counter := c; at_ := epoch_secs now |} ∈ spent l'
        /\ forall e, e ∈ spent l -> kept (epoch_secs now) e = true -> spends id c e = false).
Proof.
  unfold consume, lbind, attempt, totp_read, totp_write, lret. unfold lbind, attempt. cbn.
  assert (Hsame : forall n, counters_file l = counters_file l
    /\ (forall e, e ∈ spent l -> kept (epoch_secs now) e = true ->
          e ∈ spent {| totp_file := totp_file l; counters_file := counters_file l; attempts := n |}))
    by done.
  destruct (io_ok (attempts l)); [|by intros [= <- <-]].
  destruct (io_ok (S (attempts l))); [|by intros [= <- <-]].
  destruct (totp_file l) as [| |doc] eqn:Hf; cbn [totp_file].
  - cbn. destruct (io_ok (S (S (attempts l)))); intros [= <- <-]; unfold spent in *; cbn;
      rewrite Hf; (split; [done|]); (split; [by intros e ?%elem_of_nil|]); [|done].
    intros _. split; [by apply list_elem_of_singleton|by intros e ?%elem_of_nil].
  - intros [= <- <-]. unfold spent; cbn; rewrite Hf. by auto.
  - destruct (_ =? LEDGER_VERSION); cbn; [|intros [= <- <-]; unfold spent; cbn; rewrite Hf; by auto].
    assert (Hk : forall e, e ∈ consumed doc -> kept (epoch_secs now) e = true ->
      e ∈ List.filter (kept (epoch_secs now)) (consumed doc)).
    { intros e. rewrite !list_elem_of_In, filter_In. auto. }
    destruct (existsb _ _) eqn:Hx; cbn; destruct (io_ok (S (S (attempts l))));
      intros [= <- <-]; unfold spent in *; cbn in *; rewrite Hf in *; try by auto.
    split; [done|]. split; [intros; apply elem_of_app; auto|]. intros _.
    split; [apply elem_of_app; right; by apply list_elem_of_singleton|].
    intros e He Hke. destruct (spends id c e) eqn:Es; [|done].
    rewrite <-Hx. symmetry. apply existsb_exists. exists e.
    split; [apply list_elem_of_In, Hk; done|done].
Qed.

(** Closes an outcome that wrote nothing. *)
Ltac unchanged :=
  split; [done|]; split; [|done]; intros; unfold mark_of; cbn;
  repeat match goal with H : counters_file _ = _ |- _ => rewrite H end; lia.

(** Observing touches only the counter file; the mark never decreases, and
    an accepted counter passes it or both are zero. *)
Lemma observe_spec cred c l l' r :
  0 <= c -> (forall cred, 0 <= mark_of l cred) ->
  observe io_ok cred c l = (l', r) ->
  totp_file l' = totp_file l
  /\ (forall cred', mark_of l cred' <= mark_of l' cred')
  /\ (r = Ok CvOk -> c <= mark_of l' cred /\ (mark_of l cred < c \/ (mark_of l cred = 0 /\ c = 0))).
Proof.
  intros Hc Hpos. unfold observe, lbind, attempt, counters_read, counters_write, lret.
  unfold lbind, attempt. cbn.
  destruct (io_ok (attempts l)); [|intros [= <- <-]; unchanged].
  destruct (io_ok (S (attempts l))); [|intros [= <- <-]; unchanged].
  pose proof (Hpos cred) as Hp. unfold mark_of in Hp.
  destruct (counters_file l) as [| |doc] eqn:Hf; cbn [counters_file].
  - cbn. rewrite lookup_empty. cbn. destruct (0 <? c) eqn:E0; cbn; bool_prop.
    + destruct (io_ok _); intros [= <- <-]; cbn; [|unchanged].
      unfold mark_of. rewrite Hf. cbn. rewrite lookup_insert_eq. cbn.
      split; [done|]. split; [|intros _; lia]. intros cred'.
      destruct (decide (base64url_encode cred = base64url_encode cred')) as [->|Hne];
        [rewrite lookup_insert_eq; cbn; lia|rewrite lookup_insert_ne, lookup_empty by done; cbn; lia].
    + intros [= <- <-]. unfold mark_of. cbn. rewrite Hf. split; [done|]. split; [lia|]. intros _. lia.
  - intros [= <- <-]. unchanged.
  - destruct (_ =? LEDGER_VERSION); cbn; [|intros [= <- <-]; unchanged].
    set (stored := default 0 _) in *.
    destruct ((0 <? stored) && (c <=? stored)) eqn:E1; cbn; [intros [= <- <-]; unchanged|].
    apply andb_false_iff in E1. rewrite Z.ltb_ge, Z.leb_gt in E1.
    destruct (0 <? c) eqn:E0; cbn; bool_prop.
    + destruct (io_ok _); intros [= <- <-]; cbn; [|unchanged].
      unfold mark_of. rewrite Hf. cbn. rewrite lookup_insert_eq. cbn. fold stored.
      split; [done|]. split; [|intros _; lia]. intros cred'.
      destruct (decide (base64url_encode cred = base64url_encode cred')) as [E|Hne].
      * rewrite <-E, lookup_insert_eq. cbn. fold stored. lia.
      * rewrite lookup_insert_ne by done. lia.
    + intros [= <- <-]. unfold mark_of. cbn. rewrite Hf. fold stored.
      split; [done|]. split; [intros; lia|]. intros _. lia.
Qed.

Lemma observe_nonneg cred c l :
  0 <= c -> (forall cred, 0 <= mark_of l cred) ->
  forall cred', 0 <= mark_of (observe io_ok cred c l).1 cred'.
Proof.
  intros Hc Hpos cred'. destruct (observe io_ok cred c l) as [l' r] eqn:E.
  destruct (observe_spec _ _ _ _ _ Hc Hpos E) as (_ & Hm & _). cbn.
  specialize (Hm cred'). specialize (Hpos cred'). lia.
Qed.
End LedgerLemmas.
