(* ===== verification/Inventory.v ===== *)
(** * Inventory: the host inventory (core/src/inventory.rs), its data

    The configuration types with the fields the daemon reads.  TOML decoding
    is serde's; the values here are what it produces. *)

From S2P Require Import Prelude Text Clock Ttl External Authority.

Inductive Os := Freebsd | Linux | Embedded.

Inductive Channel :=
| Ssh | AuthorizedKeys | Bmc | Vnc | Http | Mqtt | Serial | Device.

#[export] Instance Os_eq_dec : EqDecision Os.
Proof. solve_decision. Defined.
#[export] Instance Channel_eq_dec : EqDecision Channel.
Proof. solve_decision. Defined.

(** [ssh::Posture]. *)
Inductive Posture := PNo | PProhibitPassword | PYes.
#[export] Instance Posture_eq_dec : EqDecision Posture.
Proof. solve_decision. Defined.

Record HostAccess := {
  access_profiles : list string;
  access_overrides : gmap string AuthorityBody;
}.

Inductive BmcMethod := Redfish | Racadm | Ipmitool.
#[export] Instance BmcMethod_eq_dec : EqDecision BmcMethod.
Proof. solve_decision. Defined.

Inductive BmcTls := CaFile (path : string) | Insecure.

Record BmcConfig := {
  bmc_endpoint : string;
  bmc_method : BmcMethod;
  bmc_account_user : string;
  bmc_account_id : string;
  bmc_auth_user : string;
  bmc_auth_password_file : string;
  bmc_tls : BmcTls;
}.

Inductive VerifyMode (T : Type) := VNone (s : string) | Probe (t : T).
Arguments VNone {T} s.
Arguments Probe {T} t.

Record HttpRequestSpec := {
  hr_method : string;
  hr_path : string;
  hr_body : option string;
  hr_expect_status : Z;
}.
Record HttpVerifySpec := {
  hv_method : string;
  hv_path : string;
  hv_expect_status : Z;
  hv_open_marker : string;
  hv_closed_marker : string;
}.
Record HttpConfig := {
  http_endpoint : string;
  http_tls : BmcTls;
  http_auth_user : option string;
  http_auth_password_file : option string;
  http_open : HttpRequestSpec;
  http_revert : HttpRequestSpec;
  http_verify : VerifyMode HttpVerifySpec;
}.

Inductive MqttAuth :=
| TlsClientCert (certfile keyfile cafile : string)
| MqttPassword (username : string).
Record MqttMessageSpec := { mm_topic : string; mm_payload : string }.
Record MqttVerifySpec := {
  mv_topic : string;
  mv_open_marker : string;
  mv_closed_marker : string;
  mv_timeout_secs : Z;
}.
Record MqttConfig := {
  mqtt_broker : string;
  mqtt_client_id : option string;
  mqtt_auth : option MqttAuth;
  mqtt_open : MqttMessageSpec;
  mqtt_revert : MqttMessageSpec;
  mqtt_verify : VerifyMode MqttVerifySpec;
}.

Record SerialCmdSpec := { sc_send : string; sc_expect : string }.
Record SerialVerifySpec := {
  sv_send : string;
  sv_open_marker : string;
  sv_closed_marker : string;
}.
Record SerialConfig := {
  serial_device : string;
  serial_baud : option Z;
  serial_timeout_secs : Z;
  serial_open : SerialCmdSpec;
  serial_revert : SerialCmdSpec;
  serial_verify : VerifyMode SerialVerifySpec;
}.

Record SigningSpec := { key_file : option string; p256_key_file : option string }.

Inductive DeviceAlg := AlgEd25519 | AlgP256.
Inductive DeviceTransportKind := TransportHttp | TransportMqtt | TransportSerial.
#[export] Instance DeviceTransportKind_eq_dec : EqDecision DeviceTransportKind.
Proof. solve_decision. Defined.

Record DeviceSerial := {
  ds_device : string;
  ds_baud : option Z;
  ds_timeout_secs : Z;
}.
Record DeviceHttp := {
  dh_endpoint : string;
  dh_tls : BmcTls;
  dh_auth_user : option string;
  dh_auth_password_file : option string;
}.
Record DeviceMqtt := {
  dm_broker : string;
  dm_client_id : option string;
  dm_auth : option MqttAuth;
  dm_cmd_topic : string;
  dm_reply_topic : string;
  dm_timeout_secs : Z;
}.
Inductive FailStatePolicy := PolicyEnergized | PolicyDeEnergized.
Record ActuatorSpec := { fail_state : FailStatePolicy; current_sense : bool }.
Record DeviceConfig := {
  device_id : string;
  device_alg : DeviceAlg;
  device_capability : Z;
  device_transport : DeviceTransportKind;
  device_http : option DeviceHttp;
  device_mqtt : option DeviceMqtt;
  device_serial : option DeviceSerial;
  device_actuator : option ActuatorSpec;
}.

Record SshConfig := {
  ssh_agent_user : string;
  ssh_port : Z;
  root_posture_default : Posture;
  root_posture_emergency : Posture;
  authorized_keys_path : string;
  emergency_keys : list string;
  ssh_identity_file : option string;
  ssh_become_cmd : option string;
  reload_cmd : option string;
  dropin_path : option string;
}.

Record VncConfig := {
  vnc_agent_user : string;
  vnc_port : Z;
  vnc_identity_file : option string;
  vnc_become_cmd : option string;
  rfb_host : string;
  rfb_port : Z;
  local_port : Z;
  vnc_target : string;
  set_password_cmd : string;
  clear_password_cmd : string;
  password_len : Z;
  password_file : option string;
}.

Record Host := {
  name : string;
  address : string;
  os : Os;
  channels : list Channel;
  ssh : option SshConfig;
  bmc : option BmcConfig;
  vnc : option VncConfig;
  http : option HttpConfig;
  mqtt : option MqttConfig;
  serial : option SerialConfig;
  device : option DeviceConfig;
  access : option HostAccess;
  drill : bool;
}.

Record Inventory := {
  hosts : list Host;
  signing : option SigningSpec;
  approval : option ApprovalSpec;
}.
