(* ===== verification/TextLines.v ===== *)
(** * TextLines: [str::lines] and the text files the drivers edit

    [str::lines] splits at line feeds and drops one carriage return before
    each; a file is written back by joining with line feeds.  The lemmas say
    what survives the trip. *)

From S2P Require Import Prelude Text.

Definition LF : ascii := "010"%char.
Definition CR : ascii := "013"%char.
Definition nl : string := String LF "".

Definition strip_cr (l : string) : string :=
  match strip_suffix_char CR l with Some l' => l' | None => l end.

(** The pieces between line feeds: all but the last were terminated, and an
    empty last piece is no line. *)
Fixpoint line_pieces (ps : list string) : list string :=
  match ps with
  | [] => []
  | [last] => if str_is_empty last then [] else [last]
  | p :: ps => strip_cr p :: line_pieces ps
  end.

(** [str::lines]. *)
Definition lines (s : string) : list string := line_pieces (split LF s).

(** [.join("\n")]. *)
Fixpoint join_nl (ls : list string) : string :=
  match ls with
  | [] => ""
  | [l] => l
  | l :: ls => l +:+ String LF (join_nl ls)
  end.

(** Every line with its line feed. *)
Fixpoint unlines (ls : list string) : string :=
  match ls with [] => "" | l :: ls => l +:+ String LF (unlines ls) end.

(** ** Reading back what was written *)

Definition without (c : ascii) (s : string) : bool :=
  str_forall (fun a => negb (bool_decide (a = c))) s.

(** A line as [lines] may yield it and keep it. *)
Definition clean (l : string) : Prop := without LF l = true /\ strip_cr l = l.

(** Text whose only line terminator is the line feed. *)
Definition unix (s : string) : Prop := without CR s = true.

(** [str::from_utf8]: the well-formed sequences of the Unicode
    standard (no overlong form, no surrogate, nothing above U+10FFFF). *)
Fixpoint utf8_valid (bs : list Z) : bool :=
  let cont b := (0x80 <=? b) && (b <=? 0xbf) in
  match bs with
  | [] => true
  | b0 :: rest =>
      if b0 <=? 0x7f then utf8_valid rest
      else if (0xc2 <=? b0) && (b0 <=? 0xdf) then
        match rest with b1 :: rest => cont b1 && utf8_valid rest | _ => false end
      else if (0xe0 <=? b0) && (b0 <=? 0xef) then
        match rest with
        | b1 :: b2 :: rest =>
            ((if b0 =? 0xe0 then 0xa0 else 0x80) <=? b1)
            && (b1 <=? (if b0 =? 0xed then 0x9f else 0xbf)) && cont b2 && utf8_valid rest
        | _ => false
        end
      else if (0xf0 <=? b0) && (b0 <=? 0xf4) then
        match rest with
        | b1 :: b2 :: b3 :: rest =>
            ((if b0 =? 0xf0 then 0x90 else 0x80) <=? b1)
            && (b1 <=? (if b0 =? 0xf4 then 0x8f else 0xbf)) && cont b2 && cont b3 && utf8_valid rest
        | _ => false
        end
      else false
  end.

Fixpoint ends_lf (s : string) : bool :=
  match s with
  | "" => false
  | String a "" => bool_decide (a = LF)
  | String _ s' => ends_lf s'
  end.

(** The text with its last line terminated. *)
Definition terminate (s : string) : string :=
  if str_is_empty s || ends_lf s then s else s +:+ nl.

Lemma without_app c s t : without c (s +:+ t) = without c s && without c t.
Proof. apply str_forall_app. Qed.

Lemma contains_char_without c s : contains_char c s = negb (without c s).
Proof. done. Qed.

Lemma join_nl_unlines ls : ls <> [] -> join_nl ls +:+ nl = unlines ls.
Proof.
  induction ls as [|l [|l' ls] IH]; intros Hne; [done|done|].
  change (join_nl (l :: l' :: ls)) with (l +:+ String LF (join_nl (l' :: ls))).
  rewrite str_app_assoc. cbn. cbn in IH. by rewrite <-IH.
Qed.

Lemma unlines_app l1 l2 : unlines (l1 ++ l2) = unlines l1 +:+ unlines l2.
Proof. induction l1 as [|l l1 IH]; cbn; [done|]. rewrite IH. by rewrite str_app_assoc. Qed.

Lemma split_go_app c w r :
  without c w = true -> split_go c (w +:+ String c r) = (w, split c r).
Proof.
  induction w as [|a w IH]; cbn.
  - unfold split. destruct (split_go c r). intros _. by rewrite bool_decide_eq_true_2.
  - intros [Ha Hw]%andb_true_iff. rewrite (IH Hw). by rewrite (proj1 (negb_true_iff _) Ha).
Qed.

Lemma split_app_sep c w r : without c w = true -> split c (w +:+ String c r) = w :: split c r.
Proof. intros Hw. unfold split at 1. by rewrite split_go_app. Qed.

Lemma split_not_nil c s : split c s <> [].
Proof. unfold split. by destruct (split_go c s). Qed.

Lemma line_pieces_cons p ps : ps <> [] -> line_pieces (p :: ps) = strip_cr p :: line_pieces ps.
Proof. by destruct ps. Qed.

Lemma lines_cons l s : clean l -> lines (l +:+ String LF s) = l :: lines s.
Proof.
  intros [Hl Hc]. unfold lines. rewrite split_app_sep by done.
  rewrite line_pieces_cons by apply split_not_nil. by rewrite Hc.
Qed.

Lemma lines_unlines_app ls s : Forall clean ls -> lines (unlines ls +:+ s) = ls ++ lines s.
Proof.
  induction 1 as [|l ls Hl _ IH]; [done|]. cbn. rewrite str_app_assoc. cbn.
  rewrite lines_cons by done. by rewrite IH.
Qed.

Lemma lines_unlines ls : Forall clean ls -> lines (unlines ls) = ls.
Proof.
  intros Hls. rewrite <-(str_app_nil_r (unlines ls)), lines_unlines_app by done.
  apply app_nil_r.
Qed.

Lemma split_pieces c s :
  Forall (fun p => without c p = true) (split c s).
Proof.
  induction s as [|a s IH]; [by repeat constructor|]. unfold split in *. cbn.
  destruct (split_go c s) as [w ws]. apply Forall_cons in IH as [Hw Hws].
  case_bool_decide.
  - by repeat constructor.
  - constructor; [|done]. cbn. unfold without in *. cbn.
    rewrite bool_decide_eq_false_2 by done. done.
Qed.

Lemma split_keeps c p s :
  str_forall p s = true -> Forall (fun q => str_forall p q = true) (split c s).
Proof.
  induction s as [|a s IH]; [by repeat constructor|]. cbn. intros [Ha Hs]%andb_true_iff.
  specialize (IH Hs). unfold split in *. cbn.
  destruct (split_go c s) as [w ws]. apply Forall_cons in IH as [Hw Hws].
  case_bool_decide; repeat constructor; try done. cbn. by rewrite Ha.
Qed.

Lemma join_split s : join_nl (split LF s) = s.
Proof.
  induction s as [|a s IH]; [done|]. unfold split in *. cbn.
  destruct (split_go LF s) as [w ws]. case_bool_decide as Ha.
  - rewrite Ha. cbn. cbn in IH. by rewrite IH.
  - rewrite <-IH. by destruct ws.
Qed.

Lemma strip_suffix_char_without c l : without c l = true -> strip_suffix_char c l = None.
Proof.
  induction l as [|a l IH]; [done|]. intros [Ha Hl]%andb_true_iff. cbn.
  destruct l; [by rewrite (proj1 (negb_true_iff _) Ha)|]. by rewrite (IH Hl).
Qed.

Lemma strip_cr_unix l : unix l -> strip_cr l = l.
Proof. intros Hl. unfold strip_cr. by rewrite strip_suffix_char_without. Qed.

Lemma line_pieces_forall (P : string -> Prop) ps :
  Forall P ps -> (forall p, P p -> strip_cr p = p) -> Forall P (line_pieces ps).
Proof.
  intros Hps Hs. induction Hps as [|p ps Hp Hps IH]; [constructor|].
  destruct ps as [|q ps].
  - cbn. destruct (str_is_empty p); by repeat constructor.
  - rewrite line_pieces_cons by done. rewrite (Hs _ Hp). by constructor.
Qed.

(** The lines of a unix text are kept by another pass. *)
Lemma lines_clean s : unix s -> Forall clean (lines s).
Proof.
  intros Hs.
  assert (Hp : Forall (fun p => without LF p = true /\ unix p) (split LF s)).
  { apply Forall_and. split; [apply split_pieces|]. by apply split_keeps. }
  apply line_pieces_forall in Hp; [|by intros p [_ ?%strip_cr_unix]].
  eapply Forall_impl; [exact Hp|]. intros l [? ?]. split; [done|]. by apply strip_cr_unix.
Qed.

Lemma lines_unix s : unix s -> Forall unix (lines s).
Proof.
  intros Hs. apply line_pieces_forall; [by apply split_keeps|]. apply strip_cr_unix.
Qed.

Lemma without_ends_lf s : without LF s = true -> ends_lf s = false.
Proof.
  induction s as [|a s IH]; [done|]. intros [Ha Hs]%andb_true_iff. cbn.
  destruct s; [|by apply IH]. by apply negb_true_iff.
Qed.

Lemma ends_lf_app u t : t <> "" -> ends_lf (u +:+ t) = ends_lf t.
Proof.
  intros Ht. induction u as [|a u IH]; [done|]. cbn.
  destruct (u +:+ t) as [|b v] eqn:E; [|done]. exfalso. by destruct u, t.
Qed.

Lemma terminate_app u t : terminate (u +:+ String LF t) = u +:+ String LF (terminate t).
Proof.
  unfold terminate. rewrite ends_lf_app by done.
  destruct (str_is_empty (u +:+ String LF t)) eqn:E; [by destruct u|]. cbn [orb].
  destruct t as [|a t]; [done|]. cbn -[ends_lf]. change (ends_lf (String LF (String a t)))
    with (ends_lf (String a t)).
  destruct (ends_lf (String a t)); [done|]. by rewrite str_app_assoc.
Qed.

(** Writing the lines of a unix text back terminates its last line and
    changes nothing else. *)
Lemma unlines_lines s : unix s -> unlines (lines s) = terminate s.
Proof.
  intros Hs. rewrite <-(join_split s) at 2. unfold lines.
  assert (Hp : Forall (fun p => without LF p = true /\ unix p) (split LF s)).
  { apply Forall_and. split; [apply split_pieces|]. by apply split_keeps. }
  induction Hp as [|p ps [Hp Hu] Hps IH]; [done|]. destruct ps as [|q ps].
  - cbn. unfold terminate. rewrite without_ends_lf by done. rewrite orb_false_r.
    destruct (str_is_empty p) eqn:E; [by destruct p|done].
  - rewrite line_pieces_cons by done. rewrite strip_cr_unix by done.
    change (join_nl (p :: q :: ps)) with (p +:+ String LF (join_nl (q :: ps))).
    rewrite terminate_app, <-IH. done.
Qed.

Lemma terminate_done s : s = "" \/ ends_lf s = true -> terminate s = s.
Proof. unfold terminate. intros [->| ->]; [done|]. by rewrite orb_true_r. Qed.
