(* ===== verification/DriverMonad.v ===== *)
(** * DriverMonad: the effects of the drivers

    A driver is written over a world (its own state and the wire to the
    targets): a state monad with an error, a panic among the errors.  The
    lemmas invert a completed run and carry a relation through one. *)

From S2P Require Import Prelude.

Section Effects.
Context {W E : Type}.

Definition eff (A : Type) : Type := W -> W * result (Fault E) A.

Definition eret {A} (a : A) : eff A := fun w => (w, Ok a).
Definition ebind {A B} (m : eff A) (k : A -> eff B) : eff B := fun w =>
  match m w with
  | (w', Ok a) => k a w'
  | (w', Err e) => (w', Err e)
  end.
Definition efail {A} (e : E) : eff A := fun w => (w, Err (Refused e)).
Definition epanic {A} : eff A := fun w => (w, Err Panic).

(** A pure result; [expect] on a value that must be there. *)
Definition elift {A} (r : result E A) : eff A := fun w => (w, map_err Refused r).
Definition eexpect {A} (o : option A) : eff A := match o with Some a => eret a | None => epanic end.
(** [ok_or]. *)
Definition esome {A} (o : option A) (e : E) : eff A :=
  match o with Some a => eret a | None => efail e end.
(** [if !cond { return Err(e); }] *)
Definition erequire (cond : bool) (e : E) : eff unit := if cond then eret tt else efail e.
End Effects.
Arguments eff : clear implicits.

Notation "'let&' x ':=' m 'in' k" := (ebind m (fun x => k))
  (at level 10, x pattern, m at level 100, k at level 200) : lychgate_scope.
Notation "m ';&' k" := (ebind m (fun _ => k)) (at level 100, k at level 200, right associativity)
  : lychgate_scope.

(** [map_err]. *)
Definition emap_err {W E F A} (f : E -> F) (m : eff W E A) : eff W F A := fun w =>
  let '(w', r) := m w in
  (w', match r with
       | Ok a => Ok a
       | Err (Refused e) => Err (Refused (f e))
       | Err Panic => Err Panic
       | Err OutOfFuel => Err OutOfFuel
       end).

(** [let _ = m]: the result is dropped; a panic still unwinds. *)
Definition eignore {W E A} (m : eff W E A) : eff W E unit := fun w =>
  let '(w', r) := m w in
  (w', match r with
       | Err Panic => Err Panic
       | Err OutOfFuel => Err OutOfFuel
       | _ => Ok tt
       end).

(** The result kept as a value, to be returned with [?] later. *)
Definition etry {W E A} (m : eff W E A) : eff W E (result E A) := fun w =>
  let '(w', r) := m w in
  (w', match r with
       | Ok a => Ok (Ok a)
       | Err (Refused e) => Ok (Err e)
       | Err Panic => Err Panic
       | Err OutOfFuel => Err OutOfFuel
       end).

(** A computation on one field of the world. *)
Definition zoom {W V E A} (get : W -> V) (put : V -> W -> W) (m : eff V E A) : eff W E A := fun w =>
  let '(v, r) := m (get w) in (put v w, r).

(** ** Completed runs *)

Lemma ebind_Ok {W E A B} (m : eff W E A) (k : A -> eff W E B) w b :
  (ebind m k w).2 = Ok b ->
  exists a, (m w).2 = Ok a /\ (k a (m w).1).2 = Ok b /\ (ebind m k w).1 = (k a (m w).1).1.
Proof. unfold ebind. destruct (m w) as [w' [a|]]; [|done]. cbn. eauto. Qed.

Lemma ebind_eq {W E A B} (m : eff W E A) (k : A -> eff W E B) w w' a :
  m w = (w', Ok a) -> ebind m k w = k a w'.
Proof. unfold ebind. by intros ->. Qed.

Lemma ebind_ret_state {W E A B} (m : eff W E A) (b : B) w :
  (ebind m (fun _ => eret b) w).1 = (m w).1.
Proof. unfold ebind. by destruct (m w) as [w' []]. Qed.

Lemma emap_err_Ok {W E F A} (f : E -> F) (m : eff W E A) w a :
  (emap_err f m w).2 = Ok a -> (m w).2 = Ok a.
Proof. unfold emap_err. destruct (m w) as [w' [|[]]]; cbn; intros; by simplify_eq. Qed.

Lemma emap_err_state {W E F A} (f : E -> F) (m : eff W E A) w : (emap_err f m w).1 = (m w).1.
Proof. unfold emap_err. by destruct (m w). Qed.

Lemma eignore_state {W E A} (m : eff W E A) w : (eignore m w).1 = (m w).1.
Proof. unfold eignore. by destruct (m w). Qed.

Lemma etry_Ok {W E A} (m : eff W E A) w r :
  (etry m w).2 = Ok r -> (m w).2 = map_err Refused r.
Proof. unfold etry. destruct (m w) as [w' [a|[e| |]]]; cbn; intros; by simplify_eq. Qed.

Lemma etry_state {W E A} (m : eff W E A) w : (etry m w).1 = (m w).1.
Proof. unfold etry. by destruct (m w). Qed.

Lemma erequire_state {W E} b (e : E) (w : W) : (erequire b e w).1 = w.
Proof. by destruct b. Qed.

Lemma erequire_Ok {W E} b (e : E) (w : W) u : (erequire b e w).2 = Ok u -> b = true.
Proof. by destruct b. Qed.

Lemma elift_Ok {W E A} (r : result E A) (w : W) a : (elift r w).2 = Ok a -> r = Ok a.
Proof. destruct r; cbn; intros; by simplify_eq. Qed.

Lemma elift_state {W E A} (r : result E A) (w : W) : (elift r w).1 = w.
Proof. by destruct r. Qed.

Lemma esome_Ok {W E A} (o : option A) (e : E) (w : W) a :
  (esome o e w).2 = Ok a -> o = Some a /\ (esome o e w).1 = w.
Proof. destruct o; cbn; intros; by simplify_eq. Qed.

Lemma esome_bind {W E A B} (a : A) (e : E) (k : A -> eff W E B) w :
  ebind (esome (Some a) e) k w = k a w.
Proof. done. Qed.

Lemma eexpect_Ok {W E A} (o : option A) (w : W) a :
  (eexpect (E := E) o w).2 = Ok a -> o = Some a /\ (eexpect (E := E) o w).1 = w.
Proof. destruct o; cbn; intros; by simplify_eq. Qed.

Lemma zoom_Ok {W V E A} (get : W -> V) put (m : eff V E A) w :
  (zoom get put m w).2 = (m (get w)).2 /\ (zoom get put m w).1 = put (m (get w)).1 w.
Proof. unfold zoom. by destruct (m (get w)). Qed.

(** ** A relation carried through a run, whatever its result *)

Definition keeps {W E A} (R : W -> W -> Prop) (m : eff W E A) : Prop := forall w, R w (m w).1.

Section Keeps.
Context {W : Type} (R : W -> W -> Prop) `{!Reflexive R, !Transitive R}.

Lemma keeps_ret {E A} (a : A) : keeps (E := E) R (eret a).
Proof. by intros w. Qed.
Lemma keeps_fail {E A} (e : E) : keeps (A := A) R (efail e).
Proof. by intros w. Qed.
Lemma keeps_panic {E A} : keeps (E := E) (A := A) R epanic.
Proof. by intros w. Qed.
Lemma keeps_lift {E A} (r : result E A) : keeps R (elift r).
Proof. by intros w. Qed.
Lemma keeps_expect {E A} (o : option A) : keeps (E := E) R (eexpect o).
Proof. by destruct o; intros w. Qed.
Lemma keeps_some {E A} (o : option A) (e : E) : keeps R (esome o e).
Proof. by destruct o; intros w. Qed.
Lemma keeps_require {E} b (e : E) : keeps R (erequire b e).
Proof. by destruct b; intros w. Qed.
Lemma keeps_bind {E A B} (m : eff W E A) (k : A -> eff W E B) :
  keeps R m -> (forall a, keeps R (k a)) -> keeps R (ebind m k).
Proof.
  intros Hm Hk w. unfold ebind. specialize (Hm w). destruct (m w) as [w' [a|]]; [|done].
  etrans; [exact Hm|apply Hk].
Qed.
Lemma keeps_map_err {E F A} (f : E -> F) (m : eff W E A) : keeps R m -> keeps R (emap_err f m).
Proof. intros Hm w. rewrite emap_err_state. apply Hm. Qed.
Lemma keeps_ignore {E A} (m : eff W E A) : keeps R m -> keeps R (eignore m).
Proof. intros Hm w. rewrite eignore_state. apply Hm. Qed.
Lemma keeps_try {E A} (m : eff W E A) : keeps R m -> keeps R (etry m).
Proof. intros Hm w. rewrite etry_state. apply Hm. Qed.
End Keeps.

Create HintDb keeps.
#[export] Hint Resolve keeps_ret keeps_fail keeps_panic keeps_lift keeps_expect keeps_some
  keeps_require keeps_map_err keeps_ignore keeps_try : keeps.

(** Split a run into its parts. *)
Ltac keeps_step :=
  lazymatch goal with
  | |- keeps _ (ebind _ _) =>
      apply keeps_bind; [typeclasses eauto|..|let x := fresh "x" in intros x]
  | |- keeps _ (etry _) => apply keeps_try
  | |- keeps _ (eignore _) => apply keeps_ignore
  | |- keeps _ (emap_err _ _) => apply keeps_map_err
  | |- keeps _ (match _ with _ => _ end) => case_goal
  | |- keeps _ _ => solve [auto with keeps typeclass_instances]
  end.
Ltac keeps := repeat keeps_step.

(** Split a completed run into its parts. *)
Ltac run_Ok H :=
  lazymatch type of H with
  | (ebind _ _ _).2 = Ok _ =>
      let a := fresh "a" in let Ha := fresh "Hrun" in let Hs := fresh "Hst" in
      apply ebind_Ok in H as (a & Ha & H & Hs)
  end.

(** ** Runs that never unwind *)

Definition no_panic {W E A} (m : eff W E A) : Prop :=
  forall w, match (m w).2 with Err Panic | Err OutOfFuel => False | _ => True end.

Section NoPanic.
Context {W E : Type}.

Lemma no_panic_bind {A B} (m : eff W E A) (k : A -> eff W E B) :
  no_panic m -> (forall a, no_panic (k a)) -> no_panic (ebind m k).
Proof.
  intros Hm Hk w. unfold ebind. specialize (Hm w). destruct (m w) as [w' [a|e]]; [apply Hk|done].
Qed.
Lemma no_panic_try {A} (m : eff W E A) : no_panic m -> no_panic (etry m).
Proof. intros Hm w. unfold etry. specialize (Hm w). by destruct (m w) as [w' [a|[]]]. Qed.
Lemma etry_returns {A} (m : eff W E A) w : no_panic m -> exists w' r, etry m w = (w', Ok r).
Proof.
  intros Hm. specialize (Hm w). unfold etry. destruct (m w) as [w' [a|[e| |]]]; by eauto.
Qed.
Lemma no_panic_ignore {A} (m : eff W E A) : no_panic m -> no_panic (eignore m).
Proof. intros Hm w. unfold eignore. specialize (Hm w). by destruct (m w) as [w' [a|[]]]. Qed.
Lemma no_panic_map_err {F A} (f : F -> E) (m : eff W F A) : no_panic m -> no_panic (emap_err f m).
Proof. intros Hm w. unfold emap_err. specialize (Hm w). by destruct (m w) as [w' [a|[]]]. Qed.
Lemma no_panic_ret {A} (a : A) : no_panic (eret (W := W) (E := E) a).
Proof. done. Qed.
Lemma no_panic_fail {A} (e : E) : no_panic (efail (W := W) (A := A) e).
Proof. done. Qed.
Lemma no_panic_require b (e : E) : no_panic (erequire (W := W) b e).
Proof. by destruct b. Qed.
Lemma no_panic_some {A} (o : option A) (e : E) : no_panic (esome (W := W) o e).
Proof. by destruct o. Qed.
Lemma no_panic_lift {A} (r : result E A) : no_panic (elift (W := W) r).
Proof. by destruct r. Qed.
Lemma no_panic_expect {A} (o : option A) : is_Some o -> no_panic (eexpect (W := W) (E := E) o).
Proof. by intros [a ->]. Qed.
End NoPanic.

Create HintDb no_panic.
#[export] Hint Resolve no_panic_ret no_panic_fail no_panic_require no_panic_some no_panic_lift
  no_panic_expect : no_panic.

Ltac no_panic_step :=
  lazymatch goal with
  | |- no_panic (ebind _ _) => apply no_panic_bind; [|let x := fresh "x" in intros x]
  | |- no_panic (etry _) => apply no_panic_try
  | |- no_panic (eignore _) => apply no_panic_ignore
  | |- no_panic (emap_err _ _) => apply no_panic_map_err
  | |- no_panic (match _ with _ => _ end) => case_goal
  | |- no_panic _ => solve [eauto with no_panic]
  end.
Ltac no_panic := repeat no_panic_step.
