(* ===== verification/Firmware.v ===== *)
(** * Firmware: the reference device (firmware/esp32c3)

    The secure element's frames (logic/src/atecc.rs), its driver
    (src/atecc.rs), and the firmware's main loop (src/main.rs) around the
    device engine: bytes in, lines assembled, replies out.  The I2C bus and
    the USB port are parameters. *)

From stdpp Require Import relations.
From S2P Require Import Prelude Text External Reference Approval Cbor Token Line P256der Crc Embed EmbedProps Factors TextLines DriverMonad.
#[local] Open Scope Z_scope.

(** ** Frames of the secure element *)

Module Atecc.
Definition WAKE_RESPONSE : list Z := [0x04; 0x11; 0x33; 0x43].
Definition OP_GENKEY : Z := 0x40.
Definition OP_NONCE : Z := 0x16.
Definition OP_SIGN : Z := 0x41.

Inductive AteccFrameError := Truncated | BadCount | BadCrc.

(** The frame written to the front of [out], a buffer of [out_len] bytes. *)
Definition build_command (opcode param1 param2 : Z) (data : list Z) (out_len : Z) : option (list Z) :=
  let count := 1 + 1 + 1 + 2 + Z.of_nat (length data) + 2 in
  if (out_len <? count) || (u8_max <? count) then None
  else
    let body := [count; opcode; param1] ++ le_bytes 2 param2 ++ data in
    Some (body ++ le_bytes 2 (crc16 body)).

Definition parse_response (frame : list Z) : result AteccFrameError (list Z) :=
  if (length frame <? 4)%nat then Err Truncated
  else
    let count := Z.to_nat (nth 0 frame 0) in
    if (count <? 4)%nat || (length frame <? count)%nat then Err BadCount
    else
      let frame := take count frame in
      let crc := from_le_bytes (drop (count - 2) frame) in
      if negb (crc16 (take (count - 2) frame) =? crc) then Err BadCrc
      else Ok (drop 1 (take (count - 2) frame)).
End Atecc.

(** ** The element's driver *)

(** [I2c]: a write and a read of a given length, each free to fail. *)
Class I2c (B : Type) := {
  i2c_write : B -> Z -> list Z -> B * bool;
  i2c_read : B -> Z -> nat -> B * option (list Z);
}.

Inductive SeError := Bus | Frame | Status (code : Z).

Definition ADDR : Z := 0x60.
Definition WORD_ADDR_COMMAND : Z := 0x03.
Definition KEY_SLOT : Z := 0.

Section Element.
Context {B : Type} `{!I2c B}.
Notation SM := (eff B SeError).

Definition bus_write (addr : Z) (bytes : list Z) : SM unit := fun b =>
  let '(b, ok) := i2c_write b addr bytes in (b, if ok then Ok tt else Err (Refused Bus)).

Definition bus_read (addr : Z) (n : nat) : SM (list Z) := fun b =>
  let '(b, r) := i2c_read b addr n in (b, ok_or r (Refused Bus)).

Definition wake : SM unit :=
  eignore (bus_write 0x00 [0x00]) ;&
  let& response := bus_read ADDR 4 in
  erequire (bool_decide (response = Atecc.WAKE_RESPONSE)) Frame.

(** The payload is what lands in [out], of [out_len] bytes. *)
Definition command (opcode param1 param2 : Z) (data : list Z) (out_len : nat) : SM (list Z) :=
  let& frame := esome (Atecc.build_command opcode param1 param2 data 96) Frame in
  bus_write ADDR (WORD_ADDR_COMMAND :: frame) ;&
  let& response := bus_read ADDR 96 in
  let& payload := elift (map_err (fun _ => Frame) (Atecc.parse_response response)) in
  match payload with
  | [code] => erequire (code =? 0) (Status code)
  | _ => eret tt
  end ;&
  erequire (length payload <=? out_len)%nat Frame ;&
  eret payload.

Definition public_key : SM (list Z) :=
  wake ;&
  let& out := command Atecc.OP_GENKEY 0x00 KEY_SLOT [] 64 in
  erequire (bool_decide (length out = 64%nat)) Frame ;&
  eret out.

Definition sign_digest (digest : list Z) : SM (list Z) :=
  wake ;&
  command Atecc.OP_NONCE 0x43 0x0000 digest 64 ;&
  let& sig := command Atecc.OP_SIGN 0x80 KEY_SLOT [] 64 in
  erequire (bool_decide (length sig = 64%nat)) Frame ;&
  eret sig.

(** ** The element's commands *)

Definition se_nak (e : SeError) : string :=
  match e with
  | Bus => "NAK se-bus"
  | Frame => "NAK se-frame"
  | Status code => "NAK se-status-" +:+ hex_nonce [code]
  end.

(** The array [hexed] of 130 bytes: two digits for each of the 64 bytes
    given, and what is left of it as it was initialized. *)
Definition hexed (xy : list Z) : string :=
  hex_nonce xy +:+ str_of_bytes (replicate (130 - 2 * length xy) 0).

(** [None] hands the line to the engine. *)
Definition se_handle `{DataEncoding, WireCrypto} (input : string) (b : B)
    : B * result (Fault SeError) (option string) :=
  let input := trim_end_matches (fun c => bool_decide (c = "013"%char \/ c = "010"%char)) input in
  if bool_decide (input = "SE-PUBKEY?") then
    let '(b, r) := etry public_key b in
    (b, let? r := r in Ok (Some (match r with
                                | Ok xy => "PUBKEY 04" +:+ hexed xy
                                | Err e => se_nak e
                                end)))
  else
    match strip_prefix "SE-SIGN " input with
    | Some challenge =>
        let '(b, r) := etry (sign_digest (sha256 (as_bytes challenge))) b in
        (b, let? r := r in
            Ok (Some (match r with
                      | Ok raw =>
                          match p256_raw_sig_to_der raw with
                          | Ok der => "SIG lgtpm." +:+ base64url_encode der
                          | Err _ => "NAK se-encoding"
                          end
                      | Err e => se_nak e
                      end)))
    | None => (b, Ok None)
    end.
End Element.

(** ** The main loop *)

Record Board (C S G B : Type) := {
  engine : DeviceEngine C S G;
  element : B;
  line_buf : list Z;
  usb_out : string;
}.
Arguments engine {C S G B}.
Arguments element {C S G B}.
Arguments line_buf {C S G B}.
Arguments usb_out {C S G B}.

Section Loop.
Context {C S G : Type} `{!UptimeClock C, !SeqStore S, !Gate G} `{DataEncoding, WireCrypto}.
Context {B : Type} `{!I2c B}.
(** Whether the build has the [se] feature. *)
Context (se : bool).
Implicit Types bd : Board C S G B.

Definition lf : string := String "010"%char "".

(** The line is answered and the buffer emptied. *)
Definition answered bd (e : DeviceEngine C S G) (b : B) (reply : string) : Board C S G B :=
  {| engine := e; element := b; line_buf := []; usb_out := usb_out bd +:+ reply +:+ lf |}.

Definition on_line bd : result (Fault SeError) (Board C S G B) :=
  if negb (utf8_valid (line_buf bd)) then
    Ok (answered bd (engine bd) (element bd) "NAK bad-command")
  else
    let input := str_of_bytes (line_buf bd) in
    let '(b, r) := if se then se_handle input (element bd) else (element bd, Ok None) in
    let? handled := r in
    match handled with
    | Some reply => Ok (answered bd (engine bd) b reply)
    | None =>
        let '(e, reply) := handle_line (engine bd) input in
        match reply with
        | Some reply => Ok (answered bd e b reply)
        | None => Err Panic
        end
    end.

Definition on_byte bd (byte : Z) : result (Fault SeError) (Board C S G B) :=
  if (byte =? 10) || (byte =? 13) then
    match line_buf bd with [] => Ok bd | _ => on_line bd end
  else if Z.of_nat (length (line_buf bd)) <? MAX_LINE_LEN then
    Ok {| engine := engine bd; element := element bd; line_buf := line_buf bd ++ [byte];
          usb_out := usb_out bd |}
  else Ok (answered bd (engine bd) (element bd) "NAK bad-command").

Fixpoint on_bytes bd (bytes : list Z) : result (Fault SeError) (Board C S G B) :=
  match bytes with
  | [] => Ok bd
  | byte :: bytes => let? next := on_byte bd byte in on_bytes next bytes
  end.

(** One turn of the outer loop, with the bytes the port had to give. *)
Definition turn bd (bytes : list Z) : result (Fault SeError) (Board C S G B) :=
  on_bytes {| engine := tick (engine bd); element := element bd; line_buf := line_buf bd;
              usb_out := usb_out bd |} bytes.
End Loop.

(** ** Frames *)

(** A counted body and its two checksum bytes. *)
Lemma parse_frame (body crc tail : list Z) : (2 <= length body)%nat -> length crc = 2%nat ->
  nth 0 body 0 = Z.of_nat (length body + 2) ->
  Atecc.parse_response ((body ++ crc) ++ tail) =
  if crc16 body =? from_le_bytes crc then Ok (drop 1 body) else Err Atecc.BadCrc.
Proof.
  intros Hb Hc Hn. unfold Atecc.parse_response. rewrite !length_app, Hc.
  destruct (Nat.ltb_spec (length body + 2 + length tail) 4); [lia|].
  replace (nth 0 ((body ++ crc) ++ tail) 0) with (nth 0 body 0) by (rewrite !app_nth1; rewrite ?length_app; lia || done).
  rewrite Hn, Nat2Z.id. destruct (Nat.ltb_spec (length body + 2) 4); [lia|].
  destruct (Nat.ltb_spec (length body + 2 + length tail) (length body + 2)); [lia|]. cbn [orb].
  rewrite take_app_length' by (rewrite length_app; lia).
  replace (length body + 2 - 2)%nat with (length body) by lia.
  rewrite take_app_length, drop_app_length. by destruct (_ =? _).
Qed.

Lemma crc16_range l : 0 <= crc16 l < 256 ^ Z.of_nat 2.
Proof. apply (fold_crc16_u16 l 0). unfold is_u16. lia. Qed.

Section Frames.
Context (opcode param1 param2 : Z) (data : list Z).
Hypotheses (Hop : is_u8 opcode) (Hp1 : is_u8 param1) (Hdata : Forall is_u8 data).
Let body : list Z :=
  [7 + Z.of_nat (length data); opcode; param1] ++ le_bytes 2 param2 ++ data.

Lemma length_body : length body = (5 + length data)%nat.
Proof. unfold body. rewrite !length_app, length_le_bytes. done. Qed.

Lemma build_command_eq out_len :
  Atecc.build_command opcode param1 param2 data out_len =
  if (out_len <? 7 + Z.of_nat (length data)) || (255 <? 7 + Z.of_nat (length data)) then None
  else Some (body ++ le_bytes 2 (crc16 body)).
Proof.
  unfold Atecc.build_command, u8_max.
  replace (1 + 1 + 1 + 2 + Z.of_nat (length data) + 2) with (7 + Z.of_nat (length data)) by lia. done.
Qed.

Lemma count_body : nth 0 body 0 = Z.of_nat (length body + 2).
Proof. rewrite length_body. unfold body. cbn [nth app]. lia. Qed.

Lemma frame_parses tail :
  Atecc.parse_response ((body ++ le_bytes 2 (crc16 body)) ++ tail) = Ok (drop 1 body).
Proof.
  rewrite parse_frame; [|rewrite length_body; lia|by rewrite length_le_bytes|apply count_body].
  by rewrite from_le_bytes_le, Z.eqb_refl by apply crc16_range.
Qed.

Lemma frame_body_u8 : 7 + Z.of_nat (length data) <= 255 -> Forall is_u8 body.
Proof.
  intros Hc. unfold body. rewrite !Forall_app. split; [|auto using le_bytes_u8].
  repeat constructor; unfold is_u8, u8_max in *; lia.
Qed.

(** One changed byte behind the count is seen. *)
Lemma frame_corrupted i b b0 tail : 7 + Z.of_nat (length data) <= 255 -> is_u8 b ->
  (0 < i)%nat -> (body ++ le_bytes 2 (crc16 body)) !! i = Some b0 -> b <> b0 ->
  Atecc.parse_response (<[i := b]> (body ++ le_bytes 2 (crc16 body)) ++ tail) = Err Atecc.BadCrc.
Proof.
  intros Hc Hb Hi Hlook Hne. pose proof (frame_body_u8 Hc) as Hu.
  destruct (decide (i < length body)%nat) as [Hlt|Hge].
  - rewrite insert_app_l by done. rewrite lookup_app_l in Hlook by done.
    rewrite parse_frame; [|rewrite length_insert, length_body; lia|by rewrite length_le_bytes|].
    2: { rewrite length_insert, <-count_body. destruct i as [|i]; [lia|]. reflexivity. }
    rewrite from_le_bytes_le by apply crc16_range.
    destruct (Z.eqb_spec (crc16 (<[i:=b]> body)) (crc16 body)) as [E|]; [|done].
    exfalso. apply Hne. rewrite <-(take_drop_middle body i b0 Hlook) in E at 2.
    rewrite insert_take_drop in E by done. apply crc16_one_byte in E; [done|done|].
    by eapply Forall_lookup_1 in Hlook.
  - rewrite insert_app_r_alt by lia. rewrite lookup_app_r in Hlook by lia.
    set (j := (i - length body)%nat) in *. set (c := le_bytes 2 (crc16 body)) in *.
    rewrite parse_frame; [|rewrite length_body; lia|by rewrite length_insert; unfold c; rewrite length_le_bytes|apply count_body].
    destruct (Z.eqb_spec (crc16 body) (from_le_bytes (<[j:=b]> c))) as [E|]; [|done].
    exfalso. apply Hne. rewrite <-(from_le_bytes_le 2 (crc16 body)) in E by apply crc16_range. fold c in E.
    apply from_le_bytes_inj in E; [|apply le_bytes_u8|by apply Forall_insert; [apply le_bytes_u8|]|by rewrite length_insert].
    rewrite E in Hlook. rewrite list_lookup_insert_eq in Hlook; [by simplify_eq|].
    apply lookup_lt_Some in Hlook. by rewrite length_insert in Hlook.
Qed.
End Frames.

(** ** The loop runs the engine *)

Section LoopProps.
Context {C S G : Type} `{UptimeClockLaws C, SeqStoreLaws S, GateLaws G}.
Context `{DataEncodingLaws, WireCryptoLaws}.
Context {B : Type} `{!I2c B}.
Context (se : bool).
Implicit Types bd : Board C S G B.

Lemma bus_no_panic addr bytes n :
  no_panic (bus_write (B := B) addr bytes) /\ no_panic (bus_read (B := B) addr n).
Proof.
  split; intros b; unfold bus_write, bus_read;
    [destruct (i2c_write b addr bytes) as [? []]|destruct (i2c_read b addr n) as [? []]]; done.
Qed.

Lemma command_no_panic op p1 p2 data n : no_panic (command (B := B) op p1 p2 data n).
Proof.
  unfold command. pose proof (fun a bs => proj1 (bus_no_panic a bs 0)) as Hw.
  pose proof (fun a n => proj2 (bus_no_panic a [] n)) as Hr.
  no_panic; auto.
Qed.

Lemma wake_no_panic : no_panic (wake (B := B)).
Proof.
  unfold wake. pose proof (fun a bs => proj1 (bus_no_panic a bs 0)) as Hw.
  pose proof (fun a n => proj2 (bus_no_panic a [] n)) as Hr. no_panic; auto.
Qed.

Lemma element_no_panic digest :
  no_panic (public_key (B := B)) /\ no_panic (sign_digest (B := B) digest).
Proof.
  pose proof wake_no_panic. pose proof command_no_panic.
  split; [unfold public_key|unfold sign_digest]; no_panic; auto.
Qed.

Lemma se_handle_returns input (b : B) : exists b' o, se_handle input b = (b', Ok o).
Proof.
  unfold se_handle. case_bool_decide; [|case_match; [|by eauto]].
  - destruct (etry_returns _ b (proj1 (element_no_panic []))) as (b' & r & ->). by eauto.
  - destruct (etry_returns _ b (proj2 (element_no_panic (sha256 (as_bytes s))))) as (b' & r & ->).
    by eauto.
Qed.

(** What the loop keeps. *)
Definition board_inv bd : Prop := inv (engine bd) /\ Z.of_nat (length (line_buf bd)) <= MAX_LINE_LEN.

Lemma on_line_runs bd : inv (engine bd) ->
  exists bd', on_line se bd = Ok bd' /\ rtc step (engine bd) (engine bd') /\ line_buf bd' = [].
Proof.
  intros Hi. unfold on_line. destruct (negb _); [by eauto using rtc_refl|].
  set (input := str_of_bytes (line_buf bd)).
  assert (exists b o, (if se then se_handle input (element bd) else (element bd, Ok None)) = (b, Ok o))
    as (b & o & ->) by (destruct se; [apply se_handle_returns|by eauto]).
  cbn [fst snd]. destruct o as [reply|]; [by eauto using rtc_refl|].
  destruct (handle_line_answer (engine bd) input Hi) as (line & Hl & _).
  pose proof (st_line (engine bd) input) as Hs.
  destruct (handle_line (engine bd) input) as [e r]. cbn [fst snd] in *. subst r.
  eexists. split; [done|]. split; [by apply rtc_once|done].
Qed.

Lemma on_bytes_run bytes bd : board_inv bd ->
  exists bd', on_bytes se bd bytes = Ok bd' /\ rtc step (engine bd) (engine bd') /\ board_inv bd'.
Proof.
  revert bd. induction bytes as [|byte bytes IH]; intros bd [Hi Hl].
  { exists bd. split; [done|]. split; [apply rtc_refl|done]. }
  assert (exists bd', on_byte se bd byte = Ok bd' /\ rtc step (engine bd) (engine bd') /\ board_inv bd')
    as (bd1 & E1 & Hr1 & Hi1).
  { unfold on_byte. destruct (_ || _).
    - destruct (line_buf bd) eqn:Eb.
      { exists bd. split; [done|]. split; [apply rtc_refl|]. split; [done|by rewrite Eb]. }
      destruct (on_line_runs bd Hi) as (bd' & E & Hr & Hb). exists bd'. split; [done|]. split; [done|].
      split; [by apply (inv_reachable _ _ Hr)|]. by rewrite Hb.
    - destruct (Z.ltb_spec (Z.of_nat (length (line_buf bd))) MAX_LINE_LEN); eexists;
        (split; [done|]); (split; [apply rtc_refl|]); (split; [done|]); cbn [line_buf answered]; [|done].
      rewrite length_app. cbn [length]. lia. }
  cbn [on_bytes]. rewrite E1. destruct (IH bd1 Hi1) as (bd' & E & Hr & Hi').
  exists bd'. split; [done|]. split; [by etrans|done].
Qed.

(** Bytes that end no line are gathered. *)
Lemma on_bytes_gather l bd rest :
  Forall (fun b => b <> 10 /\ b <> 13) l ->
  Z.of_nat (length (line_buf bd) + length l) <= MAX_LINE_LEN ->
  on_bytes se bd (l ++ rest) =
  on_bytes se {| engine := engine bd; element := element bd; line_buf := line_buf bd ++ l;
                 usb_out := usb_out bd |} rest.
Proof.
  intros Hl. revert bd. induction Hl as [|b l [Hb1 Hb2] Hl IH]; intros bd Hlen.
  { rewrite app_nil_r. by destruct bd. }
  cbn [app on_bytes length] in *. unfold on_byte.
  destruct (Z.eqb_spec b 10), (Z.eqb_spec b 13); try done. cbn [orb].
  destruct (Z.ltb_spec (Z.of_nat (length (line_buf bd))) MAX_LINE_LEN); [|lia].
  rewrite IH by (cbn [line_buf]; rewrite length_app; cbn [length]; lia).
  cbn [engine element line_buf usb_out]. by rewrite <-app_assoc.
Qed.

(** C32. The firmware is the engine: whatever bytes arrive on the port, a turn
    of the main loop ends without a panic, never fills the line buffer past
    its end, and moves the engine only by the engine's own steps, so what
    holds of every run of the engine holds of the firmware; and a complete
    line that fits is handed to the engine whole and its answer is what goes
    out. *)
Theorem firmware_runs_engine bd (bytes : list Z) (Hinv : board_inv bd) :
  (exists bd', turn se bd bytes = Ok bd' /\ rtc step (engine bd) (engine bd') /\ board_inv bd')
  /\ forall line, se = false -> line_buf bd = [] -> line <> [] ->
       Forall (fun b => b <> 10 /\ b <> 13) line -> Z.of_nat (length line) <= MAX_LINE_LEN ->
       utf8_valid line = true ->
       exists bd' reply,
         turn se bd (line ++ [10]) = Ok bd'
         /\ handle_line (tick (engine bd)) (str_of_bytes line) = (engine bd', Some reply)
         /\ usb_out bd' = usb_out bd +:+ reply +:+ lf.
Proof.
  destruct Hinv as [Hi Hl]. split.
  - unfold turn. destruct (on_bytes_run bytes {| engine := tick (engine bd); element := element bd;
      line_buf := line_buf bd; usb_out := usb_out bd |}) as (bd' & E & Hr & Hi');
      [by split; [apply inv_tick|]|].
    exists bd'. split; [done|]. split; [|done]. eapply rtc_l; [apply st_tick|exact Hr].
  - intros line Hse Hb Hne Hchars Hlen Hutf. unfold turn.
    rewrite on_bytes_gather by (done || cbn [line_buf]; rewrite Hb; done). rewrite Hb.
    cbn [app on_bytes]. match goal with |- context [on_byte se ?g 10] =>
      replace (on_byte se g 10) with (on_line se g) by (unfold on_byte; cbn; by destruct line) end.
    unfold on_line. cbn [line_buf engine element usb_out app]. rewrite Hutf, Hse. cbn [negb].
    destruct (handle_line_answer (tick (engine bd)) (str_of_bytes line)) as (r & Hr & _);
      [by apply inv_tick|]. cbn [engine].
    destruct (handle_line (tick (engine bd)) (str_of_bytes line)) as [e a]. cbn [snd] in Hr. subst a.
    eexists _, r. split; [done|]. done.
Qed.
End LoopProps.

(** ** The secure element's answers *)

(** The element's frames: a command that fits is framed within the
    buffer, its frame reads back to exactly the command whatever follows it
    on the bus, and no single byte of it behind the count can change unseen:
    the frame is then refused by its checksum. *)
Theorem se_frames_checked (opcode param1 param2 : Z) (data : list Z) (out_len : Z) (frame : list Z)
    (Hop : is_u8 opcode) (Hp1 : is_u8 param1) (Hdata : Forall is_u8 data)
    (Hframe : Atecc.build_command opcode param1 param2 data out_len = Some frame) :
  Z.of_nat (length frame) <= out_len
  /\ (forall tail, Atecc.parse_response (frame ++ tail)
        = Ok ([opcode; param1] ++ le_bytes 2 param2 ++ data))
  /\ (forall i b b0 tail, (0 < i)%nat -> frame !! i = Some b0 -> is_u8 b -> b <> b0 ->
        Atecc.parse_response (<[i := b]> frame ++ tail) = Err Atecc.BadCrc).
Proof.
  rewrite build_command_eq in Hframe. destruct (_ || _) eqn:E; [done|].
  apply orb_false_iff in E as [E1%Z.ltb_ge E2%Z.ltb_ge]. apply (inj Some) in Hframe as <-. split_and!.
  - rewrite length_app, length_body, length_le_bytes. lia.
  - intros tail. rewrite frame_parses. done.
  - intros i b b0 tail Hi Hlook Hb Hne. by eapply frame_corrupted.
Qed.

(** What the bus hands over is bytes. *)
Class I2cBytes (B : Type) `{!I2c B} : Prop :=
  read_bytes b addr n bs : (i2c_read b addr n).2 = Some bs -> Forall is_u8 bs.

Lemma der_u8 raw der : Forall is_u8 raw -> p256_raw_sig_to_der raw = Ok der -> Forall is_u8 der.
Proof.
  intros Hu. unfold p256_raw_sig_to_der. case_match; [done|]. intros [= <-].
  assert (Hm : forall z, is_u8 (z `mod` 256)).
  { intros z. pose proof (Z.mod_pos_bound z 256). unfold is_u8, u8_max. lia. }
  assert (Hw : forall half out, Forall is_u8 half -> Forall is_u8 out -> Forall is_u8 (write_integer half out)).
  { intros half out Hh Ho. unfold write_integer.
    assert (Hc : forall l z, Forall is_u8 l -> is_u8 z -> Forall is_u8 (l ++ [z])).
    { intros. apply Forall_app. by rewrite Forall_singleton. }
    assert (is_u8 0 /\ is_u8 2) as [H0 H2] by (split; unfold is_u8, u8_max; lia).
    assert (Forall is_u8 (out ++ [2; Z.of_nat (integer_len half) `mod` 256]))
      by (apply Forall_app; auto).
    destruct (Nat.eqb _ _); [auto|]. destruct (high_bit half); apply Forall_app; auto using Forall_drop. }
  apply Hw; [by apply Forall_drop|]. apply Hw; [by apply Forall_take|].
  apply Forall_cons. split; [unfold is_u8, u8_max; lia|]. by apply Forall_singleton.
Qed.

Section ElementProps.
Context `{DataEncodingLaws, WireCrypto, FactorCrypto}.
Context {B : Type} `{I2cBytes B}.

Lemma parse_response_u8 frame p : Forall is_u8 frame -> Atecc.parse_response frame = Ok p -> Forall is_u8 p.
Proof.
  intros Hu. unfold Atecc.parse_response. repeat (case_match; [done|]). intros [= <-].
  by apply Forall_drop, Forall_take, Forall_take.
Qed.

Lemma command_u8 op p1 p2 data n (b : B) p : (command op p1 p2 data n b).2 = Ok p -> Forall is_u8 p.
Proof.
  unfold command. intros E. apply ebind_Ok in E as (frame & _ & E & _).
  apply ebind_Ok in E as (? & _ & E & _). apply ebind_Ok in E as (response & Hr & E & _).
  apply ebind_Ok in E as (payload & Hp & E & _). apply ebind_Ok in E as (? & _ & E & _).
  apply ebind_Ok in E as (? & _ & E & _). apply elift_Ok in Hp. unfold eret in E. simplify_eq/=.
  destruct (Atecc.parse_response response) as [q|] eqn:Eq; simplify_eq/=.
  eapply parse_response_u8; [|exact Eq]. unfold bus_read in Hr.
  match type of Hr with context [i2c_read ?x ?a ?k] =>
    pose proof (read_bytes x a k) as Hb; destruct (i2c_read x a k) as [? [bs|]] end; simplify_eq/=.
  by apply Hb.
Qed.

Lemma sign_digest_Ok digest (b : B) raw :
  (sign_digest digest b).2 = Ok raw -> length raw = 64%nat /\ Forall is_u8 raw.
Proof.
  unfold sign_digest. intros E2.
  apply ebind_Ok in E2 as (? & _ & E2 & _). apply ebind_Ok in E2 as (? & _ & E2 & _).
  apply ebind_Ok in E2 as (sig & Hsig & E2 & _). apply ebind_Ok in E2 as (? & Hr & E2 & _).
  apply erequire_Ok, bool_decide_eq_true in Hr. unfold eret in E2. simplify_eq/=.
  split; [done|by eapply command_u8].
Qed.

(** The element's token is an approval: when the firmware answers
    [SE-SIGN] with a signature, it is the DER form of 64 bytes that came in a
    frame with a good checksum, and the daemon's [tpm] factor accepts it for
    the challenge exactly when the signature verifies under the registered
    key. *)
Theorem se_signature_approves (challenge token : string) (b b' : B)
    (Hclean : trim_end_matches (fun c => bool_decide (c = "013"%char \/ c = "010"%char))
                ("SE-SIGN " +:+ challenge) = "SE-SIGN " +:+ challenge)
    (Hreply : se_handle ("SE-SIGN " +:+ challenge) b = (b', Ok (Some ("SIG " +:+ token)))) :
  exists raw der,
    length raw = 64%nat /\ p256_raw_sig_to_der raw = Ok der
    /\ der_signature der = Some (from_be_bytes (take 32 raw), from_be_bytes (drop 32 raw))
    /\ token = TPM_PREFIX +:+ base64url_encode der
    /\ forall pk sig, p256_from_sec1 pk = Ok tt -> ecdsa_from_der der = Ok sig ->
         tpm_verify pk token challenge =
         if ecdsa_verify pk (as_bytes challenge) sig then Ok tt else Err TpmBadSignature.
Proof.
  unfold se_handle in Hreply. rewrite Hclean in Hreply.
  rewrite bool_decide_eq_false_2 in Hreply by done. rewrite strip_prefix_app in Hreply.
  destruct (etry (sign_digest (sha256 (as_bytes challenge))) b) as [b1 r] eqn:Et.
  pose proof (etry_Ok (sign_digest (sha256 (as_bytes challenge))) b) as Hok. rewrite Et in Hok.
  destruct r as [r|]; [|done]. specialize (Hok r eq_refl). simplify_eq/=.
  destruct r as [raw|e]; [|by destruct e; simplify_eq/=].
  apply sign_digest_Ok in Hok as [Hlen Hu].
  destruct (der_roundtrip raw Hlen Hu) as (der & Hder & _ & Hsig). rewrite Hder in *. simplify_eq/=.
  exists raw, der. split_and!; [done..|]. intros pk sig Hpk Hs. unfold tpm_verify.
  assert (Hdu : Forall is_u8 der) by by eapply der_u8.
  change (strip_prefix TPM_PREFIX _)
    with (strip_prefix TPM_PREFIX (TPM_PREFIX +:+ base64url_encode der)).
  rewrite strip_prefix_app. cbn [ok_or].
  rewrite trim_base64url by by apply base64url_encode_alphabet.
  rewrite base64url_decode_encode by done. cbn [ok_or]. rewrite Hpk, Hs. done.
Qed.
End ElementProps.

(** ** A bench board *)

(** A bus with a scripted chip: the frames it answers with, in order. *)
#[export] Instance scripted_i2c : I2c (list (list Z)) := {|
  i2c_write b addr bytes := (b, true);
  i2c_read b addr n := match b with [] => ([], None) | f :: b => (b, Some (take n (f ++ replicate n 0))) end;
|}.

Definition chip_frame (payload : list Z) : list Z :=
  let body := Z.of_nat (length payload + 3) :: payload in body ++ le_bytes 2 (crc16 body).

Definition bench (script : list (list Z)) : Board Z Z bool (list (list Z)) :=
  {| engine := board_new; element := script; line_buf := []; usb_out := "" |}.

Lemma bench_inv script : board_inv (bench script).
Proof. split; [apply inv_new|done]. Qed.

Lemma firmware_runs_engine_witness :
  exists bd' reply,
    turn false (bench []) (as_bytes "STAT" ++ [10]) = Ok bd'
    /\ handle_line (tick board_new) (str_of_bytes (as_bytes "STAT")) = (engine bd', Some reply)
    /\ usb_out bd' = "" +:+ reply +:+ lf.
Proof.
  destruct (firmware_runs_engine false (bench []) [] (bench_inv [])) as [_ H].
  apply (H (as_bytes "STAT")); try reflexivity; try discriminate.
  repeat constructor; discriminate.
Defined.

Lemma se_frames_checked_witness :
  exists frame, Atecc.build_command Atecc.OP_SIGN 0x80 0 [] 96 = Some frame
    /\ Atecc.parse_response (frame ++ [0; 0]) = Ok [0x41; 0x80; 0; 0]
    /\ Atecc.parse_response (<[2%nat := 0x81]> frame ++ []) = Err Atecc.BadCrc.
Proof.
  eexists. split; [reflexivity|].
  edestruct (se_frames_checked Atecc.OP_SIGN 0x80 0 [] 96) as (_ & H2 & H3);
    [split; vm_compute; discriminate..|constructor|reflexivity|].
  split; [apply H2|]. eapply (H3 2%nat 0x81);
    [lia|reflexivity|split; vm_compute; discriminate|discriminate].
Defined.

(** The public key's line carries what is left of the digits' array: two NUL
    bytes behind the 130 digits of the point. *)
Example pubkey_line_has_nuls :
  let xy := replicate 64 0xab in
  (se_handle "SE-PUBKEY?" [Atecc.WAKE_RESPONSE; chip_frame xy]).2
  = Ok (Some ("PUBKEY 04" +:+ hex_nonce xy +:+ str_of_bytes [0; 0])).
Proof. vm_compute. reflexivity. Qed.

(** Of a line that does not fit, the end is acted on: after 196 characters
    the buffer starts over, and what follows is read as a line of its own. *)
Example oversized_line_acted_on :
  option_map (fun bd => bool_decide (is_Some (strip_prefix ("NAK bad-command" +:+ lf +:+ "STATE ") (usb_out bd))))
    (match turn false (bench []) (replicate 196 120 ++ as_bytes "STAT" ++ [10]) with
     | Ok bd => Some bd | Err _ => None end) = Some true.
Proof. vm_compute. reflexivity. Qed.
