(* ===== verification/SoftCore.v ===== *)
(** * SoftCore: the verifier in fabric (fpga/fw/src/main.rs)

    The program of the soft core, the gate it loads (fpga/rtl/lg_gate.v) and
    the bus between them (fpga/rtl/lg_soc.v): one token is judged, and the
    counter decides from there on. *)

From S2P Require Import Prelude Text External Reference Approval Cbor Token TextLines Line.

(** ** The program *)

Definition MMIO : Z := 0x10000000.
Definition REG_TOKEN_READY : Z := MMIO.
Definition REG_TOKEN_LEN : Z := MMIO + 0x4.
Definition REG_RESULT : Z := MMIO + 0x8.
Definition REG_GATE_LOAD : Z := MMIO + 0xc.
Definition TOKEN_BASE : Z := MMIO + 0x400.

Definition DEVICE_ID : list Z := seqZ 0 16.
Definition PUBKEY : list Z :=
  [0xd0; 0x4a; 0xb2; 0x32; 0x74; 0x2b; 0xb4; 0xab; 0x3a; 0x13; 0x68; 0xbd; 0x46; 0x15; 0xe4;
   0xe6; 0xd0; 0x22; 0x4a; 0xb7; 0x1a; 0x01; 0x6b; 0xaf; 0x85; 0x20; 0xa3; 0x32; 0xc9; 0x77;
   0x87; 0x37].

Definition RESULT_LOADED : Z := 1.
Definition RESULT_REFUSED : Z := 2.

(** The bus: every access is an event of its own. *)
Class Mmio (B : Type) := {
  mmio_read : B -> Z -> B * Z;
  mmio_write : B -> Z -> Z -> B;
}.

Section Core.
Context `{DataEncoding, WireCrypto} {B : Type} `{!Mmio B}.

(** [while mmio_read(REG_TOKEN_READY) == 0 {}]; [None] is still waiting. *)
Fixpoint wait_token (fuel : nat) (b : B) : option B :=
  match fuel with
  | O => None
  | S fuel =>
      let '(b, ready) := mmio_read b REG_TOKEN_READY in
      if ready =? 0 then wait_token fuel b else Some b
  end.

(** The copy of [len] bytes, from slot [i] on. *)
Fixpoint read_slots (len : nat) (i : Z) (b : B) : B * list Z :=
  match len with
  | O => (b, [])
  | S len =>
      let '(b, word) := mmio_read b (TOKEN_BASE + 4 * i) in
      let '(b, rest) := read_slots len (i + 1) b in
      (b, word mod 256 :: rest)
  end.

Definition verdict (buf : list Z) : option Capability :=
  if utf8_valid buf then
    match verify_capability (PkEd25519 PUBKEY) (str_of_bytes buf) with
    | Ok cap => if bool_decide (cap_device_id cap = DEVICE_ID) then Some cap else None
    | Err _ => None
    end
  else None.

Definition main (fuel : nat) (b : B) : option B :=
  b ← wait_token fuel b;
  let '(b, len) := mmio_read b REG_TOKEN_LEN in
  if 256 <? len then Some (mmio_write b REG_RESULT RESULT_REFUSED)
  else
    let '(b, buf) := read_slots (Z.to_nat len) 0 b in
    Some (match verdict buf with
          | Some cap =>
              let b := mmio_write b REG_GATE_LOAD (Z.min (cap_ttl_secs cap) 0x1ffff) in
              mmio_write b REG_RESULT RESULT_LOADED
          | None => mmio_write b REG_RESULT RESULT_REFUSED
          end).
End Core.

(** ** The gate (fpga/rtl/lg_gate.v) *)

Record LgGate := { counter : Z; prescale : Z }.

Definition gate_en (g : LgGate) : bool := negb (counter g =? 0).

(** One rising edge. *)
Definition gate_clock (CLK_HZ : Z) (rst_n load_en : bool) (load_secs : Z) (clear : bool) (g : LgGate)
    : LgGate :=
  if negb rst_n then {| counter := 0; prescale := 0 |}
  else if clear then {| counter := 0; prescale := 0 |}
  else if load_en then {| counter := load_secs; prescale := 0 |}
  else if negb (counter g =? 0) then
    if prescale g =? CLK_HZ - 1 then {| counter := counter g - 1; prescale := 0 |}
    else {| counter := counter g; prescale := prescale g + 1 |}
  else g.

(** ** The bus (fpga/rtl/lg_soc.v) *)

(** What the harness holds, and how many clocks pass before each access. *)
Record Harness := {
  token_ready : nat -> bool;
  token_len : Z;
  token_mem : list Z;
  cycles : nat -> nat;
}.

Record Soc := { accesses : nat; gate : LgGate; result : Z; load_clock : option nat; clocks : nat }.

Section Bus.
Context (CLK_HZ : Z) (h : Harness).

Definition idle : LgGate -> LgGate := gate_clock CLK_HZ true false 0 false.

(** The clocks before an access. *)
Definition advance (s : Soc) : Soc :=
  {| accesses := S (accesses s); gate := Nat.iter (cycles h (accesses s)) idle (gate s);
     result := result s; load_clock := load_clock s; clocks := clocks s + cycles h (accesses s) |}.

Definition soc_read (s : Soc) (addr : Z) : Soc * Z :=
  (advance s,
   if addr =? REG_TOKEN_READY then (if token_ready h (accesses s) then 1 else 0)
   else if addr =? REG_TOKEN_LEN then token_len h
   else nth (Z.to_nat ((addr - TOKEN_BASE) / 4)) (token_mem h) 0).

(** A write to the load register pulses [load_en] with its low 17 bits; the
    clock count of that edge is kept. *)
Definition soc_write (s : Soc) (addr value : Z) : Soc :=
  let s := advance s in
  if addr =? REG_GATE_LOAD then
    {| accesses := accesses s;
       gate := gate_clock CLK_HZ true true (value mod 2 ^ 17) false (gate s);
       result := result s; load_clock := Some (clocks s); clocks := clocks s |}
  else if addr =? REG_RESULT then
    {| accesses := accesses s; gate := gate s; result := value; load_clock := load_clock s;
       clocks := clocks s |}
  else s.

#[export] Instance soc_mmio : Mmio Soc := {| mmio_read := soc_read; mmio_write := soc_write |}.
End Bus.

(** ** The countdown *)

Section Countdown.
Context (CLK_HZ : Z) (Hhz : 0 < CLK_HZ).
Implicit Types g : LgGate.

Definition gate_ok g : Prop :=
  0 <= counter g /\ 0 <= prescale g < CLK_HZ /\ (counter g = 0 -> prescale g = 0).

(** The clocks a gate has left. *)
Definition ticks g : Z := counter g * CLK_HZ - prescale g.

Lemma idle_tick g : gate_ok g ->
  gate_ok (idle CLK_HZ g) /\ ticks (idle CLK_HZ g) = Z.max 0 (ticks g - 1).
Proof.
  intros (Hc & Hp & Hz). unfold idle, gate_clock, gate_ok, ticks. cbn [negb].
  destruct (Z.eqb_spec (counter g) 0) as [E|E]; cbn [negb].
  - rewrite (Hz E). split; [lia|]. rewrite E. lia.
  - destruct (Z.eqb_spec (prescale g) (CLK_HZ - 1)); cbn [counter prescale]; (split; [|nia]); nia.
Qed.

Lemma idle_ticks n g : gate_ok g ->
  gate_ok (Nat.iter n (idle CLK_HZ) g)
  /\ ticks (Nat.iter n (idle CLK_HZ) g) = Z.max 0 (ticks g - Z.of_nat n).
Proof.
  intros Hg. assert (0 <= ticks g) by (destruct Hg as (? & ? & ?); unfold ticks; nia).
  induction n as [|n [IH1 IH2]]; [split; [done|change (ticks g = Z.max 0 (ticks g - 0)); lia]|].
  change (Nat.iter (S n) (idle CLK_HZ) g) with (idle CLK_HZ (Nat.iter n (idle CLK_HZ) g)).
  destruct (idle_tick _ IH1) as [? E]. split; [done|]. rewrite E, IH2. lia.
Qed.

Lemma gate_en_ticks g : gate_ok g -> gate_en g = (0 <? ticks g).
Proof.
  intros (Hc & Hp & Hz). unfold gate_en, ticks. destruct (Z.eqb_spec (counter g) 0) as [E|E].
  - rewrite E, (Hz E). done.
  - symmetry. apply Z.ltb_lt. nia.
Qed.

Lemma gate_en_after n g : gate_ok g ->
  gate_en (Nat.iter n (idle CLK_HZ) g) = (Z.of_nat n <? ticks g).
Proof.
  intros Hg. destruct (idle_ticks n g Hg) as [Hok Ht]. rewrite gate_en_ticks, Ht by done.
  destruct (Z.ltb_spec (Z.of_nat n) (ticks g)); [apply Z.ltb_lt|apply Z.ltb_ge]; lia.
Qed.
End Countdown.

(** ** The core on its bus *)

Section Fabric.
Context `{DataEncodingLaws, WireCrypto} (CLK_HZ : Z) (h : Harness) (Hhz : 0 < CLK_HZ).
#[local] Existing Instance soc_mmio.
Implicit Types s : Soc.
Local Abbreviation soc := (soc_mmio CLK_HZ h).

(** The bytes the harness presents. *)
Definition presented : list Z :=
  (fun i => nth i (token_mem h) 0 mod 256) <$> List.seq 0 (Z.to_nat (token_len h)).

(** What the core makes of them. *)
Definition judged : option Capability := if 256 <? token_len h then None else verdict presented.

(** A gate that was never loaded. *)
Definition shut s : Prop := gate s = {| counter := 0; prescale := 0 |} /\ load_clock s = None.

Lemma shut_advance s : shut s -> shut (advance CLK_HZ h s).
Proof.
  intros [Hg Hl]. split; [|done]. cbn. rewrite Hg. clear.
  induction (cycles h (accesses s)) as [|n IH]; [done|].
  change (idle CLK_HZ (Nat.iter n (idle CLK_HZ) {| counter := 0; prescale := 0 |})
          = {| counter := 0; prescale := 0 |}). by rewrite IH.
Qed.

Lemma wait_returns k fuel s : (k < fuel)%nat -> token_ready h (accesses s + k) = true -> shut s ->
  exists s', wait_token (Mmio0 := soc) fuel s = Some s' /\ shut s'.
Proof.
  revert fuel s. induction k as [|k IH]; intros [|fuel] s Hf Hr Hs; [lia| |lia|];
    cbn [wait_token mmio_read soc_mmio]; unfold soc_read; rewrite Z.eqb_refl.
  - rewrite Nat.add_0_r in Hr. rewrite Hr. cbn. eauto using shut_advance.
  - destruct (token_ready h (accesses s)); cbn; [eauto using shut_advance|].
    apply (IH fuel); [lia| |by apply shut_advance]. cbn. by rewrite <-Nat.add_succ_comm in Hr.
Qed.

Lemma read_slots_presents n i s : shut s ->
  exists s', read_slots (Mmio0 := soc) n (Z.of_nat i) s
             = (s', (fun i => nth i (token_mem h) 0 mod 256) <$> List.seq i n) /\ shut s'.
Proof.
  revert i s. induction n as [|n IH]; intros i s Hs; cbn [read_slots]; [by eauto|].
  cbn [mmio_read soc_mmio]. unfold soc_read.
  assert (Hn : forall r, 0 <= r < 0x400 -> (TOKEN_BASE + 4 * Z.of_nat i =? MMIO + r) = false).
  { intros r Hr. apply Z.eqb_neq. unfold TOKEN_BASE. lia. }
  unfold REG_TOKEN_READY, REG_TOKEN_LEN. rewrite <-(Z.add_0_r MMIO), !Hn by lia.
  replace ((TOKEN_BASE + 4 * Z.of_nat i - TOKEN_BASE) / 4) with (Z.of_nat i).
  2:{ replace (TOKEN_BASE + 4 * Z.of_nat i - TOKEN_BASE) with (Z.of_nat i * 4) by lia.
      by rewrite Z.div_mul. }
  rewrite Nat2Z.id. replace (Z.of_nat i + 1) with (Z.of_nat (S i)) by lia.
  destruct (IH (S i) (advance CLK_HZ h s) (shut_advance _ Hs)) as (s' & E & Hs').
  rewrite E. eauto.
Qed.

Lemma refused_shut s : shut s ->
  let s' := mmio_write (Mmio := soc) s REG_RESULT RESULT_REFUSED in
  result s' = RESULT_REFUSED /\ forall n, gate_en (Nat.iter n (idle CLK_HZ) (gate s')) = false.
Proof.
  intros Hs. apply shut_advance in Hs as [Hg _]. cbn zeta. cbn [mmio_write soc_mmio]. unfold soc_write.
  replace (REG_RESULT =? REG_GATE_LOAD) with false by done. rewrite Z.eqb_refl.
  cbn [result gate]. split; [done|]. intros n.
  rewrite Hg, (gate_en_after CLK_HZ Hhz) by (unfold gate_ok; cbn; lia). apply Z.ltb_ge. unfold ticks. cbn. lia.
Qed.

Lemma verdict_device buf cap : verdict buf = Some cap ->
  cap_device_id cap = DEVICE_ID /\ 0 <= cap_ttl_secs cap.
Proof.
  unfold verdict. destruct (utf8_valid buf); [|done].
  destruct (verify_capability _ _) as [c|] eqn:Ev; [|done]. case_bool_decide; [|done].
  intros [= ->]. apply verify_capability_inv in Ev as [(_ & _ & _ & _ & _ & _ & Ht & _) _].
  split; [done|]. unfold is_u32 in Ht. lia.
Qed.

Lemma loaded_runs s cap : 0 <= cap_ttl_secs cap ->
  let s1 := mmio_write (Mmio := soc) s REG_GATE_LOAD (Z.min (cap_ttl_secs cap) 0x1ffff) in
  let s' := mmio_write (Mmio := soc) s1 REG_RESULT RESULT_LOADED in
  result s' = RESULT_LOADED /\ exists at_, load_clock s' = Some at_ /\ (at_ <= clocks s')%nat
    /\ forall n, gate_en (Nat.iter n (idle CLK_HZ) (gate s'))
         = (Z.of_nat (clocks s' - at_ + n) <? Z.min (cap_ttl_secs cap) 0x1ffff * CLK_HZ).
Proof.
  intros Ht. cbn zeta. cbn [mmio_write soc_mmio]. unfold soc_write. rewrite Z.eqb_refl.
  replace (REG_RESULT =? REG_GATE_LOAD) with false by done. rewrite Z.eqb_refl.
  cbn [result load_clock]. split; [done|]. eexists. split; [reflexivity|]. cbn [clocks advance accesses gate].
  split; [lia|]. intros n. rewrite <-Nat.iter_add.
  rewrite (gate_en_after CLK_HZ Hhz).
  - unfold ticks. cbn [gate_clock negb counter prescale]. rewrite Z.mod_small by lia.
    f_equal; lia.
  - unfold gate_ok. cbn [gate_clock negb counter prescale]. rewrite Z.mod_small by lia. lia.
Qed.

End Fabric.

(** ** Witnesses *)

Definition fabric_cap (ttl : Z) : Capability :=
  {| cap_ver := 1; cap_device_id := DEVICE_ID; cap_grant_nonce := replicate 16 9;
     cap_capability := 3; cap_ttl_secs := ttl; cap_issued_seq := 7 |}.

Definition fabric_token (ttl : Z) : list Z :=
  match sign_capability_into (SkEd25519Seed PUBKEY) (fabric_cap ttl) with
  | Ok token => as_bytes token
  | Err _ => []
  end.

(** The token is raised at the third poll. *)
Definition fabric_harness (ttl : Z) : Harness :=
  {| token_ready n := (2 <=? n)%nat; token_len := Z.of_nat (length (fabric_token ttl));
     token_mem := fabric_token ttl; cycles _ := 1%nat |}.

Definition cold_soc : Soc :=
  {| accesses := 0%nat; gate := {| counter := 0; prescale := 0 |}; result := 0; load_clock := None;
     clocks := 0%nat |}.


(** A capability over the day's cap is loaded, not refused: the gate is open
    for more than thirty-six hours. *)
Example over_cap_loads :
  counter ∘ gate <$> main (Mmio0 := soc_mmio 4 (fabric_harness 999999)) 3 cold_soc = Some 131071
  /\ MAX_TTL_SECS < 131071.
Proof. split; [vm_compute; reflexivity|reflexivity]. Qed.
