(* ===== verification/Fence.v ===== *)
(** * Fence: the text logic of the ssh channel (core/src/ssh.rs)

    The root-posture vocabulary, the drop-in, the reading of [sshd -T], and
    the fenced block of emergency keys in [authorized_keys]: what an open
    writes, a close takes away and nothing else changes. *)

From S2P Require Import Prelude Text Clock Ttl External Authority Inventory TextLines.

(** ** Postures *)

Definition sshd_token (p : Posture) : string :=
  match p with PNo => "no" | PProhibitPassword => "prohibit-password" | PYes => "yes" end.

Definition from_sshd_token (token : string) : option Posture :=
  if String.eqb token "no" then Some PNo
  else if String.eqb token "prohibit-password" || String.eqb token "without-password"
  then Some PProhibitPassword
  else if String.eqb token "yes" then Some PYes
  else None.

Definition render_dropin (posture : Posture) : string :=
  "# Managed by lychgated; do not edit. Removed when the grant closes." +:+ nl
  +:+ "PermitRootLogin " +:+ sshd_token posture +:+ nl.

(** [str::split_whitespace]: the non-empty pieces between white space.  The
    text is cut before each white-space character in turn. *)
Definition white : list string := str_of_bytes <$> WHITE_SPACE.

Fixpoint words_go (fuel : nat) (s cur : string) : list string :=
  let flush ws := if str_is_empty cur then ws else cur :: ws in
  match fuel with
  | O => flush []
  | S fuel =>
      match s with
      | "" => flush []
      | String a s' =>
          match strip_any white s with
          | Some r => flush (words_go fuel r "")
          | None => words_go fuel s' (cur +:+ String a "")
          end
      end
  end.
Definition split_whitespace (s : string) : list string := words_go (S (String.length s)) s "".

(** [u8::to_ascii_lowercase], [str::eq_ignore_ascii_case]. *)
Definition to_ascii_lowercase (c : ascii) : ascii :=
  let b := byte_of_ascii c in
  if (65 <=? b) && (b <=? 90) then ascii_of_byte (b + 32) else c.
Fixpoint lowercase (s : string) : string :=
  match s with "" => "" | String a s => String (to_ascii_lowercase a) (lowercase s) end.
Definition eq_ignore_ascii_case (s t : string) : bool :=
  bool_decide (lowercase s = lowercase t).

Definition line_posture (line : string) : option Posture :=
  match split_whitespace line with
  | [key; value] =>
      if eq_ignore_ascii_case key "permitrootlogin" then from_sshd_token value else None
  | _ => None
  end.

(** [find_map]. *)
Fixpoint find_map {A B} (f : A -> option B) (l : list A) : option B :=
  match l with [] => None | x :: l => match f x with Some y => Some y | None => find_map f l end end.

Definition parse_effective_posture (sshd_t_output : string) : option Posture :=
  find_map line_posture (lines sshd_t_output).

Definition DEFAULT_DROPIN : string := "/etc/ssh/sshd_config.d/00-lychgate.conf".

(** [None] is the [unreachable!] on embedded hosts. *)
Definition reload_command (host : Host) (ssh : SshConfig) : option string :=
  match reload_cmd ssh with
  | Some cmd => Some cmd
  | None =>
      match os host with
      | Freebsd => Some "service sshd reload"
      | Linux => Some "systemctl reload sshd 2>/dev/null || systemctl reload ssh"
      | Embedded => None
      end
  end.

(** ** The fence *)

Definition FENCE_BEGIN : string :=
  "# --- LYCHGATE BEGIN break-glass keys; do not edit this block ---".
Definition FENCE_END : string := "# --- LYCHGATE END ---".

Inductive FenceError := FMalformed (m : string) | FBadKey (key message : string).
#[export] Instance FenceError_eq_dec : EqDecision FenceError.
Proof. solve_decision. Defined.

Definition validate_key_line (key : string) : result FenceError unit :=
  if str_is_empty (trim key) then Err (FBadKey key "empty")
  else if contains_char LF key || contains_char CR key
  then Err (FBadKey key "contains a line break")
  else if contains "LYCHGATE" key then Err (FBadKey key "contains fence marker text")
  else Ok tt.

Fixpoint validate_keys (keys : list string) : result FenceError unit :=
  match keys with
  | [] => Ok tt
  | key :: keys => let? _ := validate_key_line key in validate_keys keys
  end.

Fixpoint positions_from (i : nat) (ls : list string) (marker : string) : list nat :=
  match ls with
  | [] => []
  | l :: ls =>
      if String.eqb l marker then i :: positions_from (S i) ls marker
      else positions_from (S i) ls marker
  end.
Definition positions (ls : list string) (marker : string) : list nat :=
  positions_from 0 ls marker.

Definition dec_nat (n : nat) : string := dec_u64 (Z.of_nat n).

Definition locate_fence (ls : list string) : result FenceError (option (nat * nat)) :=
  match positions ls FENCE_BEGIN, positions ls FENCE_END with
  | [], [] => Ok None
  | [b], [e] =>
      if (b <? e)%nat then Ok (Some (b, e))
      else Err (FMalformed ("END marker (line " +:+ dec_nat (S e) +:+ ") precedes BEGIN (line "
                  +:+ dec_nat (S b) +:+ ")"))
  | [], _ => Err (FMalformed "END marker without BEGIN")
  | _, [] => Err (FMalformed "BEGIN marker without END")
  | _, _ => Err (FMalformed "duplicated markers")
  end.

Definition block (keys : list string) : list string := [FENCE_BEGIN] ++ keys ++ [FENCE_END].

Definition fence_upsert (existing : string) (keys : list string) : result FenceError string :=
  let? _ := validate_keys keys in
  let ls := lines existing in
  let? fence := locate_fence ls in
  let out :=
    match fence with
    | Some (b, e) => take b ls ++ block keys ++ drop (S e) ls
    | None => ls ++ block keys
    end in
  Ok (join_nl out +:+ nl).

Definition fence_remove (existing : string) : result FenceError string :=
  let ls := lines existing in
  let? fence := locate_fence ls in
  match fence with
  | None => Ok existing
  | Some (b, e) =>
      let out := take b ls ++ drop (S e) ls in
      match out with
      | [] => Ok ""
      | _ => Ok (join_nl out +:+ nl)
      end
  end.

(** ** Where the fence is *)

Lemma positions_nil i ls mk : positions_from i ls mk = [] <-> mk ∉ ls.
Proof.
  revert i. induction ls as [|l ls IH]; intros i; cbn.
  - split; [intros _; apply not_elem_of_nil|done].
  - rewrite not_elem_of_cons. destruct (String.eqb_spec l mk) as [->|Hne]; [naive_solver|].
    rewrite IH. naive_solver.
Qed.

Lemma positions_one i ls mk k :
  positions_from i ls mk = [k] <->
  exists p s, ls = p ++ mk :: s /\ mk ∉ p /\ mk ∉ s /\ k = (i + length p)%nat.
Proof.
  revert i. induction ls as [|l ls IH]; intros i; cbn.
  { split; [done|]. by intros ([] & ? & ? & _). }
  destruct (String.eqb_spec l mk) as [->|Hne].
  - split.
    + intros [= <- Hn%positions_nil]. exists [], ls. cbn. split_and!; [done|set_solver|done|lia].
    + intros ([|l p] & s & Hls & Hp & Hs & ->); cbn in *; simplify_eq; [|set_solver].
      f_equal; [lia|]. by apply positions_nil.
  - rewrite IH. split.
    + intros (p & s & -> & Hp & Hs & ->). exists (l :: p), s. cbn.
      split_and!; [done|set_solver|done|lia].
    + intros ([|l' p] & s & Hls & Hp & Hs & ->); cbn in *; simplify_eq.
      exists p, s. split_and!; [done|set_solver|done|lia].
Qed.

(** No marker line. *)
Definition unmarked (ls : list string) : Prop := FENCE_BEGIN ∉ ls /\ FENCE_END ∉ ls.

Lemma markers_differ : FENCE_BEGIN <> FENCE_END.
Proof. done. Qed.
#[export] Hint Resolve markers_differ : core.

Lemma unmarked_app l1 l2 : unmarked (l1 ++ l2) <-> unmarked l1 /\ unmarked l2.
Proof. unfold unmarked. rewrite !not_elem_of_app. naive_solver. Qed.

Lemma locate_none ls : locate_fence ls = Ok None <-> unmarked ls.
Proof.
  unfold locate_fence, unmarked, positions. rewrite <-!(positions_nil 0).
  split.
  - intros H. repeat case_hyp H; simplify_eq; done.
  - intros [-> ->]. done.
Qed.

(** The lines before the fence, in it and after it. *)
Definition fenced (ls p m s : list string) : Prop :=
  ls = p ++ FENCE_BEGIN :: m ++ FENCE_END :: s /\ unmarked p /\ unmarked m /\ unmarked s.

Lemma fenced_positions ls p m s :
  fenced ls p m s ->
  positions ls FENCE_BEGIN = [length p]
  /\ positions ls FENCE_END = [S (length p + length m)].
Proof.
  intros (-> & [Hp1 Hp2] & [Hm1 Hm2] & [Hs1 Hs2]). unfold positions.
  rewrite !positions_one. split.
  - exists p, (m ++ FENCE_END :: s). split_and!; [done|done| |done].
    rewrite not_elem_of_app, not_elem_of_cons. done.
  - exists (p ++ FENCE_BEGIN :: m), s. rewrite <-app_assoc. cbn. split_and!; [done| |done|].
    + rewrite not_elem_of_app, not_elem_of_cons. done.
    + rewrite length_app. cbn. lia.
Qed.

Lemma locate_some ls b e :
  locate_fence ls = Ok (Some (b, e)) <->
  exists p m s, fenced ls p m s /\ b = length p /\ e = S (length p + length m).
Proof.
  split.
  - unfold locate_fence. intros H.
    destruct (positions ls FENCE_BEGIN) as [|b' [|]] eqn:Hb,
      (positions ls FENCE_END) as [|e' [|]] eqn:He; try done.
    destruct (Nat.ltb_spec b' e') as [Hlt|]; [|done]. simplify_eq.
    apply positions_one in Hb as (p & r & Hls & Hp & Hr & ->).
    apply positions_one in He as (q & s & Hls' & Hq & Hs & ->). cbn in *. subst ls.
    assert (Hpre : exists m, q = p ++ FENCE_BEGIN :: m /\ r = m ++ FENCE_END :: s).
    { symmetry in Hls'. apply app_eq_inv in Hls' as [(k & -> & Hk)|(k & -> & Hk)].
      - destruct k as [|x k]; cbn in Hk; [rewrite app_nil_r in *; simplify_eq|].
        injection Hk as <- ->. eauto.
      - rewrite length_app in Hlt. lia. }
    destruct Hpre as (m & -> & ->). exists p, m, s.
    rewrite not_elem_of_app, not_elem_of_cons in Hq, Hr. rewrite length_app. cbn.
    split_and!; [|done|lia]. unfold fenced, unmarked. naive_solver.
  - intros (p & m & s & Hf & -> & ->). destruct (fenced_positions _ _ _ _ Hf) as [Hb He].
    unfold locate_fence. rewrite Hb, He. by rewrite (proj2 (Nat.ltb_lt _ _)) by lia.
Qed.

Lemma fenced_outside ls p m s :
  fenced ls p m s -> take (length p) ls ++ drop (S (S (length p + length m))) ls = p ++ s.
Proof.
  intros (-> & _). rewrite take_app_length. f_equal.
  replace (S (S (length p + length m))) with (length (p ++ FENCE_BEGIN :: m ++ [FENCE_END]))%nat
    by (rewrite !length_app; cbn; rewrite length_app; cbn; lia).
  replace (p ++ FENCE_BEGIN :: m ++ FENCE_END :: s)
    with ((p ++ FENCE_BEGIN :: m ++ [FENCE_END]) ++ s)
    by (rewrite <-app_assoc; cbn; by rewrite <-app_assoc).
  by rewrite drop_app_length.
Qed.

Lemma fenced_locate ls p m s :
  fenced ls p m s -> locate_fence ls = Ok (Some (length p, S (length p + length m))).
Proof. intros Hf. apply locate_some. by exists p, m, s. Qed.

(** ** Keys *)

Lemma valid_key_line key :
  validate_key_line key = Ok tt -> clean key /\ key <> FENCE_BEGIN /\ key <> FENCE_END.
Proof.
  unfold validate_key_line. intros H. repeat (case_hyp H; [done|]).
  bool_prop. rewrite contains_char_without in *. bool_prop.
  split_and!; [split; [done|by apply strip_cr_unix]| |]; intros ->; done.
Qed.

Lemma valid_keys_block keys :
  validate_keys keys = Ok tt -> Forall clean keys /\ unmarked keys.
Proof.
  induction keys as [|key keys IH]; cbn.
  - intros _. split; [constructor|]. split; apply not_elem_of_nil.
  - destruct (validate_key_line key) as [[]|] eqn:Hk; [|done]. intros [Hc Hm]%IH.
    apply valid_key_line in Hk as (Hk & Hb & He). split; [by constructor|].
    split; apply not_elem_of_cons; split; try done; by destruct Hm.
Qed.

Lemma block_clean keys : Forall clean keys -> Forall clean (block keys).
Proof.
  intros Hk. constructor; [by vm_compute|]. apply Forall_app. split; [done|].
  constructor; [by vm_compute|constructor].
Qed.

Lemma block_fenced p keys s :
  unmarked p -> unmarked keys -> unmarked s -> fenced (p ++ block keys ++ s) p keys s.
Proof. intros. split; [|done]. unfold block. cbn. by rewrite <-app_assoc. Qed.

(** ** What an open and a close do to the file *)

(** The lines that are not lychgate's. *)
Definition human_lines (existing : string) : list string :=
  match locate_fence (lines existing) with
  | Ok (Some (b, e)) => take b (lines existing) ++ drop (S e) (lines existing)
  | _ => lines existing
  end.

(** The file is cut in two around the place of the fence. *)
Lemma human_split existing f :
  locate_fence (lines existing) = Ok f ->
  exists p s, human_lines existing = p ++ s /\ unmarked p /\ unmarked s
    /\ (forall keys, match f with
         | Some (b, e) => take b (lines existing) ++ block keys ++ drop (S e) (lines existing)
         | None => lines existing ++ block keys
         end = p ++ block keys ++ s)
    /\ (p ++ s ⊆ lines existing).
Proof.
  intros Hf. unfold human_lines. rewrite Hf. destruct f as [[b e]|].
  - apply locate_some in Hf as (p & m & s & Hf & -> & ->).
    exists (take (length p) (lines existing)), (drop (S (S (length p + length m))) (lines existing)).
    destruct Hf as (Hls & Hp & Hm & Hs).
    assert (Ht : take (length p) (lines existing) = p) by (by rewrite Hls, take_app_length).
    assert (Hd : drop (S (S (length p + length m))) (lines existing) = s).
    { apply (app_inv_head p). rewrite <-Ht at 1.
      by apply (fenced_outside _ p m s). }
    rewrite Ht, Hd. split_and!; try done. rewrite Hls. set_solver.
  - apply locate_none in Hf. exists (lines existing), []. rewrite app_nil_r.
    split_and!; [done|done|split; apply not_elem_of_nil| |done]. intros. by rewrite app_nil_r.
Qed.

Lemma join_lines ls : ls <> [] -> Forall clean ls -> lines (join_nl ls +:+ nl) = ls.
Proof. intros Hne Hc. rewrite join_nl_unlines by done. by apply lines_unlines. Qed.

Lemma human_clean existing p s :
  unix existing -> p ++ s ⊆ lines existing -> Forall clean p /\ Forall clean s.
Proof.
  intros Hu Hsub. apply Forall_app, Forall_forall. intros x Hx.
  pose proof (lines_clean _ Hu) as Hc. rewrite Forall_forall in Hc. apply Hc. by apply Hsub.
Qed.

(** The text a removal leaves. *)
Lemma fence_remove_fenced existing p m s :
  fenced (lines existing) p m s -> fence_remove existing = Ok (unlines (p ++ s)).
Proof.
  intros Hf. unfold fence_remove. rewrite (fenced_locate _ _ _ _ Hf).
  rewrite (fenced_outside _ _ _ _ Hf). destruct (p ++ s) as [|l ls] eqn:E; [done|].
  by rewrite join_nl_unlines.
Qed.

Lemma fence_upsert_ok existing keys p s f :
  unix existing -> validate_keys keys = Ok tt -> locate_fence (lines existing) = Ok f ->
  (forall keys, match f with
     | Some (b, e) => take b (lines existing) ++ block keys ++ drop (S e) (lines existing)
     | None => lines existing ++ block keys
     end = p ++ block keys ++ s) ->
  p ++ s ⊆ lines existing ->
  exists out, fence_upsert existing keys = Ok out /\ lines out = p ++ block keys ++ s
    /\ out = unlines (p ++ block keys ++ s).
Proof.
  intros Hu Hk Hl Hsplit Hsub. destruct (valid_keys_block _ Hk) as [Hkc _].
  destruct (human_clean _ _ _ Hu Hsub) as [Hpc Hsc].
  assert (Hne : p ++ block keys ++ s <> []) by (intros ?%app_eq_nil; naive_solver).
  assert (Hc : Forall clean (p ++ block keys ++ s)).
  { rewrite !Forall_app. split_and!; [done|by apply block_clean|done]. }
  exists (unlines (p ++ block keys ++ s)). split_and!; [|by apply lines_unlines|done].
  unfold fence_upsert. rewrite Hk, Hl. cbn zeta. destruct f as [[b e]|];
    rewrite (Hsplit keys); by rewrite join_nl_unlines.
Qed.

(** An open and a close, on the text. *)
Lemma fence_cycle (existing : string) (keys : list string) (f : option (nat * nat))
    (Hunix : unix existing) (Hkeys : validate_keys keys = Ok tt)
    (Hfence : locate_fence (lines existing) = Ok f) :
  exists out p s,
    fence_upsert existing keys = Ok out
    /\ human_lines existing = p ++ s
    /\ lines out = p ++ [FENCE_BEGIN] ++ keys ++ [FENCE_END] ++ s
    /\ human_lines out = human_lines existing
    /\ fence_remove out = Ok (unlines (human_lines existing))
    /\ (f = None -> existing = "" \/ ends_lf existing = true ->
          out = existing +:+ unlines (block keys) /\ fence_remove out = Ok existing).
Proof.
  destruct (human_split _ _ Hfence) as (p & s & Hh & Hp & Hs & Hsplit & Hsub).
  destruct (fence_upsert_ok existing keys p s f) as (out & Ho & Hl & Ht); [done..|].
  destruct (valid_keys_block _ Hkeys) as [_ Hkm].
  pose proof (block_fenced p keys s Hp Hkm Hs) as Hb. rewrite <-Hl in Hb.
  pose proof (fence_remove_fenced _ _ _ _ Hb) as Hr.
  assert (Hho : human_lines out = p ++ s).
  { unfold human_lines. rewrite (fenced_locate _ _ _ _ Hb). by apply (fenced_outside _ _ keys). }
  exists out, p, s. rewrite Hho, Hh, Hr. split_and!; try done.
  { rewrite Hl. unfold block. by rewrite <-!app_assoc. }
  intros -> Hend. assert (Hls : lines existing = p ++ s).
  { rewrite <-Hh. unfold human_lines. by rewrite Hfence. }
  assert (Hback : unlines (lines existing) = existing)
    by (rewrite unlines_lines by done; by apply terminate_done).
  split; [|by rewrite <-Hls, Hback].
  rewrite Ht, <-(Hsplit keys), unlines_app. by rewrite Hback.
Qed.

(** Emergency keys come and go without a trace.  On any [authorized_keys]
    with intact markers, or none, writing the fence succeeds, puts exactly
    the given keys between one pair of markers and keeps every other line in
    its order; removing it then leaves exactly the human lines, byte for
    byte the file before when it had no fence and ended its last line. *)
Theorem fence_roundtrip (existing : string) (keys : list string) (f : option (nat * nat))
    (Hunix : unix existing) (Hkeys : validate_keys keys = Ok tt)
    (Hfence : locate_fence (lines existing) = Ok f) :
  exists out p s,
    fence_upsert existing keys = Ok out
    /\ human_lines existing = p ++ s
    /\ lines out = p ++ [FENCE_BEGIN] ++ keys ++ [FENCE_END] ++ s
    /\ human_lines out = human_lines existing
    /\ fence_remove out = Ok (unlines (human_lines existing))
    /\ (f = None -> existing = "" \/ ends_lf existing = true ->
          out = existing +:+ unlines (block keys) /\ fence_remove out = Ok existing).
Proof. by apply fence_cycle. Qed.

Definition sample_keys : string :=
  "ssh-ed25519 AAAA human@laptop" +:+ nl +:+ "# a note" +:+ nl.

Lemma fence_roundtrip_witness :
  exists out p s,
    fence_upsert sample_keys ["ssh-ed25519 EMERG"] = Ok out
    /\ human_lines sample_keys = p ++ s
    /\ lines out = p ++ [FENCE_BEGIN] ++ ["ssh-ed25519 EMERG"] ++ [FENCE_END] ++ s
    /\ human_lines out = human_lines sample_keys
    /\ fence_remove out = Ok (unlines (human_lines sample_keys))
    /\ (@None (nat * nat) = None -> sample_keys = "" \/ ends_lf sample_keys = true ->
          out = sample_keys +:+ unlines (block ["ssh-ed25519 EMERG"])
          /\ fence_remove out = Ok sample_keys).
Proof. apply (fence_roundtrip sample_keys ["ssh-ed25519 EMERG"] None); vm_compute; reflexivity. Defined.

(** A file with carriage returns does not come back byte for byte: an open
    and a close turn [\r\n] into [\n] on the human lines. *)
Lemma fence_drops_carriage_returns :
  let dos := "ssh-rsa AAAA human" +:+ String CR nl in
  match fence_upsert dos ["ssh-ed25519 EMERG"] with
  | Ok out => fence_remove out = Ok ("ssh-rsa AAAA human" +:+ nl)
  | Err _ => False
  end.
Proof. by vm_compute. Qed.
