(* ===== verification/Deadman.v ===== *)
(** * Deadman: the backstop on the target (core/src/deadman.rs)

    The script the daemon leaves on a target, the deadline file and the
    crontab line that runs it.  The script's own cleanup of
    [authorized_keys] is the awk program it carries; it removes exactly what
    the daemon's close removes. *)

From S2P Require Import Prelude Text Clock Ttl External Authority Inventory TextLines Fence.

Definition SCRIPT_PATH : string := "/etc/lychgate.deadman.sh".
Definition DEADLINE_PATH : string := "/etc/lychgate.deadman.deadline".
Definition FIRED_PATH : string := "/etc/lychgate.deadman.fired".
Definition CRON_MARKER : string := "# LYCHGATE-DEADMAN".

Definition cron_line : string := "* * * * * /bin/sh " +:+ SCRIPT_PATH +:+ " " +:+ CRON_MARKER.

Definition render_deadline (expires_at : SystemTime) : string := dec_u64 (epoch_secs expires_at) +:+ nl.

Definition crontab_with_deadman (existing : string) : string :=
  if existsb (contains CRON_MARKER) (lines existing) then existing
  else
    let out := existing in
    let out := if negb (str_is_empty out) && negb (ends_lf out) then out +:+ nl else out in
    out +:+ cron_line +:+ nl.

Definition crontab_without_deadman (existing : string) : string :=
  let kept := List.filter (fun l => negb (contains CRON_MARKER l)) (lines existing) in
  match kept with
  | [] => ""
  | _ => join_nl kept +:+ nl
  end.

(** The double quote, and a shell variable between double quotes. *)
Definition dq : string := String "034"%char "".
Definition var (x : string) : string := dq +:+ "${" +:+ x +:+ "}" +:+ dq.

(** The outer [None] is the [unreachable!] of [reload_command]. *)
Definition render_script (host : Host) : option (option string) :=
  match ssh host with
  | None => Some None
  | Some cfg =>
      let dropin := match dropin_path cfg with Some p => p | None => DEFAULT_DROPIN end in
      let akeys := authorized_keys_path cfg in
      match reload_command host cfg with
      | None => None
      | Some reload =>
          if contains_char "'"%char dropin || contains_char "'"%char akeys then Some None
          else Some (Some (unlines
            [ "#!/bin/sh";
              "# Rendered by lychgated for host " +:+ name host +:+ ". The dead-man backstop:";
              "# reverts break-glass access at the deadline with no daemon participation.";
              "# Removed when the grant closes; do not edit.";
              "set -u";
              "deadline=" +:+ dq +:+ "$(cat " +:+ DEADLINE_PATH +:+ " 2>/dev/null)" +:+ dq
                +:+ " || exit 0";
              "[ -n " +:+ var "deadline" +:+ " ] || exit 0";
              "now=" +:+ dq +:+ "$(date +%s)" +:+ dq;
              "[ " +:+ var "now" +:+ " -ge " +:+ var "deadline" +:+ " ] || exit 0";
              "";
              "rm -f '" +:+ dropin +:+ "'";
              reload +:+ " || true";
              "";
              "akeys='" +:+ akeys +:+ "'";
              "if [ -f " +:+ var "akeys" +:+ " ]; then";
              "    awk -v b='" +:+ FENCE_BEGIN +:+ "' -v e='" +:+ FENCE_END +:+ "' \";
              "        '$0==b { skip=1; next } $0==e { skip=0; next } !skip { print }' \";
              "        " +:+ var "akeys" +:+ " > " +:+ dq +:+ "${akeys}.lychgate-tmp" +:+ dq
                +:+ " && \";
              "        mv " +:+ dq +:+ "${akeys}.lychgate-tmp" +:+ dq +:+ " " +:+ var "akeys";
              "fi";
              "";
              ": > " +:+ FIRED_PATH;
              "logger -t lychgate-deadman 'deadline passed; break-glass access reverted' || true";
              "( crontab -l 2>/dev/null | grep -v 'LYCHGATE-DEADMAN' | crontab - ) || true";
              "rm -f " +:+ DEADLINE_PATH;
              "exit 0" ]))
      end
  end.

(** The awk program of the script, on the records of the file: its rules in
    order, [next] after the first that matches a marker. *)
Fixpoint awk_strip (skip : bool) (records : list string) : list string :=
  match records with
  | [] => []
  | r :: records =>
      if String.eqb r FENCE_BEGIN then awk_strip true records
      else if String.eqb r FENCE_END then awk_strip false records
      else if skip then awk_strip skip records
      else r :: awk_strip skip records
  end.

(** ** The awk program and [fence_remove] *)

Lemma awk_strip_unmarked skip ls rest :
  unmarked ls -> awk_strip skip (ls ++ rest) = (if skip then [] else ls) ++ awk_strip skip rest.
Proof.
  induction ls as [|l ls IH]; [by destruct skip|]. intros [Hb He]. cbn.
  apply not_elem_of_cons in Hb as [Hb Hb'], He as [He He'].
  destruct (String.eqb_spec l FENCE_BEGIN) as [->|]; [done|].
  destruct (String.eqb_spec l FENCE_END) as [->|]; [done|].
  rewrite IH by done. by destruct skip.
Qed.

Lemma awk_strip_human existing f :
  locate_fence (lines existing) = Ok f ->
  awk_strip false (lines existing) = human_lines existing.
Proof.
  intros Hf. unfold human_lines. rewrite Hf. destruct f as [[b e]|].
  - apply locate_some in Hf as (p & m & s & Hf & -> & ->).
    rewrite (fenced_outside _ _ _ _ Hf). destruct Hf as (-> & Hp & Hm & Hs).
    rewrite awk_strip_unmarked by done. cbn. rewrite awk_strip_unmarked by done. cbn.
    rewrite <-(app_nil_r s) at 1. rewrite awk_strip_unmarked by done. by rewrite app_nil_r.
  - apply locate_none in Hf. rewrite <-(app_nil_r (lines existing)) at 1.
    rewrite awk_strip_unmarked by done. by rewrite app_nil_r.
Qed.

(** ** The crontab *)

Lemma crontab_without_unlines existing :
  crontab_without_deadman existing =
  unlines (List.filter (fun l => negb (contains CRON_MARKER l)) (lines existing)).
Proof.
  unfold crontab_without_deadman. destruct (List.filter _ _) eqn:E; [done|].
  by rewrite join_nl_unlines.
Qed.

Lemma filter_unmarked ls :
  existsb (contains CRON_MARKER) ls = false ->
  List.filter (fun l => negb (contains CRON_MARKER l)) ls = ls.
Proof.
  induction ls as [|l ls IH]; [done|]. cbn. intros [Hl Hls]%orb_false_iff.
  rewrite Hl. cbn. by rewrite IH.
Qed.

Lemma crontab_with_text existing :
  existsb (contains CRON_MARKER) (lines existing) = false ->
  crontab_with_deadman existing = terminate existing +:+ cron_line +:+ nl.
Proof.
  unfold crontab_with_deadman, terminate. intros ->.
  destruct (str_is_empty existing), (ends_lf existing); done.
Qed.

Lemma cron_line_clean : clean cron_line.
Proof. by vm_compute. Qed.

Lemma crontab_with_lines existing :
  unix existing -> existsb (contains CRON_MARKER) (lines existing) = false ->
  lines (crontab_with_deadman existing) = lines existing ++ [cron_line].
Proof.
  intros Hu Hm. rewrite crontab_with_text, <-unlines_lines by done.
  rewrite lines_unlines_app by (by apply lines_clean).
  change (cron_line +:+ nl) with (unlines [cron_line]).
  rewrite lines_unlines by (constructor; [apply cron_line_clean|constructor]). done.
Qed.

(** ** Properties *)



(** An installation and a removal, on the text. *)
Lemma crontab_cycle (existing : string) (Hunix : unix existing)
    (Hfree : existsb (contains CRON_MARKER) (lines existing) = false) :
  crontab_with_deadman existing = terminate existing +:+ cron_line +:+ nl
  /\ lines (crontab_with_deadman existing) = lines existing ++ [cron_line]
  /\ crontab_with_deadman (crontab_with_deadman existing) = crontab_with_deadman existing
  /\ crontab_without_deadman (crontab_with_deadman existing) = terminate existing
  /\ (existing = "" \/ ends_lf existing = true ->
        crontab_without_deadman (crontab_with_deadman existing) = existing).
Proof.
  assert (Hl := crontab_with_lines _ Hunix Hfree).
  assert (Hw : crontab_without_deadman (crontab_with_deadman existing) = terminate existing).
  { rewrite crontab_without_unlines, Hl, List.filter_app, filter_unmarked by done.
    cbn [List.filter]. replace (contains CRON_MARKER cron_line) with true by done.
    cbn. rewrite app_nil_r. by apply unlines_lines. }
  split_and!; [by apply crontab_with_text|done| |done|].
  - unfold crontab_with_deadman at 1. rewrite Hl, existsb_app. cbn.
    by rewrite (orb_true_r (existsb _ _)).
  - intros Hend. rewrite Hw. by apply terminate_done.
Qed.

(** The crontab comes back.  Installing the dead-man keeps every byte of
    root's crontab and adds one line, installing it again changes nothing,
    and removing it leaves the crontab as it was, up to the end of its last
    line. *)
Theorem crontab_roundtrip (existing : string) (Hunix : unix existing)
    (Hfree : existsb (contains CRON_MARKER) (lines existing) = false) :
  crontab_with_deadman existing = terminate existing +:+ cron_line +:+ nl
  /\ lines (crontab_with_deadman existing) = lines existing ++ [cron_line]
  /\ crontab_with_deadman (crontab_with_deadman existing) = crontab_with_deadman existing
  /\ crontab_without_deadman (crontab_with_deadman existing) = terminate existing
  /\ (existing = "" \/ ends_lf existing = true ->
        crontab_without_deadman (crontab_with_deadman existing) = existing).
Proof. by apply crontab_cycle. Qed.

Definition sample_crontab : string := "0 3 * * * /usr/local/bin/backup" +:+ nl.

Lemma crontab_roundtrip_witness :
  crontab_with_deadman sample_crontab = terminate sample_crontab +:+ cron_line +:+ nl
  /\ lines (crontab_with_deadman sample_crontab) = lines sample_crontab ++ [cron_line]
  /\ crontab_with_deadman (crontab_with_deadman sample_crontab) = crontab_with_deadman sample_crontab
  /\ crontab_without_deadman (crontab_with_deadman sample_crontab) = terminate sample_crontab
  /\ (sample_crontab = "" \/ ends_lf sample_crontab = true ->
        crontab_without_deadman (crontab_with_deadman sample_crontab) = sample_crontab).
Proof. apply crontab_roundtrip; vm_compute; reflexivity. Defined.
