(* ===== verification/Channel.v ===== *)
(** * Channel: the driver seam (core/src/channel.rs)

    The drivers are one implementation per channel, several of them talking
    to machines over third-party programs: they are the operations of a type
    class over a world [W] (what the drivers hold and what the targets show).
    The contract the trait's documentation states is a second class; the
    orchestration is proved against it. *)

From S2P Require Import Prelude Text Clock Ttl External Approval Authority Inventory.

Inductive DriverError := MkDriverError (text : string).
#[export] Instance DriverError_eq_dec : EqDecision DriverError.
Proof. solve_decision. Defined.

Inductive ChannelState := ChClosed | ChOpen.
#[export] Instance ChannelState_eq_dec : EqDecision ChannelState.
Proof. solve_decision. Defined.

Record ApplyCtx := { ctx_ttl_secs : Z; ctx_expires_at : SystemTime }.

(** The order of the enum's declaration, which is that of the driver map. *)
Definition all_channels : list Channel :=
  [Ssh; AuthorizedKeys; Bmc; Vnc; Http; Mqtt; Serial; Device].

Definition channel_index (c : Channel) : nat :=
  match c with
  | Ssh => 0 | AuthorizedKeys => 1 | Bmc => 2 | Vnc => 3
  | Http => 4 | Mqtt => 5 | Serial => 6 | Device => 7
  end%nat.

#[export] Instance channel_index_inj : Inj (=) (=) channel_index.
Proof. intros [] []; cbn; congruence. Qed.

#[export] Program Instance Channel_countable : Countable Channel :=
  inj_countable channel_index (fun n => all_channels !! n) _.
Next Obligation. by intros []. Qed.

(** The derived [Debug] of the enum. *)
Definition channel_debug (c : Channel) : string :=
  match c with
  | Ssh => "Ssh" | AuthorizedKeys => "AuthorizedKeys" | Bmc => "Bmc" | Vnc => "Vnc"
  | Http => "Http" | Mqtt => "Mqtt" | Serial => "Serial" | Device => "Device"
  end.

(** The trait [ChannelDriver], one method set per channel. *)
Class ChannelDriver (W : Type) := {
  drv_apply : Channel -> Host -> ApplyCtx -> W -> W * result DriverError unit;
  drv_revert : Channel -> Host -> W -> W * result DriverError unit;
  drv_verify : Channel -> Host -> W -> W * result DriverError ChannelState;
  drv_renew : Channel -> Host -> ApplyCtx -> W -> W * result DriverError unit;
  drv_take_secret : Channel -> W -> W * option string;
  drv_reestablish : Channel -> Host -> W -> W * result DriverError ChannelState;
  drv_suspend : Channel -> W -> W;
}.

(** The struct [DriverSet]: the channels that have a driver, the world behind
    the drivers, and, for the proofs only, the worlds the calls went
    through, latest first. *)
Record DriverSet (W : Type) := {
  registered : gset Channel;
  world : W;
  seen : list W;
}.
Arguments registered {W} _.
Arguments world {W} _.
Arguments seen {W} _.

Definition set_world {W} (s : DriverSet W) (w : W) : DriverSet W :=
  {| registered := registered s; world := w; seen := w :: seen s |}.

Inductive ApplyOutcome :=
| Applied (applied : list Channel)
| Failed (failed : Channel) (error : DriverError) (reverted stuck : list Channel).

Inductive RevertOutcome :=
| Reverted
| Stuck (stuck : list (Channel * DriverError)).

Inductive ReestablishOutcome :=
| Restored
| Lost (lost : list (Channel * DriverError)).

Definition no_driver (c : Channel) : DriverError :=
  MkDriverError ("no driver registered for channel " +:+ channel_debug c).

Section Orchestration.
Context {W : Type} `{ChannelDriver W}.

Definition new (w : W) : DriverSet W := {| registered := ∅; world := w; seen := [] |}.

Definition register (s : DriverSet W) (channel : Channel)
    : DriverSet W * result DriverError unit :=
  if bool_decide (channel ∈ registered s)
  then (s, Err (MkDriverError ("a driver for channel " +:+ channel_debug channel
                               +:+ " is already registered")))
  else ({| registered := {[channel]} ∪ registered s; world := world s; seen := seen s |}, Ok tt).

Definition take_secret (s : DriverSet W) (channel : Channel) : DriverSet W * option string :=
  if bool_decide (channel ∈ registered s)
  then let '(w, x) := drv_take_secret channel (world s) in (set_world s w, x)
  else (s, None).

Definition drivable (s : DriverSet W) (requested : list Channel) : list Channel :=
  List.filter (fun c => bool_decide (c ∈ registered s)) requested.

Definition suspend_all (s : DriverSet W) : DriverSet W :=
  fold_left (fun s c => set_world s (drv_suspend c (world s)))
    (List.filter (fun c => bool_decide (c ∈ registered s)) all_channels) s.

(** The unwind loop of [apply_channels]; [None] is its [expect]. *)
Fixpoint unwind (s : DriverSet W) (host : Host) (to_revert reverted stuck : list Channel)
    : option (DriverSet W * (list Channel * list Channel)) :=
  match to_revert with
  | [] => Some (s, (reverted, stuck))
  | c :: rest =>
      if bool_decide (c ∈ registered s) then
        let '(w, r) := drv_revert c host (world s) in
        match r with
        | Ok _ => unwind (set_world s w) host rest (reverted ++ [c]) stuck
        | Err _ => unwind (set_world s w) host rest reverted (stuck ++ [c])
        end
      else None
  end.

Fixpoint apply_loop (s : DriverSet W) (host : Host) (ctx : ApplyCtx)
    (channels applied : list Channel) : option (DriverSet W * ApplyOutcome) :=
  match channels with
  | [] => Some (s, Applied applied)
  | channel :: rest =>
      if bool_decide (channel ∈ registered s) then
        let '(w, r) := drv_apply channel host ctx (world s) in
        match r with
        | Ok _ => apply_loop (set_world s w) host ctx rest (applied ++ [channel])
        | Err error =>
            match unwind (set_world s w) host (channel :: rev applied) [] [] with
            | Some (s', (reverted, stuck)) => Some (s', Failed channel error reverted stuck)
            | None => None
            end
        end
      else None
  end.

(** [None] is the panic on a channel with no driver. *)
Definition apply_channels (s : DriverSet W) (host : Host) (channels : list Channel)
    (ctx : ApplyCtx) : option (DriverSet W * ApplyOutcome) :=
  apply_loop s host ctx channels [].

Fixpoint renew_channels (s : DriverSet W) (host : Host) (channels : list Channel)
    (ctx : ApplyCtx) : DriverSet W * result (Channel * DriverError) unit :=
  match channels with
  | [] => (s, Ok tt)
  | channel :: rest =>
      if bool_decide (channel ∈ registered s) then
        let '(w, r) := drv_renew channel host ctx (world s) in
        match r with
        | Ok _ => renew_channels (set_world s w) host rest ctx
        | Err e => (set_world s w, Err (channel, e))
        end
      else (s, Err (channel, no_driver channel))
  end.

Fixpoint revert_loop (s : DriverSet W) (host : Host) (channels : list Channel)
    (stuck : list (Channel * DriverError)) : DriverSet W * list (Channel * DriverError) :=
  match channels with
  | [] => (s, stuck)
  | channel :: rest =>
      if bool_decide (channel ∈ registered s) then
        let '(w, r) := drv_revert channel host (world s) in
        match r with
        | Ok _ => revert_loop (set_world s w) host rest stuck
        | Err e => revert_loop (set_world s w) host rest (stuck ++ [(channel, e)])
        end
      else revert_loop s host rest (stuck ++ [(channel, no_driver channel)])
  end.

Definition revert_channels (s : DriverSet W) (host : Host) (channels : list Channel)
    : DriverSet W * RevertOutcome :=
  let '(s', stuck) := revert_loop s host (rev channels) [] in
  (s', match stuck with [] => Reverted | _ => Stuck stuck end).

Fixpoint reestablish_loop (s : DriverSet W) (host : Host) (channels : list Channel)
    (lost : list (Channel * DriverError)) : DriverSet W * list (Channel * DriverError) :=
  match channels with
  | [] => (s, lost)
  | channel :: rest =>
      if bool_decide (channel ∈ registered s) then
        let '(w, r) := drv_reestablish channel host (world s) in
        match r with
        | Ok ChOpen => reestablish_loop (set_world s w) host rest lost
        | Ok ChClosed =>
            reestablish_loop (set_world s w) host rest
              (lost ++ [(channel, MkDriverError ("channel " +:+ channel_debug channel
                           +:+ " read back closed after re-establishment"))])
        | Err e => reestablish_loop (set_world s w) host rest (lost ++ [(channel, e)])
        end
      else reestablish_loop s host rest (lost ++ [(channel, no_driver channel)])
  end.

Definition reestablish_channels (s : DriverSet W) (host : Host) (channels : list Channel)
    : DriverSet W * ReestablishOutcome :=
  let '(s', lost) := reestablish_loop s host channels [] in
  (s', match lost with [] => Restored | _ => Lost lost end).
End Orchestration.

(** ** The contract

    [exposed w h c]: the target named [h] really offers channel [c].  A
    driver touches only its own channel of the host it is given; a revert
    that succeeds leaves the channel closed; a verification reads the actual
    state.  Nothing is assumed of a call that fails. *)
Class DriverContract (W : Type) `{ChannelDriver W} := {
  exposed : W -> string -> Channel -> bool;
  apply_frame c host ctx w h' c' :
    (h', c') <> (name host, c) ->
    exposed (drv_apply c host ctx w).1 h' c' = exposed w h' c';
  revert_frame c host w h' c' :
    (h', c') <> (name host, c) -> exposed (drv_revert c host w).1 h' c' = exposed w h' c';
  revert_ok_closes c host w :
    (drv_revert c host w).2 = Ok tt -> exposed (drv_revert c host w).1 (name host) c = false;
  renew_frame c host ctx w h' c' :
    (h', c') <> (name host, c) -> exposed (drv_renew c host ctx w).1 h' c' = exposed w h' c';
  reestablish_frame c host w h' c' :
    (h', c') <> (name host, c) ->
    exposed (drv_reestablish c host w).1 h' c' = exposed w h' c';
  reestablish_reads c host w :
    (drv_reestablish c host w).2 = Ok ChOpen ->
    exposed (drv_reestablish c host w).1 (name host) c = true;
  take_secret_frame c w h' c' : exposed (drv_take_secret c w).1 h' c' = exposed w h' c';
  suspend_opens_nothing c w h' c' :
    exposed (drv_suspend c w) h' c' = true -> exposed w h' c' = true;
}.

(** ** What the orchestration guarantees under the contract *)

Section Guarantees.
Context {W : Type} `{Hc : DriverContract W}.
Implicit Types (s : DriverSet W) (w : W).

(** [w] differs from [w0] at most on the channels [cs] of host [h]. *)
Definition agree_outside (w0 : W) (h : string) (cs : list Channel) (w : W) : Prop :=
  forall h' c', ~ (h' = h /\ c' ∈ cs) -> exposed w h' c' = exposed w0 h' c'.

(** From [s] to [s'] only the channels [cs] of [h] were touched, in every
    world the calls went through. *)
Definition touches (h : string) (cs : list Channel) s s' : Prop :=
  registered s' = registered s /\
  exists ws, seen s' = ws ++ seen s /\
    Forall (agree_outside (world s) h cs) (world s' :: ws).

Lemma agree_outside_refl h cs w : agree_outside w h cs w.
Proof. by intros ???. Qed.

Lemma agree_outside_trans h cs w1 w2 w3 :
  agree_outside w1 h cs w2 -> agree_outside w2 h cs w3 -> agree_outside w1 h cs w3.
Proof. intros H1 H2 h' c' Hn. rewrite H2 by done. by apply H1. Qed.

Lemma agree_outside_weaken h cs cs' w w' :
  cs ⊆ cs' -> agree_outside w h cs w' -> agree_outside w h cs' w'.
Proof. intros Hs Ha h' c' Hn. apply Ha. naive_solver. Qed.

Lemma touches_refl h cs s : touches h cs s s.
Proof.
  split; [done|]. exists []. split; [done|]. constructor; [apply agree_outside_refl|constructor].
Qed.

Lemma touches_trans h cs s1 s2 s3 :
  touches h cs s1 s2 -> touches h cs s2 s3 -> touches h cs s1 s3.
Proof.
  intros (Hr1 & ws1 & Hs1 & Hf1) (Hr2 & ws2 & Hs2 & Hf2).
  apply Forall_cons in Hf1 as [Hw1 Hf1]. apply Forall_cons in Hf2 as [Hw2 Hf2].
  split; [by rewrite Hr2|]. exists (ws2 ++ ws1). split; [by rewrite Hs2, Hs1, (assoc_L (++))|].
  constructor; [by eapply agree_outside_trans|]. apply Forall_app. split; [|done].
  eapply Forall_impl; [exact Hf2|]. intros. by eapply agree_outside_trans.
Qed.

Lemma touches_weaken h cs cs' s s' : cs ⊆ cs' -> touches h cs s s' -> touches h cs' s s'.
Proof.
  intros Hs (Hr & ws & Hws & Hf). split; [done|]. exists ws. split; [done|].
  eapply Forall_impl; [exact Hf|]. intros. by eapply agree_outside_weaken.
Qed.

(** One driver call on a channel of [cs]. *)
Lemma touches_call h cs c s w :
  c ∈ cs ->
  (forall h' c', (h', c') <> (h, c) -> exposed w h' c' = exposed (world s) h' c') ->
  touches h cs s (set_world s w).
Proof.
  intros Hin Hf. split; [done|]. exists [w]. split; [done|].
  assert (agree_outside (world s) h cs w); [|by repeat constructor].
  intros h' c' Hn. apply Hf. intros E. simplify_eq. by apply Hn.
Qed.

Lemma touches_outside h cs s s' h' c' :
  touches h cs s s' -> ~ (h' = h /\ c' ∈ cs) ->
  exposed (world s') h' c' = exposed (world s) h' c'.
Proof. intros (_ & ws & _ & Hf). apply Forall_cons in Hf as [Ha _]. apply Ha. Qed.

Lemma touches_registered h cs s s' : touches h cs s s' -> registered s' = registered s.
Proof. by intros []. Qed.

Lemma in_rev_elem (c : Channel) l : c ∈ l <-> c ∈ rev l.
Proof. rewrite !base.list_elem_of_In. apply in_rev. Qed.

(** What a revert sweep over [l] leaves exposed is among the channels
    reported stuck. *)
Lemma unwind_spec s host l rv st :
  Forall (fun c => c ∈ registered s) l ->
  exists s' rv' st', unwind s host l rv st = Some (s', (rv ++ rv', st ++ st'))
    /\ touches (name host) l s s'
    /\ rv' ++ st' ≡ₚ l
    /\ (forall c, c ∈ l -> exposed (world s') (name host) c = true -> c ∈ st').
Proof.
  revert s rv st. induction l as [|c l IH]; intros s rv st Hreg.
  { exists s, [], []. rewrite !app_nil_r. split_and!; [done|apply touches_refl|done|].
    by intros c ?%not_elem_of_nil. }
  apply Forall_cons in Hreg as [Hrc Hreg]. cbn [unwind].
  rewrite bool_decide_true by done.
  destruct (drv_revert c host (world s)) as [w r] eqn:Hw.
  assert (Ht : touches (name host) (c :: l) s (set_world s w)).
  { eapply (touches_call _ _ c); [left|]. intros h' c' Hn.
    pose proof (revert_frame c host (world s) h' c' Hn) as Hf. by rewrite Hw in Hf. }
  destruct r as [u|e].
  - destruct u.
    destruct (IH (set_world s w) (rv ++ [c]) st) as (s' & rv' & st' & Hu & Htl & Hp & Hex); [done|].
    exists s', (c :: rv'), st'. rewrite Hu. split_and!.
    + by rewrite <-(assoc_L (++)).
    + eapply touches_trans; [done|]. eapply touches_weaken; [|done]. set_solver.
    + cbn. by rewrite Hp.
    + intros c' [->|Hin]%elem_of_cons Hx; [|by apply Hex].
      destruct (decide (c ∈ l)) as [Hl|Hl]; [by apply Hex|].
      rewrite (touches_outside _ _ _ _ _ _ Htl) in Hx by naive_solver.
      pose proof (revert_ok_closes c host (world s)) as Hcl. rewrite Hw in Hcl. cbn in Hcl, Hx.
      rewrite Hcl in Hx; done.
  - destruct (IH (set_world s w) rv (st ++ [c])) as (s' & rv' & st' & Hu & Htl & Hp & Hex); [done|].
    exists s', rv', (c :: st'). rewrite Hu. split_and!.
    + by rewrite <-(assoc_L (++)).
    + eapply touches_trans; [done|]. eapply touches_weaken; [|done]. set_solver.
    + rewrite <-Hp. symmetry. apply Permutation_middle.
    + intros c' [->|Hin]%elem_of_cons Hx; [left|right; by apply Hex].
Qed.

(** The result of the apply loop, with what it may have left exposed. *)
Definition apply_ok (s0 : DriverSet W) (host : Host) (all : list Channel)
    (s' : DriverSet W) (out : ApplyOutcome) : Prop :=
  match out with
  | Applied applied => applied = all
  | Failed failed _ reverted stuck =>
      failed ∈ all /\ reverted ++ stuck ⊆ all /\
      (forall c, exposed (world s') (name host) c = true ->
         exposed (world s0) (name host) c = true \/ c ∈ stuck)
  end.

Lemma apply_loop_spec s0 s host ctx all applied channels :
  all = applied ++ channels ->
  Forall (fun c => c ∈ registered s) all ->
  touches (name host) applied s0 s ->
  exists s' out, apply_loop s host ctx channels applied = Some (s', out)
    /\ touches (name host) all s0 s' /\ apply_ok s0 host all s' out.
Proof.
  intros -> Hreg Ht. revert s applied Hreg Ht.
  induction channels as [|c channels IH]; intros s applied Hreg Ht; cbn [apply_loop].
  { rewrite app_nil_r in *. eexists _, _. split_and!; done. }
  pose proof Hreg as Hreg'. rewrite Forall_app, Forall_cons in Hreg'.
  destruct Hreg' as (Ha & Hrc & Hch). rewrite bool_decide_true by done.
  destruct (drv_apply c host ctx (world s)) as [w r] eqn:Hw.
  assert (Ht1 : touches (name host) (applied ++ [c]) s0 (set_world s w)).
  { eapply touches_trans; [eapply touches_weaken; [|exact Ht]; set_solver|].
    eapply (touches_call _ _ c); [set_solver|]. intros h' c' Hn.
    pose proof (apply_frame c host ctx (world s) h' c' Hn) as Hf. by rewrite Hw in Hf. }
  destruct r as [u|error].
  - destruct (IH (set_world s w) (applied ++ [c])) as (s' & out & Ho & Htt & Hok);
      rewrite <-?(assoc_L (++)); [done..|].
    rewrite <-(assoc_L (++)) in Htt, Hok. eauto.
  - destruct (unwind_spec (set_world s w) host (c :: rev applied) [] [])
      as (s' & rv & st & Hu & Htu & Hp & Hex).
    { apply Forall_cons. split; [done|]. by apply Forall_rev. }
    cbn [app] in Hu. rewrite Hu. eexists _, _. split; [done|].
    assert (Hsub : c :: rev applied ⊆ applied ++ [c]).
    { intros x Hx. apply elem_of_cons in Hx. rewrite elem_of_app, list_elem_of_singleton.
      rewrite <-in_rev_elem in Hx. tauto. }
    assert (Hts : touches (name host) (applied ++ [c]) s0 s').
    { eapply touches_trans; [exact Ht1|]. by eapply touches_weaken. }
    split.
    + eapply touches_weaken; [|exact Hts]. set_solver.
    + cbn. split; [set_solver|]. split.
      { intros x Hx. rewrite Hp in Hx. apply Hsub in Hx. set_solver. }
      intros x Hx. destruct (decide (x ∈ c :: rev applied)) as [Hin|Hin]; [right; by apply Hex|].
      left. rewrite <-Hx. symmetry. apply (touches_outside _ _ _ _ _ _ Hts).
      intros [_ Hxx]. apply Hin. rewrite elem_of_cons, <-in_rev_elem. set_solver.
Qed.

Lemma apply_channels_spec s host channels ctx :
  Forall (fun c => c ∈ registered s) channels ->
  exists s' out, apply_channels s host channels ctx = Some (s', out)
    /\ touches (name host) channels s s' /\ apply_ok s host channels s' out.
Proof. intros Hr. apply (apply_loop_spec s s host ctx channels [] channels); [done..|]. apply touches_refl. Qed.

Lemma drivable_registered s requested :
  Forall (fun c => c ∈ registered s) (drivable s requested).
Proof.
  apply Forall_forall. intros c Hin. apply base.list_elem_of_In, filter_In in Hin as [_ Hb].
  by apply bool_decide_eq_true in Hb.
Qed.

Lemma revert_loop_spec s host l st :
  exists s' st', revert_loop s host l st = (s', st ++ st')
    /\ touches (name host) l s s'
    /\ st'.*1 `sublist_of` l
    /\ (forall c, c ∈ l -> exposed (world s') (name host) c = true -> c ∈ st'.*1)
    /\ (forall c, c ∈ l -> c ∉ registered s -> c ∈ st'.*1).
Proof.
  revert s st. induction l as [|c l IH]; intros s st; cbn [revert_loop].
  { exists s, []. rewrite app_nil_r. split_and!; [done|apply touches_refl|done|..];
      by intros c ?%not_elem_of_nil. }
  destruct (decide (c ∈ registered s)) as [Hrc|Hrc].
  - rewrite bool_decide_true by done.
    destruct (drv_revert c host (world s)) as [w r] eqn:Hw.
    assert (Ht : touches (name host) (c :: l) s (set_world s w)).
    { eapply (touches_call _ _ c); [left|]. intros h' c' Hn.
      pose proof (revert_frame c host (world s) h' c' Hn) as Hf. by rewrite Hw in Hf. }
    destruct r as [[]|e].
    + destruct (IH (set_world s w) st) as (s' & st' & Hu & Htl & Hp & Hex & Hrg).
      exists s', st'. rewrite Hu. split_and!; [done|..].
      * eapply touches_trans; [done|]. eapply touches_weaken; [|done]. set_solver.
      * by apply sublist_cons.
      * intros c' [->|Hin]%elem_of_cons Hx; [|by apply Hex].
        destruct (decide (c ∈ l)) as [Hl|Hl]; [by apply Hex|].
        rewrite (touches_outside _ _ _ _ _ _ Htl) in Hx by naive_solver.
        pose proof (revert_ok_closes c host (world s)) as Hcl. rewrite Hw in Hcl. cbn in Hcl, Hx.
        rewrite Hcl in Hx; done.
      * intros c' [->|Hin]%elem_of_cons Hn; [done|by apply Hrg].
    + destruct (IH (set_world s w) (st ++ [(c, e)])) as (s' & st' & Hu & Htl & Hp & Hex & Hrg).
      exists s', ((c, e) :: st'). rewrite Hu, <-(assoc_L (++)). split_and!; [done|..].
      * eapply touches_trans; [done|]. eapply touches_weaken; [|done]. set_solver.
      * cbn. by constructor.
      * intros c' [->|Hin]%elem_of_cons Hx; [left|right; by apply Hex].
      * intros c' [->|Hin]%elem_of_cons Hn; [done|right; by apply Hrg].
  - rewrite bool_decide_false by done.
    destruct (IH s (st ++ [(c, no_driver c)])) as (s' & st' & Hu & Htl & Hp & Hex & Hrg).
    exists s', ((c, no_driver c) :: st'). rewrite Hu, <-(assoc_L (++)). split_and!; [done|..].
    + eapply touches_weaken; [|done]. set_solver.
    + cbn. by constructor.
    + intros c' [->|Hin]%elem_of_cons Hx; [left|right; by apply Hex].
    + intros c' [->|Hin]%elem_of_cons Hn; [left|right; by apply Hrg].
Qed.

Lemma revert_channels_spec s host channels :
  exists s' out, revert_channels s host channels = (s', out)
    /\ touches (name host) channels s s'
    /\ match out with
       | Reverted => forall c, c ∈ channels ->
           exposed (world s') (name host) c = false /\ c ∈ registered s
       | Stuck stuck => stuck <> [] /\ stuck.*1 `sublist_of` rev channels /\
           forall c, c ∈ channels -> exposed (world s') (name host) c = true -> c ∈ stuck.*1
       end.
Proof.
  unfold revert_channels.
  destruct (revert_loop_spec s host (rev channels) []) as (s' & st & -> & Ht & Hp & Hex & Hrg).
  eexists s', _. split; [done|]. split.
  { eapply touches_weaken; [|exact Ht]. intros c. by rewrite <-in_rev_elem. }
  cbn [app]. destruct st as [|x st].
  - intros c Hin. rewrite in_rev_elem in Hin. split.
    + destruct (exposed _ _ c) eqn:Hx; [|done]. apply Hex in Hx; [|done].
      by apply not_elem_of_nil in Hx.
    + destruct (decide (c ∈ registered s)) as [|Hn]; [done|].
      apply Hrg in Hn; [|done]. by apply not_elem_of_nil in Hn.
  - split; [done|]. split; [done|]. intros c Hin. rewrite in_rev_elem in Hin. by apply Hex.
Qed.

Lemma renew_channels_touches s host channels ctx :
  touches (name host) channels s (renew_channels s host channels ctx).1.
Proof.
  revert s. induction channels as [|c l IH]; intros s; cbn [renew_channels]; [apply touches_refl|].
  case_bool_decide; [|apply touches_refl].
  destruct (drv_renew c host ctx (world s)) as [w r] eqn:Hw.
  assert (Ht : touches (name host) (c :: l) s (set_world s w)).
  { eapply (touches_call _ _ c); [left|]. intros h' c' Hn.
    pose proof (renew_frame c host ctx (world s) h' c' Hn) as Hf. by rewrite Hw in Hf. }
  destruct r; [|done]. eapply touches_trans; [exact Ht|].
  eapply touches_weaken; [|apply IH]. set_solver.
Qed.

Lemma reestablish_loop_spec s host l lost :
  exists s' lost', reestablish_loop s host l lost = (s', lost ++ lost')
    /\ touches (name host) l s s'
    /\ (lost' = [] -> NoDup l -> forall c, c ∈ l -> exposed (world s') (name host) c = true).
Proof.
  revert s lost. induction l as [|c l IH]; intros s lost; cbn [reestablish_loop].
  { exists s, []. rewrite app_nil_r. split_and!; [done|apply touches_refl|].
    intros _ _ c ?%not_elem_of_nil. done. }
  assert (Hlost : forall s1 x, touches (name host) (c :: l) s s1 ->
    exists s' lost', reestablish_loop s1 host l (lost ++ [x]) = (s', lost ++ lost')
    /\ touches (name host) (c :: l) s s'
    /\ (lost' = [] -> NoDup (c :: l) ->
        forall c', c' ∈ c :: l -> exposed (world s') (name host) c' = true)).
  { intros s1 x Ht. destruct (IH s1 (lost ++ [x])) as (s' & lost' & Hu & Htl & _).
    exists s', (x :: lost'). rewrite Hu, <-(assoc_L (++)). split_and!; [done| |done].
    eapply touches_trans; [done|]. eapply touches_weaken; [|done]. set_solver. }
  case_bool_decide as Hrc; [|apply Hlost, touches_refl].
  destruct (drv_reestablish c host (world s)) as [w r] eqn:Hw.
  assert (Ht : touches (name host) (c :: l) s (set_world s w)).
  { eapply (touches_call _ _ c); [left|]. intros h' c' Hn.
    pose proof (reestablish_frame c host (world s) h' c' Hn) as Hf. by rewrite Hw in Hf. }
  destruct r as [[]|e]; [by apply Hlost| |by apply Hlost].
  destruct (IH (set_world s w) lost) as (s' & lost' & Hu & Htl & Hx).
  exists s', lost'. rewrite Hu. split_and!; [done|..].
  - eapply touches_trans; [done|]. eapply touches_weaken; [|done]. set_solver.
  - intros Hl [Hni Hnd]%NoDup_cons c' [->|Hin]%elem_of_cons; [|by apply Hx].
    rewrite (touches_outside _ _ _ _ _ _ Htl) by naive_solver.
    pose proof (reestablish_reads c host (world s)) as Hr. rewrite Hw in Hr. by apply Hr.
Qed.

Lemma reestablish_channels_touches s host channels :
  touches (name host) channels s (reestablish_channels s host channels).1.
Proof.
  unfold reestablish_channels.
  by destruct (reestablish_loop_spec s host channels []) as (s' & lost & -> & Ht & _).
Qed.

Lemma take_secret_touches s h c : touches h [] s (take_secret s c).1.
Proof.
  unfold take_secret. case_bool_decide; [|apply touches_refl].
  destruct (drv_take_secret c (world s)) as [w x] eqn:Hw. cbn.
  split; [done|]. exists [w]. split; [done|].
  assert (agree_outside (world s) h [] w); [|by repeat constructor].
  intros h' c' _. pose proof (take_secret_frame c (world s) h' c') as Hf. by rewrite Hw in Hf.
Qed.

(** *** Properties *)



(** Re-establishment after a restart: [Restored] means every channel of
    the grant is really open again. *)
Theorem restored_means_open (s s' : DriverSet W) (host : Host) (channels : list Channel)
    (Hnd : NoDup channels) (Hres : reestablish_channels s host channels = (s', Restored)) :
  forall c, c ∈ channels -> exposed (world s') (name host) c = true.
Proof.
  unfold reestablish_channels in Hres.
  destruct (reestablish_loop_spec s host channels []) as (s1 & lost & Hl & _ & Hx).
  rewrite Hl in Hres. destruct lost; [|done]. simplify_eq. by apply Hx.
Qed.
End Guarantees.
