(* ===== verification/Seam.v ===== *)
(** * Seam: a driver behind the channel trait

    A driver's run as the orchestration sees it: the error is a
    [DriverError]; a panic would unwind the daemon instead of returning, and
    stands for an error here (the drivers' files say where it cannot
    happen). *)

From S2P Require Import Prelude Text Inventory DriverMonad Channel.

Definition unwound : DriverError := MkDriverError "panicked".

Section Settle.
Context {W E : Type} (message : E -> string).

Definition settle {A} (m : eff W E A) : W -> W * result DriverError A := fun w =>
  let '(w', r) := m w in
  (w', match r with
       | Ok a => Ok a
       | Err (Refused e) => Err (MkDriverError (message e))
       | Err Panic | Err OutOfFuel => Err unwound
       end).

Lemma settle_state {A} (m : eff W E A) w : (settle m w).1 = (m w).1.
Proof. unfold settle. by destruct (m w). Qed.

Lemma settle_Ok {A} (m : eff W E A) w a : (settle m w).2 = Ok a -> (m w).2 = Ok a.
Proof. unfold settle. destruct (m w) as [w' [b|[]]]; cbn; intros; by simplify_eq. Qed.

(** The other channels have no driver in a set of one. *)
Definition undriven {A} (c : Channel) : W -> W * result DriverError A := fun w => (w, Err (no_driver c)).
End Settle.
