(* ===== verification/Templates.v ===== *)
(** * Templates: the command templates of the vnc and generic channels

    The placeholder scanner and the template checks of core/src/vnc.rs and
    core/src/generic.rs, the verify markers, and the break-glass passwords of
    core/src/bmc.rs. *)

From S2P Require Import Prelude Text Clock Ttl External Authority Inventory TextLines Channel.

(** ** The scanner (core/src/vnc.rs) *)

Definition SET_PLACEHOLDERS : list string := ["target"; "password_file"].
Definition CLEAR_PLACEHOLDERS : list string := ["target"].

Inductive VncTemplateError :=
| Quoted | MissingPasswordFile | ClearHasPasswordFile | UnknownPlaceholder (p : string).
#[export] Instance VncTemplateError_eq_dec : EqDecision VncTemplateError.
Proof. solve_decision. Defined.

Definition is_ascii_alphabetic (c : ascii) : bool :=
  let b := byte_of_ascii c in
  ((65 <=? b) && (b <=? 90)) || ((97 <=? b) && (b <=? 122)).
Definition is_name_char (c : ascii) : bool := is_ascii_alphabetic c || bool_decide (c = "_"%char).

(** The inner loop: the run of name characters, and what follows it. *)
Fixpoint name_run (s : string) : string * string :=
  match s with
  | "" => ("", "")
  | String a s' =>
      if is_name_char a then let '(n, r) := name_run s' in (String a n, r) else ("", s)
  end.

(** The outer loop, from an index whose previous byte is a dollar or not; it
    advances at least one byte per iteration. *)
Fixpoint scan (fuel : nat) (dollar : bool) (s : string) : list string :=
  match fuel, s with
  | O, _ => []
  | _, "" => []
  | S fuel, String a rest =>
      let next := scan fuel (bool_decide (a = "$"%char)) rest in
      if bool_decide (a = "{"%char) && negb dollar then
        match name_run rest with
        | (n, String b after) =>
            if negb (str_is_empty n) && bool_decide (b = "}"%char)
            then n :: scan fuel false after
            else next
        | (_, "") => next
        end
      else next
  end.

Definition placeholders (template : string) : list string :=
  scan (String.length template) false template.

Definition refuse_quotes (template : string) : result VncTemplateError unit :=
  if contains_char "'"%char template then Err Quoted else Ok tt.

Fixpoint check_known (allowed : list string) (found : list string) : result VncTemplateError unit :=
  match found with
  | [] => Ok tt
  | ph :: found =>
      if negb (bool_decide (ph ∈ allowed)) then Err (UnknownPlaceholder ph)
      else check_known allowed found
  end.

Definition check_set_command (template : string) : result VncTemplateError unit :=
  let? _ := refuse_quotes template in
  let found := placeholders template in
  let? _ := check_known SET_PLACEHOLDERS found in
  if negb (existsb (fun p => String.eqb p "password_file") found) then Err MissingPasswordFile
  else Ok tt.

Fixpoint check_clear (found : list string) : result VncTemplateError unit :=
  match found with
  | [] => Ok tt
  | ph :: found =>
      if String.eqb ph "password_file" then Err ClearHasPasswordFile
      else if negb (bool_decide (ph ∈ CLEAR_PLACEHOLDERS)) then Err (UnknownPlaceholder ph)
      else check_clear found
  end.

Definition check_clear_command (template : string) : result VncTemplateError unit :=
  let? _ := refuse_quotes template in check_clear (placeholders template).

(** ** The generic channels (core/src/generic.rs) *)

Inductive GenericTemplateError := Placeholder (p : string).

Definition forbid_placeholders (template : string) : result GenericTemplateError unit :=
  match placeholders template with p :: _ => Err (Placeholder p) | [] => Ok tt end.

Inductive MatchError := Neither | Both.

Definition match_state (body open_marker closed_marker : string) : result MatchError ChannelState :=
  match contains open_marker body, contains closed_marker body with
  | true, true => Err Both
  | true, false => Ok ChOpen
  | false, true => Ok ChClosed
  | false, false => Err Neither
  end.

(** ** What the scanner finds *)

(** Whether the text before a place ends in a dollar; [d] stands for the
    byte before the text. *)
Fixpoint ends_dollar (d : bool) (l : string) : bool :=
  match l with "" => d | String a l => ends_dollar (bool_decide (a = "$"%char)) l end.

Definition is_name (n : string) : bool := negb (str_is_empty n) && str_forall is_name_char n.

(** A clean [{n}] run of [t] at some place, not after a dollar. *)
Definition occurs_after (d : bool) (n t : string) : Prop :=
  is_name n = true
  /\ exists l r, t = l +:+ "{" +:+ n +:+ "}" +:+ r /\ ends_dollar d l = false.
Definition occurs (n t : string) : Prop := occurs_after false n t.

Lemma name_run_spec s n r :
  name_run s = (n, r) -> s = n +:+ r /\ str_forall is_name_char n = true.
Proof.
  revert n r. induction s as [|a s IH]; intros n r; cbn.
  - intros [= <- <-]. done.
  - destruct (is_name_char a) eqn:Ha.
    + destruct (name_run s) as [n' r'] eqn:Hr. intros [= <- <-].
      destruct (IH _ _ eq_refl) as (-> & Hn). cbn. by rewrite Ha.
    + intros [= <- <-]. done.
Qed.

Lemma name_run_app n r :
  str_forall is_name_char n = true -> name_run (n +:+ String "}"%char r) = (n, String "}"%char r).
Proof. induction n as [|a n IH]; [done|]. cbn. intros [Ha Hn]%andb_true_iff. by rewrite Ha, IH. Qed.

Lemma ends_dollar_app d l m : ends_dollar d (l +:+ m) = ends_dollar (ends_dollar d l) m.
Proof. revert d. induction l as [|a l IH]; intros d; [done|]. apply IH. Qed.

(** An opening brace cannot fall inside a token. *)
Lemma brace_after_token m after l t :
  str_forall is_name_char m = true ->
  m +:+ String "}"%char after = l +:+ String "{"%char t ->
  exists l', l = m +:+ String "}"%char l' /\ after = l' +:+ String "{"%char t.
Proof.
  revert l. induction m as [|a m IH]; intros [|b l] Hm Heq; cbn in *; simplify_eq/=.
  - eauto.
  - apply andb_true_iff in Hm as [_ Hm]. destruct (IH l Hm ltac:(done)) as (l' & -> & ->). eauto.
Qed.

Lemma scan_spec fuel d s n :
  (String.length s <= fuel)%nat -> n ∈ scan fuel d s <-> occurs_after d n s.
Proof.
  revert d s. induction fuel as [|fuel IH]; intros d [|a rest] Hlen; cbn in Hlen; try lia.
  1, 2: cbn; (split; [intros []%not_elem_of_nil|intros (_ & [] & r & [= ] & _)]).
  assert (Hstep : n ∈ scan fuel (bool_decide (a = "$"%char)) rest <->
    exists l r, is_name n = true /\ rest = l +:+ "{" +:+ n +:+ "}" +:+ r
      /\ ends_dollar d (String a l) = false).
  { rewrite IH by lia. unfold occurs_after. naive_solver. }
  assert (Hnext : (forall r, a = "{"%char -> d = false -> is_name n = true ->
      rest <> n +:+ String "}"%char r) ->
    n ∈ scan fuel (bool_decide (a = "$"%char)) rest <-> occurs_after d n (String a rest)).
  { intros Hno. rewrite Hstep. split.
    - intros (l & r & Hn & -> & Hl). split; [done|]. by exists (String a l), r.
    - intros (Hn & [|b l] & r & Heq & Hl); cbn in Heq; simplify_eq; [|by eauto 10].
      by destruct (Hno r). }
  cbn [scan]. destruct (bool_decide (a = "{"%char) && negb d) eqn:Hb.
  2:{ apply Hnext. intros r -> -> _. done. }
  bool_prop. subst a d. destruct (name_run rest) as [m [|b after]] eqn:Hm.
  { apply Hnext. intros r _ _ [_ Hn]%andb_true_iff ->. by rewrite name_run_app in Hm. }
  destruct (negb (str_is_empty m) && bool_decide (b = "}"%char)) eqn:Hc.
  2:{ apply Hnext. intros r _ _ [Hne Hn]%andb_true_iff ->. rewrite name_run_app in Hm by done.
      injection Hm as <- <- <-. by rewrite Hne in Hc. }
  bool_prop. subst b. apply name_run_spec in Hm as [-> Hmn].
  assert (Hlen' : (String.length after <= fuel)%nat)
    by (rewrite str_length_app in Hlen; cbn in Hlen; lia).
  rewrite elem_of_cons, IH by done. split.
  - intros [->|(Hn & l & r & -> & Hl)].
    + split; [unfold is_name; by rewrite H, Hmn|]. by exists "", after.
    + split; [done|]. exists (String "{" (m +:+ String "}" l)), r. split.
      { cbn. by rewrite str_app_assoc. }
      cbn. rewrite ends_dollar_app. done.
  - intros (Hn & [|b l] & r & Heq & Hl); cbn in Heq.
    + injection Heq as Heq. apply andb_true_iff in Hn as [_ Hn].
      apply (f_equal name_run) in Heq. rewrite !name_run_app in Heq by done.
      injection Heq as ->. by left.
    + injection Heq as <- Heq. apply brace_after_token in Heq as (l' & -> & ->); [|done].
      right. split; [done|]. exists l', r. split; [done|].
      cbn in Hl. by rewrite ends_dollar_app in Hl.
Qed.

Lemma placeholders_exact n t : n ∈ placeholders t <-> occurs n t.
Proof. by apply scan_spec. Qed.

Lemma check_known_Ok allowed found :
  check_known allowed found = Ok tt <-> forall n, n ∈ found -> n ∈ allowed.
Proof.
  induction found as [|ph found IH]; cbn.
  - split; [|done]. intros _ n []%not_elem_of_nil.
  - case_bool_decide as Hph; cbn [negb].
    + rewrite IH. set_solver.
    + split; [done|]. intros Hall. destruct Hph. apply Hall. left.
Qed.

Lemma check_clear_Ok found :
  check_clear found = Ok tt <-> forall n, n ∈ found -> n = "target".
Proof.
  induction found as [|ph found IH]; cbn.
  - split; [|done]. intros _ n []%not_elem_of_nil.
  - destruct (String.eqb_spec ph "password_file") as [->|Hne].
    { split; [done|]. intros Hall. by specialize (Hall "password_file" ltac:(left)). }
    case_bool_decide as Hph; cbn [negb].
    + rewrite IH. set_solver.
    + split; [done|]. intros Hall. destruct Hph. rewrite (Hall ph) by left. left.
Qed.

Lemma refuse_quotes_Ok t : refuse_quotes t = Ok tt <-> without "'"%char t = true.
Proof. unfold refuse_quotes. rewrite contains_char_without. by destruct (without _ t). Qed.

Lemma existsb_password_file found :
  existsb (fun p => String.eqb p "password_file") found = true <-> "password_file" ∈ found.
Proof.
  rewrite existsb_exists. setoid_rewrite String.eqb_eq. split.
  - intros (x & Hx & ->). by apply list_elem_of_In.
  - intros Hx. eexists. split; [by apply list_elem_of_In|done].
Qed.

Lemma check_set_Ok t :
  check_set_command t = Ok tt <->
  without "'"%char t = true /\ (forall n, occurs n t -> n = "target" \/ n = "password_file")
  /\ occurs "password_file" t.
Proof.
  unfold check_set_command. setoid_rewrite <-placeholders_exact. rewrite <-refuse_quotes_Ok.
  destruct (refuse_quotes t) as [[]|]; [|naive_solver].
  destruct (check_known _ _) as [[]|] eqn:Hk.
  - pose proof (proj1 (check_known_Ok _ _) Hk) as Hk'. rewrite <-existsb_password_file.
    destruct (existsb _ _); cbn; [|naive_solver]. split; [|done]. intros _. split_and!; [done| |done].
    intros n Hn%Hk'. unfold SET_PLACEHOLDERS in Hn. set_solver.
  - split; [done|]. intros (_ & Hall & _).
    assert (check_known SET_PLACEHOLDERS (placeholders t) = Ok tt) as E; [|by rewrite E in Hk].
    apply check_known_Ok. intros n [->| ->]%Hall; set_solver.
Qed.

Lemma check_clear_command_Ok t :
  check_clear_command t = Ok tt <->
  without "'"%char t = true /\ forall n, occurs n t -> n = "target".
Proof.
  unfold check_clear_command. setoid_rewrite <-placeholders_exact. rewrite <-refuse_quotes_Ok.
  destruct (refuse_quotes t) as [[]|]; [|naive_solver]. rewrite check_clear_Ok. naive_solver.
Qed.

Lemma forbid_placeholders_Ok t : forbid_placeholders t = Ok tt <-> forall n, ~ occurs n t.
Proof.
  unfold forbid_placeholders. setoid_rewrite <-placeholders_exact.
  destruct (placeholders t) as [|p ps]; split; try done.
  - intros _ n []%not_elem_of_nil.
  - intros Hno. destruct (Hno p). left.
Qed.

(** The template checks say exactly what is rendered safely.  A set
    command is accepted exactly when it carries no single quote, every
    [{name}] run in it is one of lychgate's two placeholders, and
    [{password_file}] occurs; a clear command when it carries no quote and
    mentions no placeholder but [{target}]; a generic template when it has no
    [{name}] run at all.  [${name}] and anything that is not a clean run are
    left to the shell. *)
Theorem template_checks_exact (t : string) :
  (check_set_command t = Ok tt <->
     without "'"%char t = true /\ (forall n, occurs n t -> n = "target" \/ n = "password_file")
     /\ occurs "password_file" t)
  /\ (check_clear_command t = Ok tt <->
        without "'"%char t = true /\ forall n, occurs n t -> n = "target")
  /\ (forbid_placeholders t = Ok tt <-> forall n, ~ occurs n t).
Proof.
  split_and!; [apply check_set_Ok|apply check_clear_command_Ok|apply forbid_placeholders_Ok].
Qed.

(** ** Break-glass passwords (core/src/bmc.rs) *)

Definition PASSWORD_ALPHABET : string :=
  "ABCDEFGHJKLMNPQRSTUVWXYZabcdefghijkmnpqrstuvwxyz23456789-_.@".
Definition PASSWORD_LEN : nat := 20.

Definition alphabet_char (b : Z) : ascii :=
  match String.get (Z.to_nat (b mod str_len PASSWORD_ALPHABET)) PASSWORD_ALPHABET with
  | Some c => c
  | None => "000"%char
  end.

Fixpoint password_from_bytes (bytes : list Z) : string :=
  match bytes with [] => "" | b :: bytes => String (alphabet_char b) (password_from_bytes bytes) end.

Definition is_password_char (c : ascii) : bool := contains_char c PASSWORD_ALPHABET.

(** A password has one character of the alphabet per random byte; the index
    is always in range. *)
Lemma password_from_bytes_safe bytes :
  Forall is_u8 bytes ->
  str_forall is_password_char (password_from_bytes bytes) = true
  /\ String.length (password_from_bytes bytes) = length bytes.
Proof.
  induction 1 as [|b bytes Hb _ [IH1 IH2]]; [done|]. cbn [password_from_bytes str_forall].
  rewrite IH1, andb_true_r. split; [|cbn; by rewrite IH2].
  revert b Hb. apply u8_all. by vm_compute.
Qed.
