(* ===== verification/InventoryCheck.v ===== *)
(** * InventoryCheck: the load-time validation (core/src/inventory.rs)

    [Inventory::validate] and everything it calls, as a sequence of refusals
    in the order of the source, and the theorem that it accepts exactly the
    inventories that satisfy a declarative specification. *)

From S2P Require Import Prelude Text Clock Ttl External Reference Approval Cbor Token Line Authority AuthorityGraph AuthorityEval AuthorityProps Inventory TextLines Fence Channel Templates.

(** ** Errors: one constructor per variant; a message carries its cause *)

Inductive InventoryError :=
| EmptyHostName
| DuplicateHostName (host : string)
| EmptyAddress (host : string)
| NoChannels (host : string)
| DuplicateChannel (host : string)
| SshConfigMissing (host : string)
| SshConfigUnused (host : string)
| NoEmergencyKeys (host : string)
| PostureUnchanged (host : string)
| BadEmergencyKey (host : string) (message : FenceError)
| BmcConfigMissing (host : string)
| BmcConfigUnused (host : string)
| BmcMethodUnimplemented (host : string) (method : BmcMethod)
| VncConfigMissing (host : string)
| VncConfigUnused (host : string)
| VncCommandQuoted (host which : string)
| VncMissingPasswordFile (host : string)
| VncClearHasPasswordFile (host : string)
| VncUnknownPlaceholder (host which placeholder : string)
| VncBadPort (host field : string)
| VncBadPasswordLen (host : string)
| VncLocalPortConflict (host other : string) (port : Z)
| GenericConfigMissing (host channel : string)
| GenericConfigUnused (host channel : string)
| GenericVerifyNotNone (host channel got : string)
| GenericPlaceholder (host channel field : string) (message : GenericTemplateError)
| GenericBadStatus (host which : string)
| GenericZeroTimeout (host channel : string)
| MqttPasswordAuth (host : string)
| DeviceBadId (host : string)
| DeviceTransportMismatch (host : string)
| SigningKeyMissing (host which : string)
| SigningUnused
| DeviceMqttUnimplemented (host : string)
| EmbeddedChannelUnsupported (host channel : string)
| BadApproval (e : AuthorityError)
| AccessWithoutApproval (host : string)
| AccessNoProfiles (host : string)
| UnknownProfile (host profile : string)
| OverrideForUnpermittedProfile (host profile : string).

(** ** The shapes the checks share *)

(** [if cond { return Err(e); }] *)
Definition refuse_if {E} (cond : bool) (e : E) : result E unit := if cond then Err e else Ok tt.

(** A configuration table and the channel that needs it: present together or
    absent together, and checked when present. *)
Definition paired {E A} (cfg : option A) (wanted : bool) (missing unused : E)
    (check : A -> result E unit) : result E unit :=
  match cfg, wanted with
  | None, true => Err missing
  | Some _, false => Err unused
  | Some a, true => check a
  | None, false => Ok tt
  end.

(** [for x in l { check(x)?; }] *)
Fixpoint check_each {E A} (check : A -> result E unit) (l : list A) : result E unit :=
  match l with [] => Ok tt | x :: l => let? _ := check x in check_each check l end.

Definition is_some {A} (o : option A) : bool := match o with Some _ => true | None => false end.

Definition has (h : Host) (c : Channel) : bool := bool_decide (c ∈ channels h).

(** [u8::from_str_radix(s, 16)]: an optional plus sign, then hexadecimal
    digits of either case, at least one, at most 255. *)
Fixpoint hex_value (s : string) (acc : Z) : option Z :=
  match s with
  | "" => Some acc
  | String c s =>
      d ← to_digit16 c;
      if 16 * acc + d <=? u8_max then hex_value s (16 * acc + d) else None
  end.
Definition u8_from_str_radix16 (s : string) : option Z :=
  match s with
  | "" => None
  | String c rest =>
      if bool_decide (c = "+"%char) then
        (if str_is_empty rest then None else hex_value rest 0)
      else hex_value s 0
  end.

Fixpoint id_pairs (s : string) : option (list Z) :=
  match s with
  | String a (String b s) =>
      v ← u8_from_str_radix16 (String a (String b ""));
      vs ← id_pairs s; Some (v :: vs)
  | _ => Some []
  end.

Definition device_id_bytes (d : DeviceConfig) : option (list Z) :=
  if negb (str_len (device_id d) =? 32) then None else id_pairs (device_id d).

(** ** The checks of one host *)

Definition check_key (host key : string) : result InventoryError unit :=
  map_err (BadEmergencyKey host) (validate_key_line key).

Definition validate_ssh (h : Host) (s : SshConfig) : result InventoryError unit :=
  let? _ := refuse_if (has h Ssh && bool_decide (root_posture_default s = root_posture_emergency s))
              (PostureUnchanged (name h)) in
  let? _ := refuse_if (has h AuthorizedKeys && bool_decide (emergency_keys s = []))
              (NoEmergencyKeys (name h)) in
  check_each (check_key (name h)) (emergency_keys s).

Definition validate_bmc (h : Host) (b : BmcConfig) : result InventoryError unit :=
  refuse_if (negb (bool_decide (bmc_method b = Redfish)))
    (BmcMethodUnimplemented (name h) (bmc_method b)).

Definition vnc_template_error (host which : string) (e : VncTemplateError) : InventoryError :=
  match e with
  | Quoted => VncCommandQuoted host which
  | MissingPasswordFile => VncMissingPasswordFile host
  | ClearHasPasswordFile => VncClearHasPasswordFile host
  | UnknownPlaceholder p => VncUnknownPlaceholder host which p
  end.

(** The vnc rules up to the ownership of the local port. *)
Definition validate_vnc (h : Host) (v : VncConfig) : result InventoryError unit :=
  let? _ := refuse_if (rfb_port v =? 0) (VncBadPort (name h) "rfb_port") in
  let? _ := refuse_if (local_port v =? 0) (VncBadPort (name h) "local_port") in
  let? _ := refuse_if (password_len v =? 0) (VncBadPasswordLen (name h)) in
  let? _ := map_err (vnc_template_error (name h) "set_password_cmd")
              (check_set_command (set_password_cmd v)) in
  map_err (vnc_template_error (name h) "clear_password_cmd")
    (check_clear_command (clear_password_cmd v)).

Section Generic.
Context (h : Host).

Definition check_verify_none (channel s : string) : result InventoryError unit :=
  if String.eqb s "none" then Ok tt else Err (GenericVerifyNotNone (name h) channel s).
Definition check_template (channel field template : string) : result InventoryError unit :=
  map_err (GenericPlaceholder (name h) channel field) (forbid_placeholders template).
Definition check_status (which : string) (status : Z) : result InventoryError unit :=
  if (100 <=? status) && (status <=? 599) then Ok tt else Err (GenericBadStatus (name h) which).

Definition check_http_request (p : string * HttpRequestSpec) : result InventoryError unit :=
  let? _ := check_status p.1 (hr_expect_status p.2) in
  let? _ := check_template "http" "path" (hr_path p.2) in
  match hr_body p.2 with Some body => check_template "http" "body" body | None => Ok tt end.

Definition validate_http (http : HttpConfig) : result InventoryError unit :=
  let? _ := check_each check_http_request [("open", http_open http); ("revert", http_revert http)] in
  match http_verify http with
  | VNone s => check_verify_none "http" s
  | Probe v =>
      let? _ := check_status "verify" (hv_expect_status v) in
      check_template "http" "path" (hv_path v)
  end.

Definition is_password (auth : option MqttAuth) : bool :=
  match auth with Some (MqttPassword _) => true | _ => false end.

Definition check_mqtt_message (m : MqttMessageSpec) : result InventoryError unit :=
  let? _ := check_template "mqtt" "topic" (mm_topic m) in
  check_template "mqtt" "payload" (mm_payload m).

Definition validate_mqtt (mqtt : MqttConfig) : result InventoryError unit :=
  let? _ := refuse_if (is_password (mqtt_auth mqtt)) (MqttPasswordAuth (name h)) in
  let? _ := check_each check_mqtt_message [mqtt_open mqtt; mqtt_revert mqtt] in
  match mqtt_verify mqtt with
  | VNone s => check_verify_none "mqtt" s
  | Probe v =>
      let? _ := check_template "mqtt" "topic" (mv_topic v) in
      refuse_if (mv_timeout_secs v =? 0) (GenericZeroTimeout (name h) "mqtt")
  end.

Definition validate_serial (serial : SerialConfig) : result InventoryError unit :=
  let? _ := refuse_if (serial_timeout_secs serial =? 0) (GenericZeroTimeout (name h) "serial") in
  let? _ := check_each (fun spec => check_template "serial" "send" (sc_send spec))
              [serial_open serial; serial_revert serial] in
  match serial_verify serial with
  | VNone s => check_verify_none "serial" s
  | Probe v => check_template "serial" "send" (sv_send v)
  end.

Definition validate_generic : result InventoryError unit :=
  let? _ := paired (http h) (has h Http) (GenericConfigMissing (name h) "http")
              (GenericConfigUnused (name h) "http") validate_http in
  let? _ := paired (mqtt h) (has h Mqtt) (GenericConfigMissing (name h) "mqtt")
              (GenericConfigUnused (name h) "mqtt") validate_mqtt in
  paired (serial h) (has h Serial) (GenericConfigMissing (name h) "serial")
    (GenericConfigUnused (name h) "serial") validate_serial.
End Generic.

(** The sub-tables a transport calls for. *)
Definition expected_tables (t : DeviceTransportKind) : bool * bool * bool :=
  match t with
  | TransportHttp => (true, false, false)
  | TransportMqtt => (false, true, false)
  | TransportSerial => (false, false, true)
  end.

Definition signing_key (signing : option SigningSpec) (alg : DeviceAlg) : string * option string :=
  match alg with
  | AlgEd25519 => ("key_file", signing ≫= key_file)
  | AlgP256 => ("p256_key_file", signing ≫= p256_key_file)
  end.

Definition validate_device_config (inv : Inventory) (h : Host) (d : DeviceConfig)
    : result InventoryError unit :=
  let? _ := refuse_if (negb (is_some (device_id_bytes d))) (DeviceBadId (name h)) in
  let? _ := refuse_if
      (negb (bool_decide ((is_some (device_http d), is_some (device_mqtt d), is_some (device_serial d))
                          = expected_tables (device_transport d))))
      (DeviceTransportMismatch (name h)) in
  let? _ := refuse_if (is_password (device_mqtt d ≫= dm_auth)) (MqttPasswordAuth (name h)) in
  let? _ := refuse_if (bool_decide (device_transport d = TransportMqtt))
              (DeviceMqttUnimplemented (name h)) in
  let? _ := match device_serial d with
            | Some s => refuse_if (ds_timeout_secs s =? 0) (GenericZeroTimeout (name h) "device")
            | None => Ok tt
            end in
  let '(needed, present) := signing_key (signing inv) (device_alg d) in
  refuse_if (negb (is_some present)) (SigningKeyMissing (name h) needed).

Definition validate_device (inv : Inventory) (h : Host) : result InventoryError unit :=
  paired (device h) (has h Device) (GenericConfigMissing (name h) "device")
    (GenericConfigUnused (name h) "device") (validate_device_config inv h).

(** The channels a device without a shell cannot carry, by name. *)
Definition shell_channel (c : Channel) : option string :=
  match c with
  | Ssh => Some "ssh"
  | AuthorizedKeys => Some "authorized-keys"
  | Vnc => Some "vnc"
  | _ => None
  end.

Definition validate_embedded (h : Host) : result InventoryError unit :=
  if bool_decide (os h = Embedded) then
    check_each (fun c => match shell_channel c with
                         | Some n => Err (EmbeddedChannelUnsupported (name h) n)
                         | None => Ok tt
                         end) (channels h)
  else Ok tt.

(** ** The loop over the hosts *)

Definition wants_ssh (h : Host) : bool := has h Ssh || has h AuthorizedKeys.

(** One iteration: the names seen and the owners of the local ports go in
    and come out. *)
Definition validate_host (inv : Inventory) (names : gset string) (local_ports : gmap Z string)
    (h : Host) : result InventoryError (gset string * gmap Z string) :=
  let? _ := refuse_if (str_is_empty (name h)) EmptyHostName in
  let? _ := refuse_if (bool_decide (name h ∈ names)) (DuplicateHostName (name h)) in
  let names := {[name h]} ∪ names in
  let? _ := refuse_if (str_is_empty (address h)) (EmptyAddress (name h)) in
  let? _ := refuse_if (bool_decide (channels h = [])) (NoChannels (name h)) in
  let? _ := refuse_if (negb (bool_decide (NoDup (channels h)))) (DuplicateChannel (name h)) in
  let? _ := paired (ssh h) (wants_ssh h) (SshConfigMissing (name h)) (SshConfigUnused (name h))
              (validate_ssh h) in
  let? _ := paired (bmc h) (has h Bmc) (BmcConfigMissing (name h)) (BmcConfigUnused (name h))
              (validate_bmc h) in
  let? _ := paired (vnc h) (has h Vnc) (VncConfigMissing (name h)) (VncConfigUnused (name h))
              (validate_vnc h) in
  let? local_ports :=
    match vnc h with
    | None => Ok local_ports
    | Some v =>
        match local_ports !! local_port v with
        | Some other => Err (VncLocalPortConflict (name h) other (local_port v))
        | None => Ok (<[local_port v := name h]> local_ports)
        end
    end in
  let? _ := validate_generic h in
  let? _ := validate_device inv h in
  let? _ := validate_embedded h in
  Ok (names, local_ports).

Fixpoint validate_hosts (inv : Inventory) (names : gset string) (local_ports : gmap Z string)
    (hs : list Host) : result InventoryError unit :=
  match hs with
  | [] => Ok tt
  | h :: hs =>
      let? p := validate_host inv names local_ports h in
      validate_hosts inv p.1 p.2 hs
  end.

(** ** The approval policy and the hosts' access *)

Section Policy.
Context `{DataEncoding, ApprovalKeys}.

Definition approval_model (inv : Inventory)
    : result (Fault InventoryError) (option AuthorityModel) :=
  match approval inv with
  | Some spec =>
      match from_spec spec with
      | Ok m => Ok (Some m)
      | Err (Refused e) => Err (Refused (BadApproval e))
      | Err Panic => Err Panic
      | Err OutOfFuel => Err OutOfFuel
      end
  | None => Ok None
  end.

Definition check_profile (model : AuthorityModel) (h : Host) (p : string) : result InventoryError unit :=
  refuse_if (negb (is_some (Authority.profile model p))) (UnknownProfile (name h) p).

Definition check_override (model : AuthorityModel) (h : Host) (acc : HostAccess)
    (e : string * AuthorityBody) : result InventoryError unit :=
  let? _ := refuse_if (negb (bool_decide (e.1 ∈ access_profiles acc)))
              (OverrideForUnpermittedProfile (name h) e.1) in
  match resolve_override model e.1 e.2 with Ok _ => Ok tt | Err x => Err (BadApproval x) end.

Definition validate_access (model : option AuthorityModel) (h : Host) : result InventoryError unit :=
  match access h with
  | None => Ok tt
  | Some acc =>
      match model with
      | None => Err (AccessWithoutApproval (name h))
      | Some model =>
          let? _ := refuse_if (bool_decide (access_profiles acc = [])) (AccessNoProfiles (name h)) in
          let? _ := check_each (check_profile model h) (access_profiles acc) in
          check_each (check_override model h acc) (btree_iter (access_overrides acc))
      end
  end.

Definition validate (inv : Inventory) : result (Fault InventoryError) unit :=
  let? _ := map_err Refused (validate_hosts inv ∅ ∅ (hosts inv)) in
  let? _ := map_err Refused
      (refuse_if (is_some (signing inv) && negb (existsb (fun h => has h Device) (hosts inv)))
         SigningUnused) in
  let? model := approval_model inv in
  map_err Refused (check_each (validate_access model) (hosts inv)).
End Policy.

(** ** What the shapes decide *)

Lemma then_Ok {E} (a b : result E unit) :
  (let? _ := a in b) = Ok tt <-> a = Ok tt /\ b = Ok tt.
Proof. destruct a as [[]|]; naive_solver. Qed.

Lemma refuse_if_Ok {E} b (e : E) : refuse_if b e = Ok tt <-> b = false.
Proof. by destruct b. Qed.

Lemma map_err_Ok {E F A} (f : E -> F) (r : result E A) a : map_err f r = Ok a <-> r = Ok a.
Proof. destruct r; naive_solver. Qed.

(** What holds of a table and the channel that needs it. *)
Definition paired_ok {A} (cfg : option A) (wanted : Prop) (P : A -> Prop) : Prop :=
  match cfg with Some a => wanted /\ P a | None => ~ wanted end.

Lemma paired_Ok {E A} (cfg : option A) b (missing unused : E) check (wanted : Prop) (P : A -> Prop) :
  (b = true <-> wanted) -> (forall a, check a = Ok tt <-> P a) ->
  paired cfg b missing unused check = Ok tt <-> paired_ok cfg wanted P.
Proof.
  intros Hb Hc. unfold paired, paired_ok. destruct cfg as [a|], b.
  - rewrite Hc. naive_solver.
  - split; [done|]. intros [Hw%Hb _]. done.
  - split; [done|]. intros Hn. destruct Hn. by apply Hb.
  - split; [|done]. intros _ Hw%Hb. done.
Qed.

Lemma check_each_Ok {E A} (check : A -> result E unit) l :
  check_each check l = Ok tt <-> Forall (fun x => check x = Ok tt) l.
Proof.
  induction l as [|x l IH]; cbn.
  - split; [constructor|done].
  - rewrite then_Ok, IH. by rewrite Forall_cons.
Qed.

Lemma has_true h c : has h c = true <-> c ∈ channels h.
Proof. apply bool_decide_eq_true. Qed.

Lemma check_verify_none_Ok h ch s : check_verify_none h ch s = Ok tt <-> s = "none".
Proof. unfold check_verify_none. destruct (String.eqb_spec s "none"); naive_solver. Qed.

Lemma check_template_Ok h ch f t : check_template h ch f t = Ok tt <-> forall n, ~ occurs n t.
Proof. unfold check_template. rewrite map_err_Ok. apply forbid_placeholders_Ok. Qed.

Lemma check_status_Ok h w s : check_status h w s = Ok tt <-> 100 <= s <= 599.
Proof.
  unfold check_status. destruct (Z.leb_spec 100 s), (Z.leb_spec s 599); cbn; split; done || lia.
Qed.

#[local] Hint Rewrite @then_Ok @refuse_if_Ok @map_err_Ok @check_each_Ok check_verify_none_Ok
  check_template_Ok check_status_Ok @Forall_cons @Forall_nil @bool_decide_eq_false
  @bool_decide_eq_true Z.eqb_neq negb_false_iff andb_false_iff : checks.

(** ** What an inventory must satisfy *)

(** A template that lychgate sends as it is. *)
Definition plain (t : string) : Prop := forall n, ~ occurs n t.

Definition key_ok (k : string) : Prop :=
  str_is_empty (trim k) = false /\ without LF k = true /\ without CR k = true
  /\ contains "LYCHGATE" k = false.

Definition ssh_ok (h : Host) (s : SshConfig) : Prop :=
  (Ssh ∈ channels h -> root_posture_default s <> root_posture_emergency s)
  /\ (AuthorizedKeys ∈ channels h -> emergency_keys s <> [])
  /\ Forall key_ok (emergency_keys s).

Definition vnc_ok (v : VncConfig) : Prop :=
  rfb_port v <> 0 /\ local_port v <> 0 /\ password_len v <> 0
  /\ (without "'"%char (set_password_cmd v) = true
      /\ (forall n, occurs n (set_password_cmd v) -> n = "target" \/ n = "password_file")
      /\ occurs "password_file" (set_password_cmd v))
  /\ (without "'"%char (clear_password_cmd v) = true
      /\ forall n, occurs n (clear_password_cmd v) -> n = "target").

Definition request_ok (r : HttpRequestSpec) : Prop :=
  100 <= hr_expect_status r <= 599 /\ plain (hr_path r)
  /\ match hr_body r with Some b => plain b | None => True end.

Definition http_ok (c : HttpConfig) : Prop :=
  request_ok (http_open c) /\ request_ok (http_revert c)
  /\ match http_verify c with
     | VNone s => s = "none"
     | Probe v => 100 <= hv_expect_status v <= 599 /\ plain (hv_path v)
     end.

Definition message_ok (m : MqttMessageSpec) : Prop := plain (mm_topic m) /\ plain (mm_payload m).

Definition mqtt_ok (c : MqttConfig) : Prop :=
  (forall u, mqtt_auth c <> Some (MqttPassword u))
  /\ message_ok (mqtt_open c) /\ message_ok (mqtt_revert c)
  /\ match mqtt_verify c with
     | VNone s => s = "none"
     | Probe v => plain (mv_topic v) /\ mv_timeout_secs v <> 0
     end.

Definition serial_ok (c : SerialConfig) : Prop :=
  serial_timeout_secs c <> 0 /\ plain (sc_send (serial_open c)) /\ plain (sc_send (serial_revert c))
  /\ match serial_verify c with VNone s => s = "none" | Probe v => plain (sv_send v) end.

(** Exactly the table of the transport, which is http or serial. *)
Definition device_wire_ok (d : DeviceConfig) : Prop :=
  match device_transport d with
  | TransportHttp => is_Some (device_http d) /\ device_mqtt d = None /\ device_serial d = None
  | TransportMqtt => False
  | TransportSerial =>
      device_http d = None /\ device_mqtt d = None
      /\ exists s, device_serial d = Some s /\ ds_timeout_secs s <> 0
  end.

Definition device_ok (inv : Inventory) (d : DeviceConfig) : Prop :=
  is_Some (device_id_bytes d) /\ device_wire_ok d
  /\ is_Some (signing_key (signing inv) (device_alg d)).2.

Record host_ok (inv : Inventory) (h : Host) : Prop := {
  ok_name : name h <> "";
  ok_address : address h <> "";
  ok_channels : channels h <> [] /\ NoDup (channels h);
  ok_ssh : paired_ok (ssh h) (Ssh ∈ channels h \/ AuthorizedKeys ∈ channels h) (ssh_ok h);
  ok_bmc : paired_ok (bmc h) (Bmc ∈ channels h) (fun b => bmc_method b = Redfish);
  ok_vnc : paired_ok (vnc h) (Vnc ∈ channels h) vnc_ok;
  ok_http : paired_ok (http h) (Http ∈ channels h) http_ok;
  ok_mqtt : paired_ok (mqtt h) (Mqtt ∈ channels h) mqtt_ok;
  ok_serial : paired_ok (serial h) (Serial ∈ channels h) serial_ok;
  ok_device : paired_ok (device h) (Device ∈ channels h) (device_ok inv);
  ok_embedded : os h = Embedded -> forall c, c ∈ channels h -> shell_channel c = None;
}.

(** The daemon-local port a host forwards. *)
Definition vnc_port (h : Host) : option Z := local_port <$> vnc h.

Section Spec.
Context `{DataEncoding, ApprovalKeys}.

Definition access_ok (model : option AuthorityModel) (h : Host) : Prop :=
  match access h with
  | None => True
  | Some acc =>
      exists m, model = Some m /\ access_profiles acc <> []
        /\ (forall p, p ∈ access_profiles acc -> is_Some (Authority.profile m p))
        /\ forall p body, access_overrides acc !! p = Some body ->
             p ∈ access_profiles acc /\ exists a, resolve_override m p body = Ok a
  end.

Record valid_inventory (inv : Inventory) : Prop := {
  vi_hosts : forall h, h ∈ hosts inv -> host_ok inv h;
  vi_names : NoDup (name <$> hosts inv);
  vi_ports : NoDup (omap vnc_port (hosts inv));
  vi_signing : is_Some (signing inv) -> exists h, h ∈ hosts inv /\ Device ∈ channels h;
  vi_access : exists model, approval_model inv = Ok model
                /\ forall h, h ∈ hosts inv -> access_ok model h;
}.
End Spec.

(** ** Each check decides its part *)

Lemma check_key_Ok host k : check_key host k = Ok tt <-> key_ok k.
Proof.
  unfold check_key, key_ok. rewrite map_err_Ok. unfold validate_key_line.
  rewrite !contains_char_without.
  destruct (str_is_empty (trim k)), (without LF k), (without CR k), (contains "LYCHGATE" k);
    naive_solver.
Qed.

Lemma andb_neg_impl (b : bool) (P Q : Prop) `{Decision P} `{Decision Q} :
  bool_decide P && bool_decide Q = false <-> (P -> ~ Q).
Proof. case_bool_decide; case_bool_decide; cbn; naive_solver. Qed.

Lemma validate_ssh_Ok h s : validate_ssh h s = Ok tt <-> ssh_ok h s.
Proof.
  unfold validate_ssh, ssh_ok, has. rewrite !then_Ok, !refuse_if_Ok, check_each_Ok.
  rewrite (andb_neg_impl true (Ssh ∈ channels h)), (andb_neg_impl true (AuthorizedKeys ∈ channels h)).
  by rewrite (Forall_iff _ _ key_ok) by apply check_key_Ok.
Qed.

Lemma validate_bmc_Ok h b : validate_bmc h b = Ok tt <-> bmc_method b = Redfish.
Proof. unfold validate_bmc. rewrite refuse_if_Ok, negb_false_iff. apply bool_decide_eq_true. Qed.

Lemma validate_vnc_Ok h v : validate_vnc h v = Ok tt <-> vnc_ok v.
Proof.
  unfold validate_vnc, vnc_ok. rewrite !then_Ok, !refuse_if_Ok, !map_err_Ok, !Z.eqb_neq.
  by rewrite check_set_Ok, check_clear_command_Ok.
Qed.

Lemma check_http_request_Ok h p : check_http_request h p = Ok tt <-> request_ok p.2.
Proof.
  unfold check_http_request, request_ok. rewrite !then_Ok, check_status_Ok, check_template_Ok.
  destruct (hr_body p.2); rewrite ?check_template_Ok; naive_solver.
Qed.

Lemma validate_http_Ok h c : validate_http h c = Ok tt <-> http_ok c.
Proof.
  unfold validate_http, http_ok. rewrite then_Ok, check_each_Ok, !Forall_cons, Forall_nil.
  rewrite !check_http_request_Ok. cbn [snd].
  destruct (http_verify c); rewrite ?then_Ok, ?check_verify_none_Ok, ?check_status_Ok,
    ?check_template_Ok; unfold plain; naive_solver.
Qed.

Lemma is_password_false a : is_password a = false <-> forall u, a <> Some (MqttPassword u).
Proof. destruct a as [[]|]; naive_solver. Qed.

Lemma check_mqtt_message_Ok h m : check_mqtt_message h m = Ok tt <-> message_ok m.
Proof. unfold check_mqtt_message. by rewrite then_Ok, !check_template_Ok. Qed.

Lemma validate_mqtt_Ok h c : validate_mqtt h c = Ok tt <-> mqtt_ok c.
Proof.
  unfold validate_mqtt, mqtt_ok.
  rewrite !then_Ok, refuse_if_Ok, is_password_false, check_each_Ok, !Forall_cons, Forall_nil.
  rewrite !check_mqtt_message_Ok.
  destruct (mqtt_verify c); rewrite ?then_Ok, ?check_verify_none_Ok, ?refuse_if_Ok,
    ?check_template_Ok, ?Z.eqb_neq; unfold plain; naive_solver.
Qed.

Lemma validate_serial_Ok h c : validate_serial h c = Ok tt <-> serial_ok c.
Proof.
  unfold validate_serial, serial_ok.
  rewrite !then_Ok, refuse_if_Ok, check_each_Ok, !Forall_cons, Forall_nil, !check_template_Ok,
    Z.eqb_neq.
  destruct (serial_verify c); rewrite ?check_verify_none_Ok, ?check_template_Ok;
    unfold plain; naive_solver.
Qed.

Lemma validate_generic_Ok h :
  validate_generic h = Ok tt <->
  paired_ok (http h) (Http ∈ channels h) http_ok
  /\ paired_ok (mqtt h) (Mqtt ∈ channels h) mqtt_ok
  /\ paired_ok (serial h) (Serial ∈ channels h) serial_ok.
Proof.
  unfold validate_generic. rewrite !then_Ok.
  rewrite (paired_Ok (http h) _ _ _ _ (Http ∈ channels h) http_ok),
    (paired_Ok (mqtt h) _ _ _ _ (Mqtt ∈ channels h) mqtt_ok),
    (paired_Ok (serial h) _ _ _ _ (Serial ∈ channels h) serial_ok);
    done || apply has_true || (intros; apply validate_http_Ok || apply validate_mqtt_Ok
      || apply validate_serial_Ok).
Qed.

Lemma is_some_true {A} (o : option A) : is_some o = true <-> is_Some o.
Proof. destruct o; cbn; unfold is_Some; naive_solver. Qed.
Lemma is_some_not {A} (o : option A) : negb (is_some o) = false <-> is_Some o.
Proof. rewrite negb_false_iff. apply is_some_true. Qed.

(** The sub-table rules together. *)
Lemma device_wire_checks h d :
  (let? _ := refuse_if
      (negb (bool_decide ((is_some (device_http d), is_some (device_mqtt d), is_some (device_serial d))
                          = expected_tables (device_transport d))))
      (DeviceTransportMismatch (name h)) in
   let? _ := refuse_if (is_password (device_mqtt d ≫= dm_auth)) (MqttPasswordAuth (name h)) in
   let? _ := refuse_if (bool_decide (device_transport d = TransportMqtt))
               (DeviceMqttUnimplemented (name h)) in
   match device_serial d with
   | Some s => refuse_if (ds_timeout_secs s =? 0) (GenericZeroTimeout (name h) "device")
   | None => Ok tt
   end) = Ok tt <-> device_wire_ok d.
Proof.
  rewrite !then_Ok, !refuse_if_Ok, negb_false_iff, bool_decide_eq_true, bool_decide_eq_false.
  assert (Hs : match device_serial d with
      | Some s => refuse_if (ds_timeout_secs s =? 0) (GenericZeroTimeout (name h) "device")
      | None => Ok tt
      end = Ok tt <-> forall s, device_serial d = Some s -> ds_timeout_secs s <> 0).
  { destruct (device_serial d) as [s|]; [rewrite refuse_if_Ok, Z.eqb_neq|]; naive_solver. }
  rewrite Hs. unfold device_wire_ok, expected_tables.
  destruct (device_transport d), (device_http d), (device_mqtt d), (device_serial d) as [s|];
    cbn; unfold is_Some; naive_solver.
Qed.

Lemma validate_device_config_Ok inv h d : validate_device_config inv h d = Ok tt <-> device_ok inv d.
Proof.
  unfold device_ok. rewrite <-(device_wire_checks h). unfold validate_device_config.
  destruct (signing_key (signing inv) (device_alg d)) as [needed present]. cbn [snd].
  rewrite !then_Ok, !refuse_if_Ok, !is_some_not. tauto.
Qed.

Lemma validate_device_Ok inv h :
  validate_device inv h = Ok tt <-> paired_ok (device h) (Device ∈ channels h) (device_ok inv).
Proof.
  apply paired_Ok; [apply has_true|]. intros d. apply validate_device_config_Ok.
Qed.

Lemma validate_embedded_Ok h :
  validate_embedded h = Ok tt <->
  (os h = Embedded -> forall c, c ∈ channels h -> shell_channel c = None).
Proof.
  unfold validate_embedded. case_bool_decide as He; [|naive_solver].
  rewrite check_each_Ok, Forall_forall. split.
  - intros Hc _ c Hin. specialize (Hc c Hin). by destruct (shell_channel c).
  - intros Hc c Hin. by rewrite (Hc He c Hin).
Qed.

Lemma wants_ssh_true h : wants_ssh h = true <-> Ssh ∈ channels h \/ AuthorizedKeys ∈ channels h.
Proof. unfold wants_ssh. by rewrite orb_true_iff, !has_true. Qed.

Lemma str_is_empty_false s : str_is_empty s = false <-> s <> "".
Proof. by destruct s. Qed.

Definition port_free (ports : gmap Z string) (h : Host) : Prop :=
  forall p, vnc_port h = Some p -> ports !! p = None.

Definition claim_port (ports : gmap Z string) (h : Host) : gmap Z string :=
  match vnc_port h with Some p => <[p := name h]> ports | None => ports end.

(** One iteration of the loop accepts exactly a good host under a new name
    and a free port, and records both. *)
Lemma validate_host_Ok inv names ports h q :
  validate_host inv names ports h = Ok q <->
  host_ok inv h /\ name h ∉ names /\ port_free ports h
  /\ q = ({[name h]} ∪ names, claim_port ports h).
Proof.
  assert (Hport : forall (k : gmap Z string -> result InventoryError (gset string * gmap Z string)),
    (let? local_ports :=
       match vnc h with
       | None => Ok ports
       | Some v =>
           match ports !! local_port v with
           | Some other => Err (VncLocalPortConflict (name h) other (local_port v))
           | None => Ok (<[local_port v := name h]> ports)
           end
       end in k local_ports) = Ok q <->
    port_free ports h /\ k (claim_port ports h) = Ok q).
  { intros k. unfold port_free, claim_port, vnc_port. destruct (vnc h) as [v|]; cbn; [|naive_solver].
    destruct (ports !! local_port v) eqn:Hp; naive_solver. }
  assert (Hseq : forall (a : result InventoryError unit) (P : Prop)
      (k : result InventoryError (gset string * gmap Z string)) (Q : Prop),
    (a = Ok tt <-> P) -> (k = Ok q <-> Q) -> (let? _ := a in k) = Ok q <-> P /\ Q).
  { intros a P k Q Ha Hk. destruct a as [[]|]; naive_solver. }
  unfold validate_host. cbv zeta.
  etrans.
  { repeat first [ eapply Hseq; [reflexivity|] | etrans; [apply Hport|] ].
    eapply and_iff_compat_l. repeat first [ eapply Hseq; [reflexivity|] ]. reflexivity. }
  rewrite !refuse_if_Ok, !str_is_empty_false, !bool_decide_eq_false, negb_false_iff,
    bool_decide_eq_true, validate_generic_Ok, validate_device_Ok, validate_embedded_Ok.
  rewrite (paired_Ok (ssh h) _ _ _ _ _ (ssh_ok h) (wants_ssh_true h) (validate_ssh_Ok h)),
    (paired_Ok (bmc h) _ _ _ _ _ (fun b => bmc_method b = Redfish) (has_true h Bmc)
       (validate_bmc_Ok h)),
    (paired_Ok (vnc h) _ _ _ _ _ vnc_ok (has_true h Vnc) (validate_vnc_Ok h)).
  split.
  - intros. destruct_and!. simplify_eq. split_and!; try done.
  - intros ([] & Hn & Hp & ->). destruct_and?. split_and!; try done.
Qed.

Lemma omap_cons_ports h hs :
  omap vnc_port (h :: hs) = match vnc_port h with Some p => [p] | None => [] end ++ omap vnc_port hs.
Proof. cbn. by destruct (vnc_port h). Qed.

Lemma claim_port_free ports h hs :
  port_free ports h ->
  (NoDup (omap vnc_port (h :: hs)) /\ Forall (port_free ports) hs) <->
  (NoDup (omap vnc_port hs) /\ Forall (port_free (claim_port ports h)) hs).
Proof.
  intros Hf. rewrite omap_cons_ports, !Forall_forall. unfold claim_port, port_free in *.
  destruct (vnc_port h) as [p|] eqn:Hp; [|done]. cbn. rewrite NoDup_cons, list_elem_of_omap. split.
  - intros [[Hni Hnd] Hall]. split; [done|]. intros h' Hh' p' Hp'.
    rewrite lookup_insert_None. split; [by eapply Hall|]. intros ->. destruct Hni. eauto.
  - intros [Hnd Hall]. split_and!; [|done|].
    + intros (h' & Hh' & Hp'). specialize (Hall h' Hh' p Hp'). by rewrite lookup_insert_eq in Hall.
    + intros h' Hh' p' Hp'. specialize (Hall h' Hh' p' Hp'). by apply lookup_insert_None in Hall as [].
Qed.

Lemma validate_hosts_Ok inv names ports hs :
  validate_hosts inv names ports hs = Ok tt <->
  Forall (host_ok inv) hs /\ NoDup (name <$> hs) /\ Forall (fun h => name h ∉ names) hs
  /\ NoDup (omap vnc_port hs) /\ Forall (port_free ports) hs.
Proof.
  revert names ports. induction hs as [|h hs IH]; intros names ports.
  { split; [|done]. intros _. split_and!; constructor. }
  cbn [validate_hosts]. rewrite !Forall_cons, fmap_cons, NoDup_cons, list_elem_of_fmap.
  assert (Hk : forall q, validate_host inv names ports h = Ok q ->
    validate_hosts inv q.1 q.2 hs = Ok tt <->
    Forall (host_ok inv) hs /\ NoDup (name <$> hs)
    /\ Forall (fun h' => name h' <> name h /\ name h' ∉ names) hs
    /\ NoDup (omap vnc_port (h :: hs)) /\ Forall (port_free ports) hs).
  { intros q (_ & _ & Hf & ->)%validate_host_Ok. cbn [fst snd]. rewrite IH, (claim_port_free ports h hs Hf).
    rewrite (Forall_iff (fun h' => name h' ∉ {[name h]} ∪ names) _
      (fun h' => name h' <> name h /\ name h' ∉ names)); [done|].
    intros h'. set_solver. }
  destruct (validate_host inv names ports h) as [q|] eqn:Hq.
  - rewrite (Hk q) by done. apply validate_host_Ok in Hq as (Ho & Hn & Hf & _).
    rewrite Forall_and, !Forall_forall. naive_solver.
  - split; [done|]. intros ([Ho _] & _ & [Hn _] & _ & [Hf _]).
    assert (validate_host inv names ports h = Ok ({[name h]} ∪ names, claim_port ports h)) as E;
      [by apply validate_host_Ok|by rewrite Hq in E].
Qed.

Section Exact.
Context `{DataEncoding, ApprovalKeys}.

Lemma check_override_Ok m h acc e :
  check_override m h acc e = Ok tt <->
  e.1 ∈ access_profiles acc /\ exists a, resolve_override m e.1 e.2 = Ok a.
Proof.
  unfold check_override. rewrite then_Ok, refuse_if_Ok, negb_false_iff, bool_decide_eq_true.
  destruct (resolve_override m e.1 e.2); naive_solver.
Qed.

Lemma validate_access_Ok model h : validate_access model h = Ok tt <-> access_ok model h.
Proof.
  unfold validate_access, access_ok. destruct (access h) as [acc|]; [|done].
  destruct model as [m|]; [|naive_solver].
  rewrite !then_Ok, refuse_if_Ok, bool_decide_eq_false, !check_each_Ok, !Forall_forall.
  setoid_rewrite check_override_Ok. unfold check_profile. setoid_rewrite refuse_if_Ok.
  setoid_rewrite is_some_not. split.
  - intros (Hne & Hp & Ho). exists m. split_and!; try done. intros p body Hb.
    by apply (Ho (p, body)), elem_of_btree_iter.
  - intros (m' & [= <-] & Hne & Hp & Ho). split_and!; try done.
    intros [p body] Hin%elem_of_btree_iter. by apply Ho.
Qed.

Lemma existsb_device hs :
  existsb (fun h => has h Device) hs = true <-> exists h, h ∈ hs /\ Device ∈ channels h.
Proof.
  rewrite existsb_exists. setoid_rewrite <-list_elem_of_In. by setoid_rewrite has_true.
Qed.

Lemma validate_accepts inv : validate inv = Ok tt <-> valid_inventory inv.
Proof.
  unfold validate. rewrite !then_Ok, !map_err_Ok, refuse_if_Ok, validate_hosts_Ok.
  rewrite andb_false_iff, negb_false_iff, existsb_device.
  assert (Hm : (let? model := approval_model inv in
      map_err Refused (check_each (validate_access model) (hosts inv))) = Ok tt <->
    exists model, approval_model inv = Ok model /\ forall h, h ∈ hosts inv -> access_ok model h).
  { destruct (approval_model inv) as [model|]; [|naive_solver].
    rewrite map_err_Ok, check_each_Ok, Forall_forall. setoid_rewrite validate_access_Ok. naive_solver. }
  rewrite Hm, !Forall_forall. split.
  - intros ((Hh & Hn & _ & Hp & _) & Hs & Ha). split; try done.
    intros [s Hsig]. rewrite Hsig in Hs. destruct Hs; done.
  - intros [Hh Hn Hp Hs Ha]. split; [|split; [|exact Ha]].
    + split_and!; [exact Hh|exact Hn| |exact Hp|].
      * intros h _. apply not_elem_of_empty.
      * intros h _ p _. apply lookup_empty.
    + destruct (signing inv); [right; apply Hs; eauto|by left].
Qed.

End Exact.

(** ** What the rest of the program relies on *)

(** A host with an ssh table has a shell. *)
Lemma host_ok_ssh_shell inv h s : host_ok inv h -> ssh h = Some s -> os h <> Embedded.
Proof.
  intros Hok Hs He. pose proof (ok_ssh _ _ Hok) as Hp. rewrite Hs in Hp.
  destruct Hp as [[Hc|Hc] _]; by apply (ok_embedded _ _ Hok He) in Hc.
Qed.

Lemma reload_command_total inv h s :
  host_ok inv h -> ssh h = Some s -> is_Some (reload_command h s).
Proof.
  intros Hok Hs. pose proof (host_ok_ssh_shell _ _ _ Hok Hs). unfold reload_command.
  destruct (reload_cmd s); [eauto|]. destruct (os h); eauto. done.
Qed.

Lemma host_ok_device_id inv h d :
  host_ok inv h -> device h = Some d -> is_Some (device_id_bytes d).
Proof. intros Hok Hd. pose proof (ok_device _ _ Hok) as Hp. rewrite Hd in Hp. by destruct Hp as [_ []]. Qed.

(** The identifier check takes a plus sign for a hexadecimal digit. *)
Lemma device_id_accepts_plus :
  let d := {| device_id := "+1+1+1+1+1+1+1+1+1+1+1+1+1+1+1+1"; device_alg := AlgEd25519;
              device_capability := 1; device_transport := TransportSerial; device_http := None;
              device_mqtt := None; device_serial := None; device_actuator := None |} in
  device_id_bytes d = Some (replicate 16 1).
Proof. by vm_compute. Qed.
