(* ===== verification/Lockfile.v ===== *)
(** * Lockfile: the cooperative lock file (daemon/src/lockfile.rs)

    Several processes run [acquire] on one path, each system call its own
    step: the file system and the clock are shared, an event list is the
    schedule.  A run in which nobody dies holding the lock and no lock grows
    stale excludes; the steal of a dead holder's lock is a check followed by
    a rename, and two waiters can both pass the check. *)

From S2P Require Import Prelude Text Clock.

(** ** The shared state *)

(** The file at the lock's path: the PID it holds if one can be read, its
    modification time, and (for the proofs only) the process that made it. *)
Record LockFile := { holder : option Z; modified : Z; made_by : Z }.

(** Where a process is in [acquire]; what it has read so far. *)
Inductive Pc :=
| Outside
| Creating (deadline : Z)
| Recording
| Holding
| Aging (deadline : Z)
| ReadingPid (deadline held_for : Z)
| Probing (deadline held_for pid : Z)
| Stealing (deadline held_for : Z)
| Checking (deadline held_for : Z)
| Sleeping (deadline : Z)
| Refusing (held_for : option Z)
| Dead.
#[export] Instance Pc_eq_dec : EqDecision Pc.
Proof. solve_decision. Defined.

Record System := { lock_file : option LockFile; wall : Z; pcs : gmap Z Pc }.

Definition pc_of (s : System) (p : Z) : Pc := default Outside (pcs s !! p).

(** [pid_alive]: [kill(pid, 0)] on a process of this host. *)
Definition pid_alive (s : System) (pid : Z) : bool :=
  negb (pid =? 0) && negb (bool_decide (pc_of s pid = Dead)) && bool_decide (is_Some (pcs s !! pid)).

Inductive Event :=
| Begin (p : Z)
| Run (p : Z)
| Drop (p : Z)
| PidNotWritten (p : Z)
| IoFails (p : Z)
| Dies (p : Z)
| Passes (ms : Z).
#[export] Instance Event_eq_dec : EqDecision Event.
Proof. solve_decision. Defined.

Section Acquire.
Context (lock_timeout stale_lock_after : Z).

Definition goto (s : System) (p : Z) (pc : Pc) : System :=
  {| lock_file := lock_file s; wall := wall s; pcs := <[p := pc]> (pcs s) |}.
Definition with_lock (s : System) (l : option LockFile) : System :=
  {| lock_file := l; wall := wall s; pcs := pcs s |}.

(** The age of the lock; no file, or a file of the future, is no age. *)
Definition age (s : System) : Z :=
  match lock_file s with Some l => Z.max 0 (wall s - modified l) | None => 0 end.

(** [holder_dead || held_for > stale_lock_after]. *)
Definition judge (deadline held_for : Z) (holder_dead : bool) : Pc :=
  if holder_dead || (stale_lock_after <? held_for) then Stealing deadline held_for
  else Checking deadline held_for.

(** The next system call of process [p]. *)
Definition advance (s : System) (p : Z) : System :=
  match pc_of s p with
  | Creating d =>
      match lock_file s with
      | None =>
          goto (with_lock s (Some {| holder := None; modified := wall s; made_by := p |})) p Recording
      | Some _ => goto s p (Aging d)
      end
  | Recording =>
      goto (with_lock s (match lock_file s with
                         | Some l =>
                             if made_by l =? p
                             then Some {| holder := Some p; modified := wall s; made_by := p |}
                             else Some l
                         | None => None
                         end)) p Holding
  | Aging d => goto s p (ReadingPid d (age s))
  | ReadingPid d h =>
      match lock_file s ≫= holder with
      | Some pid => goto s p (Probing d h pid)
      | None => goto s p (judge d h false)
      end
  | Probing d h pid => goto s p (judge d h (negb (pid_alive s pid)))
  | Stealing d h => goto (with_lock s None) p (Checking d h)
  | Checking d h =>
      if d <=? wall s then goto s p (Refusing (Some h)) else goto s p (Sleeping d)
  | Sleeping d =>
      {| lock_file := lock_file s; wall := wall s + 50; pcs := <[p := Creating d]> (pcs s) |}
  | Outside | Holding | Refusing _ | Dead => s
  end.

(** A call of [acquire]. *)
Definition begin (s : System) (p : Z) : System :=
  match pc_of s p with
  | Outside | Refusing _ => goto s p (Creating (wall s + lock_timeout))
  | _ => s
  end.

(** The guard's [drop]: whatever is at the path is removed. *)
Definition drop_guard (s : System) (p : Z) : System :=
  match pc_of s p with
  | Holding => goto (with_lock s None) p Outside
  | _ => s
  end.

Definition exec (s : System) (ev : Event) : System :=
  match ev with
  | Begin p => begin s p
  | Run p => advance s p
  | Drop p => drop_guard s p
  | PidNotWritten p => match pc_of s p with Recording => goto s p Holding | _ => s end
  | IoFails p => 
      match pc_of s p with
      | Creating _ => goto s p (Refusing None)
      | Stealing d h => goto s p (Checking d h)
      | _ => s
      end
  | Dies p => goto s p Dead
  | Passes ms => {| lock_file := lock_file s; wall := wall s + Z.max 0 ms; pcs := pcs s |}
  end.

Definition exec_all (evs : list Event) (s : System) : System := fold_left exec evs s.

(** Nobody dies, and no lock is held for longer than the stale age. *)
Definition calm_event (s : System) (ev : Event) : bool :=
  match ev with Dies _ => false | _ => age (exec s ev) <=? stale_lock_after end.
Fixpoint calm (evs : list Event) (s : System) : bool :=
  match evs with
  | [] => true
  | ev :: evs => calm_event s ev && calm evs (exec s ev)
  end.

(** ** Exclusion *)

Definition critical (pc : Pc) : bool :=
  match pc with Recording | Holding => true | _ => false end.

(** The readings a waiter carries never justify a steal. *)
Definition harmless (s : System) (pc : Pc) : Prop :=
  match pc with
  | Dead | Stealing _ _ => False
  | ReadingPid _ h => h <= stale_lock_after
  | Probing _ h pid => h <= stale_lock_after /\ 0 < pid /\ is_Some (pcs s !! pid)
  | _ => True
  end.

Definition lock_inv (s : System) : Prop :=
  (forall p, critical (pc_of s p) = true -> exists l, lock_file s = Some l /\ made_by l = p)
  /\ (forall l, lock_file s = Some l ->
        critical (pc_of s (made_by l)) = true
        /\ forall pid, holder l = Some pid -> pid = made_by l)
  /\ (forall p, is_Some (pcs s !! p) -> 0 < p)
  /\ (forall p, harmless s (pc_of s p))
  /\ age s <= stale_lock_after.

Definition init : System := {| lock_file := None; wall := 0; pcs := ∅ |}.

Definition positive (ev : Event) : Prop :=
  match ev with
  | Begin p | Run p | Drop p | PidNotWritten p | IoFails p | Dies p => 0 < p
  | Passes _ => True
  end.
#[export] Instance positive_dec ev : Decision (positive ev).
Proof. destruct ev; apply _. Defined.

Lemma pc_goto s p pc q : pc_of (goto s p pc) q = if decide (p = q) then pc else pc_of s q.
Proof. unfold pc_of, goto. cbn. rewrite lookup_insert. by case_decide. Qed.

Lemma pc_present s p : pc_of s p <> Outside -> is_Some (pcs s !! p).
Proof. unfold pc_of. destruct (pcs s !! p); [done|]. by intros []. Qed.

(** A waiter moves on: nothing shared changes. *)
Lemma inv_move s p pc :
  lock_inv s -> 0 < p -> critical (pc_of s p) = false -> critical pc = false ->
  harmless s pc -> lock_inv (goto s p pc).
Proof.
  intros (Hc & Hl & Hp & Hh & Ha) Hpos Hcp Hcn Hn.
  assert (Hmore : forall q, is_Some (pcs s !! q) -> is_Some (pcs (goto s p pc) !! q)).
  { intros q Hq. cbn. rewrite lookup_insert. by case_decide. }
  split_and!.
  - intros q. rewrite pc_goto. case_decide; [by rewrite Hcn|apply Hc].
  - intros l Hlk. destruct (Hl l Hlk) as [H1 H2]. split; [|done]. rewrite pc_goto.
    case_decide; [subst; congruence|done].
  - intros q. cbn. rewrite lookup_insert. case_decide; [by subst|apply Hp].
  - intros q. rewrite pc_goto.
    assert (Hmono : forall x, harmless s x -> harmless (goto s p pc) x).
    { intros []; cbn [harmless]; try done. intros (? & ? & ?). split_and!; [done..|by apply Hmore]. }
    case_decide; apply Hmono; [done|apply Hh].
  - done.
Qed.

Lemma judge_calm d h : h <= stale_lock_after -> judge d h false = Checking d h.
Proof. intros. unfold judge. cbn [orb]. by rewrite (proj2 (Z.ltb_ge _ _)). Qed.

(** Entering and leaving the critical section. *)
Lemma inv_lock s p pc l :
  lock_inv s -> 0 < p -> harmless s pc ->
  (forall q, q <> p -> critical (pc_of s q) = false) ->
  match l with
  | Some l => critical pc = true /\ made_by l = p /\ (forall pid, holder l = Some pid -> pid = p)
  | None => critical pc = false
  end ->
  age (with_lock s l) <= stale_lock_after ->
  lock_inv (goto (with_lock s l) p pc).
Proof.
  intros (Hc & Hl & Hp & Hh & Ha) Hpos Hn Hother Hlock Hage. split_and!.
  - intros q. rewrite pc_goto. case_decide as Hq.
    + subst q. intros Hcr. cbn. destruct l as [l|]; [|congruence].
      destruct Hlock as (_ & Hm & _). eauto.
    + intros Hcr. change (pc_of (with_lock s l) q) with (pc_of s q) in Hcr.
      by rewrite Hother in Hcr.
  - cbn. intros l' ->. destruct Hlock as (Hcr & Hm & Hw). rewrite pc_goto, Hm, decide_True by done.
    split; [done|]. intros pid Hpid. by rewrite (Hw pid).
  - intros q. cbn. rewrite lookup_insert. case_decide; [by subst|apply Hp].
  - intros q. rewrite pc_goto.
    assert (Hmono : forall x, harmless s x -> harmless (goto (with_lock s l) p pc) x).
    { intros []; cbn [harmless]; try done. intros (? & ? & ?). split_and!; [done..|].
      cbn. rewrite lookup_insert. by case_decide. }
    change (pc_of (with_lock s l) q) with (pc_of s q).
    case_decide; apply Hmono; [done|apply Hh].
  - done.
Qed.

(** Time passes: only the age grows. *)
Lemma inv_wall s t :
  lock_inv s -> age {| lock_file := lock_file s; wall := t; pcs := pcs s |} <= stale_lock_after ->
  lock_inv {| lock_file := lock_file s; wall := t; pcs := pcs s |}.
Proof. by intros (Hc & Hl & Hp & Hh & _) Ha. Qed.

(** A process in the critical section is alone there. *)
Lemma inv_alone s p q :
  lock_inv s -> critical (pc_of s p) = true -> q <> p -> critical (pc_of s q) = false.
Proof.
  intros (Hc & _) Hp Hne. destruct (critical (pc_of s q)) eqn:Hq; [|done].
  destruct (Hc p Hp) as (l & Hl & Hm). destruct (Hc q Hq) as (l' & Hl' & Hm'). congruence.
Qed.

Lemma inv_nobody s q : lock_inv s -> lock_file s = None -> critical (pc_of s q) = false.
Proof.
  intros (Hc & _) Hn. destruct (critical (pc_of s q)) eqn:Hq; [|done].
  destruct (Hc q Hq) as (l & Hl & _). congruence.
Qed.

Lemma inv_advance s p :
  lock_inv s -> 0 < p -> age (advance s p) <= stale_lock_after -> lock_inv (advance s p).
Proof.
  intros Hinv Hpos Ha. pose proof Hinv as (Hc & Hl & Hp & Hh & Hage). specialize (Hh p).
  unfold advance in *. destruct (pc_of s p) as [|d| | |d|d h|d h pid|d h|d h|d|h|] eqn:Hpc; try done.
  - destruct (lock_file s) as [l|] eqn:Hlk.
    + apply inv_move; [done..|by rewrite Hpc|done|done].
    + apply inv_lock; [done..| |by split_and!|done]. intros. by apply inv_nobody.
  - destruct (Hc p) as (l & Hlk & Hm); [by rewrite Hpc|]. rewrite Hlk, Hm, Z.eqb_refl in *.
    apply inv_lock; [done..| | |done].
    + intros. eapply inv_alone; [done| |done]. by rewrite Hpc.
    + split_and!; [done..|]. cbn. by intros ? [= <-].
  - apply inv_move; [done..|by rewrite Hpc|done|done].
  - destruct (lock_file s ≫= holder) as [pid|] eqn:Hpid.
    + apply inv_move; [done..|by rewrite Hpc|done|]. cbn.
      destruct (lock_file s) as [l|]; [|done]. cbn in Hpid.
      destruct (Hl l eq_refl) as [Hcr Hw]. rewrite (Hw _ Hpid).
      assert (is_Some (pcs s !! made_by l)) by (apply pc_present; by intros E; rewrite E in Hcr).
      auto.
    + rewrite judge_calm by done. apply inv_move; [done..|by rewrite Hpc|done|done].
  - destruct Hh as (Hh & Hpid & Hsome).
    assert (Halive : pid_alive s pid = true).
    { unfold pid_alive. rewrite (proj2 (Z.eqb_neq _ _)) by lia.
      rewrite (bool_decide_eq_true_2 (is_Some _)) by done.
      rewrite bool_decide_eq_false_2; [done|]. intros E.
      pose proof (proj1 (proj2 (proj2 (proj2 Hinv))) pid) as Hd. by rewrite E in Hd. }
    rewrite Halive. cbn [negb]. rewrite judge_calm by done.
    apply inv_move; [done..|by rewrite Hpc|done|done].
  - destruct (d <=? wall s); (apply inv_move; [done..|by rewrite Hpc|done|done]).
  - apply (inv_wall (goto s p (Creating d))); [|done].
    apply inv_move; [done..|by rewrite Hpc|done|done].
Qed.

Lemma inv_exec s ev :
  lock_inv s -> positive ev -> calm_event s ev = true -> lock_inv (exec s ev).
Proof.
  intros Hinv Hpos Hcalm. destruct ev as [p|p|p|p|p|p|ms]; cbn [calm_event positive] in *; [..|done|].
  all: apply Z.leb_le in Hcalm.
  - cbn in *. unfold begin. destruct (pc_of s p) eqn:Hpc; try done;
      (apply inv_move; [done..|by rewrite Hpc|done|done]).
  - by apply inv_advance.
  - cbn in *. unfold drop_guard in *. destruct (pc_of s p) eqn:Hpc; try done.
    apply inv_lock; [done..| |done|done]. intros. eapply inv_alone; [done| |done]. by rewrite Hpc.
  - cbn in *. destruct (pc_of s p) eqn:Hpc; try done.
    pose proof Hinv as (Hc & Hl & _). destruct (Hc p) as (l & Hlk & Hm); [by rewrite Hpc|].
    assert (Hs : goto s p Holding = goto (with_lock s (Some l)) p Holding).
    { unfold goto, with_lock. cbn. by rewrite <-Hlk. }
    rewrite Hs in *. apply inv_lock; [done..| | |done].
    + intros. eapply inv_alone; [done| |done]. by rewrite Hpc.
    + split_and!; [done..|]. rewrite <-Hm. by apply Hl.
  - cbn in *. destruct (pc_of s p) eqn:Hpc; try done;
      (apply inv_move; [done..|by rewrite Hpc|done|done]).
  - by apply inv_wall.
Qed.

Lemma inv_exec_all evs s :
  lock_inv s -> Forall positive evs -> calm evs s = true -> lock_inv (exec_all evs s).
Proof.
  revert s. induction evs as [|ev evs IH]; intros s Hinv Hpos Hc; [done|].
  apply Forall_cons in Hpos as [Hp Hpos]. cbn in Hc. apply andb_true_iff in Hc as [Hc1 Hc2].
  apply IH; [|done..]. by apply inv_exec.
Qed.

Lemma lock_inv_init : 0 <= stale_lock_after -> lock_inv init.
Proof.
  intros. split_and!; [done|done| |done|done]. cbn. intros p []%lookup_empty_is_Some.
Qed.


(** ** Termination

    The rounds left to a waiter are bounded by its deadline, since each
    round sleeps fifty milliseconds; other processes and the passing of time
    only bring the deadline nearer. *)

Definition rounds (d t : Z) : Z := Z.max 0 ((d - t + 49) / 50).

Definition waiting (pc : Pc) : bool :=
  match pc with Outside | Recording | Holding | Refusing _ | Dead => false | _ => true end.

Definition fuel_left (pc : Pc) (t : Z) : Z :=
  match pc with
  | Creating d => 7 * rounds d t + 6
  | Aging d => 7 * rounds d t + 5
  | ReadingPid d _ => 7 * rounds d t + 4
  | Probing d _ _ => 7 * rounds d t + 3
  | Stealing d _ => 7 * rounds d t + 2
  | Checking d _ => 7 * rounds d t + 1
  | Sleeping d => Z.max 7 (7 * rounds d t)
  | _ => 0
  end.

Lemma rounds_mono d t t' : t <= t' -> rounds d t' <= rounds d t.
Proof.
  intros. unfold rounds. apply Z.max_le_compat_l, Z.div_le_mono; lia.
Qed.

Lemma rounds_sleep d t : rounds d (t + 50) = Z.max 0 (rounds d t - 1).
Proof.
  unfold rounds. replace (d - (t + 50) + 49) with (d - t + 49 + (-1) * 50) by lia.
  rewrite Z.div_add by lia. lia.
Qed.

Lemma rounds_before d t : t < d -> 1 <= rounds d t.
Proof. intros. unfold rounds. assert (1 <= (d - t + 49) / 50) by (apply Z.div_le_lower_bound; lia). lia. Qed.

Lemma fuel_left_mono pc t t' : t <= t' -> fuel_left pc t' <= fuel_left pc t.
Proof. intros Ht. destruct pc; cbn; try lia; pose proof (rounds_mono deadline _ _ Ht); lia. Qed.

Lemma fuel_left_nonneg pc t : 0 <= fuel_left pc t.
Proof. destruct pc; cbn; unfold rounds; lia. Qed.

Lemma exec_wall s ev : wall s <= wall (exec s ev).
Proof.
  destruct ev; cbn; unfold begin, advance, drop_guard; repeat case_goal; cbn; lia.
Qed.

Lemma exec_other s ev p :
  match ev with
  | Begin q | Run q | Drop q | PidNotWritten q | IoFails q | Dies q => q <> p
  | Passes _ => True
  end -> pc_of (exec s ev) p = pc_of s p.
Proof.
  assert (Hg : forall l q pc, q <> p -> pc_of (goto (with_lock s l) q pc) p = pc_of s p)
    by (intros; rewrite pc_goto, decide_False by done; done).
  assert (Hg' : forall q pc, q <> p -> pc_of (goto s q pc) p = pc_of s p)
    by (intros; by rewrite pc_goto, decide_False).
  destruct ev; cbn; intros; unfold begin, advance, drop_guard; repeat case_goal; auto.
  unfold pc_of. cbn. by rewrite lookup_insert_ne.
Qed.

(** Running a waiter spends fuel; no event gives it any. *)
Lemma run_spends s p :
  waiting (pc_of s p) = true -> waiting (pc_of (advance s p) p) = true ->
  fuel_left (pc_of (advance s p) p) (wall (advance s p)) < fuel_left (pc_of s p) (wall s).
Proof.
  assert (Hsame : forall pc, pc_of (goto s p pc) p = pc) by (intros; by rewrite pc_goto, decide_True).
  assert (Hlock : forall l pc, pc_of (goto (with_lock s l) p pc) p = pc)
    by (intros; by rewrite pc_goto, decide_True).
  unfold advance. destruct (pc_of s p) as [|d| | |d|d h|d h pid|d h|d h|d|h|] eqn:Hpc; try done; intros _.
  - destruct (lock_file s); [rewrite Hsame|by rewrite Hlock]. cbn. lia.
  - rewrite Hsame. cbn. lia.
  - destruct (_ ≫= _); rewrite Hsame; [cbn; lia|]. unfold judge. destruct (_ || _); cbn; lia.
  - rewrite Hsame. unfold judge. destruct (_ || _); cbn; lia.
  - rewrite Hlock. cbn. lia.
  - destruct (d <=? wall s) eqn:Hd; rewrite Hsame; [done|]. bool_prop. cbn.
    pose proof (rounds_before d (wall s) Hd). lia.
  - assert (pc_of {| lock_file := lock_file s; wall := wall s + 50;
      pcs := <[p := Creating d]> (pcs s) |} p = Creating d) as ->
      by (unfold pc_of; cbn; by rewrite lookup_insert_eq).
    cbn. rewrite rounds_sleep. unfold rounds. lia.
Qed.

Lemma exec_spends s ev p :
  ev <> Begin p -> waiting (pc_of (exec s ev) p) = true ->
  waiting (pc_of s p) = true
  /\ fuel_left (pc_of (exec s ev) p) (wall (exec s ev))
      + (if decide (ev = Run p) then 1 else 0) <= fuel_left (pc_of s p) (wall s).
Proof.
  intros Hb Hw. pose proof (fuel_left_mono (pc_of s p) _ _ (exec_wall s ev)) as Hm.
  assert (Hkeep : pc_of (exec s ev) p = pc_of s p -> ev <> Run p ->
    waiting (pc_of s p) = true /\ fuel_left (pc_of (exec s ev) p) (wall (exec s ev))
      + (if decide (ev = Run p) then 1 else 0) <= fuel_left (pc_of s p) (wall s)).
  { intros He Hr. rewrite decide_False by done. rewrite He in *. split; [done|lia]. }
  destruct ev as [q|q|q|q|q|q|ms];
    try (destruct (decide (q = p)) as [->|Hne]; [|apply Hkeep; [by apply exec_other|congruence]]).
  - done.
  - rewrite decide_True by done. cbn [exec] in *.
    assert (Hs : waiting (pc_of s p) = true).
    { unfold advance in Hw. destruct (pc_of s p) eqn:Hpc; try done; try (by rewrite Hpc in Hw).
      by rewrite pc_goto, decide_True in Hw. }
    split; [done|]. pose proof (run_spends s p Hs Hw). lia.
  - cbn [exec] in *. unfold drop_guard in *. destruct (pc_of s p) eqn:Hpc;
      try (apply Hkeep; [done|discriminate]).
    by rewrite pc_goto, decide_True in Hw.
  - cbn [exec] in *. destruct (pc_of s p) eqn:Hpc;
      try (apply Hkeep; [done|discriminate]).
    by rewrite pc_goto, decide_True in Hw.
  - cbn [exec] in *. destruct (pc_of s p) eqn:Hpc;
      try (apply Hkeep; [done|discriminate]);
      rewrite decide_False by discriminate; rewrite pc_goto, decide_True in * by done; cbn in *;
      try done; split; [done|lia].
  - cbn [exec] in *. by rewrite pc_goto, decide_True in Hw.
  - apply Hkeep; [done|discriminate].
Qed.

Lemma exec_all_spends evs s p :
  ~ In (Begin p) evs -> waiting (pc_of (exec_all evs s) p) = true ->
  Z.of_nat (length (List.filter (fun ev => bool_decide (ev = Run p)) evs))
  <= fuel_left (pc_of s p) (wall s).
Proof.
  revert s. induction evs as [|ev evs IH]; intros s Hb Hw.
  { cbn. apply fuel_left_nonneg. }
  cbn in Hb. specialize (IH (exec s ev) ltac:(tauto) Hw).
  assert (Hw1 : waiting (pc_of (exec s ev) p) = true).
  { clear -Hb Hw. cbn in Hw. revert Hw. generalize (exec s ev) as s1. clear s.
    assert (Hb' : ~ In (Begin p) evs) by tauto. clear Hb. revert Hb'.
    induction evs as [|ev1 evs IH]; intros Hb s1 Hw; [done|].
    cbn in Hb, Hw. apply IH in Hw; [|tauto].
    apply (exec_spends s1 ev1 p); [naive_solver|done]. }
  destruct (exec_spends s ev p) as [_ Hs]; [naive_solver|done|].
  cbn [List.filter]. case_bool_decide as E; cbn [length].
  - rewrite decide_True in Hs by done. lia.
  - rewrite decide_False in Hs by done. lia.
Qed.

Lemma acquire_ends (s : System) (p : Z) (evs : list Event)
    (Hout : pc_of s p = Outside) (Honce : ~ In (Begin p) evs)
    (Hrun : 7 * rounds lock_timeout 0 + 6
            < Z.of_nat (length (List.filter (fun ev => bool_decide (ev = Run p)) evs))) :
  waiting (pc_of (exec_all (Begin p :: evs) s) p) = false.
Proof.
  destruct (waiting _) eqn:Hw; [|done]. cbn in Hw.
  pose proof (exec_all_spends evs (begin s p) p Honce Hw) as Hs.
  unfold begin in Hs. rewrite Hout, pc_goto, decide_True in Hs by done. cbn in Hs.
  assert (rounds (wall s + lock_timeout) (wall s) = rounds lock_timeout 0) as Hr
    by (unfold rounds; f_equal; f_equal; lia).
  rewrite Hr in Hs. lia.
Qed.

(** C39. An acquisition ends: whatever the other processes do and however
    the clock advances, a process that calls [acquire] and is run for more
    than 7 * (timeout / 50ms) + 6 system calls has the lock or an error (or
    is dead): it does not wait past its deadline. *)
Theorem acquire_terminates (s : System) (p : Z) (evs : list Event)
    (Hout : pc_of s p = Outside) (Honce : ~ In (Begin p) evs)
    (Hrun : 7 * rounds lock_timeout 0 + 6
            < Z.of_nat (length (List.filter (fun ev => bool_decide (ev = Run p)) evs))) :
  waiting (pc_of (exec_all (Begin p :: evs) s) p) = false.
Proof. by apply acquire_ends. Qed.
End Acquire.

(** Process 1 holds the lock while 2 waits, then drops it, and 2 takes it. *)
Definition handover : list Event :=
  [Begin 1; Begin 2; Run 1; Run 2; Run 1; Run 2; Run 2; Run 2; Run 2; Run 2;
   Drop 1; Run 2; Run 2].


(** Process 2 waits out a live holder and is refused. *)
Lemma acquire_terminates_witness :
  let s := exec_all 100 120000 [Begin 1; Run 1; Run 1] init in
  pc_of (exec_all 100 120000 (Begin 2 :: repeat (Run 2) 30) s) 2 = Refusing (Some 100)
  /\ waiting (pc_of (exec_all 100 120000 (Begin 2 :: repeat (Run 2) 30) s) 2) = false.
Proof.
  split; [by vm_compute|].
  apply (acquire_terminates 100 120000); [by vm_compute| |by vm_compute].
  intros Hin%repeat_spec. discriminate.
Defined.

(** ** The steal is a check and a rename

    Process 3 dies holding the lock.  Both waiters read its PID and find it
    dead; 2 renames the file away and takes the lock; the rename of 1 then
    removes the lock of 2, which is alive and holding, and 1 takes it too. *)
Definition steal_race : list Event :=
  [Begin 3; Run 3; Run 3; Dies 3;
   Begin 1; Run 1; Run 1; Run 1; Run 1;
   Begin 2; Run 2; Run 2; Run 2; Run 2;
   Run 2; Run 2; Run 2; Run 2; Run 2;
   Run 1; Run 1; Run 1; Run 1; Run 1].

(** Exclusion does not survive a death: with two waiters at the lock of a
    dead process, a schedule exists after which both hold it, neither having
    died. *)
Theorem steal_admits_two_holders :
  pc_of (exec_all 10000 120000 steal_race init) 1 = Holding
  /\ pc_of (exec_all 10000 120000 steal_race init) 2 = Holding
  /\ ~ In (Dies 2) steal_race.
Proof.
  split_and!; [by vm_compute..|]. cbn. intuition discriminate.
Qed.
