(* ===== verification/Remote.v ===== *)
(** * Remote: how the ssh-borne drivers reach a host

    The transport seam and its production implementation
    (daemon/src/transport.rs), and the plumbing over it
    (daemon/src/drivers/remote.rs).  ssh(1) is a parameter; what a remote
    POSIX shell makes of a quoted command line is the reader [sh_words]. *)

From S2P Require Import Prelude Text Clock External Inventory TextLines Fence DriverMonad Channel.

(** ** The transport seam *)

Record CommandOutput := { status : Z; stdout : string; stderr : string }.

(** The trait [SshTransport]. *)
Class SshTransport (T : Type) := {
  ssh_run : Host -> list string -> option string -> T -> T * result DriverError CommandOutput;
}.

Definition quote1 : ascii := "'"%char.
Definition backslash : ascii := "\"%char.

(** [s.replace('\'', "'\\''")]. *)
Fixpoint escape_quotes (s : string) : string :=
  match s with
  | "" => ""
  | String c s =>
      if bool_decide (c = quote1)
      then String quote1 (String backslash (String quote1 (String quote1 (escape_quotes s))))
      else String c (escape_quotes s)
  end.

Definition shell_quote (s : string) : string :=
  String quote1 (escape_quotes s +:+ String quote1 "").

Fixpoint join_sp (l : list string) : string :=
  match l with
  | [] => ""
  | [s] => s
  | s :: l => s +:+ String " "%char (join_sp l)
  end.

(** The command line of the remote shell. *)
Definition remote_command (argv : list string) : string := join_sp (shell_quote <$> argv).

(** The arguments of the ssh(1) process. *)
Definition ssh_args (host : Host) (cfg : SshConfig) (argv : list string) : list string :=
  ["-o"; "BatchMode=yes"; "-o"; "ConnectTimeout=10"; "-p"; dec_u64 (ssh_port cfg);
   "-l"; ssh_agent_user cfg]
  ++ match ssh_identity_file cfg with
     | Some identity => ["-i"; identity; "-o"; "IdentitiesOnly=yes"]
     | None => []
     end
  ++ [address host; "--"; remote_command argv].

(** How a child process can fail to run: not spawned, its input not taken,
    or not waited for. *)
Inductive ProcessError := SpawnFailed | StdinFailed | WaitFailed.

(** A process of the operating system: its arguments and input; the exit
    code if it was not killed by a signal, and its decoded output. *)
Class Processes (T : Type) := {
  exec_process : string -> list string -> option string -> T ->
    T * result ProcessError (option Z * string * string);
}.

Section ExecSsh.
Context {T : Type} `{!Processes T} (message : string -> Host -> option ProcessError -> string).

(** [ExecSshTransport::run]. *)
Definition exec_ssh_run (host : Host) (argv : list string) (stdin : option string)
    : T -> T * result DriverError CommandOutput := fun t =>
  match ssh host with
  | None => (t, Err (MkDriverError (message "config" host None)))
  | Some cfg =>
      let '(t', r) := exec_process "ssh" (ssh_args host cfg argv) stdin t in
      (t', match r with
           | Ok (code, out, err) =>
               Ok {| status := default (-1) code; stdout := out; stderr := err |}
           | Err e => Err (MkDriverError (message "ssh" host (Some e)))
           end)
  end.
End ExecSsh.

(** ** The plumbing *)

Inductive SshError :=
| TransportError (e : DriverError)
| Exited (doing host : string) (code : Z) (err : string)
| NoRecognizablePosture (host : string)
| NoSshConfig (host : string)
| PostureVerifyFailed (host : string) (effective wanted : Posture)
| FenceFailed (e : FenceError)
| KeysReadBackDiffer (host : string)
| FenceStillPresent (host : string)
| CannotRenderScript (host : string)
| CronLineMissing (host : string)
| DeadlineReadBack (host read : string).

Section RemotePlumbing.
Context {T : Type} `{!SshTransport T}.
Notation RM := (eff T SshError).

Definition with_become (cfg : SshConfig) (argv : list string) : list string :=
  match ssh_become_cmd cfg with
  | None => argv
  | Some prefix => split_whitespace prefix ++ argv
  end.

Definition transport_run (host : Host) (argv : list string) (stdin : option string)
    : RM CommandOutput := fun t =>
  let '(t', r) := ssh_run host argv stdin t in
  (t', map_err (fun e => Refused (TransportError e)) r).

Definition run_ok (host : Host) (cfg : SshConfig) (argv : list string) (stdin : option string)
    (doing : string) : RM string :=
  let& out := transport_run host (with_become cfg argv) stdin in
  erequire (status out =? 0) (Exited doing (name host) (status out) (trim (stderr out))) ;&
  eret (stdout out).

Definition sh (script : string) : list string := ["sh"; "-c"; script].

Definition read_script (path : string) : string :=
  "if test -f " +:+ shell_quote path +:+ "; then cat " +:+ shell_quote path +:+ "; fi".
Definition read_file (host : Host) (cfg : SshConfig) (path : string) : RM string :=
  run_ok host cfg (sh (read_script path)) None "reading".

Definition write_script (path : string) : string :=
  let q := shell_quote path in
  "umask 077 && cat > " +:+ q +:+ ".lychgate-tmp && mv " +:+ q +:+ ".lychgate-tmp " +:+ q.
Definition write_file (host : Host) (cfg : SshConfig) (path content : string) : RM unit :=
  run_ok host cfg (sh (write_script path)) (Some content) "writing" ;& eret tt.

Definition remove_script (path : string) : string := "rm -f " +:+ shell_quote path.
Definition remove_file (host : Host) (cfg : SshConfig) (path : string) : RM unit :=
  run_ok host cfg (sh (remove_script path)) None "removing" ;& eret tt.

Definition sshd_query : list string := ["sshd"; "-T"].
Definition effective_posture (host : Host) (cfg : SshConfig) : RM Posture :=
  let& output := run_ok host cfg sshd_query None "querying sshd -T" in
  esome (parse_effective_posture output) (NoRecognizablePosture (name host)).

(** The panic is the [unreachable!] of [reload_command]. *)
Definition reload_argv (host : Host) (cfg : SshConfig) : RM (list string) :=
  let& cmd := eexpect (reload_command host cfg) in eret (sh cmd).

Definition reload_sshd (host : Host) (cfg : SshConfig) : RM unit :=
  let& argv := reload_argv host cfg in
  run_ok host cfg argv None "reloading sshd" ;& eret tt.

(** The loop [for attempt in 0..20] and the [expect] after it. *)
Fixpoint posture_attempts (n : nat) (last : option SshError) (host : Host) (cfg : SshConfig)
    : RM Posture :=
  match n with
  | O => let& e := eexpect last in efail e
  | S n =>
      let& r := etry (effective_posture host cfg) in
      match r with
      | Ok posture => eret posture
      | Err e => posture_attempts n (Some e) host cfg
      end
  end.

Definition effective_posture_after_reload (host : Host) (cfg : SshConfig) : RM Posture :=
  posture_attempts 20 None host cfg.
End RemotePlumbing.

(** ** Quoting

    What a POSIX shell makes of a command line of plain and single-quoted
    words (XCU 2.2): quoting modes, blanks, the backslash; any other
    character the shell gives a meaning to is not a plain word. *)

Definition sh_special (c : ascii) : bool :=
  existsb (fun d => bool_decide (c = d))
    ["|"; "&"; ";"; "<"; ">"; "("; ")"; "$"; "`"; "034"; "*"; "?"; "["; "#"; "~"; "="; "%"; "{";
     "}"; "!"; "009"; "010"]%char.

Definition push (cur : option string) (c : ascii) : option string :=
  Some (default "" cur +:+ String c "").
Definition flush (cur : option string) (rest : option (list string)) : option (list string) :=
  match cur with Some w => (w ::.) <$> rest | None => rest end.

Fixpoint sh_words (quoted : bool) (cur : option string) (s : string) : option (list string) :=
  match s with
  | "" => if quoted then None else flush cur (Some [])
  | String c s' =>
      if quoted then
        if bool_decide (c = quote1) then sh_words false cur s' else sh_words true (push cur c) s'
      else if bool_decide (c = quote1) then sh_words true (Some (default "" cur)) s'
      else if bool_decide (c = " "%char) then flush cur (sh_words false None s')
      else if bool_decide (c = backslash) then
        match s' with
        | String c' s'' => if sh_special c' then None else sh_words false (push cur c') s''
        | "" => None
        end
      else if sh_special c then None
      else sh_words false (push cur c) s'
  end.

Lemma sh_words_escape acc s rest :
  sh_words true (Some acc) (escape_quotes s +:+ String quote1 rest)
  = sh_words false (Some (acc +:+ s)) rest.
Proof.
  revert acc. induction s as [|c s IH]; intros acc; cbn [escape_quotes].
  { cbn. by rewrite str_app_nil_r. }
  assert (Hacc : (acc +:+ String c "") +:+ s = acc +:+ String c s)
    by (rewrite str_app_assoc; done).
  case_bool_decide as E.
  - subst c. rewrite <-Hacc, <-IH. cbn. done.
  - cbn [String.append sh_words]. rewrite bool_decide_false by done. cbn [push default].
    rewrite <-Hacc, <-IH. done.
Qed.

Lemma sh_words_quote s rest :
  sh_words false None (shell_quote s +:+ rest) = sh_words false (Some s) rest.
Proof.
  unfold shell_quote. cbn [String.append sh_words]. rewrite bool_decide_true by done.
  rewrite str_app_assoc. exact (sh_words_escape "" s rest).
Qed.

(** Quoting is exact: whatever bytes the arguments hold, the command
    line the transport builds is read by a POSIX shell as exactly those
    arguments, no more and no fewer. *)
Theorem shell_quoting_exact (argv : list string) :
  sh_words false None (remote_command argv) = Some argv.
Proof.
  unfold remote_command. induction argv as [|a argv IH]; [done|].
  destruct argv as [|b argv].
  - cbn [fmap list_fmap join_sp]. rewrite <-(str_app_nil_r (shell_quote a)).
    by rewrite sh_words_quote.
  - cbn [fmap list_fmap join_sp] in *. rewrite sh_words_quote. cbn [sh_words].
    rewrite bool_decide_false, bool_decide_true by done. cbn [flush]. by rewrite IH.
Qed.

Example quoting_a_quote :
  shell_quote "it's" = "'it'\''s'" /\ sh_words false None "'it'\''s' plain" = Some ["it's"; "plain"].
Proof. done. Qed.
