(* ===== verification/DriverSsh.v ===== *)
(** * DriverSsh: the ssh-borne drivers and the dead-man's installation

    The root-posture and authorized-keys drivers (daemon/src/drivers/ssh.rs)
    and the dead-man control (daemon/src/drivers/deadman.rs), over the
    transport seam.  The targets behind the transport are the class
    [SshTargets]: what the commands the drivers send do to a POSIX host. *)

From S2P Require Import Prelude Text Clock External Inventory TextLines Fence Deadman DriverMonad Channel Remote.

Definition ssh_of {T} (host : Host) : eff T SshError SshConfig :=
  esome (ssh host) (NoSshConfig (name host)).

Definition dropin_path_of (cfg : SshConfig) : string := default DEFAULT_DROPIN (dropin_path cfg).

(** The channel [ssh]. *)
Module SshPosture.
Section Driver.
Context {T : Type} `{!SshTransport T}.
Notation RM := (eff T SshError).

Definition apply (host : Host) (ctx : ApplyCtx) : RM unit :=
  let& cfg := ssh_of host in
  write_file host cfg (dropin_path_of cfg) (render_dropin (root_posture_emergency cfg)) ;&
  reload_sshd host cfg ;&
  let& effective := effective_posture_after_reload host cfg in
  erequire (bool_decide (effective = root_posture_emergency cfg))
    (PostureVerifyFailed (name host) effective (root_posture_emergency cfg)).

Definition revert (host : Host) : RM unit :=
  let& cfg := ssh_of host in
  remove_file host cfg (dropin_path_of cfg) ;&
  reload_sshd host cfg ;&
  let& effective := effective_posture_after_reload host cfg in
  erequire (bool_decide (effective = root_posture_default cfg))
    (PostureVerifyFailed (name host) effective (root_posture_default cfg)).

Definition verify (host : Host) : RM ChannelState :=
  let& cfg := ssh_of host in
  let& effective := effective_posture host cfg in
  eret (if bool_decide (effective = root_posture_emergency cfg) then ChOpen else ChClosed).
End Driver.
End SshPosture.

(** The channel [authorized-keys]. *)
Module AuthKeys.
Section Driver.
Context {T : Type} `{!SshTransport T}.
Notation RM := (eff T SshError).

Definition apply (host : Host) (ctx : ApplyCtx) : RM unit :=
  let& cfg := ssh_of host in
  let& current := read_file host cfg (authorized_keys_path cfg) in
  let& updated := elift (map_err FenceFailed (fence_upsert current (emergency_keys cfg))) in
  write_file host cfg (authorized_keys_path cfg) updated ;&
  let& landed := read_file host cfg (authorized_keys_path cfg) in
  erequire (bool_decide (landed = updated)) (KeysReadBackDiffer (name host)).

Definition revert (host : Host) : RM unit :=
  let& cfg := ssh_of host in
  let& current := read_file host cfg (authorized_keys_path cfg) in
  let& updated := elift (map_err FenceFailed (fence_remove current)) in
  (if bool_decide (updated <> current)
   then write_file host cfg (authorized_keys_path cfg) updated else eret tt) ;&
  let& landed := read_file host cfg (authorized_keys_path cfg) in
  erequire (negb (contains FENCE_BEGIN landed)) (FenceStillPresent (name host)).

Definition verify (host : Host) : RM ChannelState :=
  let& cfg := ssh_of host in
  let& current := read_file host cfg (authorized_keys_path cfg) in
  eret (if contains FENCE_BEGIN current then ChOpen else ChClosed).
End Driver.
End AuthKeys.

(** The control of the backstop. *)
Module ExecDeadman.
Section Control.
Context {T : Type} `{!SshTransport T}.
Notation RM := (eff T SshError).

Definition crontab_list : list string := sh "crontab -l 2>/dev/null || true".
Definition crontab_install : list string := ["crontab"; "-"].

(** [if wanted != current { run_ok(["crontab", "-"], wanted)?; }] *)
Definition put_crontab (host : Host) (cfg : SshConfig) (current wanted : string) : RM unit :=
  if bool_decide (wanted <> current)
  then run_ok host cfg crontab_install (Some wanted) "writing crontab" ;& eret tt else eret tt.

Definition install (host : Host) (expires_at : SystemTime) : RM unit :=
  let& cfg := ssh_of host in
  let& rendered := eexpect (render_script host) in
  let& script := esome rendered (CannotRenderScript (name host)) in
  write_file host cfg SCRIPT_PATH script ;&
  write_file host cfg DEADLINE_PATH (render_deadline expires_at) ;&
  let& current := run_ok host cfg crontab_list None "reading crontab" in
  put_crontab host cfg current (crontab_with_deadman current) ;&
  let& landed := run_ok host cfg crontab_list None "verifying crontab" in
  erequire (existsb (contains CRON_MARKER) (lines landed)) (CronLineMissing (name host)) ;&
  let& deadline := read_file host cfg DEADLINE_PATH in
  erequire (bool_decide (deadline = render_deadline expires_at))
    (DeadlineReadBack (name host) deadline).

Definition reschedule (host : Host) (expires_at : SystemTime) : RM unit := install host expires_at.

Definition cleanup_script : string :=
  "if test -f " +:+ FIRED_PATH +:+ "; then echo fired; fi; rm -f " +:+ FIRED_PATH +:+ " "
  +:+ SCRIPT_PATH +:+ " " +:+ DEADLINE_PATH.

Definition remove (host : Host) : RM bool :=
  let& cfg := ssh_of host in
  let& current := run_ok host cfg crontab_list None "reading crontab" in
  put_crontab host cfg current (crontab_without_deadman current) ;&
  let& out := run_ok host cfg (sh cleanup_script) None "removing dead-man files" in
  eret (contains "fired" out).
End Control.
End ExecDeadman.

(** ** The targets *)

(** A POSIX host: its files, what [sshd -T] reports, root's crontab. *)
Record Target := { tg_files : gmap string string; tg_posture : Posture; tg_crontab : string }.

(** The text of a file, empty when there is none. *)
Definition text_at (tg : Target) (path : string) : string := default "" (tg_files tg !! path).

(** What a command that ran and exited 0 did.  Nothing is assumed of one
    that failed, nor of the reload command, but that it stayed on its host. *)
Class SshTargets (T : Type) `{!SshTransport T} := {
  target : T -> string -> Target;
  run_frame host argv stdin t h' :
    h' <> name host -> target (ssh_run host argv stdin t).1 h' = target t h';
  run_reads host cfg path t t' out :
    ssh host = Some cfg -> status out = 0 ->
    ssh_run host (with_become cfg (sh (read_script path))) None t = (t', Ok out) ->
    stdout out = text_at (target t (name host)) path
    /\ target t' (name host) = target t (name host);
  run_writes host cfg path content t t' out :
    ssh host = Some cfg -> status out = 0 ->
    ssh_run host (with_become cfg (sh (write_script path))) (Some content) t = (t', Ok out) ->
    tg_files (target t' (name host)) = <[path := content]> (tg_files (target t (name host)))
    /\ tg_crontab (target t' (name host)) = tg_crontab (target t (name host));
  run_posture host cfg p t t' out :
    ssh host = Some cfg -> status out = 0 ->
    ssh_run host (with_become cfg sshd_query) None t = (t', Ok out) ->
    parse_effective_posture (stdout out) = Some p ->
    p = tg_posture (target t' (name host)) /\ target t' (name host) = target t (name host);
  run_lists_crontab host cfg t t' out :
    ssh host = Some cfg -> status out = 0 ->
    ssh_run host (with_become cfg ExecDeadman.crontab_list) None t = (t', Ok out) ->
    stdout out = tg_crontab (target t (name host))
    /\ target t' (name host) = target t (name host);
  run_installs_crontab host cfg text t t' out :
    ssh host = Some cfg -> status out = 0 ->
    ssh_run host (with_become cfg ExecDeadman.crontab_install) (Some text) t = (t', Ok out) ->
    tg_crontab (target t' (name host)) = text
    /\ tg_files (target t' (name host)) = tg_files (target t (name host));
  run_cleans host cfg t t' out :
    ssh host = Some cfg -> status out = 0 ->
    ssh_run host (with_become cfg (sh ExecDeadman.cleanup_script)) None t = (t', Ok out) ->
    stdout out = (if bool_decide (is_Some (tg_files (target t (name host)) !! FIRED_PATH))
                  then "fired" +:+ nl else "")
    /\ tg_files (target t' (name host))
       = delete FIRED_PATH (delete SCRIPT_PATH (delete DEADLINE_PATH
           (tg_files (target t (name host)))))
    /\ tg_crontab (target t' (name host)) = tg_crontab (target t (name host));
}.

Section Effects.
Context {T : Type} `{SshTargets T}.
Implicit Types t : T.

Lemma run_ok_inv host cfg argv stdin doing t s :
  (run_ok host cfg argv stdin doing t).2 = Ok s ->
  exists t' out, ssh_run host (with_become cfg argv) stdin t = (t', Ok out) /\ status out = 0
    /\ stdout out = s /\ (run_ok host cfg argv stdin doing t).1 = t'.
Proof.
  unfold run_ok. intros (out & Hout & (u & Hs & Hr & Hst)%ebind_Ok & ->)%ebind_Ok.
  unfold transport_run in *. destruct (ssh_run host _ stdin t) as [t' [out'|]]; [|done].
  cbn in Hout. simplify_eq. cbn [fst] in *. exists t', out. rewrite erequire_state in *.
  apply erequire_Ok, Z.eqb_eq in Hs. cbn in Hr. simplify_eq. by rewrite Hst.
Qed.

(** Only the host that was asked for is reached. *)
Definition stays (h : string) t t' : Prop := forall h', h' <> h -> target t' h' = target t h'.
#[local] Instance stays_refl h : Reflexive (stays h).
Proof. by intros t h'. Qed.
#[local] Instance stays_trans h : Transitive (stays h).
Proof. intros t1 t2 t3 HA HB h' Hne. by rewrite HB, HA. Qed.

Lemma transport_stays host argv stdin : keeps (stays (name host)) (transport_run host argv stdin).
Proof.
  intros t h' Hne. unfold transport_run. pose proof (run_frame host argv stdin t h' Hne) as Hf.
  by destruct (ssh_run _ _ _ _).
Qed.
#[local] Hint Resolve transport_stays : keeps.

Lemma attempts_stay n last host cfg : keeps (stays (name host)) (posture_attempts n last host cfg).
Proof.
  revert last. induction n as [|n IH]; intros last; cbn [posture_attempts].
  - keeps.
  - unfold effective_posture, run_ok. keeps.
Qed.
#[local] Hint Resolve attempts_stay : keeps.

Lemma read_file_inv host cfg path t s :
  ssh host = Some cfg -> (read_file host cfg path t).2 = Ok s ->
  let t' := (read_file host cfg path t).1 in
  s = text_at (target t (name host)) path /\ target t' (name host) = target t (name host).
Proof.
  intros Hcfg (t' & out & Hrun & Hst & <- & Ht)%run_ok_inv. cbv zeta. unfold read_file. rewrite Ht.
  by apply (run_reads host cfg path t t' out).
Qed.

Lemma write_file_inv host cfg path content t :
  ssh host = Some cfg -> (write_file host cfg path content t).2 = Ok tt ->
  let t' := (write_file host cfg path content t).1 in
  tg_files (target t' (name host)) = <[path := content]> (tg_files (target t (name host)))
  /\ tg_crontab (target t' (name host)) = tg_crontab (target t (name host)).
Proof.
  unfold write_file. intros Hcfg (s & Hs & _ & Hw)%ebind_Ok. cbv zeta. rewrite Hw. cbn [eret fst].
  apply run_ok_inv in Hs as (t' & out & Hrun & Hst & _ & ->).
  by apply (run_writes host cfg path content t t' out).
Qed.

Lemma effective_posture_inv host cfg t p :
  ssh host = Some cfg -> (effective_posture host cfg t).2 = Ok p ->
  p = tg_posture (target (effective_posture host cfg t).1 (name host)).
Proof.
  unfold effective_posture. intros Hcfg (s & Hs & [Hp Hst]%esome_Ok & ->)%ebind_Ok.
  rewrite Hst. apply run_ok_inv in Hs as (t' & out & Hrun & Hstat & Ho & Ht).
  rewrite Ht. rewrite <-Ho in Hp.
  exact (proj1 (run_posture host cfg p t t' out Hcfg Hstat Hrun Hp)).
Qed.

(** The retries end with the first answer, and never in the [expect]. *)
Lemma attempts_inv n last host cfg t p :
  ssh host = Some cfg -> (posture_attempts n last host cfg t).2 = Ok p ->
  p = tg_posture (target (posture_attempts n last host cfg t).1 (name host)).
Proof.
  intros Hcfg. revert last t. induction n as [|n IH]; intros last t; cbn [posture_attempts].
  - by intros (e & _ & Hf & _)%ebind_Ok.
  - intros (r & Hr & Hk & ->)%ebind_Ok. rewrite etry_state in *. apply etry_Ok in Hr.
    destruct r as [p'|e]; [|by apply IH]. cbn in Hk. simplify_eq. by apply effective_posture_inv.
Qed.

Lemma no_panic_run host argv stdin : no_panic (transport_run host argv stdin).
Proof. intros t. unfold transport_run. by destruct (ssh_run _ _ _ _) as [t' []]. Qed.
#[local] Hint Resolve no_panic_run : no_panic.

Lemma attempts_no_panic n last host cfg :
  (n <> 0%nat \/ is_Some last) -> no_panic (posture_attempts n last host cfg).
Proof.
  revert last. induction n as [|n IH]; intros last Hn; cbn [posture_attempts].
  - destruct Hn as [|[e ->]]; [done|]. cbn. no_panic.
  - unfold effective_posture, run_ok. no_panic.
Qed.

(** On a host with a reload command no driver operation unwinds. *)
Lemma drivers_no_panic host cfg ctx expires_at :
  ssh host = Some cfg -> is_Some (reload_command host cfg) ->
  no_panic (SshPosture.apply host ctx) /\ no_panic (SshPosture.revert host)
  /\ no_panic (SshPosture.verify host) /\ no_panic (AuthKeys.apply host ctx)
  /\ no_panic (AuthKeys.revert host) /\ no_panic (AuthKeys.verify host)
  /\ no_panic (ExecDeadman.install host expires_at) /\ no_panic (ExecDeadman.remove host).
Proof.
  intros Hcfg Hre.
  assert (Hb : forall A (k : SshConfig -> eff T SshError A), no_panic (k cfg) ->
    no_panic (ebind (ssh_of host) k)).
  { intros A k Hk t. unfold ebind, ssh_of. rewrite Hcfg. apply Hk. }
  assert (Hrl : no_panic (reload_sshd host cfg)).
  { unfold reload_sshd, reload_argv, run_ok. no_panic. }
  assert (Hef : no_panic (effective_posture_after_reload host cfg))
    by (apply attempts_no_panic; left; done).
  assert (Hscript : is_Some (render_script host)).
  { unfold render_script. rewrite Hcfg. destruct Hre as [r ->]. case_match; eauto. }
  unfold SshPosture.apply, SshPosture.revert, SshPosture.verify, AuthKeys.apply, AuthKeys.revert,
    AuthKeys.verify, ExecDeadman.install, ExecDeadman.remove, ExecDeadman.put_crontab,
    write_file, remove_file, read_file, effective_posture, run_ok.
  split_and!; apply Hb; no_panic.
Qed.

(** *** The operations on a configured host *)

Section Operations.
Context (host : Host) (cfg : SshConfig) (Hcfg : ssh host = Some cfg).
Notation tgt t := (target t (name host)).

Lemma ssh_configured {A} (k : SshConfig -> eff T SshError A) t :
  (let& c := ssh_of host in k c) t = k cfg t.
Proof. unfold ssh_of, ebind. by rewrite Hcfg. Qed.

Lemma ssh_ops_stay ctx expires_at :
  keeps (stays (name host)) (SshPosture.apply host ctx)
  /\ keeps (stays (name host)) (SshPosture.revert host)
  /\ keeps (stays (name host)) (SshPosture.verify host)
  /\ keeps (stays (name host)) (AuthKeys.apply host ctx)
  /\ keeps (stays (name host)) (AuthKeys.revert host)
  /\ keeps (stays (name host)) (AuthKeys.verify host)
  /\ keeps (stays (name host)) (ExecDeadman.install host expires_at)
  /\ keeps (stays (name host)) (ExecDeadman.remove host).
Proof.
  unfold SshPosture.apply, SshPosture.revert, SshPosture.verify, AuthKeys.apply, AuthKeys.revert,
    AuthKeys.verify, ExecDeadman.install, ExecDeadman.remove, ExecDeadman.put_crontab,
    write_file, remove_file, read_file, effective_posture, reload_sshd, reload_argv,
    effective_posture_after_reload, run_ok, ssh_of.
  split_and!; keeps.
Qed.

Lemma posture_checked wanted err t :
  let m := (let& effective := effective_posture_after_reload host cfg in
            erequire (bool_decide (effective = wanted)) (err effective)) in
  (m t).2 = Ok tt -> tg_posture (tgt (m t).1) = wanted.
Proof.
  cbv zeta. intros (p & Hp & Hreq & ->)%ebind_Ok. rewrite erequire_state.
  apply erequire_Ok, bool_decide_eq_true in Hreq. subst p. symmetry. by apply attempts_inv.
Qed.

Lemma posture_apply_spec ctx t :
  (SshPosture.apply host ctx t).2 = Ok tt ->
  tg_posture (tgt (SshPosture.apply host ctx t).1) = root_posture_emergency cfg.
Proof.
  unfold SshPosture.apply. rewrite ssh_configured.
  intros (? & _ & (? & _ & Hm & ->)%ebind_Ok & ->)%ebind_Ok. by apply (posture_checked _ _ _ Hm).
Qed.

Lemma posture_revert_spec t :
  (SshPosture.revert host t).2 = Ok tt ->
  tg_posture (tgt (SshPosture.revert host t).1) = root_posture_default cfg.
Proof.
  unfold SshPosture.revert. rewrite ssh_configured.
  intros (? & _ & (? & _ & Hm & ->)%ebind_Ok & ->)%ebind_Ok. by apply (posture_checked _ _ _ Hm).
Qed.

Lemma posture_verify_spec st t :
  (SshPosture.verify host t).2 = Ok st ->
  st = if bool_decide (tg_posture (tgt (SshPosture.verify host t).1) = root_posture_emergency cfg)
       then ChOpen else ChClosed.
Proof.
  unfold SshPosture.verify. rewrite ssh_configured. intros (p & Hp & Hr & ->)%ebind_Ok.
  cbn in Hr |- *. simplify_eq. apply effective_posture_inv in Hp; [|done]. by rewrite <-Hp.
Qed.

Notation keys_text t := (text_at (tgt t) (authorized_keys_path cfg)).

Lemma keys_apply_spec ctx t :
  (AuthKeys.apply host ctx t).2 = Ok tt ->
  let t' := (AuthKeys.apply host ctx t).1 in
  fence_upsert (keys_text t) (emergency_keys cfg) = Ok (keys_text t')
  /\ tg_files (tgt t') = <[authorized_keys_path cfg := keys_text t']> (tg_files (tgt t))
  /\ tg_crontab (tgt t') = tg_crontab (tgt t).
Proof.
  unfold AuthKeys.apply. rewrite ssh_configured. intros (cur & Hc & Ha & ->)%ebind_Ok.
  apply read_file_inv in Hc as [-> Hsame]; [|done].
  apply ebind_Ok in Ha as (upd & Hu & Ha & ->). apply elift_Ok in Hu.
  destruct (fence_upsert _ _) as [u|] eqn:Hup; [|done]. cbn in Hu. simplify_eq.
  apply ebind_Ok in Ha as ([] & Hw & Ha & ->). apply write_file_inv in Hw as [Hf Hcr]; [|done].
  apply ebind_Ok in Ha as (landed & Hl & Ha & ->). apply read_file_inv in Hl as [-> Hsame2]; [|done].
  rewrite erequire_state. cbn [elift fst] in *. cbv zeta. unfold text_at in *.
  rewrite Hsame2, Hf, lookup_insert_eq, Hcr, Hsame. done.
Qed.

Lemma keys_revert_spec t :
  (AuthKeys.revert host t).2 = Ok tt ->
  let t' := (AuthKeys.revert host t).1 in
  contains FENCE_BEGIN (keys_text t') = false
  /\ fence_remove (keys_text t) = Ok (keys_text t')
  /\ (forall path, path <> authorized_keys_path cfg ->
         tg_files (tgt t') !! path = tg_files (tgt t) !! path)
  /\ tg_crontab (tgt t') = tg_crontab (tgt t).
Proof.
  unfold AuthKeys.revert. rewrite ssh_configured. intros (cur & Hc & Ha & ->)%ebind_Ok.
  apply read_file_inv in Hc as [-> Hsame]; [|done].
  apply ebind_Ok in Ha as (upd & Hu & Ha & ->). apply elift_Ok in Hu.
  destruct (fence_remove _) as [u|] eqn:Hrm; [|done]. cbn in Hu. simplify_eq.
  cbn [elift fst] in *.
  apply ebind_Ok in Ha as ([] & Hw & Ha & ->).
  apply ebind_Ok in Ha as (landed & Hl & Ha & ->). apply read_file_inv in Hl as [-> Hsame2]; [|done].
  rewrite erequire_state. apply erequire_Ok, negb_true_iff in Ha. cbv zeta.
  rewrite Hsame2. case_bool_decide as Hne.
  - apply write_file_inv in Hw as [Hf Hcr]; [|done]. unfold text_at in *.
    rewrite Hf, lookup_insert_eq, Hcr, Hsame in *. cbn in *. split_and!; [done|done| |done].
    intros. by rewrite lookup_insert_ne.
  - cbn in *. rewrite Hsame in *. by subst.
Qed.

Lemma keys_verify_spec st t :
  (AuthKeys.verify host t).2 = Ok st ->
  st = (if contains FENCE_BEGIN (keys_text (AuthKeys.verify host t).1) then ChOpen else ChClosed).
Proof.
  unfold AuthKeys.verify. rewrite ssh_configured. intros (cur & Hc & Hr & ->)%ebind_Ok.
  apply read_file_inv in Hc as [-> Hsame]; [|done]. cbn in Hr |- *. simplify_eq. by rewrite Hsame.
Qed.

Lemma crontab_list_inv doing t s :
  (run_ok host cfg ExecDeadman.crontab_list None doing t).2 = Ok s ->
  s = tg_crontab (tgt t)
  /\ tgt (run_ok host cfg ExecDeadman.crontab_list None doing t).1 = tgt t.
Proof.
  intros (t' & out & Hrun & Hst & <- & ->)%run_ok_inv.
  by apply (run_lists_crontab host cfg t t' out).
Qed.

Lemma put_crontab_inv wanted t :
  (ExecDeadman.put_crontab host cfg (tg_crontab (tgt t)) wanted t).2 = Ok tt ->
  let t' := (ExecDeadman.put_crontab host cfg (tg_crontab (tgt t)) wanted t).1 in
  tg_crontab (tgt t') = wanted /\ tg_files (tgt t') = tg_files (tgt t).
Proof.
  unfold ExecDeadman.put_crontab. case_bool_decide as Hne; [|by subst].
  intros (s & Hs & _ & Hw)%ebind_Ok. cbv zeta. rewrite Hw. cbn [eret fst].
  apply run_ok_inv in Hs as (t' & out & Hrun & Hst & _ & ->).
  by apply (run_installs_crontab host cfg wanted t t' out).
Qed.

Lemma install_spec expires_at t :
  (ExecDeadman.install host expires_at t).2 = Ok tt ->
  let t' := (ExecDeadman.install host expires_at t).1 in
  exists script, render_script host = Some (Some script)
  /\ tg_files (tgt t') = <[DEADLINE_PATH := render_deadline expires_at]>
                          (<[SCRIPT_PATH := script]> (tg_files (tgt t)))
  /\ tg_crontab (tgt t') = crontab_with_deadman (tg_crontab (tgt t))
  /\ existsb (contains CRON_MARKER) (lines (tg_crontab (tgt t'))) = true.
Proof.
  unfold ExecDeadman.install. rewrite ssh_configured. intros Ha.
  apply ebind_Ok in Ha as (ren & Hren & Ha & ->). apply eexpect_Ok in Hren as [Hren Hw].
  rewrite Hw in *. apply ebind_Ok in Ha as (script & Hs & Ha & ->).
  apply esome_Ok in Hs as [-> Hw2]. rewrite Hw2 in *.
  apply ebind_Ok in Ha as ([] & H1 & Ha & ->). apply write_file_inv in H1 as [Hf1 Hc1]; [|done].
  apply ebind_Ok in Ha as ([] & H2 & Ha & ->). apply write_file_inv in H2 as [Hf2 Hc2]; [|done].
  apply ebind_Ok in Ha as (cur & H3 & Ha & ->). apply crontab_list_inv in H3 as [-> Hs3].
  rewrite <-Hs3 in Ha |- *.
  apply ebind_Ok in Ha as ([] & H4 & Ha & ->). apply put_crontab_inv in H4 as [Hc4 Hf4].
  apply ebind_Ok in Ha as (landed & H5 & Ha & ->). apply crontab_list_inv in H5 as [-> Hs5].
  apply ebind_Ok in Ha as ([] & H6 & Ha & ->). rewrite erequire_state in *. apply erequire_Ok in H6.
  apply ebind_Ok in Ha as (dl & H7 & Ha & ->). apply read_file_inv in H7 as [-> Hs7]; [|done].
  rewrite erequire_state in *. exists script. cbv zeta. rewrite Hs7, Hs5. split; [done|].
  split_and!; [|by rewrite Hc4, Hs3, Hc2, Hc1|done]. by rewrite Hf4, Hs3, Hf2, Hf1.
Qed.

Lemma remove_spec fired t :
  (ExecDeadman.remove host t).2 = Ok fired ->
  let t' := (ExecDeadman.remove host t).1 in
  fired = bool_decide (is_Some (tg_files (tgt t) !! FIRED_PATH))
  /\ tg_files (tgt t')
     = delete FIRED_PATH (delete SCRIPT_PATH (delete DEADLINE_PATH (tg_files (tgt t))))
  /\ tg_crontab (tgt t') = crontab_without_deadman (tg_crontab (tgt t)).
Proof.
  unfold ExecDeadman.remove. rewrite ssh_configured. intros Ha.
  apply ebind_Ok in Ha as (cur & H3 & Ha & ->). apply crontab_list_inv in H3 as [-> Hs3].
  rewrite <-Hs3 in Ha |- *.
  apply ebind_Ok in Ha as ([] & H4 & Ha & ->). apply put_crontab_inv in H4 as [Hc4 Hf4].
  apply ebind_Ok in Ha as (out & H5 & Ha & ->). cbn in Ha. simplify_eq. cbv zeta. cbn [eret fst].
  apply run_ok_inv in H5 as (t' & o & Hrun & Hst & <- & ->).
  destruct (run_cleans host cfg _ _ _ Hcfg Hst Hrun) as (Ho & Hf & Hc).
  rewrite Ho, Hf, Hc, Hc4, Hf4, Hs3. split_and!; [|done|done].
  by destruct (tg_files (tgt t) !! FIRED_PATH).
Qed.
End Operations.

(** *** Properties *)

(** C27. The ssh channel believes [sshd -T]: an apply reported done leaves the
    host at the emergency posture, a revert reported done at the inventory's
    default, and a verification reads open exactly at the emergency posture;
    a wrong answer is an error, never a shrug, and no other host is
    reached. *)
Theorem ssh_posture_reads_back (host : Host) (cfg : SshConfig) (ctx : ApplyCtx) t
    (Hcfg : ssh host = Some cfg) :
  let '(t1, r1) := SshPosture.apply host ctx t in
  let '(t2, r2) := SshPosture.revert host t in
  let '(t3, r3) := SshPosture.verify host t in
  (r1 = Ok tt -> tg_posture (target t1 (name host)) = root_posture_emergency cfg)
  /\ (r2 = Ok tt -> tg_posture (target t2 (name host)) = root_posture_default cfg)
  /\ (forall st, r3 = Ok st ->
        st = ChOpen <-> tg_posture (target t3 (name host)) = root_posture_emergency cfg)
  /\ (forall h', h' <> name host -> Forall (fun t' => target t' h' = target t h') [t1; t2; t3]).
Proof.
  pose proof (posture_apply_spec host cfg Hcfg ctx t) as Ha.
  pose proof (posture_revert_spec host cfg Hcfg t) as Hr.
  pose proof (fun st => posture_verify_spec host cfg Hcfg st t) as Hv.
  destruct (ssh_ops_stay host ctx 0) as (S1 & S2 & S3 & _).
  specialize (S1 t). specialize (S2 t). specialize (S3 t).
  destruct (SshPosture.apply host ctx t), (SshPosture.revert host t), (SshPosture.verify host t).
  cbn [fst snd] in *. split_and!; [done|done| |].
  - intros st Hst. rewrite (Hv st Hst). case_bool_decide; naive_solver.
  - intros h' Hne. repeat constructor; auto.
Qed.


End Effects.

(** ** A simulated host *)

Lemma str_app_inj s s' r r' :
  String.length s = String.length s' -> s +:+ r = s' +:+ r' -> s = s' /\ r = r'.
Proof.
  revert s'. induction s as [|c s IH]; intros [|c' s']; cbn; try done.
  intros [= Hl] [= -> Hr]. destruct (IH s' Hl Hr) as [-> ->]. done.
Qed.

Lemma shell_quote_inj p p' : shell_quote p = shell_quote p' -> p = p'.
Proof.
  intros E. pose proof (sh_words_quote p "") as Hp. pose proof (sh_words_quote p' "") as Hp'.
  rewrite E in Hp. rewrite Hp in Hp'. cbn in Hp'. congruence.
Qed.

(** A text that holds the quoted path twice determines it. *)
Lemma quoted_twice_inj a b c p p' :
  a +:+ shell_quote p +:+ b +:+ shell_quote p +:+ c
  = a +:+ shell_quote p' +:+ b +:+ shell_quote p' +:+ c -> p = p'.
Proof.
  intros E. apply (str_app_inj a a) in E as [_ E]; [|done].
  assert (Hl : String.length (shell_quote p) = String.length (shell_quote p')).
  { apply (f_equal String.length) in E. rewrite !str_length_app in E. lia. }
  apply str_app_inj in E as [E _]; [|done]. by apply shell_quote_inj.
Qed.

Lemma read_script_inj p p' : read_script p = read_script p' -> p = p'.
Proof. apply (quoted_twice_inj "if test -f " "; then cat " "; fi"). Qed.

Lemma write_script_inj p p' : write_script p = write_script p' -> p = p'.
Proof.
  intros E. unfold write_script in E. apply (str_app_inj "umask 077 && cat > ") in E as [_ E]; [|done].
  assert (Hl : String.length (shell_quote p) = String.length (shell_quote p')).
  { apply (f_equal String.length) in E. rewrite !str_length_app in E. lia. }
  apply str_app_inj in E as [E _]; [|done]. by apply shell_quote_inj.
Qed.

Definition known_paths : list string :=
  [DEFAULT_DROPIN; "/root/.ssh/authorized_keys"; SCRIPT_PATH; DEADLINE_PATH].

Definition exit0 (out : string) : CommandOutput := {| status := 0; stdout := out; stderr := "" |}.

(** The drop-in decides the posture when it is there. *)
Definition sim_posture (files : gmap string string) : Posture :=
  match files !! DEFAULT_DROPIN with
  | Some text => default PNo (parse_effective_posture text)
  | None => PNo
  end.
Definition sim_target (files : gmap string string) (crontab : string) : Target :=
  {| tg_files := files; tg_posture := sim_posture files; tg_crontab := crontab |}.

Definition path_of (script : string -> string) (argv : list string) : option string :=
  List.find (fun p => bool_decide (argv = sh (script p))) known_paths.

Definition reload_linux : string := "systemctl reload sshd 2>/dev/null || systemctl reload ssh".

Definition sim_run (argv : list string) (stdin : option string) (t : Target)
    : Target * result DriverError CommandOutput :=
  if bool_decide (argv = ExecDeadman.crontab_list) then (t, Ok (exit0 (tg_crontab t)))
  else if bool_decide (argv = ExecDeadman.crontab_install) then
    match stdin with
    | Some text => (sim_target (tg_files t) text, Ok (exit0 ""))
    | None => (t, Err (MkDriverError "no input"))
    end
  else if bool_decide (argv = sshd_query) then
    (t, Ok (exit0 ("permitrootlogin " +:+ sshd_token (tg_posture t) +:+ nl)))
  else if bool_decide (argv = sh ExecDeadman.cleanup_script) then
    (sim_target (delete FIRED_PATH (delete SCRIPT_PATH (delete DEADLINE_PATH (tg_files t))))
       (tg_crontab t),
     Ok (exit0 (if bool_decide (is_Some (tg_files t !! FIRED_PATH)) then "fired" +:+ nl else "")))
  else
    match path_of read_script argv, path_of write_script argv, path_of remove_script argv with
    | Some p, _, _ => (t, Ok (exit0 (text_at t p)))
    | None, Some p, _ =>
        match stdin with
        | Some content => (sim_target (<[p := content]> (tg_files t)) (tg_crontab t), Ok (exit0 ""))
        | None => (t, Err (MkDriverError "no input"))
        end
    | None, None, Some p => (sim_target (delete p (tg_files t)) (tg_crontab t), Ok (exit0 ""))
    | None, None, None =>
        (t, if bool_decide (argv = sh reload_linux) then Ok (exit0 "")
            else Err (MkDriverError "no such command"))
    end.

#[export] Instance sim_transport : SshTransport Target := {|
  ssh_run host argv stdin t :=
    match ssh host with
    | Some cfg =>
        if bool_decide (name host = "box") && bool_decide (ssh_become_cmd cfg = None)
        then sim_run argv stdin t else (t, Err (MkDriverError "unreachable"))
    | None => (t, Err (MkDriverError "unreachable"))
    end;
|}.

Lemma path_of_Some script argv p : path_of script argv = Some p -> argv = sh (script p).
Proof. intros [_ ?%bool_decide_eq_true]%find_some. done. Qed.

Lemma sh_inj a b : sh a = sh b -> a = b.
Proof. unfold sh. congruence. Qed.

Lemma sim_run_inv host cfg argv stdin t t' out :
  ssh host = Some cfg -> ssh_run host (with_become cfg argv) stdin t = (t', Ok out) ->
  name host = "box" /\ sim_run argv stdin t = (t', Ok out).
Proof.
  intros Hcfg. cbn. rewrite Hcfg. case_bool_decide; [|done]. case_bool_decide as Hb; [|done].
  unfold with_become. by rewrite Hb.
Qed.

Lemma sim_posture_parses p :
  parse_effective_posture ("permitrootlogin " +:+ sshd_token p +:+ nl) = Some p.
Proof. destruct p; by vm_compute. Qed.

(** Decide which branch a closed command takes. *)
Ltac sim_branch H :=
  unfold sim_run in H;
  repeat match type of H with
  | context [bool_decide (?a = ?b)] =>
      let v := eval vm_compute in (bool_decide (a = b)) in
      change (bool_decide (a = b)) with v in H
  end;
  cbv iota in H.

#[export] Program Instance sim_targets : SshTargets Target := {|
  target t h := if bool_decide (h = "box") then t else sim_target ∅ "";
|}.
Next Obligation.
  intros host argv stdin t h' Hne. cbn. case_bool_decide as Hb; [|done].
  destruct (ssh host); [|done]. rewrite bool_decide_false by congruence. done.
Qed.
Next Obligation.
  intros host cfg path t t' out Hcfg Hst (Hn & Hrun)%(sim_run_inv _ cfg); [|done].
  cbn beta. rewrite Hn, bool_decide_true by done. unfold sim_run in Hrun.
  repeat (rewrite bool_decide_false in Hrun by (intros E; discriminate E)).
  destruct (path_of read_script _) as [p|] eqn:Hp.
  - apply path_of_Some in Hp. apply sh_inj, read_script_inj in Hp. simplify_eq. done.
  - destruct (path_of write_script _) as [p|] eqn:Hp1; [apply path_of_Some in Hp1; discriminate|].
    destruct (path_of remove_script _) as [p|] eqn:Hp2; [apply path_of_Some in Hp2; discriminate|].
    done.
Qed.
Next Obligation.
  intros host cfg path content t t' out Hcfg Hst (Hn & Hrun)%(sim_run_inv _ cfg); [|done].
  cbn beta. rewrite Hn, bool_decide_true by done. unfold sim_run in Hrun.
  repeat (rewrite bool_decide_false in Hrun by (intros E; discriminate E)).
  destruct (path_of read_script _) as [p|] eqn:Hp1; [apply path_of_Some in Hp1; discriminate|].
  destruct (path_of write_script _) as [p|] eqn:Hp.
  - apply path_of_Some, sh_inj, write_script_inj in Hp. by simplify_eq.
  - destruct (path_of remove_script _) as [p|] eqn:Hp2; [apply path_of_Some in Hp2; discriminate|].
    done.
Qed.
Next Obligation.
  intros host cfg p t t' out Hcfg Hst (Hn & Hrun)%(sim_run_inv _ cfg); [|done].
  cbn beta. rewrite Hn, bool_decide_true by done. sim_branch Hrun. simplify_eq. intros Hp. split; [|done].
  pose proof (sim_posture_parses (tg_posture t')) as Hq.
  assert (Some p = Some (tg_posture t')) as [= ->] by (rewrite <-Hq; symmetry; exact Hp). done.
Qed.
Next Obligation.
  intros host cfg t t' out Hcfg Hst (Hn & Hrun)%(sim_run_inv _ cfg); [|done].
  cbn beta. rewrite Hn, bool_decide_true by done. sim_branch Hrun. by simplify_eq.
Qed.
Next Obligation.
  intros host cfg text t t' out Hcfg Hst (Hn & Hrun)%(sim_run_inv _ cfg); [|done].
  cbn beta. rewrite Hn, bool_decide_true by done. sim_branch Hrun. by simplify_eq.
Qed.
Next Obligation.
  intros host cfg t t' out Hcfg Hst (Hn & Hrun)%(sim_run_inv _ cfg); [|done].
  cbn beta. rewrite Hn, (bool_decide_true ("box" = "box")) by done.
  sim_branch Hrun. by simplify_eq.
Qed.

Definition box_cfg : SshConfig :=
  {| ssh_agent_user := "lychgate"; ssh_port := 22; root_posture_default := PNo;
     root_posture_emergency := PProhibitPassword;
     authorized_keys_path := "/root/.ssh/authorized_keys"; emergency_keys := ["ssh-ed25519 EMERG"];
     ssh_identity_file := None; ssh_become_cmd := None; reload_cmd := None; dropin_path := None |}.
Definition box : Host :=
  {| name := "box"; address := "10.0.0.2"; os := Linux; channels := [Ssh; AuthorizedKeys];
     ssh := Some box_cfg; bmc := None; vnc := None; http := None; mqtt := None; serial := None;
     device := None; access := None; drill := false |}.
Definition box_ctx : ApplyCtx := {| ctx_ttl_secs := 600; ctx_expires_at := 0 |}.
Definition box_fresh : Target :=
  sim_target {["/root/.ssh/authorized_keys" := sample_keys]} sample_crontab.

Lemma ssh_posture_reads_back_witness :
  let '(t1, r1) := SshPosture.apply box box_ctx box_fresh in
  r1 = Ok tt /\ tg_posture (target t1 "box") = PProhibitPassword.
Proof.
  pose proof (ssh_posture_reads_back box box_cfg box_ctx box_fresh eq_refl) as Hp.
  assert (Hr : (SshPosture.apply box box_ctx box_fresh).2 = Ok tt) by (by vm_compute).
  destruct (SshPosture.apply box box_ctx box_fresh) as [t1 r1], (SshPosture.revert box box_fresh),
    (SshPosture.verify box box_fresh).
  split; [exact Hr|exact (proj1 Hp Hr)].
Defined.

Definition box_opened : Target := (AuthKeys.apply box box_ctx box_fresh).1.
Definition box_closed : Target := (AuthKeys.revert box box_opened).1.


