(* ===== verification/Transports.v ===== *)
(** * Transports: the production ends of the drivers' seams

    What the drivers' transports do with the programs and files of the
    daemon's host: curl for http (daemon/src/drivers/http.rs) and for the
    BMC (drivers/bmc.rs), the mosquitto clients (drivers/mqtt.rs), ssh for
    the hypervisor (drivers/vnc.rs), the local tty (drivers/serial.rs), and
    the device channel's choice between two of them (drivers/device.rs).
    The programs, the files and the tty are parameters. *)

From S2P Require Import Prelude Text Clock External Approval Factors Inventory TextLines Fence DriverMonad Channel Remote.

Inductive ExecError :=
| ReadingFile (path : string)
| AuthHalfSet (url : string)
| ChildFailed (program : string) (e : ProcessError)
| ProgramFailed (program what err : string)
| NoStatusCode
| BadStatusCode (code : string)
| BrokerNotHostPort (broker : string)
| PasswordAuthRefused
| TtyOpening (dev : string)
| TtyAttributes (dev : string)
| UnsupportedBaud (baud : Z) (dev : string)
| TtyWriting (dev : string)
| NoExpectedReply (dev : string) (timeout_secs : Z) (got : string)
| TtyReading (dev : string)
| CommandEndpointStatus (host : string) (code : Z)
| NoUsableTransport (host : string).

(** [std::fs::read_to_string] on the daemon's host. *)
Class LocalFiles (T : Type) := { read_local : string -> T -> T * option string }.

(** What one read(2) of a raw tty brings: bytes (none after 100 ms of
    silence), an interruption, or a failure. *)
Inductive TtyRead := Got (text : string) | Interrupted | ReadFailed.

(** A local tty, and the monotonic clock the reads are bounded by. *)
Class Tty (T : Type) := {
  tty_open : string -> T -> T * bool;
  tty_getattr : string -> T -> T * bool;
  tty_setattr : string -> option Z -> T -> T * bool;
  tty_write : string -> string -> T -> T * bool;
  tty_read : string -> T -> T * TtyRead;
  ticks_per_sec : Z;
  tty_now : T -> Z;
}.

Section Exec.
Context {T : Type} `{!Processes T, !LocalFiles T, !Tty T}.
Notation XM := (eff T ExecError).

Definition child (program : string) (args : list string) (stdin : option string)
    : XM (option Z * string * string) := fun t =>
  let '(t', r) := exec_process program args stdin t in
  (t', map_err (fun e => Refused (ChildFailed program e)) r).

Definition local_file (path : string) : XM string := fun t =>
  let '(t', r) := read_local path t in (t', ok_or r (Refused (ReadingFile path))).

(** [status.success()]. *)
Definition success (code : option Z) : bool := bool_decide (code = Some 0).

(** *** curl *)

Definition slash : ascii := "/"%char.
Definition url_of (endpoint path : string) : string :=
  trim_end_matches (fun c => bool_decide (c = slash)) endpoint +:+ path.

Definition tls_args (tls : BmcTls) : list string :=
  match tls with CaFile path => ["--cacert"; path] | Insecure => ["--insecure"] end.
Definition body_args (body : option string) : list string :=
  match body with
  | Some body => ["-H"; "Content-Type: application/json"; "--data-binary"; body]
  | None => []
  end.
Definition curl_head (method : string) : list string :=
  ["-sS"; "-o"; "/dev/stdout"; "-w"; nl +:+ "%{http_code}"; "-X"; method].

(** The line of the config curl reads from its standard input. *)
Definition quote2 : string := String "034"%char "".
Definition user_config (user password : string) : string :=
  "user = " +:+ quote2 +:+ user +:+ ":" +:+ trim_end password +:+ quote2 +:+ nl.

(** [str::rsplit_once('\n')]: at the last line feed. *)
Fixpoint rsplit_once (c : ascii) (s : string) : option (string * string) :=
  match s with
  | "" => None
  | String a s' =>
      match rsplit_once c s' with
      | Some (l, r) => Some (String a l, r)
      | None => if bool_decide (a = c) then Some ("", s') else None
      end
  end.

(** [str::parse::<u16>()]. *)
Definition u16_from_str (s : string) : option Z :=
  n ← u64_from_str s; if n <=? u16_max then Some n else None.

(** The output: the body, a line feed, the status code. *)
Definition split_output (combined : string) : result ExecError (Z * string) :=
  let? halves := ok_or (rsplit_once LF combined) NoStatusCode in
  let? code := ok_or (u16_from_str (trim halves.2)) (BadStatusCode halves.2) in
  Ok (code, halves.1).

Definition curl_output (url : string) (out : option Z * string * string) : XM (Z * string) :=
  let '(code, stdout, stderr) := out in
  erequire (success code) (ProgramFailed "curl" url (trim stderr)) ;&
  elift (split_output stdout).

Definition curl_request (endpoint : string) (tls : BmcTls)
    (auth_user auth_password_file : option string) (method path : string) (body : option string)
    : XM (Z * string) :=
  let url := url_of endpoint path in
  let& auth :=
    match auth_user, auth_password_file with
    | Some user, Some file =>
        let& password := local_file file in
        eret (["--config"; "-"], Some (user_config user password))
    | None, None => eret ([], None)
    | _, _ => efail (AuthHalfSet url)
    end in
  let '(auth_args, config) := auth in
  let& out := child "curl" (curl_head method ++ body_args body ++ tls_args tls ++ auth_args ++ [url])
                config in
  curl_output url out.

(** [CurlHttpTransport::request]. *)
Definition curl_http_request (http : HttpConfig) (method path : string) (body : option string)
    : XM (Z * string) :=
  curl_request (http_endpoint http) (http_tls http) (http_auth_user http)
    (http_auth_password_file http) method path body.

(** [CurlBmcTransport::request]. *)
Definition curl_bmc_request (bmc : BmcConfig) (method path : string) (body : option string)
    : XM (Z * string) :=
  let url := url_of (bmc_endpoint bmc) path in
  let& password := local_file (bmc_auth_password_file bmc) in
  let& out := child "curl"
    (curl_head method ++ ["--config"; "-"] ++ body_args body ++ tls_args (bmc_tls bmc) ++ [url])
    (Some (user_config (bmc_auth_user bmc) password)) in
  curl_output url out.

(** *** The mosquitto clients *)

Definition broker_args (mqtt : MqttConfig) : result ExecError (list string) :=
  let? hp := ok_or (rsplit_once ":"%char (mqtt_broker mqtt)) (BrokerNotHostPort (mqtt_broker mqtt)) in
  let args := ["-h"; hp.1; "-p"; hp.2]
    ++ match mqtt_client_id mqtt with Some id => ["-i"; id] | None => [] end in
  match mqtt_auth mqtt with
  | None => Ok args
  | Some (TlsClientCert certfile keyfile cafile) =>
      Ok (args ++ ["--cert"; certfile; "--key"; keyfile; "--cafile"; cafile])
  | Some (MqttPassword _) => Err PasswordAuthRefused
  end.

Definition mosquitto_publish (mqtt : MqttConfig) (topic payload : string) : XM unit :=
  let& args := elift (broker_args mqtt) in
  let& out := child "mosquitto_pub" (args ++ ["-t"; topic; "-m"; payload]) None in
  let '(code, _, stderr) := out in
  erequire (success code) (ProgramFailed "mosquitto_pub" topic (trim stderr)).

Definition mosquitto_await (mqtt : MqttConfig) (topic : string) (timeout_secs : Z)
    : XM (option string) :=
  let& args := elift (broker_args mqtt) in
  let& out := child "mosquitto_sub"
    (args ++ ["-t"; topic; "-C"; "1"; "-W"; dec_u64 timeout_secs]) None in
  let '(_, stdout, stderr) := out in
  let message := trim_end_matches (fun c => bool_decide (c = LF)) stdout in
  if negb (str_is_empty message) then eret (Some message)
  else if str_is_empty (trim stderr) then eret None
  else efail (ProgramFailed "mosquitto_sub" topic (trim stderr)).

(** *** ssh to the hypervisor *)

Definition vnc_ssh_args (vnc : VncConfig) (host : Host) (argv : list string) : list string :=
  ["-o"; "BatchMode=yes"; "-o"; "ConnectTimeout=10"; "-p"; dec_u64 (vnc_port vnc);
   "-l"; vnc_agent_user vnc]
  ++ match vnc_identity_file vnc with
     | Some identity => ["-i"; identity; "-o"; "IdentitiesOnly=yes"]
     | None => []
     end
  ++ [address host; "--"; remote_command argv].

(** [ExecSshVncTransport::run]. *)
Definition vnc_ssh_run (vnc : VncConfig) (host : Host) (argv : list string) (stdin : option string)
    : XM CommandOutput :=
  let& out := child "ssh" (vnc_ssh_args vnc host argv) stdin in
  let '(code, stdout, stderr) := out in
  eret {| status := default (-1) code; stdout := stdout; stderr := stderr |}.

(** *** The tty *)

Definition baud_constant (baud : Z) : option Z :=
  if bool_decide (baud ∈ [9600; 19200; 38400; 57600; 115200]) then Some baud else None.

Definition tty_call (m : T -> T * bool) (e : ExecError) : XM unit := fun t =>
  let '(t', ok) := m t in (t', if ok then Ok tt else Err (Refused e)).

Definition configure_port (dev : string) (baud : option Z) : XM unit :=
  tty_call (tty_getattr dev) (TtyAttributes dev) ;&
  let& speed :=
    match baud with
    | Some baud => let& s := esome (baud_constant baud) (UnsupportedBaud baud dev) in eret (Some s)
    | None => eret None
    end in
  tty_call (tty_setattr dev speed) (TtyAttributes dev).

(** The deadline loop over short reads. *)
Fixpoint fd_loop (fuel : nat) (dev : string) (timeout_secs deadline : Z) (until : list string)
    (reply : string) : XM string :=
  match fuel with
  | O => fun t => (t, Err OutOfFuel)
  | S fuel => fun t =>
      if existsb (fun m => contains m reply) until then (t, Ok reply)
      else if deadline <=? tty_now t
      then (t, Err (Refused (NoExpectedReply dev timeout_secs (trim reply))))
      else
        let '(t', r) := tty_read dev t in
        match r with
        | Got text => fd_loop fuel dev timeout_secs deadline until (reply +:+ text) t'
        | Interrupted => fd_loop fuel dev timeout_secs deadline until reply t'
        | ReadFailed => (t', Err (Refused (TtyReading dev)))
        end
  end.

Definition fd_transact (fuel : nat) (dev : string) (baud : option Z) (timeout_secs : Z)
    (send : string) (until : list string) : XM string :=
  tty_call (tty_open dev) (TtyOpening dev) ;&
  configure_port dev baud ;&
  tty_call (tty_write dev send) (TtyWriting dev) ;&
  fun t => fd_loop fuel dev timeout_secs (tty_now t + timeout_secs * ticks_per_sec) until "" t.

(** *** The device channel's wire *)

(** [reply.lines().next().unwrap_or("")]. *)
Definition first_line (reply : string) : string := default "" (head (lines reply)).

(** [ExecDeviceTransport::transact]. *)
Definition exec_device_transact (fuel : nat) (host : Host) (device : DeviceConfig)
    (command : string) : XM string :=
  match device_serial device with
  | Some serial =>
      let& reply := fd_transact fuel (ds_device serial) (ds_baud serial) (ds_timeout_secs serial)
                      (command +:+ nl) [nl] in
      eret (first_line reply)
  | None =>
      match device_http device with
      | Some http =>
          let& r := curl_request (dh_endpoint http) (dh_tls http) (dh_auth_user http)
                      (dh_auth_password_file http) "POST" "/lychgate/cmd" (Some command) in
          let '(code, body) := r in
          erequire (code =? 200) (CommandEndpointStatus (name host) code) ;&
          eret (trim_end body)
      | None => efail (NoUsableTransport (name host))
      end
  end.
End Exec.

(** ** The output of curl *)

Lemma rsplit_once_last c l r : without c r = true -> rsplit_once c (l +:+ String c r) = Some (l, r).
Proof.
  intros Hr.
  assert (Hnone : rsplit_once c r = None).
  { clear l. induction r as [|a r IH]; [done|]. cbn in *. apply andb_true_iff in Hr as [Ha Hr].
    rewrite IH by done. rewrite bool_decide_false; [done|]. by apply negb_true_iff, bool_decide_eq_false in Ha. }
  induction l as [|a l IH]; cbn.
  - rewrite Hnone. by rewrite bool_decide_true.
  - by rewrite IH.
Qed.


(** The shape of curl's output, from the write-out template [curl_head] asks
    for: the body, a line feed, the status code. *)
Definition curl_prints (code : Z) (body : string) : string := body +:+ String LF (dec_u64 code).

Lemma dec_u64_no_lf n : 0 <= n -> without LF (dec_u64 n) = true.
Proof.
  intros Hn. eapply str_forall_impl; [|by apply dec_u64_digits]. intros c Hc.
  apply negb_true_iff, bool_decide_eq_false. by intros ->.
Qed.

Lemma split_output_prints code body :
  0 <= code <= u16_max -> split_output (curl_prints code body) = Ok (code, body).
Proof.
  intros Hc. unfold split_output, curl_prints. rewrite rsplit_once_last by (apply dec_u64_no_lf; lia).
  cbn [ok_or fst snd]. rewrite trim_digits by (apply dec_u64_digits; lia).
  unfold u16_from_str. rewrite u64_from_str_dec by (unfold u16_max, u64_max in *; lia). cbn.
  by rewrite (proj2 (Z.leb_le _ _)) by lia.
Qed.

(** ** The deadline of a serial read *)

(** The clock is monotonic, and moves over a read. *)
Class TtyLaws (T : Type) `{!Tty T} := {
  ticks_positive : 0 < ticks_per_sec;
  open_mono dev t : tty_now t <= tty_now (tty_open dev t).1;
  getattr_mono dev t : tty_now t <= tty_now (tty_getattr dev t).1;
  setattr_mono dev speed t : tty_now t <= tty_now (tty_setattr dev speed t).1;
  write_mono dev text t : tty_now t <= tty_now (tty_write dev text t).1;
  read_takes_time dev t : tty_now t < tty_now (tty_read dev t).1;
}.

Section TtyDeadline.
Context {T : Type} `{!Tty T, !TtyLaws T}.

(** A reply that is returned holds what was waited for; with fuel for every
    tick up to the deadline the loop ends by itself. *)
Lemma fd_loop_spec fuel dev secs deadline until reply (t : T) :
  Z.max 0 (deadline - tty_now t) < Z.of_nat fuel ->
  match (fd_loop fuel dev secs deadline until reply t).2 with
  | Ok out => existsb (fun m => contains m out) until = true
  | Err (Refused (NoExpectedReply _ _ _)) =>
      deadline <= tty_now (fd_loop fuel dev secs deadline until reply t).1
  | Err (Refused e) => e = TtyReading dev
  | Err _ => False
  end.
Proof.
  revert reply t. induction fuel as [|fuel IH]; intros reply t Hf; [lia|]. cbn [fd_loop].
  destruct (existsb _ _) eqn:Hx; [done|]. destruct (deadline <=? tty_now t) eqn:Hd; bool_prop; [done|].
  pose proof (read_takes_time dev t) as Ht. destruct (tty_read dev t) as [t' r]. cbn [fst] in Ht.
  destruct r; [apply IH; lia|apply IH; lia|done].
Qed.

(** The calls before the loop. *)
Definition later (t t' : T) : Prop := tty_now t <= tty_now t'.
#[local] Instance later_refl : Reflexive later.
Proof. intros t. unfold later. lia. Qed.
#[local] Instance later_trans : Transitive later.
Proof. intros t1 t2 t3. unfold later. lia. Qed.

Lemma call_later m e : (forall t, later t (m t).1) -> keeps later (tty_call m e).
Proof. intros Hm t. unfold tty_call. specialize (Hm t). by destruct (m t). Qed.

Lemma setup_later dev baud send :
  keeps later (tty_call (tty_open dev) (TtyOpening dev) ;& configure_port dev baud ;&
               tty_call (tty_write dev send) (TtyWriting dev)).
Proof.
  unfold configure_port. keeps; apply call_later; intros t.
  all: first [apply open_mono|apply getattr_mono|apply setattr_mono|apply write_mono].
Qed.

Lemma setup_error dev baud send t e :
  ((tty_call (tty_open dev) (TtyOpening dev) ;& configure_port dev baud ;&
    tty_call (tty_write dev send) (TtyWriting dev)) t).2 = Err e ->
  match e with Refused (NoExpectedReply _ _ _) | Panic | OutOfFuel => False | _ => True end.
Proof.
  unfold configure_port, ebind, tty_call, esome, eret, efail.
  destruct (tty_open dev t) as [w []]; [|cbn; intros; by simplify_eq].
  destruct (tty_getattr dev w) as [w1 []]; [|cbn; intros; by simplify_eq].
  destruct baud as [b|]; [destruct (baud_constant b); [|cbn; intros; by simplify_eq]|];
    destruct (tty_setattr _ _ w1) as [w2 []]; try (cbn; intros; by simplify_eq);
    destruct (tty_write dev send w2) as [w3 []]; cbn; intros; by simplify_eq.
Qed.

(** A serial transaction ends: whatever the device sends, and however
    often the read is interrupted, the transaction returns (it needs no more
    reads than there are clock ticks in its budget); a reply it returns
    contains one of the answers waited for, and it gives up on a silent
    device only once the budget is spent. *)
Theorem serial_transaction_bounded (fuel : nat) (dev : string) (baud : option Z) (timeout_secs : Z)
    (send : string) (until : list string) (t : T)
    (Hfuel : timeout_secs * ticks_per_sec < Z.of_nat fuel) (Hsecs : 0 <= timeout_secs) :
  match fd_transact fuel dev baud timeout_secs send until t with
  | (_, Ok reply) => existsb (fun m => contains m reply) until = true
  | (t', Err (Refused (NoExpectedReply _ _ _))) =>
      tty_now t + timeout_secs * ticks_per_sec <= tty_now t'
  | (_, Err (Refused _)) => True
  | (_, Err Panic) | (_, Err OutOfFuel) => False
  end.
Proof.
  pose proof (setup_later dev baud send t) as Hlater. pose proof (setup_error dev baud send t) as Herr.
  assert (Hassoc : fd_transact fuel dev baud timeout_secs send until t =
    ebind (tty_call (tty_open dev) (TtyOpening dev) ;& configure_port dev baud ;&
           tty_call (tty_write dev send) (TtyWriting dev))
      (fun _ t => fd_loop fuel dev timeout_secs (tty_now t + timeout_secs * ticks_per_sec) until "" t) t).
  { unfold fd_transact, ebind. destruct (tty_call (tty_open dev) _ t) as [w1 [[]|]]; [|done].
    destruct (configure_port dev baud w1) as [w2 [[]|]]; [|done]. done. }
  rewrite Hassoc. unfold ebind at 1. destruct ((ebind _ _) t) as [w [[]|e]]; cbn [fst snd] in *.
  - pose proof (fd_loop_spec fuel dev timeout_secs (tty_now w + timeout_secs * ticks_per_sec) until ""
      w) as Hl.
    pose proof ticks_positive as Hpos. specialize (Hl ltac:(nia)). unfold later in Hlater.
    destruct (fd_loop _ _ _ _ _ _ w) as [t' [out|[e| |]]]; try done. destruct e; try done.
    cbn [fst snd] in Hl. lia.
  - specialize (Herr e eq_refl). by destruct e as [[]| |].
Qed.
End TtyDeadline.

(** A tty that says one character every tenth of a second. *)
Record Teletype := { says : list string; clock_ds : Z }.
#[export] Instance teletype_tty : Tty Teletype := {|
  tty_open _ t := (t, true);
  tty_getattr _ t := (t, true);
  tty_setattr _ _ t := (t, true);
  tty_write _ _ t := (t, true);
  tty_read _ t := ({| says := tail (says t); clock_ds := clock_ds t + 1 |},
                   Got (default "" (head (says t))));
  ticks_per_sec := 10;
  tty_now := clock_ds;
|}.
#[export] Instance teletype_laws : TtyLaws Teletype.
Proof. constructor; intros; cbn; lia. Qed.

Lemma serial_transaction_bounded_witness :
  let t := {| says := ["O"; "K"]; clock_ds := 0 |} in
  (fd_transact 30 "/dev/ttyU0" (Some 9600) 2 "open" ["OK"] t).2 = Ok "OK"
  /\ match fd_transact 30 "/dev/ttyU0" (Some 9600) 2 "open" ["CLOSED"] t with
     | (t', Err (Refused (NoExpectedReply _ _ _))) => tty_now t + 2 * 10 <= tty_now t'
     | _ => False
     end.
Proof.
  cbv zeta. split; [by vm_compute|].
  pose proof (serial_transaction_bounded 30 "/dev/ttyU0" (Some 9600) 2 "open" ["CLOSED"]
    {| says := ["O"; "K"]; clock_ds := 0 |}) as Hb.
  vm_compute in Hb |- *. apply Hb; [reflexivity|discriminate].
Defined.

(** *** The device line over the tty *)

(** The framing of a reply: the device's line, as it was before the line
    feed. *)
Lemma first_line_reply line rest : clean line -> first_line (line +:+ String LF rest) = line.
Proof. intros Hc. unfold first_line. by rewrite lines_cons. Qed.
