(* ===== verification/DriverGeneric.v ===== *)
(** * DriverGeneric: the template channels

    The http, mqtt and serial drivers (daemon/src/drivers/http.rs, mqtt.rs,
    serial.rs) over their transport seams: commands and a probe supplied by
    the inventory.  What the markers of a probe mean is the template's
    contract, the [..Honest] classes. *)

From S2P Require Import Prelude Text Clock External Inventory DriverMonad Channel Templates.

Inductive GenericError :=
| NoGenericConfig (channel host : string)
| GenericTransport (e : DriverError)
| UnexpectedStatus (which host : string) (code expected : Z) (body : string)
| Unverifiable (channel host : string)
| StateUnreadable (channel host : string) (e : MatchError)
| NotReadBack (channel host : string) (want : ChannelState)
| NoMessage (host topic : string) (timeout_secs : Z)
| UnexpectedReply (which host reply expected : string).

(** A transport's error, returned with [?]. *)
Definition on_transport {T A} (m : T -> T * result DriverError A) : eff T GenericError A := fun t =>
  let '(t', r) := m t in (t', map_err (fun e => Refused (GenericTransport e)) r).

Definition is_probe {A} (v : VerifyMode A) : bool := match v with Probe _ => true | VNone _ => false end.

(** ** http *)

(** The trait [HttpTransport]. *)
Class HttpTransport (T : Type) := {
  http_request : HttpConfig -> string -> string -> option string -> T ->
    T * result DriverError (Z * string);
}.

Module HttpDriver.
Section Driver.
Context {T : Type} `{!HttpTransport T}.
Notation GM := (eff T GenericError).

Definition config (host : Host) : GM HttpConfig := esome (http host) (NoGenericConfig "http" (name host)).

Definition run (host : Host) (cfg : HttpConfig) (which : string) (spec : HttpRequestSpec) : GM unit :=
  let& r := on_transport (http_request cfg (hr_method spec) (hr_path spec) (hr_body spec)) in
  let '(status, body) := r in
  erequire (status =? hr_expect_status spec)
    (UnexpectedStatus which (name host) status (hr_expect_status spec) (trim body)).

Definition probe (host : Host) (cfg : HttpConfig) : GM ChannelState :=
  match http_verify cfg with
  | VNone _ => efail (Unverifiable "http" (name host))
  | Probe v =>
      let& r := on_transport (http_request cfg (hv_method v) (hv_path v) None) in
      let '(status, body) := r in
      erequire (status =? hv_expect_status v)
        (UnexpectedStatus "verify" (name host) status (hv_expect_status v) "") ;&
      elift (map_err (StateUnreadable "http" (name host))
               (match_state body (hv_open_marker v) (hv_closed_marker v)))
  end.

(** [if matches!(.., Probe(_)) && self.probe(..)? != want { return Err }] *)
Definition read_back (host : Host) (cfg : HttpConfig) (want : ChannelState) : GM unit :=
  if is_probe (http_verify cfg) then
    let& st := probe host cfg in
    erequire (bool_decide (st = want)) (NotReadBack "http" (name host) want)
  else eret tt.

Definition apply (host : Host) (ctx : ApplyCtx) : GM unit :=
  let& cfg := config host in
  run host cfg "open" (http_open cfg) ;& read_back host cfg ChOpen.

Definition revert (host : Host) : GM unit :=
  let& cfg := config host in
  run host cfg "revert" (http_revert cfg) ;& read_back host cfg ChClosed.

Definition verify (host : Host) : GM ChannelState :=
  let& cfg := config host in probe host cfg.
End Driver.
End HttpDriver.

(** ** mqtt *)

(** The trait [MqttTransport]. *)
Class MqttTransport (T : Type) := {
  mqtt_publish : MqttConfig -> string -> string -> T -> T * result DriverError unit;
  await_message : MqttConfig -> string -> Z -> T -> T * result DriverError (option string);
}.

Module MqttDriver.
Section Driver.
Context {T : Type} `{!MqttTransport T}.
Notation GM := (eff T GenericError).

Definition config (host : Host) : GM MqttConfig := esome (mqtt host) (NoGenericConfig "mqtt" (name host)).

Definition probe (host : Host) (cfg : MqttConfig) : GM ChannelState :=
  match mqtt_verify cfg with
  | VNone _ => efail (Unverifiable "mqtt" (name host))
  | Probe v =>
      let& m := on_transport (await_message cfg (mv_topic v) (mv_timeout_secs v)) in
      let& message := esome m (NoMessage (name host) (mv_topic v) (mv_timeout_secs v)) in
      elift (map_err (StateUnreadable "mqtt" (name host))
               (match_state message (mv_open_marker v) (mv_closed_marker v)))
  end.

Definition last_error (host : Host) (v : MqttVerifySpec) (want : ChannelState)
    (last : option (result MatchError ChannelState)) : GenericError :=
  match last with
  | Some (Ok _) => NotReadBack "mqtt" (name host) want
  | Some (Err e) => StateUnreadable "mqtt" (name host) e
  | None => NoMessage (name host) (mv_topic v) (mv_timeout_secs v)
  end.

(** The loop [for _ in 0..attempts]. *)
Fixpoint probe_attempts (n : nat) (host : Host) (cfg : MqttConfig) (v : MqttVerifySpec)
    (want : ChannelState) (last : option (result MatchError ChannelState)) : GM unit :=
  match n with
  | O => efail (last_error host v want last)
  | S n =>
      let& m := on_transport (await_message cfg (mv_topic v) 1) in
      match m with
      | None => probe_attempts n host cfg v want last
      | Some message =>
          let r := match_state message (mv_open_marker v) (mv_closed_marker v) in
          match r with
          | Ok state =>
              if bool_decide (state = want) then eret tt
              else probe_attempts n host cfg v want (Some r)
          | Err _ => probe_attempts n host cfg v want (Some r)
          end
      end
  end.

Definition probe_until (host : Host) (cfg : MqttConfig) (want : ChannelState) : GM unit :=
  match mqtt_verify cfg with
  | VNone _ => eret tt
  | Probe v => probe_attempts (Z.to_nat (Z.max (mv_timeout_secs v) 1)) host cfg v want None
  end.

Definition apply (host : Host) (ctx : ApplyCtx) : GM unit :=
  let& cfg := config host in
  on_transport (mqtt_publish cfg (mm_topic (mqtt_open cfg)) (mm_payload (mqtt_open cfg))) ;&
  probe_until host cfg ChOpen.

Definition revert (host : Host) : GM unit :=
  let& cfg := config host in
  on_transport (mqtt_publish cfg (mm_topic (mqtt_revert cfg)) (mm_payload (mqtt_revert cfg))) ;&
  probe_until host cfg ChClosed.

Definition verify (host : Host) : GM ChannelState :=
  let& cfg := config host in probe host cfg.
End Driver.
End MqttDriver.

(** ** serial *)

(** The trait [SerialTransport]: the text sent, the substrings that end the
    read. *)
Class SerialTransport (T : Type) := {
  serial_transact : SerialConfig -> string -> list string -> T -> T * result DriverError string;
}.

Module SerialDriver.
Section Driver.
Context {T : Type} `{!SerialTransport T}.
Notation GM := (eff T GenericError).

Definition config (host : Host) : GM SerialConfig :=
  esome (serial host) (NoGenericConfig "serial" (name host)).

Definition run (host : Host) (cfg : SerialConfig) (which : string) (spec : SerialCmdSpec) : GM unit :=
  let& reply := on_transport (serial_transact cfg (sc_send spec) [sc_expect spec]) in
  erequire (contains (sc_expect spec) reply)
    (UnexpectedReply which (name host) (trim reply) (sc_expect spec)).

Definition probe (host : Host) (cfg : SerialConfig) : GM ChannelState :=
  match serial_verify cfg with
  | VNone _ => efail (Unverifiable "serial" (name host))
  | Probe v =>
      let& reply := on_transport (serial_transact cfg (sv_send v)
                                    [sv_open_marker v; sv_closed_marker v]) in
      elift (map_err (StateUnreadable "serial" (name host))
               (match_state reply (sv_open_marker v) (sv_closed_marker v)))
  end.

Definition read_back (host : Host) (cfg : SerialConfig) (want : ChannelState) : GM unit :=
  if is_probe (serial_verify cfg) then
    let& st := probe host cfg in
    erequire (bool_decide (st = want)) (NotReadBack "serial" (name host) want)
  else eret tt.

Definition apply (host : Host) (ctx : ApplyCtx) : GM unit :=
  let& cfg := config host in
  run host cfg "open" (serial_open cfg) ;& read_back host cfg ChOpen.

Definition revert (host : Host) : GM unit :=
  let& cfg := config host in
  run host cfg "revert" (serial_revert cfg) ;& read_back host cfg ChClosed.

Definition verify (host : Host) : GM ChannelState :=
  let& cfg := config host in probe host cfg.
End Driver.
End SerialDriver.

(** ** The template's contract

    The access a device gives, and what the inventory's probe says of it: a
    reading in which exactly one of the markers occurs tells the access at
    that moment. *)

Class HttpHonest (T : Type) `{!HttpTransport T} := {
  http_access : T -> HttpConfig -> bool;
  http_probe_tells cfg v t t' body :
    http_verify cfg = Probe v ->
    http_request cfg (hv_method v) (hv_path v) None t = (t', Ok (hv_expect_status v, body)) ->
    (contains (hv_open_marker v) body = true -> contains (hv_closed_marker v) body = false ->
       http_access t' cfg = true)
    /\ (contains (hv_closed_marker v) body = true -> contains (hv_open_marker v) body = false ->
       http_access t' cfg = false);
}.

(** A state topic is retained: what it says may be older than the last
    command, so a message tells the access only when the device has
    published since; the contract is that of a topic that is current. *)
Class MqttHonest (T : Type) `{!MqttTransport T} := {
  mqtt_access : T -> MqttConfig -> bool;
  mqtt_message_tells cfg v secs t t' message :
    mqtt_verify cfg = Probe v ->
    await_message cfg (mv_topic v) secs t = (t', Ok (Some message)) ->
    (contains (mv_open_marker v) message = true -> contains (mv_closed_marker v) message = false ->
       mqtt_access t' cfg = true)
    /\ (contains (mv_closed_marker v) message = true ->
        contains (mv_open_marker v) message = false -> mqtt_access t' cfg = false);
}.

Class SerialHonest (T : Type) `{!SerialTransport T} := {
  serial_access : T -> SerialConfig -> bool;
  serial_probe_tells cfg v t t' reply :
    serial_verify cfg = Probe v ->
    serial_transact cfg (sv_send v) [sv_open_marker v; sv_closed_marker v] t = (t', Ok reply) ->
    (contains (sv_open_marker v) reply = true -> contains (sv_closed_marker v) reply = false ->
       serial_access t' cfg = true)
    /\ (contains (sv_closed_marker v) reply = true -> contains (sv_open_marker v) reply = false ->
       serial_access t' cfg = false);
}.

Definition is_open_state (st : ChannelState) : bool := match st with ChOpen => true | ChClosed => false end.

Lemma match_state_inv body o c st :
  match_state body o c = Ok st ->
  if is_open_state st then contains o body = true /\ contains c body = false
  else contains c body = true /\ contains o body = false.
Proof. unfold match_state. repeat case_goal; intros; by simplify_eq. Qed.

Lemma on_transport_inv {T A} (m : T -> T * result DriverError A) t a :
  (on_transport m t).2 = Ok a -> exists t', m t = (t', Ok a) /\ (on_transport m t).1 = t'.
Proof. unfold on_transport. destruct (m t) as [t' [b|]]; cbn; intros; simplify_eq. eauto. Qed.

Section HttpProps.
Context {T : Type} `{HttpHonest T}.

Lemma http_probe_reads host cfg t st :
  (HttpDriver.probe host cfg t).2 = Ok st ->
  http_access (HttpDriver.probe host cfg t).1 cfg = is_open_state st.
Proof.
  unfold HttpDriver.probe. destruct (http_verify cfg) as [|v] eqn:Hv; [done|].
  intros Hp. apply ebind_Ok in Hp as ([status body] & Hr & Hp & ->).
  apply ebind_Ok in Hp as ([] & Hs & Hp & ->). rewrite erequire_state in *.
  apply erequire_Ok, Z.eqb_eq in Hs. subst status. apply elift_Ok in Hp. cbn [elift fst].
  destruct (match_state _ _ _) as [st'|] eqn:Hm; [|done]. cbn in Hp. simplify_eq.
  apply on_transport_inv in Hr as (t' & Hr & ->).
  pose proof (http_probe_tells cfg v t t' body Hv Hr) as [Ho Hc].
  apply match_state_inv in Hm. destruct st; cbn in *; naive_solver.
Qed.

Lemma http_read_back_spec host cfg want t :
  is_probe (http_verify cfg) = true -> (HttpDriver.read_back host cfg want t).2 = Ok tt ->
  http_access (HttpDriver.read_back host cfg want t).1 cfg = is_open_state want.
Proof.
  unfold HttpDriver.read_back. intros -> (st & Hp & Hr & ->)%ebind_Ok. rewrite erequire_state.
  apply erequire_Ok, bool_decide_eq_true in Hr. subst st. by apply http_probe_reads.
Qed.
End HttpProps.

Section MqttProps.
Context {T : Type} `{MqttHonest T}.

Lemma mqtt_probe_reads host cfg t st :
  (MqttDriver.probe host cfg t).2 = Ok st ->
  mqtt_access (MqttDriver.probe host cfg t).1 cfg = is_open_state st.
Proof.
  unfold MqttDriver.probe. destruct (mqtt_verify cfg) as [|v] eqn:Hv; [done|].
  intros Hp. apply ebind_Ok in Hp as (m & Hr & Hp & ->).
  apply ebind_Ok in Hp as (message & Hm & Hp & ->). apply esome_Ok in Hm as [-> Hst].
  rewrite Hst in *. apply elift_Ok in Hp. cbn [elift fst].
  destruct (match_state _ _ _) as [st'|] eqn:Hms; [|done]. cbn in Hp. simplify_eq.
  apply on_transport_inv in Hr as (t' & Hr & ->).
  pose proof (mqtt_message_tells cfg v _ t t' message Hv Hr) as [Ho Hc].
  apply match_state_inv in Hms. destruct st; cbn in *; naive_solver.
Qed.

Lemma probe_attempts_spec n host cfg v want last t :
  mqtt_verify cfg = Probe v -> (MqttDriver.probe_attempts n host cfg v want last t).2 = Ok tt ->
  mqtt_access (MqttDriver.probe_attempts n host cfg v want last t).1 cfg = is_open_state want.
Proof.
  intros Hv. revert last t. induction n as [|n IH]; intros last t; [done|].
  cbn [MqttDriver.probe_attempts]. intros Hp. apply ebind_Ok in Hp as (m & Hr & Hp & ->).
  apply on_transport_inv in Hr as (t' & Hr & Ht). rewrite Ht in *.
  destruct m as [message|]; [|by apply IH].
  pose proof (mqtt_message_tells cfg v _ t t' message Hv Hr) as [Ho Hc]. cbv zeta in *.
  destruct (match_state _ _ _) as [st|] eqn:Hm; [|by apply IH].
  case_bool_decide; [|by apply IH]. subst st. apply match_state_inv in Hm.
  destruct want; cbn in *; naive_solver.
Qed.
End MqttProps.

Section SerialProps.
Context {T : Type} `{SerialHonest T}.

Lemma serial_probe_reads host cfg t st :
  (SerialDriver.probe host cfg t).2 = Ok st ->
  serial_access (SerialDriver.probe host cfg t).1 cfg = is_open_state st.
Proof.
  unfold SerialDriver.probe. destruct (serial_verify cfg) as [|v] eqn:Hv; [done|].
  intros Hp. apply ebind_Ok in Hp as (reply & Hr & Hp & ->). apply elift_Ok in Hp. cbn [elift fst].
  destruct (match_state _ _ _) as [st'|] eqn:Hm; [|done]. cbn in Hp. simplify_eq.
  apply on_transport_inv in Hr as (t' & Hr & ->).
  pose proof (serial_probe_tells cfg v t t' reply Hv Hr) as [Ho Hc].
  apply match_state_inv in Hm. destruct st; cbn in *; naive_solver.
Qed.

Lemma serial_read_back_spec host cfg want t :
  is_probe (serial_verify cfg) = true -> (SerialDriver.read_back host cfg want t).2 = Ok tt ->
  serial_access (SerialDriver.read_back host cfg want t).1 cfg = is_open_state want.
Proof.
  unfold SerialDriver.read_back. intros -> (st & Hp & Hr & ->)%ebind_Ok. rewrite erequire_state.
  apply erequire_Ok, bool_decide_eq_true in Hr. subst st. by apply serial_probe_reads.
Qed.
End SerialProps.

(** ** Properties *)

Section Template.
Context {T : Type}.

(** What a channel with a probe promises of the access behind it; one
    without a probe ([verify = "none"]) refuses to name a state. *)
Definition reads_back (probed : bool) (access : T -> bool)
    (apply revert : eff T GenericError unit) (verify : eff T GenericError ChannelState) : Prop :=
  forall t,
    (probed = true -> (apply t).2 = Ok tt -> access (apply t).1 = true)
    /\ (probed = true -> (revert t).2 = Ok tt -> access (revert t).1 = false)
    /\ (forall st, (verify t).2 = Ok st -> access (verify t).1 = is_open_state st)
    /\ (probed = false -> exists channel host, verify t = (t, Err (Refused (Unverifiable channel host)))).
End Template.

Section TemplateChannels.
Context {T : Type} `{HttpHonest T, MqttHonest T, SerialHonest T}.

Lemma http_reads_back host cfg ctx :
  http host = Some cfg ->
  reads_back (is_probe (http_verify cfg)) (fun t => http_access t cfg)
    (HttpDriver.apply host ctx) (HttpDriver.revert host) (HttpDriver.verify host).
Proof.
  intros Hc t. unfold HttpDriver.apply, HttpDriver.revert, HttpDriver.verify, HttpDriver.config.
  rewrite Hc, !esome_bind. split_and!.
  - intros Hp (? & _ & Hr & ->)%ebind_Ok. exact (http_read_back_spec host cfg ChOpen _ Hp Hr).
  - intros Hp (? & _ & Hr & ->)%ebind_Ok. exact (http_read_back_spec host cfg ChClosed _ Hp Hr).
  - intros st Hv. by apply http_probe_reads.
  - unfold HttpDriver.probe. destruct (http_verify cfg); [|done]. eauto.
Qed.

Lemma mqtt_reads_back host cfg ctx :
  mqtt host = Some cfg ->
  reads_back (is_probe (mqtt_verify cfg)) (fun t => mqtt_access t cfg)
    (MqttDriver.apply host ctx) (MqttDriver.revert host) (MqttDriver.verify host).
Proof.
  intros Hc t. unfold MqttDriver.apply, MqttDriver.revert, MqttDriver.verify, MqttDriver.config,
    MqttDriver.probe_until. rewrite Hc, !esome_bind. split_and!.
  - intros Hp (? & _ & Hr & ->)%ebind_Ok. destruct (mqtt_verify cfg) as [|v] eqn:Hv; [done|].
    exact (probe_attempts_spec _ host cfg v ChOpen _ _ Hv Hr).
  - intros Hp (? & _ & Hr & ->)%ebind_Ok. destruct (mqtt_verify cfg) as [|v] eqn:Hv; [done|].
    exact (probe_attempts_spec _ host cfg v ChClosed _ _ Hv Hr).
  - intros st Hv. by apply mqtt_probe_reads.
  - unfold MqttDriver.probe. destruct (mqtt_verify cfg); [|done]. eauto.
Qed.

Lemma serial_reads_back host cfg ctx :
  serial host = Some cfg ->
  reads_back (is_probe (serial_verify cfg)) (fun t => serial_access t cfg)
    (SerialDriver.apply host ctx) (SerialDriver.revert host) (SerialDriver.verify host).
Proof.
  intros Hc t. unfold SerialDriver.apply, SerialDriver.revert, SerialDriver.verify,
    SerialDriver.config. rewrite Hc, !esome_bind. split_and!.
  - intros Hp (? & _ & Hr & ->)%ebind_Ok. exact (serial_read_back_spec host cfg ChOpen _ Hp Hr).
  - intros Hp (? & _ & Hr & ->)%ebind_Ok. exact (serial_read_back_spec host cfg ChClosed _ Hp Hr).
  - intros st Hv. by apply serial_probe_reads.
  - unfold SerialDriver.probe. destruct (serial_verify cfg); [|done]. eauto.
Qed.

(** The template channels report what the probe says and nothing else:
    on http, mqtt and serial alike, an apply (a revert) of a channel with a
    probe that reports done has read the device open (closed), a
    verification names the state the probe read, and a channel without a
    probe refuses to name one. *)
Theorem template_channels_read_back (host : Host) (ctx : ApplyCtx)
    (hcfg : HttpConfig) (mcfg : MqttConfig) (scfg : SerialConfig)
    (Hh : http host = Some hcfg) (Hm : mqtt host = Some mcfg) (Hs : serial host = Some scfg) :
  reads_back (is_probe (http_verify hcfg)) (fun t => http_access t hcfg)
    (HttpDriver.apply host ctx) (HttpDriver.revert host) (HttpDriver.verify host)
  /\ reads_back (is_probe (mqtt_verify mcfg)) (fun t => mqtt_access t mcfg)
    (MqttDriver.apply host ctx) (MqttDriver.revert host) (MqttDriver.verify host)
  /\ reads_back (is_probe (serial_verify scfg)) (fun t => serial_access t scfg)
    (SerialDriver.apply host ctx) (SerialDriver.revert host) (SerialDriver.verify host).
Proof.
  split; [by apply http_reads_back|]. split; [by apply mqtt_reads_back|by apply serial_reads_back].
Qed.
End TemplateChannels.

(** ** A simulated device

    One switch behind all three wires; its probes answer with the marker of
    its state. *)

Lemma contains_self s : contains s s = true.
Proof.
  assert (Hp : strip_prefix s s = Some "").
  { induction s as [|a s IH]; [done|]. cbn. by rewrite bool_decide_true. }
  destruct s; [done|]. cbn [contains]. by rewrite Hp.
Qed.

Definition marker (t : bool) (o c : string) : string := if t then o else c.

Lemma marker_tells t o c :
  (contains o (marker t o c) = true -> contains c (marker t o c) = false -> t = true)
  /\ (contains c (marker t o c) = true -> contains o (marker t o c) = false -> t = false).
Proof. destruct t; cbn [marker]; rewrite ?contains_self; split; intros; congruence. Qed.

#[export] Instance switch_http : HttpTransport bool := {|
  http_request cfg _ path body t :=
    match body, http_verify cfg with
    | Some _, _ => (bool_decide (path = "/open"), Ok (200, ""))
    | None, Probe v => (t, Ok (hv_expect_status v, marker t (hv_open_marker v) (hv_closed_marker v)))
    | None, VNone _ => (t, Ok (200, ""))
    end;
|}.
#[export] Instance switch_mqtt : MqttTransport bool := {|
  mqtt_publish _ _ payload t := (bool_decide (payload = "open"), Ok tt);
  await_message cfg _ _ t :=
    match mqtt_verify cfg with
    | Probe v => (t, Ok (Some (marker t (mv_open_marker v) (mv_closed_marker v))))
    | VNone _ => (t, Ok None)
    end;
|}.
#[export] Instance switch_serial : SerialTransport bool := {|
  serial_transact cfg send until t :=
    match until with
    | [expect] => (bool_decide (send = "open"), Ok expect)
    | [o; c] => (t, Ok (marker t o c))
    | _ => (t, Err (MkDriverError "silence"))
    end;
|}.

#[export] Program Instance switch_http_honest : HttpHonest bool := {| http_access t _ := t |}.
Next Obligation.
  intros cfg v t t' body Hv Hr. cbn in Hr. rewrite Hv in Hr. simplify_eq. apply marker_tells.
Qed.
#[export] Program Instance switch_mqtt_honest : MqttHonest bool := {| mqtt_access t _ := t |}.
Next Obligation.
  intros cfg v secs t t' message Hv Hr. cbn in Hr. rewrite Hv in Hr. simplify_eq. apply marker_tells.
Qed.
#[export] Program Instance switch_serial_honest : SerialHonest bool := {| serial_access t _ := t |}.
Next Obligation. intros cfg v t t' reply Hv Hr. cbn in Hr. simplify_eq. apply marker_tells. Qed.

Definition switch_hcfg : HttpConfig :=
  {| http_endpoint := "http://10.0.0.7"; http_tls := Insecure; http_auth_user := None;
     http_auth_password_file := None;
     http_open := {| hr_method := "POST"; hr_path := "/open"; hr_body := Some ""; hr_expect_status := 200 |};
     http_revert := {| hr_method := "POST"; hr_path := "/close"; hr_body := Some ""; hr_expect_status := 200 |};
     http_verify := Probe {| hv_method := "GET"; hv_path := "/state"; hv_expect_status := 200;
                             hv_open_marker := "on"; hv_closed_marker := "off" |} |}.
Definition switch_mcfg : MqttConfig :=
  {| mqtt_broker := "broker:1883"; mqtt_client_id := None; mqtt_auth := None;
     mqtt_open := {| mm_topic := "cmd"; mm_payload := "open" |};
     mqtt_revert := {| mm_topic := "cmd"; mm_payload := "close" |};
     mqtt_verify := Probe {| mv_topic := "state"; mv_open_marker := "on"; mv_closed_marker := "off";
                             mv_timeout_secs := 3 |} |}.
Definition switch_scfg : SerialConfig :=
  {| serial_device := "/dev/ttyU0"; serial_baud := Some 9600; serial_timeout_secs := 2;
     serial_open := {| sc_send := "open"; sc_expect := "OK" |};
     serial_revert := {| sc_send := "close"; sc_expect := "OK" |};
     serial_verify := Probe {| sv_send := "state"; sv_open_marker := "on"; sv_closed_marker := "off" |} |}.
Definition switch_host : Host :=
  {| name := "gate"; address := "10.0.0.7"; os := Embedded; channels := [Http; Mqtt; Serial];
     ssh := None; bmc := None; vnc := None; http := Some switch_hcfg; mqtt := Some switch_mcfg;
     serial := Some switch_scfg; device := None; access := None; drill := false |}.

Lemma template_channels_read_back_witness :
  let ctx := {| ctx_ttl_secs := 60; ctx_expires_at := 0 |} in
  (HttpDriver.apply switch_host ctx false).2 = Ok tt
  /\ http_access (HttpDriver.apply switch_host ctx false).1 switch_hcfg = true
  /\ mqtt_access (MqttDriver.revert switch_host true).1 switch_mcfg = false.
Proof.
  cbv zeta. set (ctx := {| ctx_ttl_secs := 60; ctx_expires_at := 0 |}).
  destruct (template_channels_read_back (T := bool) switch_host ctx switch_hcfg switch_mcfg switch_scfg
    eq_refl eq_refl eq_refl) as (Hh & Hm & _).
  destruct (Hh false) as (Ha & _). destruct (Hm true) as (_ & Hr & _).
  split; [by vm_compute|]. split; [apply Ha; by vm_compute|apply Hr; by vm_compute].
Defined.
