(* ===== verification/DriverBmc.v ===== *)
(** * DriverBmc: the BMC channel

    The pure Redfish logic (core/src/bmc.rs) and the driver over it
    (daemon/src/drivers/bmc.rs).  serde_json, the transport, the password
    generator and the escrow are parameters. *)

From S2P Require Import Prelude Text Clock External Inventory DriverMonad Channel Seam Templates.

(** ** The account service *)

Inductive AccountState := AccEnabled | AccDisabled.
#[export] Instance AccountState_eq_dec : EqDecision AccountState.
Proof. solve_decision. Defined.

Inductive BmcParseError := Unparseable (m : string) | WrongAccount (expected found : string).

(** The document [enable_body] serializes ([UserName], [Password],
    [Enabled]). *)
Record Enable := { user_name : string; password : string; enabled : bool }.

(** serde_json on the two documents in play: the fields [Enabled] (when a
    boolean) and [UserName] (when a string) of a body that parses, and the
    text of the enabling request. *)
Class AccountJson := {
  json_account : string -> option (option bool * option string);
  json_enable : Enable -> string;
}.

Definition account_path (account_id : string) : string :=
  "/redfish/v1/AccountService/Accounts/" +:+ account_id.

Definition quote2 : string := String "034"%char "".
Definition disable_body : string := "{" +:+ quote2 +:+ "Enabled" +:+ quote2 +:+ ":false}".

Section Bodies.
Context `{!AccountJson}.

Definition enable_body (username pw : string) : string :=
  json_enable {| user_name := username; password := pw; enabled := true |}.

Definition parse_account (body expected_user : string) : result BmcParseError AccountState :=
  let? fields := ok_or (json_account body) (Unparseable "not JSON") in
  let? enabled := ok_or fields.1 (Unparseable "no boolean Enabled field") in
  let? _ := match fields.2 with
            | Some user =>
                if negb (str_is_empty user) && negb (bool_decide (user = expected_user))
                then Err (WrongAccount expected_user user) else Ok tt
            | None => Ok tt
            end in
  Ok (if enabled : bool then AccEnabled else AccDisabled).
End Bodies.

(** ** The driver *)

(** The traits [BmcTransport], [PasswordGen] and [Escrow]. *)
Class BmcPorts (T : Type) := {
  bmc_request : BmcConfig -> string -> string -> option string -> T ->
    T * result DriverError (Z * string);
  generate_password : T -> T * string;
  escrow_deposit : string -> string -> string -> T -> T * result DriverError unit;
}.

Inductive BmcError :=
| NoBmcConfig (host : string)
| BmcTransportFailed (e : DriverError)
| AccountStatus (host : string) (code : Z)
| AccountUnreadable (e : BmcParseError)
| PatchStatus (host : string) (code : Z) (resp : string)
| NotReadBackAs (host : string) (want : AccountState).

Record BmcWorld (T : Type) := { bw_ports : T; last_password : option string }.
Arguments bw_ports {T}.
Arguments last_password {T}.

Module BmcDriver.
Section Driver.
Context {T : Type} `{!BmcPorts T, !AccountJson}.
Notation W := (BmcWorld T).
Notation BM := (eff W BmcError).

Definition put_ports (t : T) (w : W) : W := {| bw_ports := t; last_password := last_password w |}.

Definition on_ports {A} (m : T -> T * result DriverError A) : BM A := fun w =>
  let '(t, r) := m (bw_ports w) in
  (put_ports t w, map_err (fun e => Refused (BmcTransportFailed e)) r).

Definition config (host : Host) : BM BmcConfig := esome (bmc host) (NoBmcConfig (name host)).

Definition get_account (host : Host) (cfg : BmcConfig) : BM AccountState :=
  let& r := on_ports (bmc_request cfg "GET" (account_path (bmc_account_id cfg)) None) in
  let '(status, body) := r in
  erequire (status =? 200) (AccountStatus (name host) status) ;&
  elift (map_err AccountUnreadable (parse_account body (bmc_account_user cfg))).

Definition patch (host : Host) (cfg : BmcConfig) (body : string) : BM unit :=
  let& r := on_ports (bmc_request cfg "PATCH" (account_path (bmc_account_id cfg)) (Some body)) in
  let '(status, resp) := r in
  erequire ((status =? 200) || (status =? 204)) (PatchStatus (name host) status (trim resp)).

(** [self.get_account(..)? != want]. *)
Definition read_back (host : Host) (cfg : BmcConfig) (want : AccountState) : BM unit :=
  let& st := get_account host cfg in
  erequire (bool_decide (st = want)) (NotReadBackAs (name host) want).

Definition new_password : BM string := fun w =>
  let '(t, pw) := generate_password (bw_ports w) in (put_ports t w, Ok pw).

Definition keep_password (pw : string) : BM unit := fun w =>
  ({| bw_ports := bw_ports w; last_password := Some pw |}, Ok tt).

Definition apply (host : Host) (ctx : ApplyCtx) : BM unit :=
  let& cfg := config host in
  get_account host cfg ;&
  let& password := new_password in
  on_ports (escrow_deposit (name host) (bmc_account_user cfg) password) ;&
  patch host cfg (enable_body (bmc_account_user cfg) password) ;&
  read_back host cfg AccEnabled ;&
  keep_password password.

Definition revert (host : Host) : BM unit :=
  let& cfg := config host in
  patch host cfg disable_body ;&
  read_back host cfg AccDisabled.

Definition verify (host : Host) : BM ChannelState :=
  let& cfg := config host in
  let& st := get_account host cfg in
  eret (match st with AccEnabled => ChOpen | AccDisabled => ChClosed end).

Definition take_secret (w : W) : W * option string :=
  ({| bw_ports := bw_ports w; last_password := None |}, last_password w).
End Driver.
End BmcDriver.

(** ** The account slots *)

Record Account := { acc_enabled : bool; acc_user : option string }.

(** What a BMC answers: a [GET] of a slot tells its state; a request
    reaches only the BMC of its endpoint. *)
Class BmcHonest (T : Type) `{!BmcPorts T, !AccountJson} := {
  slot : T -> string -> string -> Account;
  get_tells cfg t t' body enabled user :
    bmc_request cfg "GET" (account_path (bmc_account_id cfg)) None t = (t', Ok (200, body)) ->
    json_account body = Some (Some enabled, user) ->
    slot t' (bmc_endpoint cfg) (bmc_account_id cfg) = {| acc_enabled := enabled; acc_user := user |};
  request_frame cfg method path body t ep id :
    ep <> bmc_endpoint cfg -> slot (bmc_request cfg method path body t).1 ep id = slot t ep id;
  password_frame t ep id : slot (generate_password t).1 ep id = slot t ep id;
  escrow_frame host user pw t ep id :
    slot (escrow_deposit host user pw t).1 ep id = slot t ep id;
}.

Section BmcProps.
Context {T : Type} `{BmcHonest T}.
Import BmcDriver.
Implicit Types w : BmcWorld T.

Definition slot_of w (cfg : BmcConfig) : Account :=
  slot (bw_ports w) (bmc_endpoint cfg) (bmc_account_id cfg).

(** The slot is the channel's: the expected user's or nobody's. *)
Definition ours (cfg : BmcConfig) (a : Account) : Prop :=
  match acc_user a with Some u => u = "" \/ u = bmc_account_user cfg | None => True end.

Lemma get_account_reads host cfg w st :
  (get_account host cfg w).2 = Ok st ->
  let a := slot_of (get_account host cfg w).1 cfg in
  acc_enabled a = (match st with AccEnabled => true | AccDisabled => false end) /\ ours cfg a.
Proof.
  unfold get_account. intros Hg. apply ebind_Ok in Hg as ([status body] & Hr & Hg & ->).
  apply ebind_Ok in Hg as ([] & Hs & Hg & ->). rewrite erequire_state in *.
  apply erequire_Ok, Z.eqb_eq in Hs. subst status. apply elift_Ok in Hg. cbn [elift fst].
  destruct (parse_account body _) as [st'|] eqn:Hp; [|done]. cbn in Hg. simplify_eq.
  unfold on_ports in *.
  destruct (bmc_request cfg "GET" _ None (bw_ports w)) as [t' [r|]] eqn:Hq; [|done].
  cbn in Hr. simplify_eq. unfold parse_account in Hp.
  destruct (json_account body) as [[[e|] u]|] eqn:Hj; [|done|done]. cbn [ok_or fst snd] in Hp.
  unfold slot_of. cbn [bw_ports put_ports fst]. rewrite (get_tells cfg _ t' body e u Hq Hj).
  unfold ours. cbn [acc_enabled acc_user].
  destruct u as [u|]; [|destruct e; by simplify_eq].
  destruct (str_is_empty u) eqn:Eu; cbn [negb andb] in Hp.
  - destruct u; [|done]. destruct e; simplify_eq; (split; [done|]); by auto.
  - destruct (bool_decide _) eqn:Ed; cbn [negb] in Hp; [|done]. apply bool_decide_eq_true in Ed.
    destruct e; simplify_eq; (split; [done|]); by auto.
Qed.

Lemma read_back_spec host cfg want w :
  (read_back host cfg want w).2 = Ok tt ->
  let a := slot_of (read_back host cfg want w).1 cfg in
  acc_enabled a = (match want with AccEnabled => true | AccDisabled => false end) /\ ours cfg a.
Proof.
  unfold read_back. intros (st & Hg & Hr & ->)%ebind_Ok. rewrite erequire_state.
  apply erequire_Ok, bool_decide_eq_true in Hr. subst st. by apply get_account_reads.
Qed.

(** Other BMCs are left alone. *)
Definition leaves (cfg : BmcConfig) w w' : Prop :=
  forall ep id, ep <> bmc_endpoint cfg -> slot (bw_ports w') ep id = slot (bw_ports w) ep id.
#[local] Instance leaves_refl cfg : Reflexive (leaves cfg).
Proof. by intros w ep id. Qed.
#[local] Instance leaves_trans cfg : Transitive (leaves cfg).
Proof. intros w1 w2 w3 HA HB ep id Hne. by rewrite HB, HA. Qed.

Lemma ports_leave {A} cfg (m : T -> T * result DriverError A) :
  (forall t ep id, ep <> bmc_endpoint cfg -> slot (m t).1 ep id = slot t ep id) ->
  keeps (leaves cfg) (on_ports m).
Proof.
  intros Hm w ep id Hne. unfold on_ports. specialize (Hm (bw_ports w) ep id Hne).
  by destruct (m (bw_ports w)).
Qed.
Lemma request_leaves cfg method path body : keeps (leaves cfg) (on_ports (bmc_request cfg method path body)).
Proof. apply ports_leave. intros. by apply request_frame. Qed.
Lemma escrow_leaves cfg h u pw : keeps (leaves cfg) (on_ports (escrow_deposit h u pw)).
Proof. apply ports_leave. intros. by apply escrow_frame. Qed.
Lemma new_password_leaves cfg : keeps (leaves cfg) new_password.
Proof.
  intros w ep id Hne. unfold new_password. pose proof (password_frame (bw_ports w) ep id) as Hf.
  by destruct (generate_password (bw_ports w)).
Qed.
Lemma keep_password_leaves cfg pw : keeps (leaves cfg) (keep_password pw).
Proof. by intros w ep id. Qed.
#[local] Hint Resolve request_leaves escrow_leaves new_password_leaves keep_password_leaves : keeps.

Lemma bmc_ops_leave host cfg ctx :
  bmc host = Some cfg ->
  keeps (leaves cfg) (apply host ctx) /\ keeps (leaves cfg) (revert host)
  /\ keeps (leaves cfg) (verify host).
Proof.
  intros Hc.
  assert (Hb : forall A (k : BmcConfig -> eff (BmcWorld T) BmcError A),
    keeps (leaves cfg) (k cfg) -> keeps (leaves cfg) (ebind (config host) k)).
  { intros A k Hk w. unfold config. rewrite Hc, esome_bind. apply Hk. }
  unfold apply, revert, verify. split_and!; apply Hb;
    unfold read_back, get_account, patch; keeps.
Qed.

(** The BMC channel: an apply reported done has rotated the password of
    a slot that is the break-glass account's and read it back enabled, and
    holds that password for one taking; a revert reported done has read the
    slot back disabled; a verification names the state it read; no other
    BMC's accounts change. *)
Theorem bmc_reads_back (host : Host) (cfg : BmcConfig) (ctx : ApplyCtx) w (Hc : bmc host = Some cfg) :
  let '(w1, r1) := apply host ctx w in
  let '(w2, r2) := revert host w in
  let '(w3, r3) := verify host w in
  (r1 = Ok tt ->
     acc_enabled (slot_of w1 cfg) = true /\ ours cfg (slot_of w1 cfg)
     /\ exists pw, take_secret w1 = ({| bw_ports := bw_ports w1; last_password := None |}, Some pw)
         /\ (take_secret (take_secret w1).1).2 = None)
  /\ (r2 = Ok tt -> acc_enabled (slot_of w2 cfg) = false)
  /\ (forall st, r3 = Ok st -> acc_enabled (slot_of w3 cfg) = bool_decide (st = ChOpen))
  /\ Forall (fun w' => leaves cfg w w') [w1; w2; w3].
Proof.
  destruct (bmc_ops_leave host cfg ctx Hc) as (L1 & L2 & L3).
  specialize (L1 w). specialize (L2 w). specialize (L3 w).
  assert (Ha : (apply host ctx w).2 = Ok tt ->
    acc_enabled (slot_of (apply host ctx w).1 cfg) = true /\ ours cfg (slot_of (apply host ctx w).1 cfg)
    /\ exists pw, last_password (apply host ctx w).1 = Some pw).
  { unfold apply, config. rewrite Hc, esome_bind. intros (? & _ & Ha & ->)%ebind_Ok.
    apply ebind_Ok in Ha as (pw & _ & Ha & ->). apply ebind_Ok in Ha as (? & _ & Ha & ->).
    apply ebind_Ok in Ha as (? & _ & Ha & ->). apply ebind_Ok in Ha as ([] & Hr & Ha & ->).
    apply read_back_spec in Hr as [He Ho]. split_and!; [done|done|by exists pw]. }
  assert (Hr : (revert host w).2 = Ok tt -> acc_enabled (slot_of (revert host w).1 cfg) = false).
  { unfold revert, config. rewrite Hc, esome_bind. intros (? & _ & Hr & ->)%ebind_Ok.
    by apply read_back_spec in Hr as [He _]. }
  assert (Hv : forall st, (verify host w).2 = Ok st ->
    acc_enabled (slot_of (verify host w).1 cfg) = bool_decide (st = ChOpen)).
  { intros st. unfold verify, config. rewrite Hc, esome_bind. intros (a & Hg & Hs & ->)%ebind_Ok.
    apply get_account_reads in Hg as [He _]. cbn in Hs |- *. simplify_eq. rewrite He. by destruct a. }
  destruct (apply host ctx w) as [w1 r1], (revert host w) as [w2 r2], (verify host w) as [w3 r3].
  cbn [fst snd] in *. split_and!; [|done|done|by repeat constructor].
  intros Hok. destruct (Ha Hok) as (He & Ho & pw & Hpw). split_and!; [done|done|].
  exists pw. unfold take_secret. by rewrite Hpw.
Qed.
End BmcProps.

(** ** A simulated BMC with one slot *)

#[export] Instance sim_json : AccountJson := {|
  json_account body :=
    match body with
    | String "1" u => Some (Some true, Some u)
    | String "0" u => Some (Some false, Some u)
    | _ => None
    end%char;
  json_enable e := if enabled e then "enable" +:+ user_name e else "disable";
|}.

Definition slot_body (s : bool * string) : string := String (if s.1 then "1" else "0")%char s.2.

#[export] Instance sim_bmc : BmcPorts (bool * string) := {|
  bmc_request cfg method path body s :=
    if bool_decide (bmc_endpoint cfg = "https://idrac") && bool_decide (path = account_path "3") then
      match body with
      | None => (s, Ok (200, slot_body s))
      | Some b =>
          (if bool_decide (b = disable_body) then (false, s.2) else (true, bmc_account_user cfg),
           Ok (204, ""))
      end
    else (s, Err (MkDriverError "unreachable"));
  generate_password s := (s, password_from_bytes [1; 2; 3]);
  escrow_deposit _ _ _ s := (s, Ok tt);
|}.

Lemma account_path_inj a b : account_path a = account_path b -> a = b.
Proof. unfold account_path. intros E. by injection E. Qed.

#[export] Program Instance sim_bmc_honest : BmcHonest (bool * string) := {|
  slot s ep id :=
    if bool_decide (ep = "https://idrac") && bool_decide (id = "3")
    then {| acc_enabled := s.1; acc_user := Some s.2 |}
    else {| acc_enabled := false; acc_user := None |};
|}.
Next Obligation.
  intros cfg s s' body enabled user Hq Hj. cbn [bmc_request sim_bmc] in Hq; cbn beta.
  case_bool_decide as He; [|done]. destruct (bool_decide (account_path _ = _)) eqn:Hp; [|done].
  apply bool_decide_eq_true, account_path_inj in Hp. cbn [andb] in *.
  rewrite bool_decide_true by done. simplify_eq. destruct s' as [[] u]; cbn in *; by simplify_eq.
Qed.
Next Obligation.
  intros cfg method path body s ep id Hne. cbn [bmc_request sim_bmc]; cbn beta.
  destruct (bool_decide (bmc_endpoint cfg = "https://idrac")) eqn:He; [|done].
  apply bool_decide_eq_true in He. rewrite (bool_decide_false (ep = _)) by congruence. done.
Qed.
Next Obligation. done. Qed.
Next Obligation. done. Qed.

Definition idrac_cfg : BmcConfig :=
  {| bmc_endpoint := "https://idrac"; bmc_method := Redfish; bmc_account_user := "breakglass";
     bmc_account_id := "3"; bmc_auth_user := "lychgate"; bmc_auth_password_file := "/etc/pw";
     bmc_tls := Insecure |}.
Definition idrac_host : Host :=
  {| name := "srv"; address := "10.0.0.3"; os := Linux; channels := [Bmc]; ssh := None;
     bmc := Some idrac_cfg; vnc := None; http := None; mqtt := None; serial := None;
     device := None; access := None; drill := false |}.
Definition bmc_ctx : ApplyCtx := {| ctx_ttl_secs := 60; ctx_expires_at := 0 |}.
Definition slot_held_by (enabled : bool) (user : string) : BmcWorld (bool * string) :=
  {| bw_ports := (enabled, user); last_password := None |}.

Lemma bmc_reads_back_witness :
  let '(w1, r1) := BmcDriver.apply idrac_host bmc_ctx (slot_held_by false "") in
  r1 = Ok tt /\ acc_enabled (slot_of w1 idrac_cfg) = true.
Proof.
  pose proof (bmc_reads_back (T := bool * string) idrac_host idrac_cfg bmc_ctx (slot_held_by false "")
    eq_refl) as Hb.
  assert (Hr : (BmcDriver.apply idrac_host bmc_ctx (slot_held_by false "")).2 = Ok tt)
    by (by vm_compute).
  destruct (BmcDriver.apply _ _ _) as [w1 r1], (BmcDriver.revert _ _), (BmcDriver.verify _ _).
  split; [exact Hr|]. exact (proj1 (proj1 Hb Hr)).
Defined.

(** ** A stranger's slot

    The apply refuses a slot another user holds before it touches anything;
    but the orchestration then reverts the channel that failed, and the
    revert disables the slot without looking at who holds it. *)

Definition bmc_message (e : BmcError) : string := "bmc".
#[local] Instance bmc_alone : ChannelDriver (BmcWorld (bool * string)) := {|
  drv_apply c host ctx :=
    if bool_decide (c = Bmc) then settle bmc_message (BmcDriver.apply host ctx) else undriven c;
  drv_revert c host :=
    if bool_decide (c = Bmc) then settle bmc_message (BmcDriver.revert host) else undriven c;
  drv_verify c host :=
    if bool_decide (c = Bmc) then settle bmc_message (BmcDriver.verify host) else undriven c;
  drv_renew _ _ _ w := (w, Ok tt);
  drv_take_secret c w := if bool_decide (c = Bmc) then BmcDriver.take_secret w else (w, None);
  drv_reestablish c host :=
    if bool_decide (c = Bmc) then settle bmc_message (BmcDriver.verify host) else undriven c;
  drv_suspend _ w := w;
|}.

Example failed_open_disables_stranger :
  let s := {| registered := {[Bmc]}; world := slot_held_by true "root"; seen := [] |} in
  (BmcDriver.apply idrac_host bmc_ctx (world s))
    = (world s, Err (Refused (AccountUnreadable (WrongAccount "breakglass" "root"))))
  /\ match apply_channels s idrac_host [Bmc] bmc_ctx with
     | Some (s', Failed failed _ _ stuck) =>
         failed = Bmc /\ stuck = [Bmc] /\ world s' = slot_held_by false "root"
     | _ => False
     end.
Proof. split; by vm_compute. Qed.
