(* ===== verification/DriverVnc.v ===== *)
(** * DriverVnc: the console channel

    The daemon-held tunnels (daemon/src/drivers/tunnel.rs) and the vnc
    driver over them (daemon/src/drivers/vnc.rs).  The hypervisor's shell,
    the password generator, the ssh children and the local ports are
    parameters; a child is named by a number. *)

From S2P Require Import Prelude Text Clock External Inventory DriverMonad Channel Seam Fence Remote.

Record TunnelSpec := {
  ts_local_port : Z;
  ts_rfb_host : string;
  ts_rfb_port : Z;
  ts_address : string;
  ts_ssh_port : Z;
  ts_agent_user : string;
  ts_identity_file : option string;
}.

(** The traits [VncTransport], [PasswordGen], [TunnelSpawner] and
    [TunnelHandle], and the probe of a local port. *)
Class VncPorts (T : Type) := {
  vnc_run : VncConfig -> Host -> list string -> option string -> T ->
    T * result DriverError CommandOutput;
  generate_len : Z -> T -> T * string;
  spawn : TunnelSpec -> T -> T * result DriverError Z;
  is_alive : Z -> T -> T * bool;
  stop : Z -> T -> T * result DriverError unit;
  port_open : Z -> T -> T * bool;
}.

Inductive VncError :=
| NoVncConfig (host : string)
| VncPortFailed (e : DriverError)
| VncExited (doing host : string) (code : Z) (err : string)
| TunnelNotUp (host : string) (port : Z)
| PortStillBound (host : string) (port : Z)
| NotListening (host : string)
| StillListening (host : string).

(** The struct [VncDriver], with the [TunnelSet] inside it. *)
Record VncWorld (T : Type) := {
  vw_ports : T;
  live : gmap string Z;
  vnc_last_password : option string;
}.
Arguments vw_ports {T}.
Arguments live {T}.
Arguments vnc_last_password {T}.

(** The arguments of the [ssh -L] child. *)
Definition tunnel_args (spec : TunnelSpec) : list string :=
  ["-N"; "-o"; "BatchMode=yes"; "-o"; "ExitOnForwardFailure=yes"; "-o"; "ServerAliveInterval=15";
   "-o"; "ServerAliveCountMax=3"; "-o"; "ConnectTimeout=10"; "-L";
   dec_u64 (ts_local_port spec) +:+ ":" +:+ ts_rfb_host spec +:+ ":" +:+ dec_u64 (ts_rfb_port spec);
   "-p"; dec_u64 (ts_ssh_port spec); "-l"; ts_agent_user spec]
  ++ match ts_identity_file spec with
     | Some identity => ["-i"; identity; "-o"; "IdentitiesOnly=yes"]
     | None => []
     end
  ++ [ts_address spec].

(** [str::replace]: left to right, without overlap; every step consumes a
    character at least. *)
Fixpoint replace_go (fuel : nat) (pat to s : string) : string :=
  match fuel with
  | O => s
  | S fuel =>
      match strip_prefix pat s with
      | Some rest => to +:+ replace_go fuel pat to rest
      | None => match s with String c s' => String c (replace_go fuel pat to s') | "" => "" end
      end
  end.
Definition str_replace (pat to s : string) : string := replace_go (S (String.length s)) pat to s.

Section VncCode.
Context {T : Type} `{!VncPorts T}.
Notation W := (VncWorld T).
Notation VM := (eff W VncError).

Definition put_ports (t : T) (w : W) : W :=
  {| vw_ports := t; live := live w; vnc_last_password := vnc_last_password w |}.
Definition put_live (l : gmap string Z) (w : W) : W :=
  {| vw_ports := vw_ports w; live := l; vnc_last_password := vnc_last_password w |}.

Definition on_ports {A} (m : T -> T * result DriverError A) : VM A := fun w =>
  let '(t, r) := m (vw_ports w) in
  (put_ports t w, map_err (fun e => Refused (VncPortFailed e)) r).
Definition ask {A} (m : T -> T * A) : VM A := fun w =>
  let '(t, a) := m (vw_ports w) in (put_ports t w, Ok a).

(** *** The tunnels *)

Definition from_host (host : Host) : VM TunnelSpec :=
  let& vnc := esome (vnc host) (NoVncConfig (name host)) in
  eret {| ts_local_port := local_port vnc; ts_rfb_host := rfb_host vnc; ts_rfb_port := rfb_port vnc;
          ts_address := address host; ts_ssh_port := vnc_port vnc; ts_agent_user := vnc_agent_user vnc;
          ts_identity_file := vnc_identity_file vnc |}.

(** [self.live.remove(&host.name)]. *)
Definition take_live (h : string) : VM (option Z) := fun w =>
  (put_live (delete h (live w)) w, Ok (live w !! h)).

(** [self.live.insert(..)]: a handle it replaces is dropped, which kills its
    child. *)
Definition insert_live (h : string) (handle : Z) : VM unit :=
  let& old := take_live h in
  match old with
  | Some old => eignore (on_ports (stop old))
  | None => eret tt
  end ;&
  fun w => (put_live (<[h := handle]> (live w)) w, Ok tt).

(** [self.live.get_mut(..).map(is_alive).unwrap_or(false)]. *)
Definition alive (h : string) : VM bool := fun w =>
  match live w !! h with
  | Some handle => ask (is_alive handle) w
  | None => (w, Ok false)
  end.

(** The readiness probe; [false] when the child exits or the budget ends. *)
Fixpoint wait_up (attempts : nat) (h : string) (port : Z) : VM bool :=
  match attempts with
  | O => eret false
  | S n =>
      let& a := alive h in
      if negb a then eret false
      else
        let& o := ask (port_open port) in
        if (o : bool) then eret true else wait_up n h port
  end.

Definition probe_attempts : nat := 100.

Definition up (host : Host) : VM unit :=
  let& spec := from_host host in
  let& handle := on_ports (spawn spec) in
  insert_live (name host) handle ;&
  let& ready := wait_up probe_attempts (name host) (ts_local_port spec) in
  if (ready : bool) then eret tt
  else
    let& h := take_live (name host) in
    match h with
    | Some h => eignore (on_ports (stop h))
    | None => eret tt
    end ;&
    efail (TunnelNotUp (name host) (ts_local_port spec)).

Fixpoint wait_down (attempts : nat) (port : Z) : VM bool :=
  match attempts with
  | O => eret false
  | S n =>
      let& o := ask (port_open port) in
      if negb o then eret true else wait_down n port
  end.

Definition down (host : Host) : VM unit :=
  let& spec := from_host host in
  let& h := take_live (name host) in
  match h with
  | Some h => on_ports (stop h)
  | None => eret tt
  end ;&
  let& gone := wait_down 10 (ts_local_port spec) in
  if (gone : bool) then eret tt else efail (PortStillBound (name host) (ts_local_port spec)).

Definition listening (host : Host) : VM bool :=
  let& spec := from_host host in
  let& a := alive (name host) in
  if (a : bool) then ask (port_open (ts_local_port spec)) else eret false.

Definition suspend : VM unit := fun w =>
  (fold_left (fun w '(_, h) => (eignore (on_ports (stop h)) w).1) (btree_iter (live w)) (put_live ∅ w),
   Ok tt).

(** *** The driver *)

Definition vnc_config (host : Host) : VM VncConfig := esome (vnc host) (NoVncConfig (name host)).

Definition password_file_path (host : Host) (vnc : VncConfig) : string :=
  default ("/tmp/.lychgate-vnc-" +:+ name host +:+ ".pw") (password_file vnc).

Definition render (template target : string) (password_file : option string) : string :=
  let out := str_replace "{target}" (shell_quote target) template in
  match password_file with
  | Some pf => str_replace "{password_file}" (shell_quote pf) out
  | None => out
  end.

Definition vnc_with_become (vnc : VncConfig) (argv : list string) : list string :=
  match vnc_become_cmd vnc with
  | None => argv
  | Some prefix => split_whitespace prefix ++ argv
  end.

Definition vnc_run_ok (vnc : VncConfig) (host : Host) (argv : list string) (stdin : option string)
    (doing : string) : VM string :=
  let& out := on_ports (vnc_run vnc host (vnc_with_become vnc argv) stdin) in
  erequire (status out =? 0) (VncExited doing (name host) (status out) (trim (stderr out))) ;&
  eret (stdout out).

Definition write_password_file (vnc : VncConfig) (host : Host) (path password : string) : VM unit :=
  vnc_run_ok vnc host (sh (write_script path)) (Some password) "staging the vnc password" ;& eret tt.

Definition remove_password_file (vnc : VncConfig) (host : Host) (path : string) : VM unit :=
  vnc_run_ok vnc host (sh (remove_script path)) None "removing the staged vnc password" ;& eret tt.

Definition keep_password (pw : string) : VM unit := fun w =>
  ({| vw_ports := vw_ports w; live := live w; vnc_last_password := Some pw |}, Ok tt).

Definition apply (host : Host) (ctx : ApplyCtx) : VM unit :=
  let& vnc := vnc_config host in
  let pw_path := password_file_path host vnc in
  let& password := ask (generate_len (password_len vnc)) in
  write_password_file vnc host pw_path password ;&
  let set := render (set_password_cmd vnc) (vnc_target vnc) (Some pw_path) in
  let& set_result := etry (vnc_run_ok vnc host (sh set) None "setting the vnc password") in
  eignore (remove_password_file vnc host pw_path) ;&
  elift set_result ;&
  up host ;&
  let& l := listening host in
  erequire l (NotListening (name host)) ;&
  keep_password password.

Definition revert (host : Host) : VM unit :=
  let& vnc := vnc_config host in
  down host ;&
  let clear := render (clear_password_cmd vnc) (vnc_target vnc) None in
  vnc_run_ok vnc host (sh clear) None "clearing the vnc password" ;&
  eignore (remove_password_file vnc host (password_file_path host vnc)) ;&
  let& l := listening host in
  erequire (negb l) (StillListening (name host)).

Definition state_of (l : bool) : ChannelState := if l then ChOpen else ChClosed.

Definition verify (host : Host) : VM ChannelState :=
  let& l := listening host in eret (state_of l).

Definition reestablish (host : Host) : VM ChannelState :=
  up host ;& let& l := listening host in eret (state_of l).

Definition take_secret (w : W) : W * option string :=
  ({| vw_ports := vw_ports w; live := live w; vnc_last_password := None |}, vnc_last_password w).
End VncCode.

(** ** What the ports tell *)

(** A probe tells whether something accepts on the local port; looking, and
    the commands on the hypervisor, change no local port. *)
Class VncHonest (T : Type) `{!VncPorts T} := {
  serving : T -> Z -> bool;
  probe_tells port t : (port_open port t).2 = serving (port_open port t).1 port;
  probe_frame port t p : serving (port_open port t).1 p = serving t p;
  alive_frame h t p : serving (is_alive h t).1 p = serving t p;
  run_serving cfg host argv stdin t p : serving (vnc_run cfg host argv stdin t).1 p = serving t p;
}.

Section VncProps.
Context {T : Type} `{VncHonest T}.
Implicit Types w : VncWorld T.

(** Only the entry of one host changes. *)
Definition only (h : string) w w' : Prop := forall h', h' <> h -> live w' !! h' = live w !! h'.
#[local] Instance only_refl h : Reflexive (only h).
Proof. by intros w h'. Qed.
#[local] Instance only_trans h : Transitive (only h).
Proof. intros w1 w2 w3 HA HB h' Hne. by rewrite HB, HA. Qed.

(** The tunnels held are the same. *)
Definition same_live w w' : Prop := live w' = live w.
#[local] Instance same_live_refl : Reflexive same_live.
Proof. done. Qed.
#[local] Instance same_live_trans : Transitive same_live.
Proof. unfold same_live. intros ???. congruence. Qed.

Lemma ports_same {A} (m : T -> T * result DriverError A) : keeps same_live (on_ports m).
Proof. intros w. unfold on_ports. by destruct (m (vw_ports w)). Qed.
Lemma ask_same {A} (m : T -> T * A) : keeps same_live (ask m).
Proof. intros w. unfold ask. by destruct (m (vw_ports w)). Qed.
Lemma alive_same h : keeps same_live (alive h).
Proof. intros w. unfold alive. destruct (live w !! h); [apply ask_same|done]. Qed.
Lemma keep_same pw : keeps same_live (keep_password pw).
Proof. done. Qed.

Lemma ports_only {A} h (m : T -> T * result DriverError A) : keeps (only h) (on_ports m).
Proof. intros w h' _. by rewrite (ports_same m w). Qed.
Lemma ask_only {A} h (m : T -> T * A) : keeps (only h) (ask m).
Proof. intros w h' _. by rewrite (ask_same m w). Qed.
Lemma alive_only h k : keeps (only h) (alive k).
Proof. intros w h' _. by rewrite (alive_same k w). Qed.
Lemma keep_only h pw : keeps (only h) (keep_password pw).
Proof. done. Qed.
Lemma take_only h : keeps (only h) (take_live h).
Proof. intros w h' Hne. cbn. by rewrite lookup_delete_ne. Qed.
Lemma put_only h handle : keeps (E := VncError) (only h) (fun w => (put_live (<[h := handle]> (live w)) w, Ok tt)).
Proof. intros w h' Hne. cbn. by rewrite lookup_insert_ne. Qed.
#[local] Hint Resolve ports_same ask_same alive_same keep_same ports_only ask_only alive_only
  keep_only take_only put_only : keeps.

Lemma wait_up_only n h port : keeps (only h) (wait_up n h port).
Proof. induction n as [|n IH]; cbn [wait_up]; keeps. Qed.
Lemma wait_down_only n h port : keeps (only h) (wait_down n port).
Proof. induction n as [|n IH]; cbn [wait_down]; keeps. Qed.
#[local] Hint Resolve wait_up_only wait_down_only : keeps.

Lemma from_host_only h host : keeps (only h) (from_host host).
Proof. unfold from_host. keeps. Qed.
Lemma insert_only h handle : keeps (only h) (insert_live h handle).
Proof. unfold insert_live. keeps. Qed.
#[local] Hint Resolve from_host_only insert_only : keeps.

Lemma up_only host : keeps (only (name host)) (up host).
Proof. unfold up. keeps. Qed.
Lemma down_only host : keeps (only (name host)) (down host).
Proof. unfold down. keeps. Qed.
Lemma listening_only h host : keeps (only h) (listening host).
Proof. unfold listening. keeps. Qed.
Lemma run_ok_only h cfg host argv stdin doing : keeps (only h) (vnc_run_ok cfg host argv stdin doing).
Proof. unfold vnc_run_ok. keeps. Qed.
#[local] Hint Resolve up_only down_only listening_only run_ok_only : keeps.

Lemma vnc_ops_only host ctx :
  keeps (only (name host)) (apply host ctx) /\ keeps (only (name host)) (revert host)
  /\ keeps (only (name host)) (verify host) /\ keeps (only (name host)) (reestablish host)
  /\ keeps (only (name host)) (up host).
Proof.
  unfold apply, revert, verify, reestablish, write_password_file, remove_password_file, vnc_config.
  split_and!; keeps.
Qed.

Lemma wait_up_ready n h port w :
  (wait_up n h port w).2 = Ok true ->
  serving (vw_ports (wait_up n h port w).1) port = true /\ is_Some (live (wait_up n h port w).1 !! h).
Proof.
  revert w. induction n as [|n IH]; intros w; [done|]. cbn [wait_up].
  intros (a & Ha & Hk & ->)%ebind_Ok. destruct a; [|done]. cbn [negb] in *.
  apply ebind_Ok in Hk as (o & Ho & Hk & ->). destruct o; [|by apply IH]. cbn [eret fst snd] in *.
  assert (Hl : is_Some (live w !! h)).
  { unfold alive in Ha. destruct (live w !! h); [eauto|done]. }
  split.
  - unfold ask in *. pose proof (probe_tells port (vw_ports (alive h w).1)) as Hp.
    destruct (port_open port _) as [t b]. cbn in *. by simplify_eq.
  - rewrite (ask_same _ _). by rewrite (alive_same h w).
Qed.

Lemma wait_up_total n h port w : exists b, (wait_up n h port w).2 = Ok b.
Proof.
  revert w. induction n as [|n IH]; intros w; cbn [wait_up]; [cbn; eauto|]. unfold ebind, alive, ask.
  destruct (live w !! h); [|cbn; eauto]. destruct (is_alive _ _) as [t []]; [|cbn; eauto].
  cbn [negb]. destruct (port_open _ _) as [t2 []]; [cbn; eauto|]. apply IH.
Qed.

Lemma wait_down_gone n port w :
  (wait_down n port w).2 = Ok true ->
  serving (vw_ports (wait_down n port w).1) port = false /\ live (wait_down n port w).1 = live w.
Proof.
  revert w. induction n as [|n IH]; intros w; [done|]. cbn [wait_down].
  intros (o & Ho & Hk & ->)%ebind_Ok. destruct o; cbn [negb] in *.
  - apply IH in Hk as [Hs Hl]. split; [done|]. rewrite Hl. apply ask_same.
  - cbn [eret fst]. split; [|apply ask_same]. unfold ask in *.
    pose proof (probe_tells port (vw_ports w)) as Hp.
    destruct (port_open port _) as [t b]. cbn in *. by simplify_eq.
Qed.

Section Configured.
Context (host : Host) (vcfg : VncConfig) (Hv : vnc host = Some vcfg).

Lemma from_host_bind {A} (k : TunnelSpec -> eff (VncWorld T) VncError A) w :
  exists spec, ts_local_port spec = local_port vcfg /\ ebind (from_host host) k w = k spec w.
Proof. unfold from_host, ebind. rewrite Hv. cbn. eexists. split; [|reflexivity]. done. Qed.

(** A tunnel that is up accepts on its port and its child is held; one that
    is not leaves no child behind. *)
Lemma up_spec w :
  let '(w', r) := up host w in
  match r with
  | Ok _ => serving (vw_ports w') (local_port vcfg) = true /\ is_Some (live w' !! name host)
  | Err _ => live w' !! name host = None \/ live w' = live w
  end.
Proof.
  unfold up. destruct (from_host_bind (fun spec =>
    let& handle := on_ports (spawn spec) in
    insert_live (name host) handle ;&
    let& ready := wait_up probe_attempts (name host) (ts_local_port spec) in
    if (ready : bool) then eret tt
    else
      let& h := take_live (name host) in
      match h with Some h => eignore (on_ports (stop h)) | None => eret tt end ;&
      efail (TunnelNotUp (name host) (ts_local_port spec))) w) as (spec & Hp & ->).
  unfold ebind at 1. pose proof (ports_same (spawn spec) w) as Hs.
  destruct (on_ports (spawn spec) w) as [w1 [handle|e]]; [|right; exact Hs]. cbn [fst] in Hs.
  unfold ebind at 1.
  assert (Hins : exists w2, insert_live (name host) handle w1 = (w2, Ok tt)).
  { unfold insert_live, ebind, take_live. destruct (live w1 !! name host) as [old|]; [|cbn; eauto].
    unfold eignore, on_ports. cbn. destruct (stop old _) as [t [|]]; cbn; eauto. }
  destruct Hins as [w2 ->]. unfold ebind at 1.
  pose proof (wait_up_ready probe_attempts (name host) (ts_local_port spec) w2) as Hready.
  destruct (wait_up _ _ _ w2) as [w3 [[]|e]] eqn:Hw; cbn [fst snd] in Hready.
  - rewrite <-Hp. by apply Hready.
  - unfold ebind, take_live, eignore, on_ports. cbn.
    destruct (live w3 !! name host) as [h|]; cbn; [destruct (stop h _) as [t [|]]; cbn|]; left;
      by rewrite lookup_delete_eq.
  - destruct (wait_up_total probe_attempts (name host) (ts_local_port spec) w2) as [b Hb].
    by rewrite Hw in Hb.
Qed.

Lemma listening_spec w b :
  (listening host w).2 = Ok b ->
  (if b then serving (vw_ports (listening host w).1) (local_port vcfg) = true
             /\ is_Some (live w !! name host)
   else True) /\ live (listening host w).1 = live w.
Proof.
  unfold listening. destruct (from_host_bind (fun spec => let& a := alive (name host) in
    if (a : bool) then ask (port_open (ts_local_port spec)) else eret false) w) as (spec & Hp & ->).
  intros (a & Ha & Hk & ->)%ebind_Ok. pose proof (alive_same (name host) w) as Hs.
  destruct a; [|cbn in *; simplify_eq; done].
  assert (Hl : is_Some (live w !! name host)).
  { unfold alive in Ha. destruct (live w !! name host); [eauto|done]. }
  split; [|by rewrite (ask_same _ _)]. destruct b; [|done]. split; [|done]. rewrite <-Hp.
  unfold ask in *. pose proof (probe_tells (ts_local_port spec) (vw_ports (alive (name host) w).1)) as Hq.
  destruct (port_open _ _) as [t b]. cbn in *. by simplify_eq.
Qed.

Lemma listening_none w : live w !! name host = None -> listening host w = (w, Ok false).
Proof.
  intros Hn. unfold listening. destruct (from_host_bind (fun spec => let& a := alive (name host) in
    if (a : bool) then ask (port_open (ts_local_port spec)) else eret false) w) as (spec & _ & ->).
  unfold ebind, alive. by rewrite Hn.
Qed.

Lemma run_ok_serving argv stdin doing w :
  live (vnc_run_ok vcfg host argv stdin doing w).1 = live w
  /\ serving (vw_ports (vnc_run_ok vcfg host argv stdin doing w).1) (local_port vcfg)
     = serving (vw_ports w) (local_port vcfg).
Proof.
  unfold vnc_run_ok, ebind, on_ports.
  pose proof (run_serving vcfg host (vnc_with_become vcfg argv) stdin (vw_ports w) (local_port vcfg)) as Hs.
  destruct (vnc_run _ _ _ _ _) as [t [out|]]; [|done]. cbn. by destruct (status out =? 0).
Qed.

(** What a teardown has seen holds until the end of the revert. *)
Definition down_now w : Prop :=
  serving (vw_ports w) (local_port vcfg) = false /\ live w !! name host = None.

Lemma down_spec w : (down host w).2 = Ok tt -> down_now (down host w).1.
Proof.
  unfold down. destruct (from_host_bind (fun spec =>
    let& h := take_live (name host) in
    match h with Some h => on_ports (stop h) | None => eret tt end ;&
    let& gone := wait_down 10 (ts_local_port spec) in
    if (gone : bool) then eret tt else efail (PortStillBound (name host) (ts_local_port spec))) w)
    as (spec & Hp & ->).
  intros (h & Hh & (? & _ & (b & Hb & Hk & ->)%ebind_Ok & ->)%ebind_Ok & ->)%ebind_Ok.
  destruct b; [|done]. cbn [eret fst]. apply wait_down_gone in Hb as [Hs Hl].
  rewrite Hp in Hs, Hl |- *. split; [done|]. rewrite Hl.
  assert (Hstop : forall w', live ((match h with Some h => on_ports (stop h) | None => eret tt end) w').1
    = live w') by (destruct h; intros; [apply ports_same|done]).
  rewrite Hstop. cbn. by rewrite lookup_delete_eq.
Qed.

Lemma run_ok_down_now argv stdin doing w :
  down_now w -> down_now (vnc_run_ok vcfg host argv stdin doing w).1.
Proof.
  intros [Hs Hl]. destruct (run_ok_serving argv stdin doing w) as [Hl' Hs'].
  split; [by rewrite Hs'|by rewrite Hl'].
Qed.

Lemma revert_spec w : (revert host w).2 = Ok tt -> down_now (revert host w).1.
Proof.
  unfold revert, vnc_config. rewrite Hv, esome_bind. cbv zeta.
  intros ([] & Hd & Hr & ->)%ebind_Ok. apply down_spec in Hd.
  apply ebind_Ok in Hr as (? & _ & Hr & ->). apply (run_ok_down_now (sh (render (clear_password_cmd vcfg)
    (vnc_target vcfg) None)) None "clearing the vnc password") in Hd.
  apply ebind_Ok in Hr as (? & _ & Hr & ->). rewrite eignore_state in *.
  assert (Hd2 : down_now (remove_password_file vcfg host (password_file_path host vcfg)
    (vnc_run_ok vcfg host (sh (render (clear_password_cmd vcfg) (vnc_target vcfg) None)) None
       "clearing the vnc password" (down host w).1).1).1).
  { unfold remove_password_file. rewrite ebind_ret_state. by apply run_ok_down_now. }
  apply ebind_Ok in Hr as (b & Hb & Hr & ->). rewrite erequire_state.
  by rewrite (listening_none _ (proj2 Hd2)).
Qed.
End Configured.

(** The console channel: an apply or a re-establishment reported done
    (read open) holds a child of this host and something accepts on its
    local port; a revert reported done has dropped the child and seen the
    port closed; a tunnel that does not come up leaves no new child behind;
    and the tunnels of other hosts are never touched. *)
Theorem vnc_reads_back (host : Host) (vcfg : VncConfig) (ctx : ApplyCtx) w
    (Hv : vnc host = Some vcfg) :
  let open w' := serving (vw_ports w') (local_port vcfg) = true /\ is_Some (live w' !! name host) in
  let '(w1, r1) := apply host ctx w in
  let '(w2, r2) := revert host w in
  let '(w3, r3) := verify host w in
  let '(w4, r4) := reestablish host w in
  let '(w5, r5) := up host w in
  (r1 = Ok tt -> open w1 /\ is_Some (vnc_last_password w1))
  /\ (r2 = Ok tt -> serving (vw_ports w2) (local_port vcfg) = false /\ live w2 !! name host = None)
  /\ (r3 = Ok ChOpen -> open w3) /\ (r4 = Ok ChOpen -> open w4)
  /\ (forall e, r5 = Err e -> live w5 !! name host = None \/ live w5 = live w)
  /\ Forall (only (name host) w) [w1; w2; w3; w4; w5].
Proof.
  cbv zeta. destruct (vnc_ops_only host ctx) as (O1 & O2 & O3 & O4 & O5).
  specialize (O1 w). specialize (O2 w). specialize (O3 w). specialize (O4 w). specialize (O5 w).
  pose proof (up_spec host vcfg Hv w) as Hup.
  assert (Hl : forall w b, (listening host w).2 = Ok b -> b = true ->
    serving (vw_ports (listening host w).1) (local_port vcfg) = true
    /\ is_Some (live (listening host w).1 !! name host)).
  { intros w0 b Hb ->. destruct (listening_spec host vcfg Hv w0 true Hb) as [[Hs Hi] ->]. done. }
  assert (H1 : (apply host ctx w).2 = Ok tt ->
    (serving (vw_ports (apply host ctx w).1) (local_port vcfg) = true
     /\ is_Some (live (apply host ctx w).1 !! name host)) /\ is_Some (vnc_last_password (apply host ctx w).1)).
  { unfold apply, vnc_config. rewrite Hv, esome_bind. cbv zeta. intros Ha.
    do 6 (apply ebind_Ok in Ha as (? & _ & Ha & ->)). apply ebind_Ok in Ha as (b & Hb & Ha & ->).
    apply ebind_Ok in Ha as ([] & Hr & Ha & ->). rewrite erequire_state in *.
    apply erequire_Ok in Hr. cbn. split; [by eapply Hl|by eexists]. }
  assert (H2 : (revert host w).2 = Ok tt ->
    serving (vw_ports (revert host w).1) (local_port vcfg) = false
    /\ live (revert host w).1 !! name host = None).
  { intros Hr. by apply revert_spec. }
  assert (H3 : (verify host w).2 = Ok ChOpen ->
    serving (vw_ports (verify host w).1) (local_port vcfg) = true
    /\ is_Some (live (verify host w).1 !! name host)).
  { unfold verify. intros (b & Hb & Hk & ->)%ebind_Ok. destruct b; [|done]. cbn. by eapply Hl. }
  assert (H4 : (reestablish host w).2 = Ok ChOpen ->
    serving (vw_ports (reestablish host w).1) (local_port vcfg) = true
    /\ is_Some (live (reestablish host w).1 !! name host)).
  { unfold reestablish. intros (? & _ & (b & Hb & Hk & ->)%ebind_Ok & ->)%ebind_Ok.
    destruct b; [|done]. cbn. by eapply Hl. }
  destruct (apply host ctx w), (revert host w), (verify host w), (reestablish host w), (up host w) as [w5 r5].
  cbn [fst snd] in *. split_and!; [exact H1|exact H2|exact H3|exact H4| |by repeat constructor].
  by intros e ->.
Qed.
End VncProps.

(** ** A simulated daemon host

    Ports are held by children or by strangers; a child is connecting until
    it binds, and exits when it cannot. *)
Record Ports := {
  pt_strangers : list Z;
  pt_bound : gmap Z Z;
  pt_connecting : gmap Z Z;
  pt_next : Z;
}.

Definition pt_serving (t : Ports) (p : Z) : bool :=
  bool_decide (p ∈ pt_strangers t) || bool_decide (p ∈ (map_to_list (pt_bound t)).*2).

(** A connecting child binds its port, or exits if the port is taken. *)
Definition pt_settle (t : Ports) (h : Z) : Ports :=
  match pt_connecting t !! h with
  | None => t
  | Some p =>
      {| pt_strangers := pt_strangers t;
         pt_bound := if pt_serving t p then pt_bound t else <[h := p]> (pt_bound t);
         pt_connecting := delete h (pt_connecting t); pt_next := pt_next t |}
  end.

#[export] Instance sim_vnc : VncPorts Ports := {|
  vnc_run _ _ _ _ t := (t, Ok {| status := 0; stdout := ""; stderr := "" |});
  generate_len _ t := (t, "pw");
  spawn spec t :=
    ({| pt_strangers := pt_strangers t; pt_bound := pt_bound t;
        pt_connecting := <[pt_next t := ts_local_port spec]> (pt_connecting t);
        pt_next := pt_next t + 1 |}, Ok (pt_next t));
  is_alive h t :=
    (t, bool_decide (is_Some (pt_connecting t !! h)) || bool_decide (is_Some (pt_bound t !! h)));
  stop h t :=
    ({| pt_strangers := pt_strangers t; pt_bound := delete h (pt_bound t);
        pt_connecting := delete h (pt_connecting t); pt_next := pt_next t |}, Ok tt);
  port_open p t := (t, pt_serving t p);
|}.

#[export] Instance sim_vnc_honest : VncHonest Ports.
Proof. by refine {| serving := pt_serving |}. Defined.

Definition vm_cfg : VncConfig :=
  {| vnc_agent_user := "lychgate"; vnc_port := 22; vnc_identity_file := None; vnc_become_cmd := None;
     rfb_host := "127.0.0.1"; rfb_port := 5900; local_port := 15900; vnc_target := "vm1";
     set_password_cmd := "setpw {target} {password_file}"; clear_password_cmd := "clearpw {target}";
     password_len := 8; password_file := None |}.
Definition vm_host : Host :=
  {| name := "hv"; address := "10.0.0.4"; os := Freebsd; channels := [Vnc]; ssh := None;
     bmc := None; vnc := Some vm_cfg; http := None; mqtt := None; serial := None;
     device := None; access := None; drill := false |}.
Definition vnc_ctx : ApplyCtx := {| ctx_ttl_secs := 60; ctx_expires_at := 0 |}.
Definition idle_ports (strangers : list Z) : VncWorld Ports :=
  {| vw_ports := {| pt_strangers := strangers; pt_bound := ∅; pt_connecting := ∅; pt_next := 1 |};
     live := ∅; vnc_last_password := None |}.

Lemma vnc_reads_back_witness :
  let '(w2, r2) := revert vm_host (idle_ports []) in
  r2 = Ok tt /\ serving (vw_ports w2) 15900 = false.
Proof.
  pose proof (vnc_reads_back (T := Ports) vm_host vm_cfg vnc_ctx (idle_ports []) eq_refl) as Hv.
  assert (Hr : (revert vm_host (idle_ports [])).2 = Ok tt) by (by vm_compute).
  cbv zeta in Hv. destruct (apply _ _ _), (revert _ _) as [w2 r2], (verify _ _), (reestablish _ _), (up _ _).
  split; [exact Hr|]. exact (proj1 (proj1 (proj2 Hv) Hr)).
Defined.

(** A stranger on the local port passes for the tunnel: the first probe
    comes before the child has tried to bind, the child is alive, and
    something accepts.  Once the child has tried, it is gone; the grant was
    reported applied all the same. *)
Example stray_passes_for_tunnel :
  let '(w, r) := apply vm_host vnc_ctx (idle_ports [15900]) in
  r = Ok tt /\ live w !! "hv" = Some 1
  /\ (is_alive 1 (pt_settle (vw_ports w) 1)).2 = false.
Proof. by vm_compute. Qed.

(** The placeholders are replaced one after the other, so one inside the
    target's name is replaced too, between the target's own quotes, and the
    shell no longer sees the target as one word of its own. *)
Example render_substitutes_inside_target :
  let cmd := render "setpw {target} {password_file}" "vm {password_file} x" (Some "/tmp/p w") in
  sh_words false None cmd = Some ["setpw"; "vm /tmp/p"; "w x"; "/tmp/p w"].
Proof. by vm_compute. Qed.
