(* ===== verification/TunnelChild.v ===== *)
(** * TunnelChild: the life of an [ssh -L] child

    The processes behind the tunnels of daemon/src/drivers/tunnel.rs: the
    fork, the closure that arms the parent-death signal, the exec, the
    handle's [is_alive], [stop] and drop, and the death of the daemon, as
    steps of a process table.  The module promises that no forward outlives
    the daemon; the theorem says when that is so. *)

From stdpp Require Import relations.
From S2P Require Import Prelude Text External Inventory DriverMonad Channel Seam Fence Remote DriverVnc.
#[local] Open Scope Z_scope.

(** The [cfg] of the build. *)
Inductive TargetOs := OsLinux | OsFreebsd | OsOther.

(** [arm_pdeathsig]: whether the call leaves the death signal armed. *)
Definition arm_pdeathsig (os : TargetOs) : bool :=
  match os with OsLinux | OsFreebsd => true | OsOther => false end.

(** A child: forked and not yet past its [pre_exec] closure, past it, running
    ssh, or gone. *)
Inductive Phase := Forked | PastClosure | Running | Gone.
#[export] Instance Phase_eq_dec : EqDecision Phase.
Proof. solve_decision. Defined.

(** [armed] is set by the closure; [orphan] says that the daemon was already
    dead when it ran. *)
Record Child := { phase : Phase; argv : list string; armed : bool; orphan : bool }.

Record Procs := {
  daemon : bool;
  children : gmap Z Child;
  handles : gset Z;
  next_pid : Z;
}.

Definition set_phase (p : Phase) (c : Child) : Child :=
  {| phase := p; argv := argv c; armed := armed c; orphan := orphan c |}.

Definition on_child (f : Child -> Child) (pid : Z) (s : Procs) : Procs :=
  {| daemon := daemon s; children := alter f pid (children s); handles := handles s; next_pid := next_pid s |}.

(** The fork of [ExecTunnelSpawner::spawn]; the handle is the daemon's once
    [spawn] returns, which it does after the exec. *)
Definition fork (spec : TunnelSpec) (s : Procs) : Procs :=
  {| daemon := daemon s;
     children := <[next_pid s := {| phase := Forked; argv := "ssh" :: tunnel_args spec; armed := false; orphan := false |}]>
                   (children s);
     handles := handles s; next_pid := next_pid s + 1 |}.

(** The closure of [arm_pdeathsig_on]. *)
Definition run_closure (os : TargetOs) (pid : Z) (s : Procs) : Procs :=
  on_child (fun c => {| phase := PastClosure; argv := argv c; armed := arm_pdeathsig os; orphan := negb (daemon s) |}) pid s.

(** [Child::kill] and [Child::wait]: nothing happens to a child that is gone. *)
Definition kill (pid : Z) (s : Procs) : Procs := on_child (set_phase Gone) pid s.

(** [ChildTunnel::is_alive]. *)
Definition is_alive (pid : Z) (s : Procs) : bool :=
  match children s !! pid with Some c => negb (bool_decide (phase c = Gone)) | None => false end.

(** [ChildTunnel::stop], also what its [Drop] does. *)
Definition stop (pid : Z) (s : Procs) : Procs * result DriverError unit := (kill pid s, Ok tt).
Definition drop_handle (pid : Z) (s : Procs) : Procs :=
  let s := kill pid s in
  {| daemon := daemon s; children := children s; handles := handles s ∖ {[pid]}; next_pid := next_pid s |}.

(** The daemon dies, by any cause: a child whose death signal is armed gets a
    SIGKILL. *)
Definition die (s : Procs) : Procs :=
  {| daemon := false;
     children := (fun c => if armed c then set_phase Gone c else c) <$> children s;
     handles := ∅; next_pid := next_pid s |}.

(** What happens, in any order; the daemon acts only while it lives. *)
Inductive step (os : TargetOs) : Procs -> Procs -> Prop :=
| step_fork spec s : daemon s = true -> step os s (fork spec s)
| step_closure pid c s : children s !! pid = Some c -> phase c = Forked -> step os s (run_closure os pid s)
| step_exec pid c s : children s !! pid = Some c -> phase c = PastClosure ->
    step os s {| daemon := daemon s; children := children (on_child (set_phase Running) pid s);
                 handles := if daemon s then {[pid]} ∪ handles s else handles s; next_pid := next_pid s |}
| step_exit pid s : step os s (kill pid s)
| step_stop pid s : daemon s = true -> pid ∈ handles s -> step os s (stop pid s).1
| step_drop pid s : daemon s = true -> pid ∈ handles s -> step os s (drop_handle pid s)
| step_die s : step os s (die s).

(** Nothing runs yet. *)
Definition booted : Procs := {| daemon := true; children := ∅; handles := ∅; next_pid := 0 |}.

(** What holds of every child in every reachable table. *)
Definition child_ok (os : TargetOs) (alive : bool) (c : Child) : Prop :=
  match phase c with
  | Forked => armed c = false
  | PastClosure | Running => armed c = arm_pdeathsig os /\ (alive = true -> orphan c = false)
      /\ (alive = false -> armed c = true -> orphan c = true)
  | Gone => True
  end.

Definition procs_ok (os : TargetOs) (s : Procs) : Prop :=
  map_Forall (fun _ c => child_ok os (daemon s) c) (children s)
  /\ (forall pid, pid ∈ handles s -> daemon s = true).

Lemma child_gone os alive c : child_ok os alive (set_phase Gone c).
Proof. done. Qed.

Lemma procs_alter os f pid s :
  procs_ok os s -> (forall c, children s !! pid = Some c -> child_ok os (daemon s) (f c)) ->
  procs_ok os (on_child f pid s).
Proof.
  intros [Hc Hh] Hf. split; [|done]. intros k c Hk. cbn in Hk. destruct (decide (k = pid)) as [->|Hne].
  - rewrite lookup_alter_eq in Hk. destruct (children s !! pid) as [c0|] eqn:E; [|done]. simplify_eq/=. by apply Hf.
  - rewrite lookup_alter_ne in Hk by done. by eapply Hc.
Qed.

Lemma procs_ok_step os s s' : step os s s' -> procs_ok os s -> procs_ok os s'.
Proof.
  intros Hstep Hok. inversion Hstep; subst; clear Hstep.
  - destruct Hok as [Hc Hh]. split; [|done]. cbn. apply map_Forall_insert_2; done.
  - apply procs_alter; [done|]. intros c0 Hc0. cbn. split_and!; [done|by intros ->|].
    intros -> _. done.
  - destruct Hok as [Hc Hh]. destruct (procs_alter os (set_phase Running) pid s) as [Hc' _]; [done| |].
    { intros c0 Hc0. specialize (Hc _ _ Hc0). simplify_eq. unfold child_ok in *. by rewrite H0 in Hc. }
    split; [exact Hc'|]. cbn. intros p Hp. destruct (daemon s) eqn:E; [done|]. apply (Hh p Hp).
  - apply procs_alter; [done|]. intros. apply child_gone.
  - apply procs_alter; [done|]. intros. apply child_gone.
  - destruct (procs_alter os (set_phase Gone) pid s) as [Hc' Hh']; [done|intros; apply child_gone|].
    split; [exact Hc'|]. cbn. intros p _. done.
  - destruct Hok as [Hc _]. split; [|cbn; set_solver]. intros k c Hk. cbn in Hk. rewrite lookup_fmap in Hk.
    destruct (children s !! k) as [c0|] eqn:E; [|done]. simplify_eq/=. specialize (Hc _ _ E).
    destruct (armed c0) eqn:Ea; [done|]. unfold child_ok in *. cbn [daemon]. destruct (phase c0); try done.
    all: destruct Hc as (? & ? & ?); split_and!; congruence.
Qed.

Lemma procs_ok_reachable os s : rtc (step os) booted s -> procs_ok os s.
Proof.
  assert (Hb : procs_ok os booted) by (split; [apply map_Forall_empty|done]).
  intros Hr. revert Hb. induction Hr as [|s s' s'' Hs _ IH]; eauto using procs_ok_step.
Qed.

(** No forward outlives the daemon: where the build arms the death signal, a
    child that runs ssh after the daemon's death is one that had not yet run
    its closure when the daemon died; a held child is gone after its [stop]. *)
Theorem forward_dies_with_daemon (os : TargetOs) (s : Procs) (pid : Z) (c : Child)
    (Hreach : rtc (step os) booted s) (Hos : arm_pdeathsig os = true) (Hdead : daemon s = false)
    (Hchild : children s !! pid = Some c) (Hrun : phase c = Running) :
  orphan c = true.
Proof.
  destruct (procs_ok_reachable _ _ Hreach) as [Hc _]. specialize (Hc _ _ Hchild). cbn in Hc.
  unfold child_ok in Hc. rewrite Hrun in Hc. destruct Hc as (Ha & _ & Ho). apply Ho; congruence.
Qed.

Lemma stop_kills pid s c : children s !! pid = Some c -> is_alive pid (stop pid s).1 = false.
Proof. intros Hc. unfold is_alive. cbn. by rewrite lookup_alter_eq, Hc. Qed.

(** *** Witness, and the two ways a forward does outlive the daemon *)

Definition demo_spec : TunnelSpec :=
  {| ts_local_port := 5901; ts_rfb_host := "127.0.0.1"; ts_rfb_port := 5900; ts_address := "10.0.4.11";
     ts_ssh_port := 22; ts_agent_user := "root"; ts_identity_file := None |}.

Definition exec_pid (pid : Z) (s : Procs) : Procs :=
  {| daemon := daemon s; children := children (on_child (set_phase Running) pid s);
     handles := if daemon s then {[pid]} ∪ handles s else handles s; next_pid := next_pid s |}.

(** The daemon is killed between the fork and the closure: the signal is
    armed too late, and ssh runs on. *)
Definition late : Procs := exec_pid 0 (run_closure OsLinux 0 (die (fork demo_spec booted))).

Lemma late_reachable : rtc (step OsLinux) booted late.
Proof.
  eapply rtc_l; [by apply (step_fork _ demo_spec)|]. eapply rtc_l; [apply step_die|].
  eapply rtc_l; [by eapply (step_closure _ 0)|]. eapply rtc_l; [by eapply (step_exec _ 0)|]. apply rtc_refl.
Qed.

Lemma forward_dies_with_daemon_witness : orphan <$> children late !! 0 = Some true.
Proof.
  destruct (children late !! 0) as [c|] eqn:E; [|by vm_compute in E]. cbn. f_equal.
  apply (forward_dies_with_daemon OsLinux late 0 c late_reachable); [done|done|exact E|].
  vm_compute in E. by simplify_eq.
Defined.

Example killed_before_the_closure : daemon late = false /\ is_alive 0 late = true.
Proof. by vm_compute. Qed.

(** Elsewhere the closure arms nothing. *)
Definition unarmed : Procs := die (exec_pid 0 (run_closure OsOther 0 (fork demo_spec booted))).
Example other_systems_orphan : daemon unarmed = false /\ is_alive 0 unarmed = true.
Proof. by vm_compute. Qed.
