(* ===== verification/DeviceState.v ===== *)
(** * DeviceState: the device ledger of the daemon (daemon/src/device_state.rs)

    Per device, the next token sequence number and the nonce of the grant the
    daemon believes open: a file read, changed and replaced under a lock.
    Every attempt at an I/O may fail, and a failed replacement leaves the old
    file (the rename is the last thing a write does). *)

From S2P Require Import Prelude Text Line Ledgers DriverMonad InventoryCheck.

Record DeviceRecord := { next_seq : Z; dr_open_nonce : option string }.
Record DeviceDoc := { dd_version : Z; devices : gmap string DeviceRecord }.

#[export] Instance DeviceRecord_eq_dec : EqDecision DeviceRecord.
Proof. solve_decision. Defined.

(** [DeviceRecord::default]. *)
Definition default_record : DeviceRecord := {| next_seq := 0; dr_open_nonce := None |}.
Definition default_doc : DeviceDoc := {| dd_version := LEDGER_VERSION; devices := ∅ |}.

(** The path of a [DeviceState] with the number of I/O attempts so far. *)
Record DeviceState := { ds_file : LedgerFile DeviceDoc; ds_attempts : nat }.

Definition hex16 (id : list Z) : string := hex_nonce id.

Definition seq_of (l : DeviceState) (device_id : list Z) : Z :=
  match ds_file l with
  | Present doc => default 0 (next_seq <$> devices doc !! hex16 device_id)
  | _ => 0
  end.

(** An unsigned addition of a release build. *)
Definition wrapping_add64 (a b : Z) : Z := (a + b) `mod` 2 ^ 64.

(** A byte in the middle of a character: a slice cannot begin or end before it. *)
Definition is_continuation (c : ascii) : bool :=
  (128 <=? byte_of_ascii c) && (byte_of_ascii c <? 192).
Definition starts_inside (s : string) : bool :=
  match s with String c _ => is_continuation c | "" => false end.

Section State.
Context (io_ok : nat -> bool).
Notation DSM := (eff DeviceState IoError).

Definition ds_attempt : DSM unit := fun l =>
  ({| ds_file := ds_file l; ds_attempts := S (ds_attempts l) |},
   if io_ok (ds_attempts l) then Ok tt else Err (Refused IoFailed)).

(** [DeviceState::lock]: the acquisition, an I/O of its own. *)
Definition ds_lock : DSM unit := ds_attempt.

Definition ds_read : DSM DeviceDoc :=
  ds_attempt ;&
  fun l =>
    (l, match ds_file l with
        | Absent => Ok default_doc
        | Corrupt => Err (Refused InvalidData)
        | Present doc =>
            if negb (dd_version doc =? LEDGER_VERSION) then Err (Refused InvalidData) else Ok doc
        end).

Definition ds_write (doc : DeviceDoc) : DSM unit :=
  ds_attempt ;&
  fun l => ({| ds_file := Present doc; ds_attempts := ds_attempts l |}, Ok tt).

(** [entry(..).or_default()], then the change. *)
Definition update_record (doc : DeviceDoc) (key : string) (f : DeviceRecord -> DeviceRecord)
    : DeviceDoc :=
  {| dd_version := dd_version doc;
     devices := <[key := f (default default_record (devices doc !! key))]> (devices doc) |}.

Definition reserve_seq (device_id : list Z) : DSM Z :=
  ds_lock ;&
  let& doc := ds_read in
  let record := default default_record (devices doc !! hex16 device_id) in
  let seq := wrapping_add64 (next_seq record) 1 in
  ds_write (update_record doc (hex16 device_id) (fun r =>
    {| next_seq := seq; dr_open_nonce := dr_open_nonce r |})) ;&
  eret seq.

Definition set_open_nonce (device_id nonce : list Z) : DSM unit :=
  ds_lock ;&
  let& doc := ds_read in
  ds_write (update_record doc (hex16 device_id) (fun r =>
    {| next_seq := next_seq r; dr_open_nonce := Some (hex16 nonce) |})).

Definition clear_open_nonce (device_id : list Z) : DSM unit :=
  ds_lock ;&
  let& doc := ds_read in
  match devices doc !! hex16 device_id with
  | Some _ =>
      ds_write (update_record doc (hex16 device_id) (fun r =>
        {| next_seq := next_seq r; dr_open_nonce := None |}))
  | None => eret tt
  end.

(** The loop over the slices [hex[2 * i..2 * i + 2]]. *)
Fixpoint nonce_pairs (s : string) : DSM (list Z) :=
  match s with
  | String a (String b rest) =>
      if is_continuation a || starts_inside rest then epanic
      else
        let& v := esome (u8_from_str_radix16 (String a (String b ""))) InvalidData in
        let& vs := nonce_pairs rest in
        eret (v :: vs)
  | _ => eret []
  end.

Definition open_nonce (device_id : list Z) : DSM (option (list Z)) :=
  ds_lock ;&
  let& doc := ds_read in
  match devices doc !! hex16 device_id ≫= dr_open_nonce with
  | None => eret None
  | Some hex =>
      erequire (str_len hex =? 32) InvalidData ;&
      let& nonce := nonce_pairs hex in
      eret (Some nonce)
  end.
End State.

#[global] Arguments reserve_seq : simpl never.
#[global] Arguments set_open_nonce : simpl never.
#[global] Arguments clear_open_nonce : simpl never.
#[global] Arguments open_nonce : simpl never.

(** ** What the operations do to the file *)

(** The documents the daemon writes: sequence numbers of 64 bits, nonces in
    hexadecimal. *)
Definition record_typed (r : DeviceRecord) : Prop :=
  is_u64 (next_seq r) /\
  forall hex, dr_open_nonce r = Some hex -> exists nonce, nonce_typed nonce /\ hex = hex16 nonce.
Definition doc_typed (doc : DeviceDoc) : Prop := map_Forall (fun _ => record_typed) (devices doc).
Definition state_typed (l : DeviceState) : Prop :=
  match ds_file l with Present doc => doc_typed doc | _ => True end.

(** What the file records of a device, if it can be read. *)
Definition record_of (l : DeviceState) (device_id : list Z) : DeviceRecord :=
  match ds_file l with
  | Present doc => default default_record (devices doc !! hex16 device_id)
  | _ => default_record
  end.

Section StateLemmas.
Context (io_ok : nat -> bool).
Implicit Types l : DeviceState.

Lemma seq_of_record l id : seq_of l id = next_seq (record_of l id).
Proof. unfold seq_of, record_of. destruct (ds_file l); [done..|]. by destruct (_ !! _). Qed.

Lemma record_of_hex l id id' : hex16 id = hex16 id' -> record_of l id = record_of l id'.
Proof. unfold record_of. by intros ->. Qed.

Lemma wrapping_add64_u64 a b : is_u64 (wrapping_add64 a b).
Proof.
  unfold wrapping_add64, is_u64, u64_max. pose proof (Z.mod_pos_bound (a + b) (2 ^ 64)). lia.
Qed.

Lemma wrapping_add64_small a : 0 <= a < u64_max -> wrapping_add64 a 1 = a + 1.
Proof. intros. unfold wrapping_add64, u64_max in *. apply Z.mod_small. lia. Qed.

Lemma hex16_inj id id' :
  nonce_typed id -> nonce_typed id' -> hex16 id = hex16 id' -> id = id'.
Proof.
  intros Ht Ht' E. apply parse_hex_nonce_hex in Ht. apply parse_hex_nonce_hex in Ht'.
  unfold hex16 in E. rewrite E in Ht. congruence.
Qed.

(** The three ways an operation ends: the file unread and unchanged, read
    and unchanged, or replaced. *)
Definition readable l (doc : DeviceDoc) : Prop :=
  match ds_file l with
  | Absent => doc = default_doc
  | Corrupt => False
  | Present d => doc = d
  end.

Lemma ds_read_cases {A} (k : DeviceDoc -> eff DeviceState IoError A) l :
  let m := (ds_lock io_ok ;& let& doc := ds_read io_ok in k doc) in
  (exists n e, m l = ({| ds_file := ds_file l; ds_attempts := n |}, Err (Refused e)))
  \/ exists n doc, readable l doc
      /\ m l = k doc {| ds_file := ds_file l; ds_attempts := n |}.
Proof.
  unfold ds_lock, ds_read, ebind, ds_attempt, readable. cbn.
  destruct (io_ok (ds_attempts l)); [|left; eauto].
  destruct (io_ok (S (ds_attempts l))); [|left; eauto]. cbn.
  destruct (ds_file l) as [| |doc] eqn:Hf; [right|left|]; [eauto..|].
  destruct (dd_version doc =? _); [right|left]; cbn; eauto.
Qed.

Lemma ds_write_cases {A} (k : eff DeviceState IoError A) doc l :
  let m := (ds_write io_ok doc ;& k) in
  (exists n, m l = ({| ds_file := ds_file l; ds_attempts := n |}, Err (Refused IoFailed)))
  \/ exists n, m l = k {| ds_file := Present doc; ds_attempts := n |}.
Proof.
  unfold ds_write, ebind, ds_attempt. cbn. destruct (io_ok (ds_attempts l)); cbn; eauto.
Qed.

Lemma ds_write_ret doc l :
  (exists n, ds_write io_ok doc l = ({| ds_file := ds_file l; ds_attempts := n |}, Err (Refused IoFailed)))
  \/ exists n, ds_write io_ok doc l = ({| ds_file := Present doc; ds_attempts := n |}, Ok tt).
Proof.
  unfold ds_write, ebind, ds_attempt. cbn. destruct (io_ok (ds_attempts l)); cbn; eauto.
Qed.

Lemma readable_record l doc id :
  readable l doc -> record_of l id = default default_record (devices doc !! hex16 id).
Proof.
  unfold readable, record_of. destruct (ds_file l); intros; subst; done.
Qed.

Lemma readable_typed l doc : readable l doc -> state_typed l -> doc_typed doc.
Proof.
  unfold readable, state_typed. destruct (ds_file l); intros; subst; try done.
Qed.

Lemma record_of_update doc key f n id :
  record_of {| ds_file := Present (update_record doc key f); ds_attempts := n |} id
  = if decide (hex16 id = key) then f (default default_record (devices doc !! key))
    else default default_record (devices doc !! hex16 id).
Proof.
  unfold record_of, update_record. cbn. case_decide as E.
  - subst key. by rewrite lookup_insert_eq.
  - by rewrite lookup_insert_ne.
Qed.

Lemma default_record_typed : record_typed default_record.
Proof. done. Qed.

Lemma doc_typed_default doc key : doc_typed doc -> record_typed (default default_record (devices doc !! key)).
Proof. intros Hd. destruct (devices doc !! key) eqn:E; [by eapply Hd|done]. Qed.

Lemma update_typed doc key f :
  doc_typed doc -> (forall r, record_typed r -> record_typed (f r)) ->
  doc_typed (update_record doc key f).
Proof.
  intros Hd Hf. apply map_Forall_insert_2; [|done]. by apply Hf, doc_typed_default.
Qed.

Lemma record_of_same l n id : record_of {| ds_file := ds_file l; ds_attempts := n |} id = record_of l id.
Proof. done. Qed.

(** *** Each operation *)

Ltac same := intros; rewrite decide_False by (by intros []); done.
Ltac read_cases :=
  match goal with |- context [ebind (ds_lock _) (fun _ => ebind (ds_read _) ?k) ?l] =>
    let n := fresh "n" in let doc := fresh "doc" in let Hr := fresh "Hr" in
    destruct (ds_read_cases k l) as [(n & ? & ->)|(n & doc & Hr & ->)]; cbn beta zeta
  end.
Ltac write_cases :=
  let n := fresh "n" in
  match goal with
  | |- context [ebind (ds_write _ ?doc) (fun _ => ?k) ?l] =>
      destruct (ds_write_cases k doc l) as [(n & ->)|(n & ->)]
  | |- context [ds_write _ ?doc ?l] => destruct (ds_write_ret doc l) as [(n & ->)|(n & ->)]
  end.

Lemma reserve_seq_spec id l :
  let '(l', r) := reserve_seq io_ok id l in
  match r with
  | Ok s => s = wrapping_add64 (seq_of l id) 1
  | Err _ => l' = {| ds_file := ds_file l; ds_attempts := ds_attempts l' |}
  end
  /\ (forall id', record_of l' id' =
       if decide (is_ok r = true /\ hex16 id' = hex16 id)
       then {| next_seq := wrapping_add64 (seq_of l id) 1; dr_open_nonce := dr_open_nonce (record_of l id) |}
       else record_of l id').
Proof.
  unfold reserve_seq. read_cases; [split; [done|same]|].
  write_cases; [split; [done|same]|].
  rewrite seq_of_record, (readable_record _ _ id Hr). split; [done|]. intros id'.
  rewrite record_of_update. cbn [is_ok]. destruct (decide (hex16 id' = hex16 id)) as [E|E].
  - by rewrite decide_True.
  - rewrite decide_False by naive_solver. by rewrite (readable_record _ _ id' Hr).
Qed.

Lemma set_open_nonce_spec id nonce l :
  let '(l', r) := set_open_nonce io_ok id nonce l in
  forall id', record_of l' id' =
    if decide (is_ok r = true /\ hex16 id' = hex16 id)
    then {| next_seq := seq_of l id; dr_open_nonce := Some (hex16 nonce) |}
    else record_of l id'.
Proof.
  unfold set_open_nonce. read_cases; [same|].
  write_cases; [same|].
  rewrite seq_of_record, (readable_record _ _ id Hr). intros id'.
  rewrite record_of_update. cbn [is_ok]. destruct (decide (hex16 id' = hex16 id)) as [E|E].
  - by rewrite decide_True.
  - rewrite decide_False by naive_solver. by rewrite (readable_record _ _ id' Hr).
Qed.

Lemma clear_open_nonce_spec id l :
  let '(l', r) := clear_open_nonce io_ok id l in
  forall id', record_of l' id' =
    if decide (is_ok r = true /\ hex16 id' = hex16 id)
    then {| next_seq := seq_of l id; dr_open_nonce := None |} else record_of l id'.
Proof.
  unfold clear_open_nonce. read_cases; [same|].
  cbn beta. rewrite seq_of_record, (readable_record _ _ id Hr).
  destruct (devices doc !! hex16 id) as [rec|] eqn:Hd.
  - write_cases; [same|].
    intros id'. rewrite record_of_update, Hd. cbn [is_ok].
    destruct (decide (hex16 id' = hex16 id)) as [E|E].
    + by rewrite decide_True.
    + rewrite decide_False by naive_solver. by rewrite (readable_record _ _ id' Hr).
  - cbn. intros id'. destruct (decide (hex16 id' = hex16 id)) as [E|E].
    + rewrite decide_True by done. rewrite record_of_same, (readable_record _ _ id' Hr), E, Hd. done.
    + rewrite decide_False by naive_solver. done.
Qed.

Lemma open_nonce_file id l : ds_file (open_nonce io_ok id l).1 = ds_file l.
Proof.
  assert (Hp : forall s m, (nonce_pairs s m).1 = m).
  { fix IH 1. intros [|a [|b s]] m; [done..|]. cbn [nonce_pairs]. case_match; [done|].
    unfold ebind, esome. destruct (u8_from_str_radix16 _); [|done]. cbn.
    specialize (IH s m). destruct (nonce_pairs s m) as [m' [vs|]]; cbn in *; by subst. }
  unfold open_nonce. read_cases; [done|]. destruct (_ ≫= _) as [hex|]; [|done].
  unfold ebind at 1, erequire. destruct (_ =? 32); [|done]. cbn.
  unfold ebind. specialize (Hp hex {| ds_file := ds_file l; ds_attempts := n |}).
  destruct (nonce_pairs _ _) as [m' [vs|]]; cbn in *; by subst.
Qed.

Lemma hex_digit_plain d : 0 <= d < 16 ->
  is_continuation (hex_digit d) = false /\ bool_decide (hex_digit d = "+"%char) = false.
Proof.
  intros Hd. pose proof (u8_all (fun d => if d <? 16 then
    negb (is_continuation (hex_digit d)) && negb (bool_decide (hex_digit d = "+"%char)) else true)
    eq_refl d) as H.
  cbn beta in H. rewrite (proj2 (Z.ltb_lt d 16)) in H by lia.
  apply andb_true_iff in H as [H1%negb_true_iff H2%negb_true_iff]; [done|].
  unfold is_u8, u8_max. lia.
Qed.

Lemma radix_hex_digits b : is_u8 b ->
  u8_from_str_radix16 (String (hex_digit (Z.shiftr b 4)) (String (hex_digit (Z.land b 15)) ""))
  = Some b.
Proof.
  intros Hb. apply (bool_decide_eq_true_1 _). revert b Hb. apply (u8_all (fun b =>
    bool_decide (u8_from_str_radix16
      (String (hex_digit (Z.shiftr b 4)) (String (hex_digit (Z.land b 15)) "")) = Some b))).
  by vm_compute.
Qed.

Lemma byte_nibbles b : is_u8 b -> 0 <= Z.shiftr b 4 < 16 /\ 0 <= Z.land b 15 < 16.
Proof.
  unfold is_u8, u8_max. intros Hb. rewrite Z.shiftr_div_pow2 by done.
  replace (Z.land b 15) with (b mod 2 ^ 4) by (by rewrite <-Z.land_ones by done).
  split; [split; [apply Z.div_pos|apply Z.div_lt_upper_bound]; lia|apply Z.mod_pos_bound; lia].
Qed.

Lemma nonce_pairs_hex nonce l : Forall is_u8 nonce -> nonce_pairs (hex16 nonce) l = (l, Ok nonce).
Proof.
  unfold hex16. induction 1 as [|b nonce Hb Hn IH]; [done|].
  destruct (byte_nibbles b Hb) as [H1 H2]. cbn [hex_nonce nonce_pairs].
  rewrite (proj1 (hex_digit_plain _ H1)).
  assert (starts_inside (hex_nonce nonce) = false) as ->.
  { destruct Hn as [|b' nonce' Hb' _]; [done|]. cbn.
    apply hex_digit_plain. by apply byte_nibbles. }
  cbn [orb]. unfold ebind at 1. rewrite radix_hex_digits by done. cbn. unfold ebind. by rewrite IH.
Qed.

(** Reading back what the daemon recorded. *)
Lemma open_nonce_spec id l r :
  state_typed l -> (open_nonce io_ok id l).2 = r ->
  match r with
  | Ok x => hex16 <$> x = dr_open_nonce (record_of l id) /\ (forall n, x = Some n -> nonce_typed n)
  | Err e => exists io, e = Refused io
  end.
Proof.
  intros Ht <-. unfold open_nonce. read_cases; [cbn; eauto|].
  pose proof (readable_typed _ _ Hr Ht) as Hd. rewrite (readable_record _ _ id Hr).
  destruct (devices doc !! hex16 id) as [rec|] eqn:E; cbn; [|done].
  destruct (Hd _ _ E) as [_ Hh].
  destruct (dr_open_nonce rec) as [hex|] eqn:Ho; cbn; [|done].
  destruct (Hh _ eq_refl) as (nonce & Hn & ->). unfold ebind, erequire.
  unfold str_len, hex16 at 1. rewrite hex_nonce_length, (proj1 Hn).
  change (Z.of_nat (2 * 16) =? 32) with true. cbn -[nonce_pairs hex16].
  rewrite nonce_pairs_hex by apply Hn. cbn. split; [done|]. by intros n' [= <-].
Qed.

Lemma ops_typed l :
  state_typed l ->
  (forall id, state_typed (reserve_seq io_ok id l).1)
  /\ (forall id nonce, nonce_typed nonce -> state_typed (set_open_nonce io_ok id nonce l).1)
  /\ (forall id, state_typed (clear_open_nonce io_ok id l).1)
  /\ (forall id, state_typed (open_nonce io_ok id l).1).
Proof.
  intros Ht. split_and!; intros.
  - unfold reserve_seq. read_cases; [done|]. write_cases; [done|].
    apply update_typed; [by eapply readable_typed|]. intros r [_ Hr']. split; [|done].
    apply wrapping_add64_u64.
  - unfold set_open_nonce. read_cases; [done|]. write_cases; [done|].
    apply update_typed; [by eapply readable_typed|]. intros r [Hr' _]. split; [done|].
    intros hex [= <-]. eauto.
  - unfold clear_open_nonce. read_cases; [done|]. destruct (_ !! _); [|done].
    write_cases; [done|].
    apply update_typed; [by eapply readable_typed|]. intros r [Hr' _]. by split.
  - unfold state_typed. by rewrite open_nonce_file.
Qed.
End StateLemmas.

(** ** Histories of the ledger *)

Inductive LedgerOp :=
| OpReserve (device_id : list Z)
| OpSet (device_id nonce : list Z)
| OpClear (device_id : list Z)
| OpRead (device_id : list Z).

Definition op_typed (op : LedgerOp) : Prop :=
  match op with OpSet _ nonce => nonce_typed nonce | _ => True end.

Section History.
Context (io_ok : nat -> bool).

(** One operation, with the number it handed out. *)
Definition run_op (op : LedgerOp) (l : DeviceState) : DeviceState * list (list Z * Z) :=
  match op with
  | OpReserve id =>
      let '(l', r) := reserve_seq io_ok id l in
      (l', match r with Ok s => [(id, s)] | Err _ => [] end)
  | OpSet id nonce => ((set_open_nonce io_ok id nonce l).1, [])
  | OpClear id => ((clear_open_nonce io_ok id l).1, [])
  | OpRead id => ((open_nonce io_ok id l).1, [])
  end.

Fixpoint run_ops (ops : list LedgerOp) (l : DeviceState) : DeviceState * list (list Z * Z) :=
  match ops with
  | [] => (l, [])
  | op :: ops =>
      let '(l1, out) := run_op op l in
      let '(l2, outs) := run_ops ops l1 in
      (l2, out ++ outs)
  end.

(** The numbers handed out for one device, in order. *)
Definition issued_for (device_id : list Z) (out : list (list Z * Z)) : list Z :=
  (List.filter (fun p => bool_decide (p.1 = device_id)) out).*2.

Lemma run_op_typed op l : op_typed op -> state_typed l -> state_typed (run_op op l).1.
Proof.
  intros Ho (H1 & H2 & H3 & H4)%(ops_typed io_ok). destruct op as [id|id n|id|id]; cbn; auto.
  specialize (H1 id). by destruct (reserve_seq io_ok id l).
Qed.

(** An operation issues at most the successor of the recorded number, and
    then records it. *)
Lemma run_op_seq op l id :
  0 <= seq_of l id < u64_max ->
  let '(l', out) := run_op op l in
  (issued_for id out = [] /\ seq_of l id <= seq_of l' id <= seq_of l id + 1)
  \/ (issued_for id out = [seq_of l id + 1] /\ seq_of l' id = seq_of l id + 1).
Proof.
  intros Hb. rewrite !seq_of_record in *. destruct op as [id'|id' n|id'|id']; cbn.
  - pose proof (reserve_seq_spec io_ok id' l) as Hs. destruct (reserve_seq io_ok id' l) as [l' r].
    destruct Hs as [Hr Hrec]. rewrite !seq_of_record, (Hrec id).
    destruct r as [s|e]; cbn [is_ok]; [|left; split; [done|]; rewrite decide_False by (by intros []); lia].
    rewrite seq_of_record in Hr. subst s. unfold issued_for; cbn.
    destruct (decide (hex16 id = hex16 id')) as [E|E].
    + rewrite decide_True by done. cbn [next_seq].
      rewrite !seq_of_record, <-(record_of_hex l _ _ E), wrapping_add64_small by done.
      case_bool_decide; cbn; [right|left]; (split; [done|lia]).
    + rewrite decide_False by naive_solver. case_bool_decide; [congruence|]. left. split; [done|lia].
  - pose proof (set_open_nonce_spec io_ok id' n l) as Hs. destruct (set_open_nonce _ _ _ l) as [l' r].
    left. split; [done|]. cbn. rewrite !seq_of_record, Hs. destruct (decide (_ /\ _)) as [E|E]; cbn; [|lia].
    destruct E as [_ E%(record_of_hex l)]. rewrite seq_of_record, <-E. lia.
  - pose proof (clear_open_nonce_spec io_ok id' l) as Hs. destruct (clear_open_nonce _ _ l) as [l' r].
    left. split; [done|]. cbn. rewrite !seq_of_record, Hs. destruct (decide (_ /\ _)) as [E|E]; cbn; [|lia].
    destruct E as [_ E%(record_of_hex l)]. rewrite seq_of_record, <-E. lia.
  - left. split; [done|]. unfold seq_of, record_of in *. rewrite open_nonce_file.
    destruct (ds_file l); cbn in *; try lia. destruct (_ !! _); cbn in *; lia.
Qed.

(** C37. Sequence numbers are never reissued: whatever operations the daemon
    runs on its device ledger, in any order, and whichever of their I/Os
    fail, the numbers it hands out for a device are all new and strictly
    increasing, until 2^64 of them are spent. *)
Theorem sequence_never_reissued (ops : list LedgerOp) (l : DeviceState) (device_id : list Z)
    (Hpos : 0 <= seq_of l device_id)
    (Hroom : seq_of l device_id + Z.of_nat (length ops) <= u64_max) :
  Sorted Z.lt (seq_of l device_id :: issued_for device_id (run_ops ops l).2).
Proof.
  revert l Hpos Hroom. induction ops as [|op ops IH]; intros l Hpos Hroom;
    [by repeat constructor|].
  cbn [length] in Hroom. cbn [run_ops].
  pose proof (run_op_seq op l device_id ltac:(lia)) as Hop. destruct (run_op op l) as [l1 out].
  specialize (IH l1). destruct (run_ops ops l1) as [l2 outs]. cbn in IH |- *.
  unfold issued_for in *. rewrite List.filter_app, fmap_app.
  destruct Hop as [[-> Hs]|[-> Hs]]; cbn.
  - specialize (IH ltac:(lia) ltac:(lia)). apply Sorted_inv in IH as [IH Hhd].
    constructor; [done|]. inversion Hhd; constructor. lia.
  - specialize (IH ltac:(lia) ltac:(lia)). rewrite Hs in IH. constructor; [done|]. constructor. lia.
Qed.
End History.

(** A run on one device in which the fifth and the eighth I/O fail. *)
Definition id0 : list Z := replicate 16 7.
Lemma sequence_never_reissued_witness :
  let l := {| ds_file := Absent; ds_attempts := 0 |} in
  let io n := negb (bool_decide (n = 4 \/ n = 7))%nat in
  let ops := [OpReserve id0; OpReserve id0; OpSet id0 id0; OpReserve id0; OpReserve id0] in
  issued_for id0 (run_ops io ops l).2 = [1; 2; 3]
  /\ Sorted Z.lt (seq_of l id0 :: issued_for id0 (run_ops io ops l).2).
Proof. split; [by vm_compute|]. by apply sequence_never_reissued. Defined.
