(* ===== verification/DriverDevice.v ===== *)
(** * DriverDevice: the device channel (daemon/src/drivers/device.rs)

    The driver and the production signer over three seams: the ledger of
    [DeviceState] (one file, opened by both), the wire to the devices, and
    the source of nonces.  A driver error is a value per place the code
    builds one; the wording of the message is not modelled. *)

From stdpp Require Import relations.
From S2P Require Import Prelude Text Clock External Reference Approval Cbor Token Line Embed EmbedProps Ledgers Inventory DriverMonad Channel Seam InventoryCheck DeviceState.
#[local] Open Scope Z_scope.

(** ** The seams *)

(** The trait [DeviceTransport]: one line-protocol transaction. *)
Class DeviceTransport (T : Type) := {
  transact : Host -> DeviceConfig -> string -> T -> T * result DriverError string;
}.

(** The trait [NonceSource]. *)
Class NonceSource (N : Type) := { draw_nonce : N -> N * list Z }.

(** The struct [ProductionSigner], less the path of its ledger. *)
Record SignerKeys := { ed25519_seed : option (list Z); p256_scalar : option (list Z) }.

(** What the driver owns. *)
Record DeviceWorld (T N : Type) := { dw_ledger : DeviceState; dw_wire : T; dw_nonces : N }.
Arguments dw_ledger {T N}.
Arguments dw_wire {T N}.
Arguments dw_nonces {T N}.

Inductive DeviceError :=
| NoDeviceConfig (host : string)
| RenderingCommand (e : WireError)
| TransportFailed (e : DriverError)
| RefusedBy (host verb reason : string)
| AnsweredWith (host verb : string) (other : Reply)
| UnparseableReply (host verb : string) (e : WireError)
| DifferentNonceAcked (host : string)
| ImplausibleRemaining (host : string) (remaining_secs ttl_secs : Z)
| FailStateDrifted (host : string)
| NoFailState (host : string)
| NoLoadReading (host : string)
| LoadOffWhileOpen (host : string)
| LoadOnWhileClosed (host : string)
| TtlExceedsWire (ttl_secs : Z)
| PersistingNonce (e : IoError)
| ReadingNonce (e : IoError)
| ClearingNonce (e : IoError)
| NoNonceRecorded (host : string)
| DifferentGrantOpen (host : string)
| NotReadBackOpen (host : string)
| StillOpen (host : string)
| ForeignGrant (host : string)
| NoSigningKey (alg : DeviceAlg)
| ReservingSeq (e : IoError)
| SigningToken (e : WireError).

Module DeviceDriver.
Section Driver.
Context {T N : Type} `{!DeviceTransport T, !NonceSource N} `{DataEncoding, WireCrypto}.
Context (io_ok : nat -> bool) (keys : SignerKeys).
Notation W := (DeviceWorld T N).
Notation DM := (eff W DeviceError).

Definition put_ledger (l : DeviceState) (w : W) : W :=
  {| dw_ledger := l; dw_wire := dw_wire w; dw_nonces := dw_nonces w |}.
Definition put_wire (t : T) (w : W) : W :=
  {| dw_ledger := dw_ledger w; dw_wire := t; dw_nonces := dw_nonces w |}.
Definition put_nonces (n : N) (w : W) : W :=
  {| dw_ledger := dw_ledger w; dw_wire := dw_wire w; dw_nonces := n |}.

(** A call on the ledger, its error wrapped by [map_err]. *)
Definition on_ledger {A} (wrap : IoError -> DeviceError) (m : eff DeviceState IoError A) : DM A :=
  zoom dw_ledger put_ledger (emap_err wrap m).

Definition nonces_nonce : DM (list Z) := fun w =>
  let '(n, nonce) := draw_nonce (dw_nonces w) in (put_nonces n w, Ok nonce).

Definition on_wire (host : Host) (device : DeviceConfig) (command : string) : DM string := fun w =>
  let '(t, r) := transact host device command (dw_wire w) in
  (put_wire t w, map_err (fun e => Refused (TransportFailed e)) r).

(** *** The signer *)

Definition signer_key (alg : DeviceAlg) : result DeviceError SigningKey :=
  match alg with
  | AlgEd25519 => ok_or (SkEd25519Seed <$> ed25519_seed keys) (NoSigningKey alg)
  | AlgP256 => ok_or (SkP256Scalar <$> p256_scalar keys) (NoSigningKey alg)
  end.

Definition ver (alg : DeviceAlg) : Z :=
  match alg with AlgEd25519 => VER_ED25519 | AlgP256 => VER_P256 end.

(** [DeviceDriver::device_id]: the [expect] on the validated id. *)
Definition device_id (device : DeviceConfig) : DM (list Z) := eexpect (device_id_bytes device).

Definition reserve (id : list Z) : DM Z := on_ledger ReservingSeq (reserve_seq io_ok id).

Definition next_cap (device : DeviceConfig) (nonce : list Z) (ttl_secs : Z) : DM string :=
  let& id := device_id device in
  let& seq := reserve id in
  let& key := elift (signer_key (device_alg device)) in
  elift (map_err SigningToken (sign_capability_into key
    {| cap_ver := ver (device_alg device); cap_device_id := id; cap_grant_nonce := nonce;
       cap_capability := device_capability device; cap_ttl_secs := ttl_secs;
       cap_issued_seq := seq |})).

Definition next_rvk (device : DeviceConfig) (nonce : list Z) : DM string :=
  let& id := device_id device in
  let& seq := reserve id in
  let& key := elift (signer_key (device_alg device)) in
  elift (map_err SigningToken (sign_revocation_into key
    {| rvk_ver := ver (device_alg device); rvk_device_id := id; rvk_grant_nonce := nonce;
       rvk_issued_seq := seq |})).

(** *** The driver *)

Definition config (host : Host) : DM DeviceConfig := esome (device host) (NoDeviceConfig (name host)).

Definition send (host : Host) (device : DeviceConfig) (cmd : Command) : DM string :=
  let& rendered := elift (map_err RenderingCommand (render_command cmd)) in
  on_wire host device rendered.

Definition report (host : Host) (device : DeviceConfig) : DM Report :=
  let& reply := send host device CStatus in
  match parse_reply reply with
  | Ok (State report) => eret report
  | Ok (Nak reason) => efail (RefusedBy (name host) "STAT" reason)
  | Ok other => efail (AnsweredWith (name host) "STAT" other)
  | Err e => efail (UnparseableReply (name host) "STAT" e)
  end.

Definition deliver_cap (host : Host) (device : DeviceConfig) (nonce : list Z) (ttl_secs : Z)
    : DM unit :=
  let& token := next_cap device nonce ttl_secs in
  let& reply := send host device (CToken token) in
  match parse_reply reply with
  | Ok (AckOpen echoed remaining_secs) =>
      erequire (bool_decide (echoed = nonce)) (DifferentNonceAcked (name host)) ;&
      erequire (negb ((remaining_secs =? 0) || (ttl_secs <? remaining_secs)))
        (ImplausibleRemaining (name host) remaining_secs ttl_secs)
  | Ok (Nak reason) => efail (RefusedBy (name host) "TOK" reason)
  | Ok other => efail (AnsweredWith (name host) "TOK" other)
  | Err e => efail (UnparseableReply (name host) "TOK" e)
  end.

Definition declared (p : FailStatePolicy) : FailState :=
  match p with PolicyEnergized => Energized | PolicyDeEnergized => DeEnergized end.

Definition policy_eqb (p q : FailStatePolicy) : bool :=
  match p, q with
  | PolicyEnergized, PolicyEnergized | PolicyDeEnergized, PolicyDeEnergized => true
  | _, _ => false
  end.

Definition check_actuator (actuator : ActuatorSpec) (report : Report) (expect_open : bool)
    (host : string) : result DeviceError unit :=
  let? _ := match rp_fail report with
            | Some reported =>
                if bool_decide (reported = declared (fail_state actuator)) then Ok tt
                else Err (FailStateDrifted host)
            | None => Err (NoFailState host)
            end in
  let? load := match current_sense actuator, rp_load report with
               | true, None => Err (NoLoadReading host)
               | _, load => Ok load
               end in
  match load with
  | Some load =>
      let boot_energized := bool_decide (rp_reason report = Some Boot)
                            && policy_eqb (fail_state actuator) PolicyEnergized in
      match expect_open, load with
      | true, true | false, false => Ok tt
      | false, true => if boot_energized then Ok tt else Err (LoadOnWhileClosed host)
      | true, false => Err (LoadOffWhileOpen host)
      end
  | None => Ok tt
  end.

(** [if let Some(actuator) = &device.actuator { check_actuator(..)?; }] *)
Definition check_actuator_of (device : DeviceConfig) (report : Report) (expect_open : bool)
    (host : string) : DM unit :=
  match device_actuator device with
  | Some actuator => elift (check_actuator actuator report expect_open host)
  | None => eret tt
  end.

(** [u32::try_from]. *)
Definition ttl_u32 (ttl_secs : Z) : DM Z :=
  if ttl_secs <=? u32_max then eret ttl_secs else efail (TtlExceedsWire ttl_secs).

Definition apply (host : Host) (ctx : ApplyCtx) : DM unit :=
  let& device := config host in
  let& id := device_id device in
  let& ttl_secs := ttl_u32 (ctx_ttl_secs ctx) in
  let& nonce := nonces_nonce in
  on_ledger PersistingNonce (set_open_nonce io_ok id nonce) ;&
  deliver_cap host device nonce ttl_secs ;&
  let& report := report host device in
  check_actuator_of device report true (name host) ;&
  match rp_open report with
  | Some (n, remaining) =>
      if bool_decide (n = nonce) && (0 <? remaining) then eret tt
      else if negb (bool_decide (n = nonce)) then efail (DifferentGrantOpen (name host))
      else efail (NotReadBackOpen (name host))
  | None => efail (NotReadBackOpen (name host))
  end.

Definition renew (host : Host) (ctx : ApplyCtx) : DM unit :=
  let& device := config host in
  let& id := device_id device in
  let& ttl_secs := ttl_u32 (ctx_ttl_secs ctx) in
  let& recorded := on_ledger ReadingNonce (open_nonce io_ok id) in
  let& nonce := esome recorded (NoNonceRecorded (name host)) in
  deliver_cap host device nonce ttl_secs.

Definition revert (host : Host) : DM unit :=
  let& device := config host in
  let& id := device_id device in
  let& recorded := on_ledger ReadingNonce (open_nonce io_ok id) in
  let& nonce := match recorded with
                | Some n => eret (Some n)
                | None => let& r := report host device in eret (fst <$> rp_open r)
                end in
  match nonce with
  | None => eret tt
  | Some nonce =>
      let& token := next_rvk device nonce in
      let& reply := send host device (CRevoke token) in
      match parse_reply reply with
      | Ok AckClosed =>
          let& report := report host device in
          check_actuator_of device report false (name host) ;&
          erequire (bool_decide (rp_open report = None)) (StillOpen (name host)) ;&
          on_ledger ClearingNonce (clear_open_nonce io_ok id)
      | Ok (Nak reason) => efail (RefusedBy (name host) "RVK" reason)
      | Ok other => efail (AnsweredWith (name host) "RVK" other)
      | Err e => efail (UnparseableReply (name host) "RVK" e)
      end
  end.

Definition verify (host : Host) : DM ChannelState :=
  let& device := config host in
  let& id := device_id device in
  let& ours := on_ledger ReadingNonce (open_nonce io_ok id) in
  let& report := report host device in
  check_actuator_of device report (bool_decide (is_Some (rp_open report))) (name host) ;&
  match rp_open report, ours with
  | None, _ => eret ChClosed
  | Some (n, _), Some mine =>
      if bool_decide (n = mine) then eret ChOpen else efail (ForeignGrant (name host))
  | Some _, None => efail (ForeignGrant (name host))
  end.

Definition reestablish (host : Host) : DM ChannelState :=
  let& device := config host in
  let& id := device_id device in
  let& ours := on_ledger ReadingNonce (open_nonce io_ok id) in
  let& report := report host device in
  eret (match rp_open report, ours with
        | Some (n, remaining), Some mine =>
            if bool_decide (n = mine) && (0 <? remaining) then ChOpen else ChClosed
        | _, _ => ChClosed
        end).
End Driver.
End DeviceDriver.

(** ** What a transaction promises

    The wire leads to cooperative devices, one per host name.  A transaction
    reaches only the device of its host; before it answers, the device may
    tick, reboot or handle other lines any number of times, and a lost
    request or reply is a failed transaction.  An answer is the device's
    answer to the command just sent. *)
Class DeviceTransportLaws (T C S G : Type) `{UptimeClockLaws C, SeqStoreLaws S, GateLaws G}
    `{DataEncodingLaws, WireCryptoLaws} `{!DeviceTransport T} := {
  engine_at : T -> string -> DeviceEngine C S G;
  engine_inv t h : inv (engine_at t h);
  transact_frame host dev cmd t h' :
    h' <> name host -> engine_at (transact host dev cmd t).1 h' = engine_at t h';
  transact_steps host dev cmd t :
    rtc step (engine_at t (name host)) (engine_at (transact host dev cmd t).1 (name host));
  transact_replies host dev cmd t reply :
    (transact host dev cmd t).2 = Ok reply ->
    exists e, inv e /\ rtc step (engine_at t (name host)) e
      /\ handle_line e cmd = (engine_at (transact host dev cmd t).1 (name host), Some reply);
}.

Section DriverProps.
Context {T N C S G : Type} `{DeviceTransportLaws T C S G} `{!NonceSource N}.
Context (io_ok : nat -> bool) (keys : SignerKeys).
Import DeviceDriver.
Implicit Types w : DeviceWorld T N.

(** The device of a host, and whether its gate is open. *)
Definition engine_of w (h : string) : DeviceEngine C S G := engine_at (dw_wire w) h.
Definition gate_open w (h : string) : bool := is_open (gate (engine_of w h)).

(** A run for one host: the other devices are untouched, this one takes
    steps of its own. *)
Definition serves (h : string) w w' : Prop :=
  (forall h', h' <> h -> engine_of w' h' = engine_of w h')
  /\ rtc step (engine_of w h) (engine_of w' h).

#[local] Instance serves_refl h : Reflexive (serves h).
Proof. by split. Qed.
#[local] Instance serves_trans h : Transitive (serves h).
Proof.
  intros w1 w2 w3 [Hf1 Hs1] [Hf2 Hs2]. split; [|by etrans].
  intros h' Hn. by rewrite Hf2, Hf1.
Qed.

Lemma ledger_serves {A} h wrap (m : eff DeviceState IoError A) :
  keeps (serves h) (on_ledger (T := T) (N := N) wrap m).
Proof.
  intros w. unfold on_ledger, zoom. destruct (emap_err wrap m (dw_ledger w)). by split.
Qed.

Lemma nonce_serves h : keeps (serves h) (nonces_nonce (T := T)).
Proof. intros w. unfold nonces_nonce. destruct (draw_nonce _). by split. Qed.

Lemma wire_serves host dev cmd : keeps (serves (name host)) (on_wire (N := N) host dev cmd).
Proof.
  intros w. unfold on_wire. pose proof (transact_frame host dev cmd (dw_wire w)) as Hf.
  pose proof (transact_steps host dev cmd (dw_wire w)) as Hs.
  by destruct (transact _ _ _ _).
Qed.
#[local] Hint Resolve ledger_serves nonce_serves wire_serves : keeps.
#[local] Hint Unfold device_id config reserve next_cap next_rvk send report deliver_cap
  check_actuator_of ttl_u32 : driver.

Lemma ops_serve host ctx :
  keeps (serves (name host)) (apply (T := T) (N := N) io_ok keys host ctx)
  /\ keeps (serves (name host)) (renew (T := T) (N := N) io_ok keys host ctx)
  /\ keeps (serves (name host)) (revert (T := T) (N := N) io_ok keys host)
  /\ keeps (serves (name host)) (verify (T := T) (N := N) io_ok host)
  /\ keeps (serves (name host)) (reestablish (T := T) (N := N) io_ok host).
Proof.
  unfold apply, renew, revert, verify, reestablish; autounfold with driver.
  split_and!; keeps.
Qed.

(** *** Answers tell the device's state *)

Definition open_as (e : DeviceEngine C S G) (n : list Z) : Prop :=
  exists g, grant e = Some g /\ nonce g = n.

Lemma report_state (e : DeviceEngine C S G) :
  match rp_open (Embed.report e).2 with
  | Some (n, _) => open_as (Embed.report e).1 n
  | None => grant (Embed.report e).1 = None
  end.
Proof.
  unfold Embed.report. destruct (load (Embed.seq e)) as [s loaded]. cbn [grant set_seq].
  destruct (grant e) as [g|] eqn:Hg; [|done].
  destruct (remaining_same (set_seq e s) g) as (Hr & _).
  destruct (remaining_secs (set_seq e s) g) as [e1 secs]. cbn in Hr |- *. exists g. by rewrite Hr.
Qed.

Lemma accept_token_acks (e : DeviceEngine C S G) token n s :
  (accept_token e token).2 = AckOpen n s -> open_as (accept_token e token).1 n.
Proof.
  assert (Hr : forall e1 g, grant e1 = Some g -> let '(e2, secs) := remaining_secs e1 g in
    AckOpen (nonce g) secs = AckOpen n s -> open_as e2 n).
  { intros e1 g Hg. destruct (remaining_same e1 g) as (Hr & _).
    destruct (remaining_secs e1 g) as [e2 secs]. cbn in Hr. intros. simplify_eq.
    exists g. by rewrite Hr. }
  assert (Hf : forall e1 cap m, (accept_fresh e1 cap m).2 = AckOpen n s ->
    open_as (accept_fresh e1 cap m).1 n).
  { intros e1 cap m. unfold accept_fresh. 
    destruct (_ <=? m); [done|]. destruct (_ <? _); [done|].
    destruct (store _ _) as [s1 [[]|]]; [|done]. destruct (uptime_ms _) as [c now].
    cbv zeta. match goal with |- context [remaining_secs ?e2 ?g] =>
      specialize (Hr e2 g eq_refl); destruct (remaining_secs e2 g) as [e3 secs] end. exact Hr. }
  unfold accept_token. destruct (verify_capability _ token) as [cap|[]]; try done.
  case_bool_decide; [|done]. cbn [negb]. destruct (load _) as [s1 [stored|]]; [|done].
  cbn [grant set_seq]. destruct (grant e) as [g|] eqn:Hg; [|apply Hf].
  destruct (bool_decide _) eqn:E; cbn [andb negb]; [|done]. destruct (_ =? _); [|apply Hf].
  specialize (Hr (set_seq e s1) g Hg). by destruct (remaining_secs _ g).
Qed.

Lemma handle_line_reply_to (e : DeviceEngine C S G) cmd e' reply :
  inv e -> handle_line e cmd = (e', Some reply) ->
  e' = (reply_to e cmd).1 /\ parse_reply reply = Ok (reply_to e cmd).2.
Proof.
  intros Hi Hh. destruct (handle_line_answer e cmd Hi) as (line & Hl & Hp).
  rewrite Hh in Hl. simplify_eq/=. split; [|done]. unfold handle_line in Hh.
  destruct (reply_to e cmd) as [e1 r]. by simplify_eq.
Qed.

#[local] Arguments send : simpl never.

(** What leaves the ledger alone. *)
Definition same_ledger w w' : Prop := dw_ledger w' = dw_ledger w.
#[local] Instance same_ledger_refl : Reflexive same_ledger.
Proof. done. Qed.
#[local] Instance same_ledger_trans : Transitive same_ledger.
Proof. unfold same_ledger. intros ???. congruence. Qed.

Lemma wire_ledger host dev cmd : keeps same_ledger (on_wire (N := N) host dev cmd).
Proof. intros w. unfold on_wire. by destruct (transact _ _ _ _). Qed.
#[local] Hint Resolve wire_ledger : keeps.

Lemma send_replies host dev cmd w reply :
  (send (N := N) host dev cmd w).2 = Ok reply ->
  exists line e, render_command cmd = Ok line /\ inv e
    /\ parse_reply reply = Ok (reply_to e line).2
    /\ engine_of (send host dev cmd w).1 (name host) = (reply_to e line).1.
Proof.
  intros Hs. unfold send in *. apply ebind_Ok in Hs as (line & Hl & Hs & ->).
  unfold elift in *. cbn [fst snd] in *. destruct (render_command cmd) as [line'|]; [|done].
  cbn in Hl. simplify_eq. exists line. unfold on_wire in *.
  pose proof (transact_replies host dev line (dw_wire w)) as Hr.
  destruct (transact host dev line (dw_wire w)) as [t [r|]]; [|done]. cbn in Hs. simplify_eq.
  destruct (Hr _ eq_refl) as (e & Hi & _ & Hh).
  apply handle_line_reply_to in Hh as [He Hp]; [|done]. by exists e.
Qed.

Lemma send_ledger host dev cmd : keeps same_ledger (send (N := N) host dev cmd).
Proof. unfold send. keeps. Qed.

(** A status report is the state of the device as it answers. *)
Lemma report_reads host dev w r :
  (report (N := N) host dev w).2 = Ok r ->
  let w' := (report host dev w).1 in
  dw_ledger w' = dw_ledger w /\
  match rp_open r with
  | Some (n, _) => open_as (engine_of w' (name host)) n
  | None => grant (engine_of w' (name host)) = None
  end.
Proof.
  unfold report. intros Hr. apply ebind_Ok in Hr as (reply & Hs & Hr & ->).
  pose proof (send_replies _ _ _ _ _ Hs) as (line & e & Hl & Hi & Hp & He).
  assert (line = "STAT") as -> by (vm_compute in Hl; congruence). rewrite Hp in Hr |- *.
  unfold reply_to in *. change (parse_command "STAT") with (@Ok WireError _ CStatus) in *.
  pose proof (report_state (tick e)) as Hrs. destruct (Embed.report (tick e)) as [e' rep].
  cbn in Hr, He, Hrs |- *. simplify_eq. split; [|done].
  apply send_ledger.
Qed.

Lemma gate_follows w h :
  match grant (engine_of w h) with Some _ => gate_open w h = true | None => gate_open w h = false end.
Proof.
  unfold gate_open, engine_of. destruct (engine_inv (dw_wire w) h) as [-> _].
  by destruct (grant _).
Qed.

(** *** The recorded nonces *)

Definition recorded w (id : list Z) : option string := dr_open_nonce (record_of (dw_ledger w) id).
Definition same_nonces w w' : Prop := forall id, recorded w' id = recorded w id.
#[local] Instance same_nonces_refl : Reflexive same_nonces.
Proof. by intros w id. Qed.
#[local] Instance same_nonces_trans : Transitive same_nonces.
Proof. intros w1 w2 w3 HA HB id. by rewrite HB. Qed.

Lemma wire_nonces host dev cmd : keeps same_nonces (on_wire (N := N) host dev cmd).
Proof. intros w id. unfold recorded. by rewrite (wire_ledger host dev cmd w). Qed.

Lemma reserve_nonces id : keeps same_nonces (reserve (T := T) (N := N) io_ok id).
Proof.
  intros w id'. unfold reserve, on_ledger, recorded. rewrite (proj2 (zoom_Ok _ _ _ _)).
  rewrite emap_err_state. pose proof (reserve_seq_spec io_ok id (dw_ledger w)) as Hs.
  destruct (reserve_seq _ _ _) as [l r]. cbn. rewrite (proj2 Hs id').
  destruct (decide _) as [[_ E]|]; [|done]. by rewrite (record_of_hex _ _ _ E).
Qed.
#[local] Hint Resolve wire_nonces reserve_nonces : keeps.

Lemma deliver_nonces host dev n ttl :
  keeps same_nonces (deliver_cap (T := T) (N := N) io_ok keys host dev n ttl).
Proof. unfold deliver_cap, next_cap, send, device_id. keeps. Qed.
Lemma report_nonces host dev : keeps same_nonces (report (T := T) (N := N) host dev).
Proof. unfold report, send. keeps. Qed.

Lemma recorded_open_nonce wrap id w x :
  state_typed (dw_ledger w) ->
  (on_ledger (T := T) (N := N) wrap (open_nonce io_ok id) w).2 = Ok x ->
  hex16 <$> x = recorded w id
  /\ recorded (on_ledger (T := T) (N := N) wrap (open_nonce io_ok id) w).1 id = recorded w id.
Proof.
  intros Ht. unfold on_ledger, recorded. rewrite (proj1 (zoom_Ok _ _ _ _)), (proj2 (zoom_Ok _ _ _ _)).
  rewrite emap_err_state. intros Hx%emap_err_Ok.
  pose proof (open_nonce_spec io_ok id _ _ Ht Hx) as [He _]. split; [done|].
  unfold record_of. cbn. by rewrite open_nonce_file.
Qed.

Lemma open_nonce_none id l : (open_nonce io_ok id l).2 = Ok None -> dr_open_nonce (record_of l id) = None.
Proof.
  unfold open_nonce. match goal with |- context [ebind (ds_lock _) (fun _ => ebind (ds_read _) ?k) ?l] =>
    destruct (ds_read_cases io_ok k l) as [(n & ? & ->)|(n & doc & Hr & ->)] end; [done|].
  rewrite (readable_record _ _ id Hr).
  destruct (devices doc !! hex16 id) as [rec|]; [cbn|done].
  destruct (dr_open_nonce rec) as [hex|]; [|done]. cbn.
  intros (? & _ & (v & Hv & Hret & _)%ebind_Ok & _)%ebind_Ok. done.
Qed.

(** A capability that is acknowledged is the device's grant. *)
Lemma deliver_opens host dev n ttl w :
  (deliver_cap (T := T) (N := N) io_ok keys host dev n ttl w).2 = Ok tt ->
  open_as (engine_of (deliver_cap (T := T) (N := N) io_ok keys host dev n ttl w).1 (name host)) n.
Proof.
  unfold deliver_cap. intros Hd. apply ebind_Ok in Hd as (token & _ & Hd & ->).
  apply ebind_Ok in Hd as (reply & Hs & Hd & ->).
  destruct (send_replies _ _ _ _ _ Hs) as (line & e & _ & Hi & Hp & He).
  rewrite Hp in Hd |- *. destruct (reply_to e line).2 as [n' secs| | | | |] eqn:Hr; try done.
  apply ebind_Ok in Hd as ([] & Hn & Hd & ->). case_bool_decide; [|done]. subst n'. cbn [erequire] in *.
  rewrite erequire_state. cbn [eret fst]. rewrite He. unfold reply_to in *.
  destruct (parse_command line) as [[token'|token'| | |]|]; cbn in *; try done.
  - by eapply accept_token_acks.
  - clear -Hr. exfalso. unfold accept_revocation in Hr. repeat case_hyp Hr; done.
  - by destruct (Embed.report (tick e)).
Qed.

(** *** The operations *)

Section Operations.
Context (host : Host) (dev : DeviceConfig) (id : list Z).
Context (Hdev : device host = Some dev) (Hid : device_id_bytes dev = Some id).

Lemma configured {A} (k : DeviceConfig -> list Z -> eff (DeviceWorld T N) DeviceError A) w :
  (let& d := config host in let& i := device_id d in k d i) w = k dev id w.
Proof. unfold config, device_id, ebind. rewrite Hdev. cbn. by rewrite Hid. Qed.

(** The device holds a grant of the nonce the ledger records, gate open. *)
Definition holds_ours w : Prop :=
  gate_open w (name host) = true
  /\ exists n, open_as (engine_of w (name host)) n /\ recorded w id = Some (hex16 n).

Lemma open_as_gate w n : open_as (engine_of w (name host)) n -> gate_open w (name host) = true.
Proof. intros (g & Hg & _). pose proof (gate_follows w (name host)) as Hf. by rewrite Hg in Hf. Qed.

Lemma holds_intro w n :
  open_as (engine_of w (name host)) n -> recorded w id = Some (hex16 n) -> holds_ours w.
Proof. intros Ho Hr. split; [by eapply open_as_gate|by exists n]. Qed.

Lemma closed_gate w : grant (engine_of w (name host)) = None -> gate_open w (name host) = false.
Proof. intros Hg. pose proof (gate_follows w (name host)) as Hf. by rewrite Hg in Hf. Qed.

Lemma check_state d r b h w : (check_actuator_of (T := T) (N := N) d r b h w).1 = w.
Proof. unfold check_actuator_of. by destruct (device_actuator d). Qed.

Lemma ttl_state ttl w : (ttl_u32 (T := T) (N := N) ttl w).1 = w.
Proof. unfold ttl_u32. by destruct (_ <=? _). Qed.

Lemma apply_holds ctx w : (apply io_ok keys host ctx w).2 = Ok tt -> holds_ours (apply io_ok keys host ctx w).1.
Proof.
  unfold apply. rewrite configured. intros Ha.
  apply ebind_Ok in Ha as (ttl & _ & Ha & ->).
  apply ebind_Ok in Ha as (n & _ & Ha & ->). apply ebind_Ok in Ha as ([] & Hset & Ha & ->).
  apply ebind_Ok in Ha as ([] & _ & Ha & ->). apply ebind_Ok in Ha as (r & Hr & Ha & ->).
  apply ebind_Ok in Ha as ([] & _ & Ha & ->). rewrite check_state in *.
  destruct (report_reads _ _ _ _ Hr) as [_ Hopen].
  destruct (rp_open r) as [[n' s]|]; [|done]. case_bool_decide; cbn [andb negb] in *; [|done].
  destruct (0 <? s); [|done]. subst n'. cbn [eret fst]. apply (holds_intro _ n); [done|].
  rewrite (report_nonces host dev _ id), (deliver_nonces host dev n ttl _ id).
  unfold on_ledger, recorded in *. rewrite (proj1 (zoom_Ok _ _ _ _)) in Hset.
  rewrite (proj2 (zoom_Ok _ _ _ _)), emap_err_state. apply emap_err_Ok in Hset.
  match goal with |- context [set_open_nonce _ _ _ ?l] =>
    pose proof (set_open_nonce_spec io_ok id n l) as Hs; destruct (set_open_nonce io_ok id n l) end.
  cbn in Hset |- *. subst. cbn. rewrite (Hs id). by rewrite decide_True.
Qed.

Lemma renew_holds ctx w :
  state_typed (dw_ledger w) ->
  (renew io_ok keys host ctx w).2 = Ok tt -> holds_ours (renew io_ok keys host ctx w).1.
Proof.
  intros Ht. unfold renew. rewrite configured. intros Ha.
  apply ebind_Ok in Ha as (ttl & Httl & Ha & ->). rewrite ttl_state in *.
  apply ebind_Ok in Ha as (rec & Hrec & Ha & ->).
  apply ebind_Ok in Ha as (n & Hn & Ha & ->). apply esome_Ok in Hn as [-> Hw'].
  rewrite Hw' in *. apply recorded_open_nonce in Hrec as [Hrec Hsame]; [|done].
  apply (holds_intro _ n); [by apply deliver_opens|].
  rewrite (deliver_nonces host dev n ttl _ id), Hsame. by rewrite <-Hrec.
Qed.

Lemma revert_closes w :
  (revert io_ok keys host w).2 = Ok tt ->
  gate_open (revert io_ok keys host w).1 (name host) = false
  /\ recorded (revert io_ok keys host w).1 id = None.
Proof.
  unfold revert. rewrite configured. intros Ha.
  apply ebind_Ok in Ha as (rec & Hrec & Ha & ->). apply ebind_Ok in Ha as (n & Hn & Ha & ->).
  destruct n as [n|].
  - apply ebind_Ok in Ha as (token & _ & Ha & ->). apply ebind_Ok in Ha as (reply & _ & Ha & ->).
    destruct (parse_reply reply) as [[]|]; try done.
    apply ebind_Ok in Ha as (r & Hr & Ha & ->). apply ebind_Ok in Ha as ([] & _ & Ha & ->).
    rewrite check_state in *. apply ebind_Ok in Ha as ([] & Hreq & Ha & ->).
    rewrite erequire_state in *. apply erequire_Ok, bool_decide_eq_true in Hreq.
    destruct (report_reads _ _ _ _ Hr) as [_ Hclosed]. rewrite Hreq in Hclosed.
    apply closed_gate in Hclosed.
    unfold on_ledger, recorded in *. rewrite (proj1 (zoom_Ok _ _ _ _)) in Ha.
    rewrite (proj2 (zoom_Ok _ _ _ _)), emap_err_state. apply emap_err_Ok in Ha. split; [done|].
    match goal with |- context [clear_open_nonce _ _ ?l] =>
      pose proof (clear_open_nonce_spec io_ok id l) as Hs; destruct (clear_open_nonce io_ok id l) end.
    cbn in Ha |- *. subst. cbn. rewrite (Hs id). by rewrite decide_True.
  - destruct rec as [n'|]; [done|]. apply ebind_Ok in Hn as (r & Hr & Hn & ->). cbn in Hn |- *.
    destruct (report_reads _ _ _ _ Hr) as [Hl Hclosed].
    destruct (rp_open r) as [[]|]; [done|]. apply closed_gate in Hclosed. split; [done|].
    unfold recorded. rewrite Hl. unfold on_ledger in *.
    rewrite (proj1 (zoom_Ok _ _ _ _)) in Hrec. apply emap_err_Ok in Hrec.
    rewrite (proj2 (zoom_Ok _ _ _ _)), emap_err_state. cbn. unfold record_of.
    rewrite open_nonce_file. by apply open_nonce_none.
Qed.

Lemma verify_reads st w :
  state_typed (dw_ledger w) -> (verify io_ok host w).2 = Ok st ->
  match st with
  | ChOpen => holds_ours (verify io_ok host w).1
  | ChClosed => gate_open (verify io_ok host w).1 (name host) = false
  end.
Proof.
  intros Ht. unfold verify. rewrite configured. intros Ha.
  apply ebind_Ok in Ha as (rec & Hrec & Ha & ->). apply ebind_Ok in Ha as (r & Hr & Ha & ->).
  apply ebind_Ok in Ha as ([] & _ & Ha & ->). rewrite check_state in *.
  apply recorded_open_nonce in Hrec as [Hrec Hsame]; [|done].
  destruct (report_reads _ _ _ _ Hr) as [Hl Ho].
  destruct (rp_open r) as [[n s]|]; [|cbn in Ha |- *; simplify_eq; by apply closed_gate].
  destruct rec as [mine|]; [|done]. case_bool_decide; [|done]. cbn in Ha |- *. simplify_eq.
  apply (holds_intro _ mine); [done|]. unfold recorded at 1. rewrite Hl. fold (recorded w id) in *.
  rewrite <-Hrec in Hsame. exact Hsame.
Qed.

Lemma reestablish_open_gate w :
  (reestablish io_ok host w).2 = Ok ChOpen ->
  gate_open (reestablish io_ok host w).1 (name host) = true.
Proof.
  unfold reestablish. rewrite configured. intros Ha.
  apply ebind_Ok in Ha as (rec & _ & Ha & ->). apply ebind_Ok in Ha as (r & Hr & Ha & ->).
  destruct (report_reads _ _ _ _ Hr) as [_ Ho]. cbn in Ha |- *.
  destruct (rp_open r) as [[n s]|]; [|done]. by eapply open_as_gate.
Qed.

Lemma reestablish_reads_open w :
  state_typed (dw_ledger w) -> (reestablish io_ok host w).2 = Ok ChOpen ->
  holds_ours (reestablish io_ok host w).1.
Proof.
  intros Ht. unfold reestablish. rewrite configured. intros Ha.
  apply ebind_Ok in Ha as (rec & Hrec & Ha & ->). apply ebind_Ok in Ha as (r & Hr & Ha & ->).
  apply recorded_open_nonce in Hrec as [Hrec Hsame]; [|done].
  destruct (report_reads _ _ _ _ Hr) as [Hl Ho]. cbn in Ha |- *.
  destruct (rp_open r) as [[n s]|]; [|done]. destruct rec as [mine|]; [|done].
  case_bool_decide; [|done]. subst n.
  apply (holds_intro _ mine); [done|]. unfold recorded at 1. rewrite Hl.
  rewrite <-Hrec in Hsame. exact Hsame.
Qed.
End Operations.

(** C34. The device channel believes the device, not itself: a delivery or a
    renewal reported done means the device's gate is open under a grant
    whose nonce is the one on the daemon's ledger; a verification or a
    re-establishment that reads open means the same; a revert reported done
    means the gate is closed and no nonce is recorded; and no operation
    reaches the device of another host. *)
Theorem device_channel_reads_back (host : Host) (dev : DeviceConfig) (id : list Z) (ctx : ApplyCtx) w
    (Hdev : device host = Some dev) (Hid : device_id_bytes dev = Some id)
    (Hled : state_typed (dw_ledger w)) :
  let '(w1, r1) := apply io_ok keys host ctx w in
  let '(w2, r2) := renew io_ok keys host ctx w in
  let '(w3, r3) := revert io_ok keys host w in
  let '(w4, r4) := verify io_ok host w in
  let '(w5, r5) := reestablish io_ok host w in
  (r1 = Ok tt -> holds_ours host id w1)
  /\ (r2 = Ok tt -> holds_ours host id w2)
  /\ (r3 = Ok tt -> gate_open w3 (name host) = false /\ recorded w3 id = None)
  /\ (r4 = Ok ChOpen -> holds_ours host id w4)
  /\ (r4 = Ok ChClosed -> gate_open w4 (name host) = false)
  /\ (r5 = Ok ChOpen -> holds_ours host id w5)
  /\ forall h', h' <> name host -> Forall (fun w' => gate_open w' h' = gate_open w h') [w1; w2; w3; w4; w5].
Proof.
  pose proof (apply_holds host dev id Hdev Hid ctx w) as Ha.
  pose proof (renew_holds host dev id Hdev Hid ctx w Hled) as Hn.
  pose proof (revert_closes host dev id Hdev Hid w) as Hr.
  pose proof (fun st => verify_reads host dev id Hdev Hid st w Hled) as Hv.
  pose proof (reestablish_reads_open host dev id Hdev Hid w Hled) as He.
  destruct (ops_serve host ctx) as (S1 & S2 & S3 & S4 & S5).
  specialize (S1 w). specialize (S2 w). specialize (S3 w). specialize (S4 w). specialize (S5 w).
  destruct (apply _ _ _ _ w), (renew _ _ _ _ w), (revert _ _ _ w), (verify _ _ w),
    (reestablish _ _ w). cbn [fst snd] in *.
  split_and!; try done; [exact (Hv ChOpen)|exact (Hv ChClosed)|].
  intros h' Hne. unfold gate_open. repeat constructor;
  match goal with K : serves _ _ ?w' |- context [engine_of ?w' h'] =>
    destruct K as [K _]; by rewrite (K h' Hne) end.
Qed.
End DriverProps.

(** ** The channel contract, discharged

    A driver set whose one driver is the device driver: the contract the
    orchestration and the lifecycle are proved against holds of it, with the
    devices' gates as the exposure. *)
Section DeviceSeam.
Context {T N C S G : Type} `{DeviceTransportLaws T C S G} `{!NonceSource N}.
Context (io_ok : nat -> bool) (keys : SignerKeys) (message : DeviceError -> string).
Notation W := (DeviceWorld T N).

Definition device_only {A} (c : Channel) (m : eff W DeviceError A) : W -> W * result DriverError A :=
  if bool_decide (c = Device) then settle message m else undriven c.

Definition device_channel : ChannelDriver W := {|
  drv_apply c host ctx := device_only c (DeviceDriver.apply io_ok keys host ctx);
  drv_revert c host := device_only c (DeviceDriver.revert io_ok keys host);
  drv_verify c host := device_only c (DeviceDriver.verify io_ok host);
  drv_renew c host ctx := device_only c (DeviceDriver.renew io_ok keys host ctx);
  drv_take_secret _ w := (w, None);
  drv_reestablish c host := device_only c (DeviceDriver.reestablish io_ok host);
  drv_suspend _ w := w;
|}.

Definition device_exposed (w : W) (h : string) (c : Channel) : bool :=
  bool_decide (c = Device) && gate_open w h.

(** A run that serves one host touches the exposure of no other. *)
Lemma device_only_frame {A} c host (m : eff W DeviceError A) w h' c' :
  keeps (serves (name host)) m -> (h', c') <> (name host, c) ->
  device_exposed (device_only c m w).1 h' c' = device_exposed w h' c'.
Proof.
  intros Hm Hne. unfold device_only, device_exposed.
  destruct (bool_decide (c' = Device)) eqn:Hc'; [|done]. apply bool_decide_eq_true in Hc'. subst c'.
  case_bool_decide as Hc; [subst c|done]. rewrite settle_state. cbn [andb].
  destruct (Hm w) as [Hf _]. unfold gate_open. rewrite Hf; [done|congruence].
Qed.

(** What a completed run of the driver presupposes of its host. *)
Lemma device_run_configured {A} host (k : DeviceConfig -> list Z -> eff W DeviceError A) w a :
  ((let& d := DeviceDriver.config host in let& i := DeviceDriver.device_id d in k d i) w).2 = Ok a ->
  exists dev id, device host = Some dev /\ device_id_bytes dev = Some id.
Proof.
  intros (dev & [Hd _]%esome_Ok & (id & [Hi _]%eexpect_Ok & _)%ebind_Ok & _)%ebind_Ok. eauto.
Qed.

Definition device_contract : @DriverContract W device_channel.
Proof.
  pose proof (fun host ctx => ops_serve (T := T) (N := N) io_ok keys host ctx) as Hs.
  unshelve refine (@Build_DriverContract W device_channel device_exposed _ _ _ _ _ _ _ _); cbn.
  - intros c host ctx w h' c' Hne. apply (device_only_frame c host); [|done]. apply Hs.
  - intros c host w h' c' Hne. apply (device_only_frame c host); [|done].
    apply (Hs host {| ctx_ttl_secs := 0; ctx_expires_at := 0 |}).
  - intros c host w. unfold device_only, device_exposed. case_bool_decide as Hc; [|done].
    rewrite settle_state. intros Hok%settle_Ok.
    destruct (device_run_configured host _ w tt Hok) as (dev & id & Hd & Hi).
    by apply (revert_closes io_ok keys host dev id Hd Hi).
  - intros c host ctx w h' c' Hne. apply (device_only_frame c host); [|done]. apply Hs.
  - intros c host w h' c' Hne. apply (device_only_frame c host); [|done].
    apply (Hs host {| ctx_ttl_secs := 0; ctx_expires_at := 0 |}).
  - intros c host w. unfold device_only, device_exposed. case_bool_decide as Hc; [|done].
    rewrite settle_state. intros Hok%settle_Ok.
    unfold DeviceDriver.reestablish in Hok |- *.
    destruct (device_run_configured host _ w ChOpen Hok) as (dev & id & Hd & Hi).
    by apply (reestablish_open_gate io_ok host dev id Hd Hi).
  - done.
  - done.
Defined.
End DeviceSeam.

(** ** A bus with one simulated board *)

Definition Bus : Type := { e : DeviceEngine Z Z bool | inv e }.

#[export] Instance bus_transport : DeviceTransport Bus := {|
  transact host _ cmd b :=
    if bool_decide (name host = "dev") then
      (exist _ (handle_line (`b) cmd).1 (inv_step _ _ (st_line (`b) cmd) (proj2_sig b)),
       match (handle_line (`b) cmd).2 with
       | Some reply => Ok reply
       | None => Err (MkDriverError "no answer")
       end)
    else (b, Err (MkDriverError "no such device"));
|}.

#[export] Program Instance bus_laws : DeviceTransportLaws Bus Z Z bool := {|
  engine_at b h := if bool_decide (h = "dev") then `b else board_new;
|}.
Next Obligation. intros b h. cbn beta. case_bool_decide; [apply (proj2_sig b)|apply inv_new]. Qed.
Next Obligation.
  intros host dev cmd b h' Hne. cbn [transact bus_transport]; cbn beta. repeat case_bool_decide; cbn [fst snd proj1_sig]; try congruence; done.
Qed.
Next Obligation.
  intros host dev cmd b. cbn [transact bus_transport]; cbn beta. repeat case_bool_decide; cbn [fst snd proj1_sig]; [|done]. apply rtc_once, st_line.
Qed.
Next Obligation.
  intros host dev cmd b reply. cbn [transact bus_transport]; cbn beta. repeat case_bool_decide; cbn [fst snd proj1_sig]; [|done].
  destruct (handle_line (`b) cmd) as [e' [line|]] eqn:E; [|done]. cbn. intros [= ->].
  exists (`b). split; [apply (proj2_sig b)|]. by split.
Qed.

#[export] Instance fixed_nonce : NonceSource Z := {| draw_nonce n := (n, replicate 16 n) |}.

Definition sample_device : DeviceConfig :=
  {| device_id := "07070707070707070707070707070707"; device_alg := AlgEd25519;
     device_capability := 3; device_transport := TransportSerial; device_http := None;
     device_mqtt := None; device_serial := None; device_actuator := None |}.
Definition sample_host : Host :=
  {| name := "dev"; address := "10.0.0.9"; os := Embedded; channels := [Device]; ssh := None;
     bmc := None; vnc := None; http := None; mqtt := None; serial := None;
     device := Some sample_device; access := None; drill := false |}.
Definition sample_keys : SignerKeys :=
  {| ed25519_seed := Some (replicate 32 1); p256_scalar := None |}.
Definition idle_world : DeviceWorld Bus Z :=
  {| dw_ledger := {| ds_file := Absent; ds_attempts := 0 |};
     dw_wire := exist _ board_new (inv_new _ _ _ _ _); dw_nonces := 9 |}.
Definition good_io (_ : nat) : bool := true.
Definition ttl_ctx : ApplyCtx := {| ctx_ttl_secs := 600; ctx_expires_at := 0 |}.

(** The ledger continues at the number the board has spent. *)
Definition ready_world : DeviceWorld Bus Z :=
  {| dw_ledger := {| ds_file := Present {| dd_version := 1;
       devices := {[ hex16 (replicate 16 7) := {| next_seq := 5; dr_open_nonce := None |} ]} |};
       ds_attempts := 0 |};
     dw_wire := exist _ board_new (inv_new _ _ _ _ _); dw_nonces := 9 |}.

Lemma ready_typed : state_typed (dw_ledger ready_world).
Proof. apply map_Forall_singleton. split; [|done]. by vm_compute. Qed.

Lemma device_channel_reads_back_witness :
  let '(w1, r1) := DeviceDriver.apply good_io sample_keys sample_host ttl_ctx ready_world in
  r1 = Ok tt /\ holds_ours (T := Bus) sample_host (replicate 16 7) w1.
Proof.
  pose proof (device_channel_reads_back (T := Bus) (N := Z) good_io sample_keys sample_host
    sample_device (replicate 16 7) ttl_ctx ready_world eq_refl eq_refl ready_typed) as H.
  assert (Hr : (DeviceDriver.apply good_io sample_keys sample_host ttl_ctx ready_world).2 = Ok tt)
    by (by vm_compute).
  destruct (DeviceDriver.apply good_io sample_keys sample_host ttl_ctx ready_world) as [w1 r1].
  destruct (DeviceDriver.renew _ _ _ _ _), (DeviceDriver.revert _ _ _ _),
    (DeviceDriver.verify _ _ _), (DeviceDriver.reestablish _ _ _).
  split; [exact Hr|]. exact (proj1 H Hr).
Defined.

(** A device open under a grant the ledger does not record, where the ledger
    records another: the recorded nonce is the one revoked, the device
    refuses it, and the foreign grant stays open. *)
Definition opened_world : DeviceWorld Bus Z :=
  (DeviceDriver.apply good_io sample_keys sample_host ttl_ctx ready_world).1.
Definition foreign_world : DeviceWorld Bus Z :=
  DeviceDriver.put_ledger {| ds_file := Present {| dd_version := 1;
       devices := {[ hex16 (replicate 16 7) :=
         {| next_seq := 6; dr_open_nonce := Some (hex16 (replicate 16 8)) |} ]} |};
       ds_attempts := 0 |} opened_world.

Example foreign_grant_stays_open :
  (DeviceDriver.reestablish good_io sample_host foreign_world).2 = Ok ChClosed
  /\ (DeviceDriver.revert good_io sample_keys sample_host foreign_world).2
      = Err (Refused (RefusedBy "dev" "RVK" "wrong-grant"))
  /\ gate_open (DeviceDriver.revert good_io sample_keys sample_host foreign_world).1 "dev" = true.
Proof. split_and!; by vm_compute. Qed.
