(* ===== verification/ScriptedDrivers.v ===== *)
(** * ScriptedDrivers: a concrete world that satisfies the driver contract

    Drivers that keep the set of open (host, channel) pairs and fail by
    script, as the fakes of the test tier do; the instances the concrete
    examples of the other files are evaluated on. *)

From S2P Require Import Prelude Text Clock Ttl External Approval Authority Inventory Channel.

Record Scripts := {
  fail_apply : gset Channel;
  fail_revert : gset Channel;
  opened : gset (string * Channel);
}.

Definition with_opened (w : Scripts) (o : gset (string * Channel)) : Scripts :=
  {| fail_apply := fail_apply w; fail_revert := fail_revert w; opened := o |}.

Definition scripted_error (c : Channel) : DriverError :=
  MkDriverError ("scripted failure on " +:+ channel_debug c).

Definition scripted_state (c : Channel) (host : Host) (w : Scripts) : ChannelState :=
  if bool_decide ((name host, c) ∈ opened w) then ChOpen else ChClosed.

(** A failing apply may have opened the channel: the worst case. *)
#[export] Instance ScriptedDriver : ChannelDriver Scripts := {|
  drv_apply c host _ w :=
    (with_opened w ({[(name host, c)]} ∪ opened w),
     if bool_decide (c ∈ fail_apply w) then Err (scripted_error c) else Ok tt);
  drv_revert c host w :=
    if bool_decide (c ∈ fail_revert w) then (w, Err (scripted_error c))
    else (with_opened w (opened w ∖ {[(name host, c)]}), Ok tt);
  drv_verify c host w := (w, Ok (scripted_state c host w));
  drv_renew _ _ _ w := (w, Ok tt);
  drv_take_secret _ w := (w, None);
  drv_reestablish c host w := (w, Ok (scripted_state c host w));
  drv_suspend _ w := w;
|}.

#[export] Program Instance ScriptedContract : DriverContract Scripts := {|
  exposed w h c := bool_decide ((h, c) ∈ opened w);
|}.
Next Obligation. intros. cbn. apply bool_decide_ext. set_solver. Qed.
Next Obligation.
  intros c host w h' c' Hn. cbn. destruct (bool_decide (c ∈ fail_revert w)); cbn; [done|].
  apply bool_decide_ext. set_solver.
Qed.
Next Obligation.
  intros c host w. cbn. destruct (bool_decide (c ∈ fail_revert w)); cbn; [done|]. intros _.
  apply bool_decide_eq_false. set_solver.
Qed.
Next Obligation. done. Qed.
Next Obligation. done. Qed.
Next Obligation.
  intros c host w. cbn. unfold scripted_state. by case_bool_decide.
Qed.
Next Obligation. done. Qed.
Next Obligation. done. Qed.

(** A set with drivers for [cs], over a world where nothing is open. *)
Definition scripted_set (cs : list Channel) (fa fr : list Channel) : DriverSet Scripts :=
  {| registered := list_to_set cs;
     world := {| fail_apply := list_to_set fa; fail_revert := list_to_set fr; opened := ∅ |};
     seen := [] |}.

Definition plain_host (n : string) : Host :=
  {| name := n; address := "10.0.0.1"; os := Linux; channels := [Ssh; Bmc]; ssh := None;
     bmc := None; vnc := None; http := None; mqtt := None; serial := None; device := None;
     access := None; drill := false |}.

(** Both channels refuse to revert: the stuck list comes back reversed. *)
Example stuck_list_reversed :
  (revert_channels (scripted_set [Ssh; Bmc] [] [Ssh; Bmc]) (plain_host "a") [Ssh; Bmc]).2
  = Stuck [(Bmc, scripted_error Bmc); (Ssh, scripted_error Ssh)].
Proof. reflexivity. Qed.


Lemma restored_means_open_witness :
  let s := {| registered := {[Ssh]};
              world := with_opened (world (scripted_set [] [] [])) {[("a", Ssh)]}; seen := [] |} in
  NoDup [Ssh] /\
  reestablish_channels s (plain_host "a") [Ssh]
    = ((reestablish_channels s (plain_host "a") [Ssh]).1, Restored) /\
  forall c, c ∈ [Ssh] ->
    exposed (world (reestablish_channels s (plain_host "a") [Ssh]).1) "a" c = true.
Proof.
  cbn zeta. assert (Hnd : NoDup [Ssh]) by (apply (bool_decide_unpack _); reflexivity).
  split; [exact Hnd|]. split; [reflexivity|].
  apply (restored_means_open
    {| registered := {[Ssh]};
       world := with_opened (world (scripted_set [] [] [])) {[("a", Ssh)]}; seen := [] |}
    _ (plain_host "a") [Ssh] Hnd). reflexivity.
Defined.

