(* ===== verification/Grant.v ===== *)
(** * Grant: the grant state machine (core/src/grant.rs)

    Every operation takes the grant and returns the grant it leaves with the
    operation's result; on an error the stored state is what it was. *)

From S2P Require Import Prelude Text Clock Ttl External Approval Authority Inventory.

(** [MAX_APPROVAL_WINDOW_SECS]. *)
Definition MAX_APPROVAL_WINDOW_SECS : Z := MAX_TTL_SECS.

Inductive GrantState :=
| Closed
| Pending (requested_at approval_deadline : SystemTime) (ttl : Ttl) (nonce : list Z)
    (profile : string) (satisfied : gset string)
| Opening (opened_at expires_at : SystemTime) (channels : list Channel)
| Open (opened_at expires_at : SystemTime) (channels : list Channel)
| NeedsRevert (channels : list Channel) (since : SystemTime).

Inductive GrantStatus :=
| StClosed
| StAwaitingApproval (remaining : Duration)
| StApprovalExpired
| StOpening
| StOpen (remaining : Duration)
| StExpired
| StNeedsRevert (channels : list Channel).

Record PendingView := {
  pv_profile : string;
  pv_satisfied : gset string;
  pv_requested_at : SystemTime;
  pv_elapsed : Duration;
}.

Inductive GrantError :=
| AlreadyOpen
| NotOpen
| MidOpen
| AlreadyPending
| NotPending
| ApprovalWindowElapsed
| TooEarly (remaining : Duration)
| ClockOverflow.

#[export] Instance GrantState_eq_dec : EqDecision GrantState.
Proof. solve_decision. Defined.
#[export] Instance GrantStatus_eq_dec : EqDecision GrantStatus.
Proof. solve_decision. Defined.
#[export] Instance GrantError_eq_dec : EqDecision GrantError.
Proof. solve_decision. Defined.

(** The struct [Grant { state }]. *)
Abbreviation Grant := GrantState (only parsing).

Definition new : Grant := Closed.

(** The shared test of [status]: a deadline observed at [now] is live only
    while some time remains. *)
Definition status (g : Grant) (now : SystemTime) : GrantStatus :=
  match g with
  | Closed => StClosed
  | Pending _ approval_deadline _ _ _ _ =>
      match duration_since approval_deadline now with
      | Some remaining =>
          if negb (is_zero remaining) then StAwaitingApproval remaining else StApprovalExpired
      | None => StApprovalExpired
      end
  | Opening _ _ _ => StOpening
  | NeedsRevert channels _ => StNeedsRevert channels
  | Open _ expires_at _ =>
      match duration_since expires_at now with
      | Some remaining => if negb (is_zero remaining) then StOpen remaining else StExpired
      | None => StExpired
      end
  end.

Definition begin_open (g : Grant) (now : SystemTime) (ttl : Ttl) (channels : list Channel)
    : Grant * result GrantError SystemTime :=
  match status g now with
  | StClosed =>
      match checked_add now (duration ttl) with
      | None => (g, Err ClockOverflow)
      | Some expires_at => (Opening now expires_at channels, Ok expires_at)
      end
  | StOpening => (g, Err MidOpen)
  | _ => (g, Err AlreadyOpen)
  end.

Definition finish_open (g : Grant) : Grant * result GrantError unit :=
  match g with
  | Opening opened_at expires_at channels => (Open opened_at expires_at channels, Ok tt)
  | _ => (g, Err NotOpen)
  end.

Definition abort_open (g : Grant) : Grant * result GrantError unit :=
  match g with
  | Opening _ _ _ => (Closed, Ok tt)
  | _ => (g, Err NotOpen)
  end.

Definition fail_open (g : Grant) (stuck : list Channel) (now : SystemTime)
    : Grant * result GrantError unit :=
  match g with
  | Opening _ _ _ => (NeedsRevert stuck now, Ok tt)
  | _ => (g, Err NotOpen)
  end.

Definition begin_revert (g : Grant) (now : SystemTime)
    : Grant * result GrantError (list Channel) :=
  match g with
  | Open _ _ channels => (NeedsRevert channels now, Ok channels)
  | NeedsRevert channels _ => (g, Ok channels)
  | Opening _ _ _ => (g, Err MidOpen)
  | Pending _ _ _ _ _ _ => (g, Err NotPending)
  | Closed => (g, Err NotOpen)
  end.

Definition retain_stuck (g : Grant) (stuck : list Channel) : Grant * result GrantError bool :=
  match g with
  | NeedsRevert channels since =>
      (NeedsRevert stuck since, Ok (negb (bool_decide (channels = stuck))))
  | _ => (g, Err NotOpen)
  end.

Definition finish_revert (g : Grant) : Grant * result GrantError unit :=
  match g with
  | NeedsRevert _ _ => (Closed, Ok tt)
  | _ => (g, Err NotOpen)
  end.

Definition renew (g : Grant) (now : SystemTime) (ttl : Ttl)
    : Grant * result GrantError SystemTime :=
  match status g now with
  | StOpen remaining =>
      if Clock.from_secs RENEWAL_WINDOW_SECS <? remaining then (g, Err (TooEarly remaining))
      else
        match checked_add now (duration ttl) with
        | None => (g, Err ClockOverflow)
        | Some expires_at =>
            match g with
            | Open opened_at _ channels => (Open opened_at expires_at channels, Ok expires_at)
            | _ => (g, Ok expires_at)
            end
        end
  | _ => (g, Err NotOpen)
  end.

Definition begin_pending (g : Grant) (now approval_deadline : SystemTime) (ttl : Ttl)
    (nonce : list Z) (profile : string) : Grant * result GrantError unit :=
  match status g now with
  | StClosed => (Pending now approval_deadline ttl nonce profile ∅, Ok tt)
  | StOpening => (g, Err MidOpen)
  | StAwaitingApproval _ | StApprovalExpired => (g, Err AlreadyPending)
  | _ => (g, Err AlreadyOpen)
  end.

(** [BTreeSet::insert] answers whether the element is new. *)
Definition add_satisfied (g : Grant) (now : SystemTime) (id : string)
    : Grant * result GrantError bool :=
  match status g now with
  | StAwaitingApproval _ =>
      match g with
      | Pending r d ttl n p satisfied =>
          (Pending r d ttl n p ({[id]} ∪ satisfied), Ok (negb (bool_decide (id ∈ satisfied))))
      | _ => (g, Err NotPending)
      end
  | StApprovalExpired => (g, Err ApprovalWindowElapsed)
  | _ => (g, Err NotPending)
  end.

Definition pending_view (g : Grant) (now : SystemTime) : result GrantError PendingView :=
  match status g now with
  | StAwaitingApproval _ =>
      match g with
      | Pending requested_at _ _ _ profile satisfied =>
          Ok {| pv_profile := profile; pv_satisfied := satisfied;
                pv_requested_at := requested_at;
                pv_elapsed := match duration_since now requested_at with
                              | Some d => d | None => 0 end |}
      | _ => Err NotPending
      end
  | StApprovalExpired => Err ApprovalWindowElapsed
  | _ => Err NotPending
  end.

Definition pending_request (g : Grant) (host : string) (now : SystemTime)
    : result GrantError ApprovalRequest :=
  match status g now with
  | StAwaitingApproval _ =>
      match g with
      | Pending requested_at _ ttl nonce _ _ =>
          Ok (Approval.new nonce host (as_secs (duration ttl)) requested_at)
      | _ => Err NotPending
      end
  | StApprovalExpired => Err ApprovalWindowElapsed
  | _ => Err NotPending
  end.

Definition approve_to_opening (g : Grant) (now : SystemTime) (channels : list Channel)
    : Grant * result GrantError SystemTime :=
  match status g now with
  | StAwaitingApproval _ =>
      match g with
      | Pending _ _ ttl _ _ _ =>
          match checked_add now (duration ttl) with
          | None => (g, Err ClockOverflow)
          | Some expires_at => (Opening now expires_at channels, Ok expires_at)
          end
      | _ => (g, Err NotPending)
      end
  | StApprovalExpired => (g, Err ApprovalWindowElapsed)
  | _ => (g, Err NotPending)
  end.

Definition cancel_pending (g : Grant) : Grant * result GrantError unit :=
  match g with
  | Pending _ _ _ _ _ _ => (Closed, Ok tt)
  | _ => (g, Err NotPending)
  end.

(** ** The stored shape *)

Inductive GrantParts :=
| PartsPending (requested_at approval_deadline : SystemTime) (ttl : Ttl) (nonce : list Z)
    (profile : string) (satisfied : gset string)
| PartsOpening (opened_at expires_at : SystemTime) (channels : list Channel)
| PartsOpen (opened_at expires_at : SystemTime) (channels : list Channel)
| PartsNeedsRevert (channels : list Channel) (since : SystemTime).

Definition parts (g : Grant) : option GrantParts :=
  match g with
  | Closed => None
  | Pending r d ttl n p s => Some (PartsPending r d ttl n p s)
  | Opening o e c => Some (PartsOpening o e c)
  | Open o e c => Some (PartsOpen o e c)
  | NeedsRevert c s => Some (PartsNeedsRevert c s)
  end.

Definition restore (p : GrantParts) : Grant :=
  match p with
  | PartsPending r d ttl n p s => Pending r d ttl n p s
  | PartsOpening o e c => Opening o e c
  | PartsOpen o e c => Open o e c
  | PartsNeedsRevert c s => NeedsRevert c s
  end.

(** The channels a stored state says are, or may be, applied on the host. *)
Definition recorded_channels (g : Grant) : list Channel :=
  match g with
  | Closed | Pending _ _ _ _ _ _ => []
  | Opening _ _ c | Open _ _ c | NeedsRevert c _ => c
  end.
