(* ===== verification/GrantProps.v ===== *)
(** * GrantProps: the grant as a timed state machine

    The operations of [Grant] as the steps of a transition system with a
    clock, and the properties of everything the system can reach. *)

From stdpp Require Import relations.
From S2P Require Import Prelude Text Clock Ttl External Approval Authority Inventory Grant.
#[local] Open Scope Z_scope.

(** The operations that take the grant by [&mut self], with their arguments
    other than the clock. *)
Inductive Op :=
| OpBeginOpen (ttl : Ttl) (channels : list Channel)
| OpFinishOpen
| OpAbortOpen
| OpFailOpen (stuck : list Channel)
| OpBeginRevert
| OpRetainStuck (stuck : list Channel)
| OpFinishRevert
| OpRenew (ttl : Ttl)
| OpBeginPending (approval_deadline : SystemTime) (ttl : Ttl) (nonce : list Z) (profile : string)
| OpAddSatisfied (id : string)
| OpApprove (channels : list Channel)
| OpCancel.

Definition drop_value {A} (p : Grant * result GrantError A) : Grant * option GrantError :=
  (p.1, match p.2 with Ok _ => None | Err e => Some e end).

(** One call: the grant it leaves, and its error if it returned one. *)
Definition run (op : Op) (now : SystemTime) (g : Grant) : Grant * option GrantError :=
  match op with
  | OpBeginOpen ttl channels => drop_value (begin_open g now ttl channels)
  | OpFinishOpen => drop_value (finish_open g)
  | OpAbortOpen => drop_value (abort_open g)
  | OpFailOpen stuck => drop_value (fail_open g stuck now)
  | OpBeginRevert => drop_value (begin_revert g now)
  | OpRetainStuck stuck => drop_value (retain_stuck g stuck)
  | OpFinishRevert => drop_value (finish_revert g)
  | OpRenew ttl => drop_value (renew g now ttl)
  | OpBeginPending d ttl n p => drop_value (begin_pending g now d ttl n p)
  | OpAddSatisfied id => drop_value (add_satisfied g now id)
  | OpApprove channels => drop_value (approve_to_opening g now channels)
  | OpCancel => drop_value (cancel_pending g)
  end.

(** Every [Ttl] argument is a value of the type, so it satisfies its
    invariant. *)
Definition op_wf (op : Op) : Prop :=
  match op with
  | OpBeginOpen ttl _ | OpRenew ttl | OpBeginPending _ ttl _ _ => Ttl.wf ttl
  | _ => True
  end.

(** The clock moves forward, or an operation runs at the current instant. *)
Inductive step : SystemTime * Grant -> SystemTime * Grant -> Prop :=
| step_tick now now' g : now <= now' -> step (now, g) (now', g)
| step_op now op g : op_wf op -> step (now, g) (now, (run op now g).1).

Definition reachable (c : SystemTime * Grant) : Prop := exists t0, rtc step (t0, new) c.

(** ** The abstract diagram *)

Inductive Phase := PhClosed | PhPending | PhOpening | PhOpen | PhRevert.

Definition phase (g : Grant) : Phase :=
  match g with
  | Closed => PhClosed
  | Pending _ _ _ _ _ _ => PhPending
  | Opening _ _ _ => PhOpening
  | Open _ _ _ => PhOpen
  | NeedsRevert _ _ => PhRevert
  end.

(** The arrows of the lifecycle diagram, labelled with the operation that is
    allowed to draw them and the guard it draws them under. *)
Inductive edge : Phase -> Op -> Phase -> Prop :=
| edge_open ttl cs : edge PhClosed (OpBeginOpen ttl cs) PhOpening
| edge_ask d ttl n p : edge PhClosed (OpBeginPending d ttl n p) PhPending
| edge_prove id : edge PhPending (OpAddSatisfied id) PhPending
| edge_approve cs : edge PhPending (OpApprove cs) PhOpening
| edge_cancel : edge PhPending OpCancel PhClosed
| edge_finish : edge PhOpening OpFinishOpen PhOpen
| edge_abort : edge PhOpening OpAbortOpen PhClosed
| edge_fail s : edge PhOpening (OpFailOpen s) PhRevert
| edge_renew ttl : edge PhOpen (OpRenew ttl) PhOpen
| edge_expire : edge PhOpen OpBeginRevert PhRevert
| edge_again : edge PhRevert OpBeginRevert PhRevert
| edge_stuck s : edge PhRevert (OpRetainStuck s) PhRevert
| edge_close : edge PhRevert OpFinishRevert PhClosed.
#[export] Hint Constructors edge : lychgate.

(** ** Observation lemmas *)

Lemma status_Open_iff g now rem :
  status g now = StOpen rem <->
  exists o e cs, g = Open o e cs /\ now < e /\ rem = e - now.
Proof.
  split.
  - destruct g; cbn; try done; unfold duration_since, is_zero; repeat case_goal; crush.
    intros. simplify_eq. eexists _, _, _. split; [done|]. split; [lia|done].
  - intros (o & e & cs & -> & Hlt & ->). cbn. rewrite duration_since_ge by lia.
    unfold is_zero. by rewrite (proj2 (Z.eqb_neq _ _)) by lia.
Qed.

Lemma status_Expired_iff g now :
  status g now = StExpired <-> exists o e cs, g = Open o e cs /\ e <= now.
Proof.
  split.
  - destruct g; cbn; try done; unfold duration_since, is_zero; repeat case_goal; crush;
      intros _; eexists _, _, _; (split; [done|]); lia.
  - intros (o & e & cs & -> & Hle). cbn. unfold duration_since, is_zero.
    repeat case_goal; crush.
Qed.

Lemma status_Awaiting_iff g now rem :
  status g now = StAwaitingApproval rem <->
  exists r d ttl n p s, g = Pending r d ttl n p s /\ now < d /\ rem = d - now.
Proof.
  split.
  - destruct g; cbn; try done; unfold duration_since, is_zero; repeat case_goal; crush.
    intros. simplify_eq. do 6 eexists. split; [done|]. split; [lia|done].
  - intros (r & d & ttl & n & p & s & -> & Hlt & ->). cbn. rewrite duration_since_ge by lia.
    unfold is_zero. by rewrite (proj2 (Z.eqb_neq _ _)) by lia.
Qed.

Lemma status_ApprovalExpired_iff g now :
  status g now = StApprovalExpired <->
  exists r d ttl n p s, g = Pending r d ttl n p s /\ d <= now.
Proof.
  split.
  - destruct g; cbn; try done; unfold duration_since, is_zero; repeat case_goal; crush;
      intros _; do 6 eexists; (split; [done|]); lia.
  - intros (r & d & ttl & n & p & s & -> & Hle). cbn. unfold duration_since, is_zero.
    repeat case_goal; crush.
Qed.

Lemma status_Closed_iff g now : status g now = StClosed <-> g = Closed.
Proof. destruct g; cbn; repeat case_goal; naive_solver. Qed.
Lemma status_Opening_iff g now :
  status g now = StOpening <-> exists o e cs, g = Opening o e cs.
Proof. destruct g; cbn; repeat case_goal; naive_solver. Qed.
Lemma status_NeedsRevert_iff g now cs :
  status g now = StNeedsRevert cs <-> exists s, g = NeedsRevert cs s.
Proof. destruct g; cbn; repeat case_goal; naive_solver. Qed.

#[local] Arguments status : simpl never.

(** Turn what [status] observed into what is stored. *)
Ltac status_prop :=
  repeat match goal with
  | H : status _ _ = StOpen _ |- _ => apply status_Open_iff in H as (? & ? & ? & ? & ? & ?)
  | H : status _ _ = StExpired |- _ => apply status_Expired_iff in H as (? & ? & ? & ? & ?)
  | H : status _ _ = StAwaitingApproval _ |- _ =>
      apply status_Awaiting_iff in H as (? & ? & ? & ? & ? & ? & ? & ? & ?)
  | H : status _ _ = StApprovalExpired |- _ =>
      apply status_ApprovalExpired_iff in H as (? & ? & ? & ? & ? & ? & ? & ?)
  | H : status _ _ = StClosed |- _ => apply status_Closed_iff in H
  | H : status _ _ = StOpening |- _ => apply status_Opening_iff in H as (? & ? & ? & ?)
  | H : status _ _ = StNeedsRevert _ |- _ => apply status_NeedsRevert_iff in H as (? & ?)
  end; simplify_eq.

Ltac unfold_ops :=
  unfold run, begin_open, finish_open, abort_open, fail_open, begin_revert, retain_stuck,
    finish_revert, renew, begin_pending, add_satisfied, approve_to_opening, cancel_pending,
    drop_value.

(** The guard of an arrow: the clock conditions under which the operation is
    accepted in its phase. *)
Definition guard (op : Op) (now : SystemTime) (g : Grant) : Prop :=
  match op, g with
  | OpBeginOpen ttl _, _ => now + duration ttl < CLOCK_END
  | OpRenew ttl, Open _ e _ =>
      now < e <= now + Clock.from_secs RENEWAL_WINDOW_SECS /\ now + duration ttl < CLOCK_END
  | OpAddSatisfied _, Pending _ d _ _ _ _ => now < d
  | OpApprove _, Pending _ d ttl _ _ _ => now < d /\ now + duration ttl < CLOCK_END
  | _, _ => True
  end.

(** ** The diagram is all the operations can do *)

Ltac auto_time :=
  repeat match goal with
  | H : checked_add _ _ = Some _ |- _ => apply checked_add_Some in H as [-> ?]
  | H : checked_add _ _ = None |- _ => unfold checked_add in H; case_hyp H; [done|]
  end; crush.

Ltac op_cases :=
  unfold_ops; repeat (case_goal; status_prop); simplify_eq/=; try done.

(** C17. Refinement of the lifecycle diagram: a call either fails and leaves
    the grant exactly as it was, or succeeds along one of the labelled arrows
    between the phases closed, pending, opening, open and needs-revert, and
    then only under the arrow's guard on the clock. *)
Theorem run_refines_diagram (op : Op) (now : SystemTime) (g : Grant) :
  match run op now g with
  | (g', Some _) => g' = g
  | (g', None) => edge (phase g) op (phase g') /\ guard op now g
  end.
Proof.
  destruct op; op_cases.
  all: split; auto_time; eauto with lychgate.
Qed.

(** The guards are exact: a call succeeds whenever its phase has an arrow
    for it and the arrow's guard holds. *)
Theorem run_succeeds (op : Op) (now : SystemTime) (g : Grant) (ph : Phase)
    (Hedge : edge (phase g) op ph) (Hguard : guard op now g) :
  (run op now g).2 = None /\ phase (run op now g).1 = ph.
Proof.
  destruct g; inversion Hedge; subst; clear Hedge; cbn in Hguard;
    op_cases; auto_time.
Qed.

Lemma run_succeeds_witness :
  let g := Open 0 100 [Ssh] in let ttl := MkTtl 5 in
  edge (phase g) (OpRenew ttl) PhOpen /\ guard (OpRenew ttl) 90 g /\
  ((run (OpRenew ttl) 90 g).2 = None /\ phase (run (OpRenew ttl) 90 g).1 = PhOpen).
Proof.
  cbn zeta.
  assert (Hg : guard (OpRenew (MkTtl 5)) 90 (Open 0 100 [Ssh])) by (vm_compute; repeat split; done).
  split; [apply edge_renew|]. split; [exact Hg|].
  apply (run_succeeds (OpRenew (MkTtl 5)) 90 (Open 0 100 [Ssh]) PhOpen); [apply edge_renew|exact Hg].
Defined.

(** ** Bounded exposure *)

(** What every reachable grant satisfies at the current instant: its interval
    started in the past, and its expiry is at most the TTL cap away. *)
Definition bounded (now : SystemTime) (g : Grant) : Prop :=
  match g with
  | Closed => True
  | Pending r _ ttl _ _ s => r <= now /\ Ttl.wf ttl
  | Opening o e _ | Open o e _ =>
      o <= now /\ o < e /\ e <= now + Clock.from_secs MAX_TTL_SECS
  | NeedsRevert _ since => since <= now
  end.

Lemma ttl_wf_bounds ttl : Ttl.wf ttl -> 0 < duration ttl <= Clock.from_secs MAX_TTL_SECS.
Proof. intros (s & -> & Hs). unfold Clock.from_secs, NANOS_PER_SEC. lia. Qed.

Lemma bounded_mono now now' g : now <= now' -> bounded now g -> bounded now' g.
Proof. destruct g; cbn; naive_solver lia. Qed.

Lemma bounded_run op now g : op_wf op -> bounded now g -> bounded now (run op now g).1.
Proof.
  destruct op; op_cases; auto_time; intros; cbn in *; destruct_and?;
    repeat match goal with H : Ttl.wf ?t |- _ => pose proof (ttl_wf_bounds t H); revert H end;
    intros; repeat split; try done; lia.
Qed.

Lemma step_bounded c c' : step c c' -> bounded c.1 c.2 -> bounded c'.1 c'.2.
Proof.
  destruct 1; cbn; [by eapply bounded_mono|]. by apply bounded_run.
Qed.

Lemma reachable_bounded c : reachable c -> bounded c.1 c.2.
Proof.
  intros [t0 Hr]. revert c Hr. apply rtc_ind_r; [done|].
  intros. by eapply step_bounded.
Qed.

(** C5. Bounded exposure: in every state the grant can reach, by any sequence
    of operations under a clock that never steps back, a grant observed open
    is open for a positive time of at most [MAX_TTL_SECS] (24 hours), however
    often it was renewed. *)
Theorem reachable_open_within_cap (now : SystemTime) (g : Grant) (remaining : Duration)
    (Hr : reachable (now, g)) (Hst : status g now = StOpen remaining) :
  0 < remaining <= Clock.from_secs MAX_TTL_SECS.
Proof.
  pose proof (reachable_bounded _ Hr). status_prop. cbn in *. lia.
Qed.

Lemma reachable_open_within_cap_witness :
  let g := Open 5 (5 + Clock.from_secs 60) [Ssh] in
  reachable (5, g) /\ status g 5 = StOpen (Clock.from_secs 60) /\
  0 < Clock.from_secs 60 <= Clock.from_secs MAX_TTL_SECS.
Proof.
  cbn zeta.
  assert (Hr : reachable (5, Open 5 (5 + Clock.from_secs 60) [Ssh])).
  { exists 5. eapply rtc_l; [|eapply rtc_once].
    - apply (step_op _ (OpBeginOpen (MkTtl (Clock.from_secs 60)) [Ssh])). by exists 60.
    - apply (step_op _ OpFinishOpen). done. }
  split; [exact Hr|]. split; [by vm_compute|].
  apply (reachable_open_within_cap 5 _ _ Hr). by vm_compute.
Defined.

(** ** Expiry is final *)

(** A step that does not close the grant. *)
Definition step_unclosed (c c' : SystemTime * Grant) : Prop := step c c' /\ c'.2 <> Closed.

(** Due for revert: stored needs-revert, or stored open past its expiry. *)
Definition due (now : SystemTime) (g : Grant) : Prop :=
  match g with
  | NeedsRevert _ _ => True
  | Open _ e _ => e <= now
  | _ => False
  end.

Lemma due_step c c' : step_unclosed c c' -> due c.1 c.2 -> due c'.1 c'.2.
Proof.
  intros [Hs Hc] Hd. destruct Hs as [now now' g Hle | now op g Hw]; cbn in *.
  - destruct g; naive_solver lia.
  - destruct op; revert Hc; op_cases; auto_time.
Qed.

Lemma due_status now g :
  due now g <-> status g now = StExpired \/ exists cs, status g now = StNeedsRevert cs.
Proof.
  split.
  - destruct g; cbn; try done; intros.
    + left. apply status_Expired_iff. eauto 10.
    + right. eexists. apply status_NeedsRevert_iff. eauto.
  - intros [?|[? ?]]; status_prop; done.
Qed.

(** Fail-closed expiry: once a grant is observed expired (or must be
    reverted), no sequence of operations makes it observe as open again
    before it has been closed by a finished revert; renewal never resurrects
    it, at any later instant. *)
Theorem expired_is_final (now now' : SystemTime) (g g' : Grant)
    (Hx : status g now = StExpired) (Hsteps : rtc step_unclosed (now, g) (now', g')) :
  status g' now' = StExpired \/ exists channels, status g' now' = StNeedsRevert channels.
Proof.
  apply due_status. change (due (now', g').1 (now', g').2). revert Hsteps.
  generalize (now', g'). apply rtc_ind_r.
  - apply due_status. by left.
  - intros. by eapply due_step.
Qed.

Lemma expired_is_final_witness :
  let g := Open 0 10 [Ssh] in
  status g 10 = StExpired /\ rtc step_unclosed (10, g) (11, g) /\
  (status g 11 = StExpired \/ exists channels, status g 11 = StNeedsRevert channels).
Proof.
  cbn zeta.
  assert (Hs : rtc step_unclosed (10, Open 0 10 [Ssh]) (11, Open 0 10 [Ssh])).
  { apply rtc_once. split; [by constructor|done]. }
  split; [reflexivity|]. split; [exact Hs|].
  apply (expired_is_final 10 11 (Open 0 10 [Ssh])); [reflexivity|exact Hs].
Defined.

(** ** Channels are never silently forgotten *)

(** Accountability: a channel the stored grant records as applied leaves
    the record only through an operation that reports it reverted: an aborted
    open, a finished revert, or a stuck list that no longer names it. *)
Theorem channel_leaves_only_reported (op : Op) (now : SystemTime) (g : Grant) (c : Channel)
    (Hin : c ∈ recorded_channels g) (Hout : c ∉ recorded_channels (run op now g).1) :
  match op with
  | OpAbortOpen => phase g = PhOpening
  | OpFinishRevert => phase g = PhRevert
  | OpFailOpen stuck => phase g = PhOpening /\ c ∉ stuck
  | OpRetainStuck stuck => phase g = PhRevert /\ c ∉ stuck
  | _ => False
  end.
Proof.
  revert Hin Hout. destruct op; op_cases; intros Hin Hout; cbn in *; try done;
    by apply not_elem_of_nil in Hin.
Qed.

Lemma channel_leaves_only_reported_witness :
  Ssh ∈ recorded_channels (NeedsRevert [Bmc; Ssh] 4) /\
  Ssh ∉ recorded_channels (run (OpRetainStuck [Bmc]) 9 (NeedsRevert [Bmc; Ssh] 4)).1 /\
  phase (NeedsRevert [Bmc; Ssh] 4) = PhRevert /\ Ssh ∉ [Bmc].
Proof.
  assert (Hin : Ssh ∈ recorded_channels (NeedsRevert [Bmc; Ssh] 4)) by (by vm_compute; right; left).
  assert (Hout : Ssh ∉ [Bmc]) by (apply (bool_decide_unpack _); reflexivity).
  split; [exact Hin|]. split; [exact Hout|].
  exact (channel_leaves_only_reported (OpRetainStuck [Bmc]) 9 _ Ssh Hin Hout).
Defined.
