(* ===== verification/Registry.v ===== *)
(** * Registry: one grant per inventory host (core/src/registry.rs)

    The registry is the map of the struct; every lifted operation reads the
    host's grant, runs the grant's operation and stores what it leaves. *)

From S2P Require Import Prelude Text Clock Ttl External Approval Authority Inventory Grant GrantProps.

Inductive RegistryError :=
| UnknownHost (host : string)
| EGrant (e : GrantError).

#[export] Instance RegistryError_eq_dec : EqDecision RegistryError.
Proof. solve_decision. Defined.

Record ExpiredGrant := {
  eg_host : string;
  eg_opened_at : SystemTime;
  eg_expires_at : SystemTime;
  eg_channels : list Channel;
}.

Record ExpiredPending := {
  ep_host : string;
  ep_requested_at : SystemTime;
  ep_approval_deadline : SystemTime;
}.

(** The struct [GrantRegistry { grants }]. *)
Abbreviation GrantRegistry := (gmap string GrantState) (only parsing).

Definition new (inventory : Inventory) : GrantRegistry :=
  fold_left (fun m h => <[name h := Grant.new]> m) (hosts inventory) ∅.

(** [grant_mut(host)?.op(..).map_err(RegistryError::Grant)]. *)
Definition grant_mut {A} (r : GrantRegistry) (host : string)
    (op : Grant -> Grant * result GrantError A) : GrantRegistry * result RegistryError A :=
  match r !! host with
  | None => (r, Err (UnknownHost host))
  | Some g => (<[host := (op g).1]> r, map_err EGrant (op g).2)
  end.

Definition begin_open (r : GrantRegistry) (host : string) (now : SystemTime) (ttl : Ttl)
    (channels : list Channel) : GrantRegistry * result RegistryError SystemTime :=
  grant_mut r host (fun g => Grant.begin_open g now ttl channels).

Definition finish_open (r : GrantRegistry) (host : string)
    : GrantRegistry * result RegistryError unit :=
  grant_mut r host Grant.finish_open.

Definition abort_open (r : GrantRegistry) (host : string)
    : GrantRegistry * result RegistryError unit :=
  grant_mut r host Grant.abort_open.

Definition fail_open (r : GrantRegistry) (host : string) (stuck : list Channel) (now : SystemTime)
    : GrantRegistry * result RegistryError unit :=
  grant_mut r host (fun g => Grant.fail_open g stuck now).

Definition begin_revert (r : GrantRegistry) (host : string) (now : SystemTime)
    : GrantRegistry * result RegistryError (list Channel) :=
  grant_mut r host (fun g => Grant.begin_revert g now).

Definition retain_stuck (r : GrantRegistry) (host : string) (stuck : list Channel)
    : GrantRegistry * result RegistryError bool :=
  grant_mut r host (fun g => Grant.retain_stuck g stuck).

Definition finish_revert (r : GrantRegistry) (host : string)
    : GrantRegistry * result RegistryError unit :=
  grant_mut r host Grant.finish_revert.

Definition renew (r : GrantRegistry) (host : string) (now : SystemTime) (ttl : Ttl)
    : GrantRegistry * result RegistryError SystemTime :=
  grant_mut r host (fun g => Grant.renew g now ttl).

Definition begin_pending (r : GrantRegistry) (host : string) (now approval_deadline : SystemTime)
    (ttl : Ttl) (nonce : list Z) (profile : string) : GrantRegistry * result RegistryError unit :=
  grant_mut r host (fun g => Grant.begin_pending g now approval_deadline ttl nonce profile).

Definition add_satisfied (r : GrantRegistry) (host : string) (now : SystemTime) (id : string)
    : GrantRegistry * result RegistryError bool :=
  grant_mut r host (fun g => Grant.add_satisfied g now id).

Definition approve_to_opening (r : GrantRegistry) (host : string) (now : SystemTime)
    (channels : list Channel) : GrantRegistry * result RegistryError SystemTime :=
  grant_mut r host (fun g => Grant.approve_to_opening g now channels).

Definition cancel_pending (r : GrantRegistry) (host : string)
    : GrantRegistry * result RegistryError unit :=
  grant_mut r host Grant.cancel_pending.

(** ** Reads *)

Definition pending_view (r : GrantRegistry) (host : string) (now : SystemTime)
    : result RegistryError PendingView :=
  match r !! host with
  | None => Err (UnknownHost host)
  | Some g => map_err EGrant (Grant.pending_view g now)
  end.

Definition pending (r : GrantRegistry) (host : string) (now : SystemTime)
    : result RegistryError ApprovalRequest :=
  match r !! host with
  | None => Err (UnknownHost host)
  | Some g => map_err EGrant (Grant.pending_request g host now)
  end.

Definition status (r : GrantRegistry) (host : string) (now : SystemTime)
    : result RegistryError GrantStatus :=
  match r !! host with
  | None => Err (UnknownHost host)
  | Some g => Ok (Grant.status g now)
  end.

Definition statuses (r : GrantRegistry) (now : SystemTime) : list (string * GrantStatus) :=
  (fun p => (p.1, Grant.status p.2 now)) <$> btree_iter r.

(** [iter().filter_map(..).collect()] over the grants in name order. *)
Definition filter_hosts {B} (f : string -> Grant -> option B) (r : GrantRegistry) : list B :=
  omap (fun p => f p.1 p.2) (btree_iter r).

Definition awaiting_approval (r : GrantRegistry) (now : SystemTime) : list string :=
  filter_hosts (fun name g =>
    match Grant.status g now with StAwaitingApproval _ => Some name | _ => None end) r.

Definition needing_revert (r : GrantRegistry) (now : SystemTime) : list (string * list Channel) :=
  filter_hosts (fun name g =>
    match Grant.status g now with
    | StNeedsRevert channels => Some (name, channels)
    | _ => None
    end) r.

Definition open_channels (r : GrantRegistry) (now : SystemTime) : list (string * list Channel) :=
  filter_hosts (fun name g =>
    match Grant.status g now with
    | StOpen _ =>
        match parts g with
        | Some (PartsOpen _ _ channels) => Some (name, channels)
        | _ => None
        end
    | _ => None
    end) r.

(** ** The sweeps

    The body of each [for (name, grant) in self.grants.iter_mut()] loop; [None]
    is its [unreachable!] or [expect]. *)

Definition reap_body (now : SystemTime) (name : string) (grant : Grant)
    : option (Grant * list ExpiredGrant) :=
  if negb (bool_decide (Grant.status grant now = StExpired)) then Some (grant, [])
  else
    match parts grant with
    | Some (PartsOpen opened_at expires_at _) =>
        match Grant.begin_revert grant now with
        | (grant', Ok channels) =>
            Some (grant', [{| eg_host := name; eg_opened_at := opened_at;
                              eg_expires_at := expires_at; eg_channels := channels |}])
        | (_, Err _) => None
        end
    | _ => None
    end.

Definition reap_to_revert (r : GrantRegistry) (now : SystemTime)
    : option (GrantRegistry * list ExpiredGrant) :=
  btree_iter_mut (reap_body now) r.

Definition reap_pending_body (now : SystemTime) (name : string) (grant : Grant)
    : option (Grant * list ExpiredPending) :=
  if negb (bool_decide (Grant.status grant now = StApprovalExpired)) then Some (grant, [])
  else
    match parts grant with
    | Some (PartsPending requested_at approval_deadline _ _ _ _) =>
        match Grant.cancel_pending grant with
        | (grant', Ok tt) =>
            Some (grant', [{| ep_host := name; ep_requested_at := requested_at;
                              ep_approval_deadline := approval_deadline |}])
        | (_, Err _) => None
        end
    | _ => None
    end.

Definition reap_expired_pending (r : GrantRegistry) (now : SystemTime)
    : option (GrantRegistry * list ExpiredPending) :=
  btree_iter_mut (reap_pending_body now) r.

Definition demote_body (now : SystemTime) (name : string) (grant : Grant)
    : option (Grant * list (string * list Channel)) :=
  if negb (bool_decide (Grant.status grant now = StOpening)) then Some (grant, [])
  else
    match parts grant with
    | Some (PartsOpening _ _ channels) =>
        match Grant.fail_open grant channels now with
        | (grant', Ok tt) => Some (grant', [(name, channels)])
        | (_, Err _) => None
        end
    | _ => None
    end.

Definition demote_opening (r : GrantRegistry) (now : SystemTime)
    : option (GrantRegistry * list (string * list Channel)) :=
  btree_iter_mut (demote_body now) r.

(** ** For the snapshot layer *)

Definition grants (r : GrantRegistry) : list (string * Grant) := btree_iter r.

Definition knows (r : GrantRegistry) (host : string) : bool := bool_decide (is_Some (r !! host)).

Definition restore (r : GrantRegistry) (host : string) (grant : Grant) : GrantRegistry :=
  match r !! host with
  | Some _ => <[host := grant]> r
  | None => r
  end.

(** ** What the sweeps do to one grant *)

Definition reaped (now : SystemTime) (name : string) (g : Grant) : Grant * list ExpiredGrant :=
  match g with
  | Open o e cs =>
      if e <=? now
      then (NeedsRevert cs now, [{| eg_host := name; eg_opened_at := o; eg_expires_at := e;
                                    eg_channels := cs |}])
      else (g, [])
  | _ => (g, [])
  end.

Definition reaped_pending (now : SystemTime) (name : string) (g : Grant)
    : Grant * list ExpiredPending :=
  match g with
  | Pending r d _ _ _ _ =>
      if d <=? now
      then (Closed, [{| ep_host := name; ep_requested_at := r; ep_approval_deadline := d |}])
      else (g, [])
  | _ => (g, [])
  end.

Definition demoted (now : SystemTime) (name : string) (g : Grant)
    : Grant * list (string * list Channel) :=
  match g with
  | Opening _ _ cs => (NeedsRevert cs now, [(name, cs)])
  | _ => (g, [])
  end.

Lemma reap_body_spec now name g : reap_body now name g = Some (reaped now name g).
Proof.
  unfold reap_body. case_goal; bool_prop.
  - destruct g; try done. cbn. case_goal; [|done]. bool_prop.
    destruct Heqb. apply status_Expired_iff. eauto 10.
  - status_prop. cbn. by rewrite (proj2 (Z.leb_le _ _)).
Qed.

Lemma reap_pending_body_spec now name g :
  reap_pending_body now name g = Some (reaped_pending now name g).
Proof.
  unfold reap_pending_body. case_goal; bool_prop.
  - destruct g; try done. cbn. case_goal; [|done]. bool_prop.
    destruct Heqb. apply status_ApprovalExpired_iff. eauto 10.
  - status_prop. cbn. by rewrite (proj2 (Z.leb_le _ _)).
Qed.

Lemma demote_body_spec now name g : demote_body now name g = Some (demoted now name g).
Proof.
  unfold demote_body. case_goal; bool_prop.
  - destruct g; try done.
  - by status_prop.
Qed.

(** A sweep never panics; it rewrites every grant and reports in name order. *)
Lemma reap_to_revert_spec r now :
  exists r', reap_to_revert r now =
      Some (r', concat ((fun '(k, g) => (reaped now k g).2) <$> btree_iter r))
    /\ forall k, r' !! k = (fun g => (reaped now k g).1) <$> r !! k.
Proof. apply (btree_iter_mut_spec _ (reaped now)). auto using reap_body_spec. Qed.

Lemma reap_expired_pending_spec r now :
  exists r', reap_expired_pending r now =
      Some (r', concat ((fun '(k, g) => (reaped_pending now k g).2) <$> btree_iter r))
    /\ forall k, r' !! k = (fun g => (reaped_pending now k g).1) <$> r !! k.
Proof. apply (btree_iter_mut_spec _ (reaped_pending now)). auto using reap_pending_body_spec. Qed.

Lemma demote_opening_spec r now :
  exists r', demote_opening r now =
      Some (r', concat ((fun '(k, g) => (demoted now k g).2) <$> btree_iter r))
    /\ forall k, r' !! k = (fun g => (demoted now k g).1) <$> r !! k.
Proof. apply (btree_iter_mut_spec _ (demoted now)). auto using demote_body_spec. Qed.

(** Nothing is reported by a sweep whose every grant reports nothing. *)
Lemma concat_fmap_nil {A B} (f : A -> list B) l :
  (forall x, x ∈ l -> f x = []) -> concat (f <$> l) = [].
Proof.
  induction l as [|a l IH]; intros Hl; [done|]. cbn. rewrite (Hl a) by left.
  apply IH. intros. apply Hl. by right.
Qed.

Lemma elem_of_concat_fmap {A B} (f : A -> list B) l y :
  y ∈ concat (f <$> l) <-> exists x, x ∈ l /\ y ∈ f x.
Proof.
  induction l as [|a l IH]; cbn.
  - split; [intros ?%not_elem_of_nil; done|]. intros (x & ?%not_elem_of_nil & _). done.
  - rewrite elem_of_app, IH. split.
    + intros [?|(x & ? & ?)]; [exists a; split; [left|done]|exists x; split; [by right|done]].
    + intros (x & [->|?]%elem_of_cons & ?); [by left|right; eauto].
Qed.

(** ** Lookups *)

Lemma lookup_new inventory host :
  new inventory !! host =
    if decide (host ∈ name <$> hosts inventory) then Some Closed else None.
Proof.
  unfold new. assert (Hgen : forall m : GrantRegistry, fold_left (fun m h => <[name h:=Grant.new]> m)
      (hosts inventory) m !! host =
      if decide (host ∈ name <$> hosts inventory) then Some Closed else m !! host).
  { induction (hosts inventory) as [|h hs IH]; intros m; [done|]. cbn [fold_left fmap list_fmap].
    rewrite IH. destruct (decide (host ∈ name <$> hs)).
    - rewrite decide_True; [done|]. by right.
    - destruct (decide (host = name h)) as [->|Hne].
      + rewrite decide_True by left. by rewrite lookup_insert_eq.
      + rewrite decide_False by (intros [?|?]%elem_of_cons; done). by rewrite lookup_insert_ne. }
  by rewrite Hgen.
Qed.

Lemma grant_mut_unknown {A} r host (op : Grant -> Grant * result GrantError A) :
  r !! host = None -> grant_mut r host op = (r, Err (UnknownHost host)).
Proof. intros Hr. unfold grant_mut. by rewrite Hr. Qed.

Lemma grant_mut_known {A} r host g (op : Grant -> Grant * result GrantError A) :
  r !! host = Some g ->
  grant_mut r host op = (<[host := (op g).1]> r, map_err EGrant (op g).2).
Proof. intros Hr. unfold grant_mut. by rewrite Hr. Qed.

Lemma grant_mut_other {A} r host (op : Grant -> Grant * result GrantError A) host' :
  host' <> host -> (grant_mut r host op).1 !! host' = r !! host'.
Proof. intros ?. unfold grant_mut. case_goal; [|done]. cbn. by rewrite lookup_insert_ne. Qed.

Lemma grant_mut_own {A} r host (op : Grant -> Grant * result GrantError A) :
  (grant_mut r host op).1 !! host = (fun g => (op g).1) <$> r !! host.
Proof. unfold grant_mut. case_goal; cbn; [by rewrite lookup_insert_eq|done]. Qed.

Lemma elem_of_filter_hosts {B} (f : string -> Grant -> option B) r b :
  b ∈ filter_hosts f r <-> exists host g, r !! host = Some g /\ f host g = Some b.
Proof.
  unfold filter_hosts. rewrite list_elem_of_omap. split.
  - intros ([k g] & Hin%elem_of_btree_iter & Hf). eauto.
  - intros (k & g & Hr & Hf). exists (k, g). by rewrite elem_of_btree_iter.
Qed.

(** ** Properties *)

Definition drop_reg {A} (p : GrantRegistry * result RegistryError A)
    : GrantRegistry * option RegistryError :=
  (p.1, match p.2 with Ok _ => None | Err e => Some e end).

(** A call of the registry operation that lifts [op]. *)
Definition call (r : GrantRegistry) (host : string) (op : Op) (now : SystemTime)
    : GrantRegistry * option RegistryError :=
  match op with
  | OpBeginOpen ttl channels => drop_reg (begin_open r host now ttl channels)
  | OpFinishOpen => drop_reg (finish_open r host)
  | OpAbortOpen => drop_reg (abort_open r host)
  | OpFailOpen stuck => drop_reg (fail_open r host stuck now)
  | OpBeginRevert => drop_reg (begin_revert r host now)
  | OpRetainStuck stuck => drop_reg (retain_stuck r host stuck)
  | OpFinishRevert => drop_reg (finish_revert r host)
  | OpRenew ttl => drop_reg (renew r host now ttl)
  | OpBeginPending d ttl n p => drop_reg (begin_pending r host now d ttl n p)
  | OpAddSatisfied id => drop_reg (add_satisfied r host now id)
  | OpApprove channels => drop_reg (approve_to_opening r host now channels)
  | OpCancel => drop_reg (cancel_pending r host)
  end.

Lemma drop_reg_known {A} r host g (op : Grant -> Grant * result GrantError A) :
  r !! host = Some g ->
  drop_reg (grant_mut r host op) =
    (<[host := (drop_value (op g)).1]> r, EGrant <$> (drop_value (op g)).2).
Proof.
  intros Hr. rewrite (grant_mut_known _ _ _ _ Hr). unfold drop_reg, drop_value.
  by destruct (op g) as [g' []].
Qed.

Lemma drop_reg_unknown {A} r host (op : Grant -> Grant * result GrantError A) :
  r !! host = None -> drop_reg (grant_mut r host op) = (r, Some (UnknownHost host)).
Proof. intros Hr. by rewrite grant_mut_unknown. Qed.

(** Every registry operation is the grant operation on one host and
    nothing else: a host the inventory does not know is refused with
    [UnknownHost] and creates no grant; a known host's grant takes the
    grant's step and returns its error; every other host's grant is
    untouched. *)
Theorem registry_op_confined (r : GrantRegistry) (host : string) (op : Op) (now : SystemTime) :
  match r !! host with
  | None => call r host op now = (r, Some (UnknownHost host))
  | Some g =>
      call r host op now = (<[host := (run op now g).1]> r, EGrant <$> (run op now g).2)
  end.
Proof.
  destruct (r !! host) as [g|] eqn:Hr; destruct op; cbn [call run];
    unfold begin_open, finish_open, abort_open, fail_open, begin_revert, retain_stuck,
      finish_revert, renew, begin_pending, add_satisfied, approve_to_opening, cancel_pending;
    first [by rewrite (drop_reg_known _ _ _ _ Hr) | by rewrite drop_reg_unknown].
Qed.

Lemma reaped_not_expired now name g : Grant.status (reaped now name g).1 now <> StExpired.
Proof.
  destruct g as [| | |o e cs|]; cbn [reaped]; try done.
  - cbn. repeat case_goal; done.
  - case_goal; [done|]. intros (? & ? & ? & ? & ?)%status_Expired_iff. crush.
Qed.

Lemma reaped_report now k g x :
  x ∈ (reaped now k g).2 <->
  exists o e cs, g = Open o e cs /\ e <= now /\
    x = {| eg_host := k; eg_opened_at := o; eg_expires_at := e; eg_channels := cs |}.
Proof.
  destruct g as [| | |o e cs|]; cbn; try (split; [intros ?%not_elem_of_nil; done|naive_solver]).
  case_goal; bool_prop; cbn.
  - rewrite list_elem_of_singleton. naive_solver.
  - split; [intros ?%not_elem_of_nil; done|]. intros (? & ? & ? & ? & ? & ?). simplify_eq. lia.
Qed.

(** The reaper: [reap_to_revert] never panics; it moves exactly the grants
    observed expired to needs-revert, keeping all their channels, reports
    exactly those (host, interval and channels), and leaves every other grant
    alone; a second reap at the same instant changes and reports nothing, so
    each expiry is journaled once. *)
Theorem reap_exact_once (r : GrantRegistry) (now : SystemTime) :
  exists r' expired, reap_to_revert r now = Some (r', expired)
    /\ (forall host g, r !! host = Some g ->
          (Grant.status g now = StExpired ->
             r' !! host = Some (NeedsRevert (recorded_channels g) now)) /\
          (Grant.status g now <> StExpired -> r' !! host = Some g))
    /\ (forall host, r !! host = None -> r' !! host = None)
    /\ (forall x, x ∈ expired <-> exists o e cs,
          r !! eg_host x = Some (Open o e cs) /\ e <= now
          /\ eg_opened_at x = o /\ eg_expires_at x = e /\ eg_channels x = cs)
    /\ reap_to_revert r' now = Some (r', []).
Proof.
  destruct (reap_to_revert_spec r now) as (r' & Hr & Hl). eexists r', _.
  split; [exact Hr|]. split; [|split; [|split]].
  - intros host g Hg. rewrite Hl, Hg. split; intros Hs.
    + apply status_Expired_iff in Hs as (o & e & cs & -> & Hle). cbn.
      by rewrite (proj2 (Z.leb_le _ _)).
    + destruct g; cbn; try done. case_goal; [|done]. bool_prop.
      destruct Hs. apply status_Expired_iff. eauto 10.
  - intros host Hg. by rewrite Hl, Hg.
  - intros x. rewrite elem_of_concat_fmap. split.
    + intros ([k g] & Hin%elem_of_btree_iter & (o & e & cs & -> & ? & ->)%reaped_report).
      cbn. eauto 10.
    + intros (o & e & cs & Hx & Hle & <- & <- & <-). exists (eg_host x, Open (eg_opened_at x) (eg_expires_at x) (eg_channels x)).
      rewrite elem_of_btree_iter. split; [done|]. apply reaped_report.
      do 3 eexists. repeat split; [done|]. by destruct x.
  - destruct (reap_to_revert_spec r' now) as (r'' & Hr' & Hl'). rewrite Hr'. do 2 f_equal.
    + apply map_eq. intros k. rewrite Hl', Hl. destruct (r !! k) as [g|]; [|done]. cbn. f_equal.
      destruct g; cbn; try done. by repeat (case_goal; cbn; try done); crush.
    + apply concat_fmap_nil. intros [k g] Hin%elem_of_btree_iter. rewrite Hl in Hin.
      destruct (r !! k) as [g0|]; [|done]. cbn in Hin. simplify_eq.
      destruct g0; cbn; try done. by repeat (case_goal; cbn; try done); crush.
Qed.

(** Boot demotion: [demote_opening] never panics; afterwards no grant is
    mid-open, and every host still records exactly the channels it recorded
    before, so nothing a dead daemon may have applied is lost. *)
Theorem demote_opening_loses_nothing (r : GrantRegistry) (now : SystemTime) :
  exists r' report, demote_opening r now = Some (r', report)
    /\ (forall host, recorded_channels <$> r' !! host = recorded_channels <$> r !! host)
    /\ (forall host g, r' !! host = Some g -> Grant.status g now <> StOpening)
    /\ (forall host cs, (host, cs) ∈ report <-> exists o e, r !! host = Some (Opening o e cs)).
Proof.
  destruct (demote_opening_spec r now) as (r' & Hr & Hl). eexists r', _.
  split; [exact Hr|]. split; [|split].
  - intros host. rewrite Hl. destruct (r !! host) as [[]|]; done.
  - intros host g Hg (o & e & cs & ->)%status_Opening_iff. rewrite Hl in Hg.
    destruct (r !! host) as [[]|]; done.
  - intros host cs. rewrite elem_of_concat_fmap. split.
    + intros ([k g] & Hin%elem_of_btree_iter & Hx). destruct g; cbn in Hx;
        try (by apply not_elem_of_nil in Hx). apply list_elem_of_singleton in Hx. naive_solver.
    + intros (o & e & Hg). exists (host, Opening o e cs). rewrite elem_of_btree_iter.
      split; [done|]. cbn. left.
Qed.

(** The approval reaper: [reap_expired_pending] never panics and closes
    exactly the pending requests whose window lapsed; afterwards no host is
    observed with a lapsed window, and a request still in its window keeps
    its proofs. *)
Theorem reap_pending_exact (r : GrantRegistry) (now : SystemTime) :
  exists r' expired, reap_expired_pending r now = Some (r', expired)
    /\ (forall host g, r !! host = Some g ->
          (Grant.status g now = StApprovalExpired -> r' !! host = Some Closed) /\
          (Grant.status g now <> StApprovalExpired -> r' !! host = Some g))
    /\ (forall host g, r' !! host = Some g -> Grant.status g now <> StApprovalExpired)
    /\ (forall x, x ∈ expired <-> exists ttl n p s,
          r !! ep_host x =
            Some (Pending (ep_requested_at x) (ep_approval_deadline x) ttl n p s)
          /\ ep_approval_deadline x <= now).
Proof.
  destruct (reap_expired_pending_spec r now) as (r' & Hr & Hl). eexists r', _.
  assert (Hp : forall g k, Grant.status g now <> StApprovalExpired ->
             (reaped_pending now k g).1 = g).
  { intros g k Hs. destruct g; cbn; try done. case_goal; [|done]. bool_prop.
    destruct Hs. apply status_ApprovalExpired_iff. eauto 10. }
  assert (Hq : forall g k, Grant.status g now = StApprovalExpired ->
             (reaped_pending now k g).1 = Closed).
  { intros g k (? & ? & ? & ? & ? & ? & -> & ?)%status_ApprovalExpired_iff. cbn.
    by rewrite (proj2 (Z.leb_le _ _)). }
  split; [exact Hr|]. split; [|split].
  - intros host g Hg. rewrite Hl, Hg. cbn. split; intros; f_equal; auto.
  - intros host g Hg Hs. rewrite Hl in Hg. destruct (r !! host) as [g0|]; [|done].
    cbn in Hg. destruct (decide (Grant.status g0 now = StApprovalExpired)) as [Hd|Hd].
    + rewrite Hq in Hg by done. by simplify_eq.
    + rewrite Hp in Hg by done. simplify_eq.
  - intros x. rewrite elem_of_concat_fmap. split.
    + intros ([k g] & Hin%elem_of_btree_iter & Hx). destruct g; cbn in Hx;
        try (by apply not_elem_of_nil in Hx). case_hyp Hx; cbn in Hx; [|by apply not_elem_of_nil in Hx].
      apply list_elem_of_singleton in Hx as ->. bool_prop. cbn. eauto 10.
    + intros (ttl & n & p & s & Hx & Hle). eexists (_, _). rewrite elem_of_btree_iter.
      split; [exact Hx|]. cbn. rewrite (proj2 (Z.leb_le _ _)) by done. destruct x. left.
Qed.
