(* ===== verification/Snapshot.v ===== *)
(** * Snapshot: the registry's on-disk shape (core/src/snapshot.rs)

    The record and its validation, the document, and the two directions
    [snapshot] and [from_parts].  JSON itself is serde's; what the code adds
    to it, the whole-second encoding of the instants, is [epoch_opt]. *)

From stdpp Require Import relations.
From S2P Require Import Prelude Text Clock Ttl External Reference Approval Authority Inventory Grant GrantProps Registry.
#[local] Open Scope Z_scope.

Definition STATE_VERSION : Z := 4.

Record GrantRecord := {
  state : string;
  opened_at : option SystemTime;
  expires_at : option SystemTime;
  since : option SystemTime;
  rec_channels : list Channel;
  requested_at : option SystemTime;
  approval_deadline : option SystemTime;
  ttl_secs : option Z;
  nonce : option string;
  profile : option string;
  satisfied : option (list string);
}.

Record StateDoc := { version : Z; doc_grants : gmap string GrantRecord }.

(** [StateDoc::default]. *)
Definition default : StateDoc := {| version := STATE_VERSION; doc_grants := ∅ |}.

(** The text of a [Malformed] refusal; the last one carries the quoted name. *)
Inductive Message :=
| Msg (text : string)
| UnknownState (other : string).

Inductive SnapshotError :=
| UnknownHosts (hosts : list string)
| ExpiryNotAfterOpening (host : string)
| SpanExceedsCap (host : string) (secs : Z)
| ApprovalDeadlineNotAfterRequest (host : string)
| ApprovalWindowExceedsCap (host : string) (secs : Z)
| Malformed (host : string) (message : Message).

#[export] Instance GrantRecord_eq_dec : EqDecision GrantRecord.
Proof. solve_decision. Defined.
#[export] Instance Message_eq_dec : EqDecision Message.
Proof. solve_decision. Defined.
#[export] Instance SnapshotError_eq_dec : EqDecision SnapshotError.
Proof. solve_decision. Defined.

(** ** [epoch_opt] *)

(** The field written to disk for a present instant. *)
Definition serialize (t : SystemTime) : Z := epoch_secs t.

Definition from_secs_checked (secs : Z) : option SystemTime :=
  checked_add UNIX_EPOCH (Clock.from_secs secs).

(** [None] is the ["epoch seconds overflow SystemTime"] refusal. *)
Definition deserialize (secs : option Z) : option (option SystemTime) :=
  match secs with
  | None => Some None
  | Some s => match from_secs_checked s with Some t => Some (Some t) | None => None end
  end.

(** ** Records *)

Section Record_.
Context `{DataEncoding}.

Definition base : GrantRecord :=
  {| state := ""; opened_at := None; expires_at := None; since := None; rec_channels := [];
     requested_at := None; approval_deadline := None; ttl_secs := None; nonce := None;
     profile := None; satisfied := None |}.

Definition record_of (p : GrantParts) : GrantRecord :=
  match p with
  | PartsPending r d ttl n prof s =>
      {| state := "pending"; requested_at := Some r; approval_deadline := Some d;
         ttl_secs := Some (as_secs (duration ttl)); nonce := Some (hexlower_encode n);
         profile := Some prof; satisfied := Some (btree_elements s);
         opened_at := opened_at base; expires_at := expires_at base; since := since base;
         rec_channels := rec_channels base |}
  | PartsOpening o e cs =>
      {| state := "opening"; opened_at := Some o; expires_at := Some e; rec_channels := cs;
         since := since base; requested_at := requested_at base;
         approval_deadline := approval_deadline base; ttl_secs := ttl_secs base;
         nonce := nonce base; profile := profile base; satisfied := satisfied base |}
  | PartsOpen o e cs =>
      {| state := "open"; opened_at := Some o; expires_at := Some e; rec_channels := cs;
         since := since base; requested_at := requested_at base;
         approval_deadline := approval_deadline base; ttl_secs := ttl_secs base;
         nonce := nonce base; profile := profile base; satisfied := satisfied base |}
  | PartsNeedsRevert cs s =>
      {| state := "needs-revert"; since := Some s; rec_channels := cs;
         opened_at := opened_at base; expires_at := expires_at base;
         requested_at := requested_at base;
         approval_deadline := approval_deadline base; ttl_secs := ttl_secs base;
         nonce := nonce base; profile := profile base; satisfied := satisfied base |}
  end.

(** A word between double quotes. *)
Definition quoted (w : string) : string :=
  String "034"%char (w +:+ String "034"%char EmptyString).

Definition is_some {A} (o : option A) : bool := bool_decide (is_Some o).

Definition malformed (host message : string) : SnapshotError := Malformed host (Msg message).

(** The closure [no_pending_fields]. *)
Definition no_pending_fields (host : string) (record : GrantRecord)
    : result SnapshotError unit :=
  if is_some (requested_at record) || is_some (approval_deadline record)
     || is_some (ttl_secs record) || is_some (nonce record)
     || is_some (profile record) || is_some (satisfied record)
  then Err (malformed host
    "requested_at/approval_deadline/ttl_secs/nonce/profile/satisfied belong to pending only")
  else Ok tt.

(** The closure [interval]. *)
Definition interval (host : string) (record : GrantRecord)
    : result SnapshotError (SystemTime * SystemTime) :=
  let? _ := no_pending_fields host record in
  let? o := ok_or (opened_at record) (malformed host "missing opened_at") in
  let? e := ok_or (expires_at record) (malformed host "missing expires_at") in
  if is_some (since record)
  then Err (malformed host (quoted "since" +:+ " belongs to needs-revert only"))
  else
    let? span := match duration_since e o with
                 | Some span =>
                     if negb (is_zero span) then Ok span else Err (ExpiryNotAfterOpening host)
                 | None => Err (ExpiryNotAfterOpening host)
                 end in
    if MAX_TTL_SECS <? as_secs span then Err (SpanExceedsCap host (as_secs span))
    else Ok (o, e).

(** The ["pending"] arm. *)
Definition pending_parts (host : string) (record : GrantRecord)
    : result SnapshotError GrantParts :=
  if is_some (opened_at record) || is_some (expires_at record) || is_some (since record)
  then Err (malformed host
    "pending carries requested_at/approval_deadline/ttl_secs/nonce, not opened/expires/since")
  else if negb (bool_decide (rec_channels record = []))
  then Err (malformed host "a pending request has no applied channels")
  else
    let? r := ok_or (requested_at record) (malformed host "missing requested_at") in
    let? d := ok_or (approval_deadline record) (malformed host "missing approval_deadline") in
    let? secs := ok_or (ttl_secs record) (malformed host "missing ttl_secs") in
    let? ttl := map_err (fun _ => if MAX_TTL_SECS <? secs then SpanExceedsCap host secs
                                  else malformed host "ttl_secs is zero")
                  (Ttl.from_secs secs) in
    let? window := match duration_since d r with
                   | Some w => if negb (is_zero w) then Ok w
                               else Err (ApprovalDeadlineNotAfterRequest host)
                   | None => Err (ApprovalDeadlineNotAfterRequest host)
                   end in
    if MAX_APPROVAL_WINDOW_SECS <? as_secs window
    then Err (ApprovalWindowExceedsCap host (as_secs window))
    else
      let? hex := ok_or (nonce record) (malformed host "missing nonce") in
      let? bytes := ok_or (hexlower_decode hex) (malformed host "nonce is not valid hex") in
      if negb (Nat.eqb (length bytes) 32) then Err (malformed host "nonce is not 32 bytes")
      else
        Ok (PartsPending r d ttl bytes
              (match profile record with Some p => p | None => "" end)
              (list_to_set (match satisfied record with Some l => l | None => [] end))).

Definition parts_of (host : string) (record : GrantRecord) : result SnapshotError GrantParts :=
  if String.eqb (state record) "pending" then pending_parts host record
  else if String.eqb (state record) "opening" then
    let? p := interval host record in Ok (PartsOpening p.1 p.2 (rec_channels record))
  else if String.eqb (state record) "open" then
    let? p := interval host record in Ok (PartsOpen p.1 p.2 (rec_channels record))
  else if String.eqb (state record) "needs-revert" then
    let? _ := no_pending_fields host record in
    if is_some (opened_at record) || is_some (expires_at record)
    then Err (malformed host ("needs-revert carries only " +:+ quoted "since" +:+ " and channels"))
    else
      let? s := ok_or (since record) (malformed host "missing since") in
      Ok (PartsNeedsRevert (rec_channels record) s)
  else Err (Malformed host (UnknownState (state record))).

(** [GrantRegistry::snapshot]: closed grants leave no record. *)
Definition snapshot (r : GrantRegistry) : StateDoc :=
  {| version := STATE_VERSION;
     doc_grants := list_to_map (omap (fun p : string * GrantState =>
         (fun q => (p.1, record_of q)) <$> parts p.2) (Registry.grants r)) |}.

(** The loop of [from_parts] over the document's records. *)
Fixpoint restore_all (records : list (string * GrantRecord)) (r : GrantRegistry)
    : result SnapshotError GrantRegistry :=
  match records with
  | [] => Ok r
  | (host, record) :: rest =>
      let? p := parts_of host record in
      restore_all rest (Registry.restore r host (Grant.restore p))
  end.

Definition from_parts (inventory : Inventory) (doc : StateDoc)
    : result SnapshotError GrantRegistry :=
  let registry := Registry.new inventory in
  let unknown := List.filter (fun host => negb (knows registry host))
                   (btree_keys (doc_grants doc)) in
  if negb (bool_decide (unknown = [])) then Err (UnknownHosts unknown)
  else restore_all (btree_iter (doc_grants doc)) registry.

(** ** Through the disk

    What a record reads back as after it is written: every instant passes
    through [epoch_opt]; the other fields are serde's and come back as they
    went.  [None] is a load error. *)
Definition reread_time (t : option SystemTime) : option (option SystemTime) :=
  deserialize (serialize <$> t).

Definition reread_record (r : GrantRecord) : option GrantRecord :=
  o ← reread_time (opened_at r);
  e ← reread_time (expires_at r);
  s ← reread_time (since r);
  q ← reread_time (requested_at r);
  d ← reread_time (approval_deadline r);
  Some {| state := state r; opened_at := o; expires_at := e; since := s;
          rec_channels := rec_channels r; requested_at := q; approval_deadline := d;
          ttl_secs := ttl_secs r; nonce := nonce r; profile := profile r;
          satisfied := satisfied r |}.

Definition reread_doc (doc : StateDoc) : option StateDoc :=
  l ← mapM (fun p : string * GrantRecord => pair p.1 <$> reread_record p.2)
        (btree_iter (doc_grants doc));
  Some {| version := version doc; doc_grants := list_to_map l |}.
End Record_.

(** ** What can be stored *)

(** The ranges the Rust types give every grant. *)
Definition typed (g : Grant) : Prop :=
  match g with
  | Pending _ _ ttl n _ _ => Ttl.wf ttl /\ length n = 32%nat /\ Forall is_u8 n
  | _ => True
  end.

Definition span_ok (from to : SystemTime) : Prop :=
  from < to /\ as_secs (to - from) <= MAX_TTL_SECS.

(** The grants whose record the validation accepts. *)
Definition storable (g : Grant) : Prop :=
  match g with
  | Pending r d _ _ _ _ => span_ok r d
  | Opening o e _ | Open o e _ => span_ok o e
  | Closed | NeedsRevert _ _ => True
  end.

(** ** Lemmas *)

Section Lemmas.
Context `{DataEncodingLaws}.

Lemma list_to_set_btree_elements (s : gset string) : list_to_set (btree_elements s) = s.
Proof.
  apply set_eq. intros x. rewrite elem_of_list_to_set. unfold btree_elements.
  by rewrite merge_sort_Permutation, elem_of_elements.
Qed.

Lemma span_check {E} (from to : SystemTime) (e : E) :
  (match duration_since to from with
   | Some span => if negb (is_zero span) then Ok span else Err e
   | None => Err e end) = if from <? to then Ok (to - from) else Err e.
Proof. unfold duration_since, is_zero. repeat case_goal; crush. Qed.

(** The validation of an interval, in one equation. *)
Lemma interval_eq host record o e :
  no_pending_fields host record = Ok tt -> since record = None ->
  opened_at record = Some o -> expires_at record = Some e ->
  interval host record =
    if negb (o <? e) then Err (ExpiryNotAfterOpening host)
    else if MAX_TTL_SECS <? as_secs (e - o) then Err (SpanExceedsCap host (as_secs (e - o)))
    else Ok (o, e).
Proof.
  intros Hn Hs Ho He. unfold interval. rewrite Hn, Hs, Ho, He. cbn [ok_or is_some].
  change (is_some None) with false. cbn iota. rewrite span_check. by case_goal.
Qed.

Lemma interval_ok host record o e :
  no_pending_fields host record = Ok tt -> since record = None ->
  opened_at record = Some o -> expires_at record = Some e -> span_ok o e ->
  interval host record = Ok (o, e).
Proof.
  intros Hn Hs Ho He [Hlt Hle]. rewrite (interval_eq _ _ o e) by done.
  rewrite (proj2 (Z.ltb_lt _ _) Hlt). cbn. by rewrite (proj2 (Z.ltb_ge _ _) Hle).
Qed.

Lemma interval_err host record o e :
  no_pending_fields host record = Ok tt -> since record = None ->
  opened_at record = Some o -> expires_at record = Some e -> ~ span_ok o e ->
  is_ok (interval host record) = false.
Proof.
  intros Hn Hs Ho He Hsp. rewrite (interval_eq _ _ o e) by done.
  repeat case_goal; bool_prop; try done. destruct Hsp. split; lia.
Qed.

(** A record is read back as the parts it was made of. *)
Lemma parts_of_record_of host g p :
  typed g -> storable g -> parts g = Some p -> parts_of host (record_of p) = Ok p.
Proof.
  intros Ht Hs Hp. destruct g as [|r d ttl n pr s|o e cs|o e cs|cs t]; cbn in Hp; simplify_eq.
  - destruct Ht as ((secs & Hd & Hr) & Hl & Hu). destruct Hs as [Hlt Hle].
    unfold parts_of, pending_parts. cbn -[as_secs MAX_TTL_SECS Ttl.from_secs].
    rewrite Hd, as_secs_from_secs.
    rewrite (proj2 (Ttl.from_secs_Ok secs ttl)); [|split_and!; [lia|lia|]].
    + cbn [map_err]. rewrite span_check, (proj2 (Z.ltb_lt _ _) Hlt).
      unfold MAX_APPROVAL_WINDOW_SECS. rewrite (proj2 (Z.ltb_ge _ _) Hle).
      rewrite hexlower_decode_encode by done. cbn [ok_or]. rewrite Hl. cbn.
      by rewrite list_to_set_btree_elements.
    + destruct ttl. cbn in Hd. by subst.
  - unfold parts_of. cbn -[interval]. by rewrite (interval_ok _ _ o e).
  - unfold parts_of. cbn -[interval]. by rewrite (interval_ok _ _ o e).
  - done.
Qed.

Lemma parts_of_record_of_err host g p :
  typed g -> ~ storable g -> parts g = Some p -> is_ok (parts_of host (record_of p)) = false.
Proof.
  intros Ht Hs Hp. destruct g as [|r d ttl n pr s|o e cs|o e cs|cs t]; cbn in Hp; simplify_eq.
  - destruct Ht as ((secs & Hd & Hr) & Hl & Hu).
    unfold parts_of, pending_parts. cbn -[as_secs MAX_TTL_SECS Ttl.from_secs].
    rewrite Hd, as_secs_from_secs.
    rewrite (proj2 (Ttl.from_secs_Ok secs ttl)); [|split_and!; [lia|lia|]].
    + cbn [map_err]. rewrite span_check. unfold MAX_APPROVAL_WINDOW_SECS.
      repeat case_goal; bool_prop; simplify_eq; try done; destruct Hs; split; lia.
    + destruct ttl. cbn in Hd. by subst.
  - unfold parts_of. cbn -[interval].
    pose proof (interval_err host (record_of (PartsOpening o e cs)) o e) as Hi.
    cbn -[interval] in Hi. destruct (interval _ _); [|done].
    by specialize (Hi eq_refl eq_refl eq_refl eq_refl Hs).
  - unfold parts_of. cbn -[interval].
    pose proof (interval_err host (record_of (PartsOpen o e cs)) o e) as Hi.
    cbn -[interval] in Hi. destruct (interval _ _); [|done].
    by specialize (Hi eq_refl eq_refl eq_refl eq_refl Hs).
  - by destruct Hs.
Qed.

(** The loop of [from_parts] when every record is accepted. *)
Lemma restore_all_Ok l r (f : string -> GrantParts) :
  NoDup l.*1 ->
  (forall k record, (k, record) ∈ l -> parts_of k record = Ok (f k) /\ is_Some (r !! k)) ->
  exists r', restore_all l r = Ok r' /\
    forall k, r' !! k = if decide (k ∈ l.*1) then Some (Grant.restore (f k)) else r !! k.
Proof.
  revert r. induction l as [|[k record] l IH]; intros r Hnd Hl; [by exists r|].
  apply NoDup_cons in Hnd as [Hk Hnd]. cbn [restore_all].
  destruct (Hl k record) as [-> [g Hg]]; [left|]. unfold Registry.restore. rewrite Hg.
  destruct (IH (<[k := Grant.restore (f k)]> r)) as (r' & Hr & Hlk); [done|..].
  - intros k' record' Hin. destruct (Hl k' record') as [Hp Hs]; [by right|]. split; [done|].
    destruct (decide (k' = k)) as [->|]; [by rewrite lookup_insert_eq; eauto|].
    by rewrite lookup_insert_ne.
  - exists r'. split; [done|]. intros k'. rewrite Hlk. cbn [fmap list_fmap fst].
    destruct (decide (k' = k)) as [->|Hne].
    + rewrite decide_False by done. rewrite decide_True by left. by rewrite lookup_insert_eq.
    + rewrite lookup_insert_ne by done. destruct (decide (k' ∈ l.*1)).
      * by rewrite decide_True by (by right).
      * by rewrite decide_False by (intros [?|?]%elem_of_cons; done).
Qed.

Lemma restore_all_Err l r k record :
  (k, record) ∈ l -> is_ok (parts_of k record) = false -> is_ok (restore_all l r) = false.
Proof.
  revert r. induction l as [|[k' record'] l IH]; intros r Hin He;
    [by apply not_elem_of_nil in Hin|]. cbn [restore_all].
  apply elem_of_cons in Hin as [E|Hin]; [simplify_eq; by destruct (parts_of k' record')|].
  destruct (parts_of k' record'); [|done]. by apply IH.
Qed.

Lemma omap_fst_sublist {A B} (f : string * A -> option (string * B)) (l : list (string * A)) :
  (forall p q, f p = Some q -> q.1 = p.1) -> (omap f l).*1 `sublist_of` l.*1.
Proof.
  intros Hf. induction l as [|p l IH]; cbn; [constructor|].
  destruct (f p) as [q|] eqn:Hq; cbn; [|by apply sublist_cons].
  rewrite (Hf _ _ Hq). by constructor.
Qed.

Lemma lookup_snapshot (r : GrantRegistry) k :
  doc_grants (snapshot r) !! k = r !! k ≫= fun g => record_of <$> parts g.
Proof.
  unfold snapshot. cbn [doc_grants]. set (l := omap _ _).
  assert (Hnd : NoDup l.*1).
  { eapply sublist_NoDup; [apply (NoDup_btree_keys r)|]. apply omap_fst_sublist.
    intros [k' g] q Hq. cbn in *. destruct (parts g); cbn in Hq; by simplify_eq. }
  apply option_eq. intros v. rewrite <-elem_of_list_to_map by done. unfold l, Registry.grants.
  rewrite list_elem_of_omap. split.
  - intros ([k' g] & Hin%elem_of_btree_iter & Hq). cbn in Hq.
    destruct (parts g) eqn:Hp; cbn in Hq; [|done]. simplify_eq. rewrite Hin. cbn. by rewrite Hp.
  - intros Hv. destruct (r !! k) as [g|] eqn:Hg; [|done]. cbn in Hv.
    exists (k, g). rewrite elem_of_btree_iter. split; [done|]. cbn.
    by destruct (parts g); cbn in *; simplify_eq.
Qed.
End Lemmas.

(** The registry holds exactly the inventory's hosts. *)
Definition of_inventory (inventory : Inventory) (r : GrantRegistry) : Prop :=
  forall host, is_Some (r !! host) <-> host ∈ name <$> hosts inventory.

(** The instant a whole-second representation keeps. *)
Definition trunc (t : SystemTime) : SystemTime := Clock.from_secs (as_secs t).

Definition trunc_grant (g : Grant) : Grant :=
  match g with
  | Closed => Closed
  | Pending r d ttl n p s => Pending (trunc r) (trunc d) ttl n p s
  | Opening o e cs => Opening (trunc o) (trunc e) cs
  | Open o e cs => Open (trunc o) (trunc e) cs
  | NeedsRevert cs t => NeedsRevert cs (trunc t)
  end.

(** Every instant of the grant lies between the epoch and the clock's end. *)
Definition on_clock (g : Grant) : Prop :=
  let ok t := 0 <= t < CLOCK_END in
  match g with
  | Closed => True
  | Pending r d _ _ _ _ => ok r /\ ok d
  | Opening o e _ | Open o e _ => ok o /\ ok e
  | NeedsRevert _ t => ok t
  end.

Section Reload.
Context `{DataEncodingLaws}.

Lemma parts_restore g p : parts g = Some p -> Grant.restore p = g.
Proof. destruct g; cbn; intros; by simplify_eq. Qed.

Lemma snapshot_hosts_known inventory r k :
  of_inventory inventory r -> k ∈ btree_keys (doc_grants (snapshot r)) ->
  is_Some (Registry.new inventory !! k).
Proof.
  intros Hinv [v Hv]%elem_of_btree_keys. rewrite lookup_snapshot in Hv.
  rewrite lookup_new. destruct (r !! k) eqn:Hk; [|done].
  rewrite decide_True; [by eexists|]. apply Hinv. by eexists.
Qed.

Lemma snapshot_unknown_nil inventory r :
  of_inventory inventory r ->
  List.filter (fun host => negb (knows (Registry.new inventory) host))
    (btree_keys (doc_grants (snapshot r))) = [].
Proof.
  intros Hinv. pose proof (snapshot_hosts_known inventory r) as Hk.
  induction (btree_keys _) as [|k l IH]; [done|]. cbn.
  unfold knows at 1. rewrite bool_decide_true by (apply Hk; [done|left]). cbn.
  apply IH. intros. apply Hk; [done|by right].
Qed.

Lemma from_parts_snapshot inventory r :
  of_inventory inventory r -> (forall host g, r !! host = Some g -> typed g /\ storable g) ->
  from_parts inventory (snapshot r) = Ok r.
Proof.
  intros Hinv Hg. unfold from_parts. rewrite snapshot_unknown_nil by done.
  rewrite bool_decide_true by done. cbn [negb].
  destruct (restore_all_Ok (btree_iter (doc_grants (snapshot r))) (Registry.new inventory)
    (fun k => match r !! k ≫= parts with Some p => p | None => PartsNeedsRevert [] 0 end))
    as (r' & -> & Hr').
  - apply NoDup_btree_keys.
  - intros k record Hin. split.
    + apply elem_of_btree_iter in Hin. rewrite lookup_snapshot in Hin.
      destruct (r !! k) as [g|] eqn:Hk; [|done]. cbn in *.
      destruct (parts g) as [p|] eqn:Hp; cbn in *; [|done]. simplify_eq.
      destruct (Hg _ _ Hk). by eapply parts_of_record_of.
    + eapply snapshot_hosts_known; [done|]. apply elem_of_btree_keys.
      apply elem_of_btree_iter in Hin. eauto.
  - f_equal. apply map_eq. intros k. rewrite Hr'.
    destruct (decide (k ∈ _)) as [Hin|Hin].
    + apply elem_of_btree_keys in Hin as [v Hv]. rewrite lookup_snapshot in Hv.
      destruct (r !! k) as [g|] eqn:Hk; [|done]. cbn in *.
      destruct (parts g) as [p|] eqn:Hp; [|done]. f_equal. by apply parts_restore.
    + rewrite lookup_new. destruct (r !! k) as [g|] eqn:Hk.
      * rewrite decide_True by (apply Hinv; eauto). f_equal.
        destruct g as [| | | |]; [done|exfalso; apply Hin, elem_of_btree_keys;
          rewrite lookup_snapshot, Hk; cbn; eauto ..].
      * rewrite decide_False; [done|]. intros Hn%Hinv. rewrite Hk in Hn.
        by destruct Hn.
Qed.

Lemma from_parts_snapshot_err inventory r host g :
  of_inventory inventory r -> r !! host = Some g -> typed g -> ~ storable g ->
  is_ok (from_parts inventory (snapshot r)) = false.
Proof.
  intros Hinv Hr Ht Hs. unfold from_parts. rewrite snapshot_unknown_nil by done.
  rewrite bool_decide_true by done. cbn [negb].
  destruct (parts g) as [p|] eqn:Hp; [|by destruct g].
  eapply (restore_all_Err _ _ host (record_of p)).
  - apply elem_of_btree_iter. rewrite lookup_snapshot, Hr. cbn. by rewrite Hp.
  - by eapply parts_of_record_of_err.
Qed.

(** ** Through the disk *)

Lemma reread_time_Some t : 0 <= t < CLOCK_END -> reread_time (Some t) = Some (Some (trunc t)).
Proof.
  intros Ht. unfold reread_time, deserialize, serialize, from_secs_checked. cbn.
  unfold epoch_secs. rewrite duration_since_ge by (unfold UNIX_EPOCH; lia).
  rewrite Z.sub_0_r. rewrite (proj2 (checked_add_Some _ _ (trunc t))); [done|].
  unfold UNIX_EPOCH, trunc. pose proof (from_secs_as_secs_le t). split; lia.
Qed.

Lemma reread_record_of g p :
  on_clock g -> parts g = Some p ->
  reread_record (record_of p) = record_of <$> parts (trunc_grant g).
Proof.
  intros Hc Hp. destruct g; cbn in Hp; simplify_eq; cbn in Hc; destruct_and?;
    unfold reread_record; cbn -[reread_time]; rewrite !reread_time_Some by done; done.
Qed.

Lemma mapM_all {A B} (f : A -> option B) (h : A -> B) l :
  (forall x, x ∈ l -> f x = Some (h x)) -> mapM f l = Some (h <$> l).
Proof.
  intros Hf. induction l as [|x l IH]; [done|]. cbn. rewrite (Hf x) by left. cbn.
  rewrite IH; [done|]. intros. apply Hf. by right.
Qed.

Lemma list_to_map_btree_iter {V} (m : gmap string V) : list_to_map (btree_iter m) = m.
Proof.
  rewrite <-(list_to_map_to_list m) at 2. apply list_to_map_proper.
  - apply NoDup_btree_keys.
  - apply btree_iter_Permutation.
Qed.

Lemma StateDoc_ext (d1 d2 : StateDoc) :
  version d1 = version d2 -> (forall k, doc_grants d1 !! k = doc_grants d2 !! k) -> d1 = d2.
Proof. destruct d1, d2. cbn. intros -> Hm. f_equal. by apply map_eq. Qed.

(** A document made of a registry reads back from disk as the document of
    the registry with its instants floored to the second. *)
Lemma reread_snapshot r :
  (forall host g, r !! host = Some g -> on_clock g) ->
  reread_doc (snapshot r) = Some (snapshot (trunc_grant <$> r)).
Proof.
  intros Hc. unfold reread_doc.
  set (h := fun p : string * GrantRecord =>
    (p.1, match r !! p.1 ≫= fun g => parts (trunc_grant g) with
          | Some q => record_of q | None => p.2 end)).
  assert (Hall : forall p, p ∈ btree_iter (doc_grants (snapshot r)) ->
    pair p.1 <$> reread_record p.2 = Some (h p)).
  { intros [k v] Hin%elem_of_btree_iter. rewrite lookup_snapshot in Hin.
    destruct (r !! k) as [g|] eqn:Hk; [|done]. cbn in Hin |- *.
    destruct (parts g) as [p|] eqn:Hp; cbn in Hin; [|done]. simplify_eq.
    unfold h. cbn. rewrite Hk. cbn.
    rewrite (reread_record_of g p) by eauto. by destruct g. }
  rewrite (mapM_all _ h) by exact Hall. cbn [mbind option_bind]. f_equal.
  apply StateDoc_ext; [done|]. intros k. cbn [doc_grants].
  rewrite lookup_snapshot, lookup_fmap. apply option_eq. intros v.
  rewrite <-elem_of_list_to_map.
  - rewrite list_elem_of_fmap. split.
    + intros ([k' v'] & Hh & Hin). pose proof Hin as Hin'.
      apply elem_of_btree_iter in Hin. rewrite lookup_snapshot in Hin.
      unfold h in Hh. cbn in Hh. simplify_eq.
      destruct (r !! k') as [g|]; [|done]. cbn in *. by destruct g.
    + intros Hv. destruct (r !! k) as [g|] eqn:Hk; [|done]. cbn in Hv.
      destruct (parts g) as [p|] eqn:Hp; [|by destruct g].
      exists (k, record_of p). rewrite elem_of_btree_iter, lookup_snapshot, Hk. cbn.
      rewrite Hp. split; [|done]. unfold h. cbn. rewrite Hk. cbn.
      by destruct g; cbn in *; simplify_eq.
  - rewrite <-list_fmap_compose. apply (NoDup_btree_keys (doc_grants (snapshot r))).
Qed.
End Reload.

(** ** Properties *)

(** Snapshot round trip, exactly: a registry over the inventory's hosts
    reloads from its own snapshot as itself when every interval it stores is
    positive and within the cap, and the reload is refused as soon as one is
    not. *)
Theorem snapshot_reload_exact `{DataEncodingLaws} (inventory : Inventory) (r : GrantRegistry)
    (Hinv : of_inventory inventory r)
    (Ht : forall host g, r !! host = Some g -> typed g) :
  ((forall host g, r !! host = Some g -> storable g) ->
     from_parts inventory (snapshot r) = Ok r)
  /\ ((exists host g, r !! host = Some g /\ ~ storable g) ->
     exists e, from_parts inventory (snapshot r) = Err e).
Proof.
  split.
  - intros Hs. apply from_parts_snapshot; eauto.
  - intros (host & g & Hr & Hs).
    pose proof (from_parts_snapshot_err inventory r host g Hinv Hr (Ht _ _ Hr) Hs) as He.
    destruct (from_parts _ _); [done|eauto].
Qed.


(** A sample host, its inventory and a grant opened for one minute. *)
Definition sample_host (n : string) : Host :=
  {| name := n; address := "10.0.0.1"; os := Linux; channels := [Ssh]; ssh := None; bmc := None;
     vnc := None; http := None; mqtt := None; serial := None; device := None; access := None;
     drill := false |}.
Definition sample_inventory : Inventory :=
  {| hosts := [sample_host "db-01"]; signing := None; approval := None |}.
Definition sample_registry (g : Grant) : GrantRegistry := {["db-01" := g]}.

Lemma sample_of_inventory g : of_inventory sample_inventory (sample_registry g).
Proof.
  intros host. unfold sample_registry. cbn. rewrite lookup_singleton_is_Some, list_elem_of_singleton.
  naive_solver.
Qed.

Lemma sample_lookup g host g' : sample_registry g !! host = Some g' -> g' = g.
Proof. unfold sample_registry. by intros [_ ->]%lookup_singleton_Some. Qed.

Lemma snapshot_reload_exact_witness :
  let r := sample_registry (Open 7 (7 + Clock.from_secs 60) [Ssh]) in
  of_inventory sample_inventory r /\ from_parts sample_inventory (snapshot r) = Ok r.
Proof.
  cbn zeta. split; [apply sample_of_inventory|].
  apply (snapshot_reload_exact sample_inventory).
  - apply sample_of_inventory.
  - intros host g ->%sample_lookup. exact I.
  - intros host g ->%sample_lookup. split; vm_compute; done.
Defined.


(** *** Which histories can be stored *)

(** A step that is not a renewal and asks for an approval window within the
    cap. *)
Inductive plain_step : SystemTime * Grant -> SystemTime * Grant -> Prop :=
| plain_tick now now' g : now <= now' -> plain_step (now, g) (now', g)
| plain_op now op g :
    op_wf op ->
    (forall ttl, op <> OpRenew ttl) ->
    (forall d ttl n p, op = OpBeginPending d ttl n p -> span_ok now d) ->
    plain_step (now, g) (now, (run op now g).1).

Lemma span_ok_ttl now ttl : Ttl.wf ttl -> span_ok now (now + duration ttl).
Proof.
  intros (s & Hd & Hs). unfold span_ok. rewrite Hd.
  replace (now + Clock.from_secs s - now) with (Clock.from_secs s) by lia.
  rewrite as_secs_from_secs. unfold Clock.from_secs, NANOS_PER_SEC. lia.
Qed.

Definition storable_now (c : SystemTime * Grant) : Prop := storable c.2 /\ bounded c.1 c.2.

Lemma plain_step_storable c c' : plain_step c c' -> storable_now c -> storable_now c'.
Proof.
  intros Hp [Hs Hb]. split; [|destruct Hp; cbn in *; [by eapply bounded_mono|by apply bounded_run]].
  destruct Hp as [|now op g Hw Hr Hd]; [done|]. cbn in *. revert Hs Hb.
  destruct op; op_cases; auto_time; intros;
    repeat match goal with
    | Hx : forall t : Ttl, OpRenew _ <> OpRenew t |- _ => by destruct (Hx _ eq_refl)
    end; first [done | by apply span_ok_ttl | by apply span_ok_ttl, Hb | by eapply Hd].
Qed.

(** Without renewals the state file always reloads: every grant reached
    by operations other than [renew], with approval windows within the cap,
    has a record the validation accepts. *)
Theorem unrenewed_grants_storable (t0 now : SystemTime) (g : Grant)
    (Hsteps : rtc plain_step (t0, Grant.new) (now, g)) : storable g.
Proof.
  assert (Hs : storable_now (now, g)); [|apply Hs]. revert Hsteps. generalize (now, g).
  apply rtc_ind_r; [done|]. intros. by eapply plain_step_storable.
Qed.

Lemma unrenewed_grants_storable_witness :
  let g := Opening 5 (5 + Clock.from_secs 60) [Ssh] in
  rtc plain_step (5, Grant.new) (5, g) /\ storable g.
Proof.
  cbn zeta.
  assert (Hs : rtc plain_step (5, Grant.new) (5, Opening 5 (5 + Clock.from_secs 60) [Ssh])).
  { apply rtc_once. apply (plain_op 5 (OpBeginOpen (MkTtl (Clock.from_secs 60)) [Ssh])).
    - exists 60. split; [reflexivity|]. vm_compute. done.
    - discriminate.
    - discriminate. }
  split; [exact Hs|]. exact (unrenewed_grants_storable 5 5 _ Hs).
Defined.

(** With renewals it does not: a renewal keeps [opened_at] and moves
    [expires_at], so a grant renewed late in a long interval, a state every
    operation accepted, spans more than the cap; from then on every registry
    holding it is refused by [from_parts] with [SpanExceedsCap], while the
    grant itself is still observed open. *)
Theorem renewal_makes_state_unloadable `{DataEncoding} :
  exists (now : SystemTime) (g : Grant) (remaining : Duration),
    reachable (now, g) /\ Grant.status g now = StOpen remaining
    /\ from_parts sample_inventory (snapshot (sample_registry g))
       = Err (SpanExceedsCap "db-01" (47 * 3600)).
Proof.
  set (day := MkTtl (Clock.from_secs MAX_TTL_SECS)).
  assert (Hday : Ttl.wf day) by (exists MAX_TTL_SECS; done).
  set (late := Clock.from_secs (23 * 3600)).
  exists late, (Open 0 (late + duration day) [Ssh]), (duration day).
  split; [|split].
  - exists 0. eapply rtc_l; [apply (step_op 0 (OpBeginOpen day [Ssh])); exact Hday|].
    eapply rtc_l; [apply (step_op _ OpFinishOpen); exact I|].
    eapply rtc_l; [apply (step_tick _ late); vm_compute; done|].
    apply rtc_once. apply (step_op late (OpRenew day)). exact Hday.
  - vm_compute. done.
  - reflexivity.
Qed.
