(* ===== verification/Proto.v ===== *)
(** * Proto: the wire protocol of the control socket (core/src/proto.rs)

    JSON is serde's: a class gives its two parses and its printer at the
    types the code decodes, with the round trip the code relies on. *)

From S2P Require Import Prelude Text Clock Ttl External Approval Authority Inventory Grant Registry.

Definition PROTO_VERSION : Z := 4.
Definition MAX_LINE_BYTES : Z := 64 * 1024.

Inductive Op :=
| OOpen (host ttl : string) (profile : option string)
| OApprove (host token : string)
| OClose (host : string)
| ORenew (host ttl : string)
| OStatus
| ODrill (host : string).

Inductive ProtoError :=
| TooLarge (bytes : Z)
| PMalformed (text : string)
| VersionMismatch (theirs : Z)
| MissingField (op field : string)
| UnknownOp (op : string).

(** [RequestWire]; also the object [encode_request] builds. *)
Record RequestWire := {
  w_proto : Z;
  w_op : string;
  w_host : option string;
  w_ttl : option string;
  w_token : option string;
  w_profile : option string;
}.

Class RequestJson := {
  (** [serde_json::from_str::<VersionProbe>]. *)
  parse_probe : string -> result string (option Z);
  (** [serde_json::from_str::<RequestWire>]. *)
  parse_wire : string -> result string RequestWire;
  (** The object's [to_string]. *)
  print_wire : RequestWire -> string;
}.

Class RequestJsonLaws `{RequestJson} : Prop := {
  probe_print w : parse_probe (print_wire w) = Ok (Some (w_proto w));
  wire_print w : parse_wire (print_wire w) = Ok w;
}.

Section Codec.
Context `{RequestJson}.

Definition field (op name : string) (v : option string) : result ProtoError string :=
  ok_or v (MissingField op name).

Definition decode_op (wire : RequestWire) : result ProtoError Op :=
  if String.eqb (w_op wire) "open" then
    let? host := field "open" "host" (w_host wire) in
    let? ttl := field "open" "ttl" (w_ttl wire) in
    Ok (OOpen host ttl (w_profile wire))
  else if String.eqb (w_op wire) "approve" then
    let? host := field "approve" "host" (w_host wire) in
    let? token := field "approve" "token" (w_token wire) in
    Ok (OApprove host token)
  else if String.eqb (w_op wire) "close" then
    let? host := field "close" "host" (w_host wire) in Ok (OClose host)
  else if String.eqb (w_op wire) "renew" then
    let? host := field "renew" "host" (w_host wire) in
    let? ttl := field "renew" "ttl" (w_ttl wire) in
    Ok (ORenew host ttl)
  else if String.eqb (w_op wire) "status" then Ok OStatus
  else if String.eqb (w_op wire) "drill" then
    let? host := field "drill" "host" (w_host wire) in Ok (ODrill host)
  else Err (UnknownOp (w_op wire)).

Definition decode_request (line : string) : result ProtoError Op :=
  if MAX_LINE_BYTES <? str_len line then Err (TooLarge (str_len line))
  else
    let? probe := map_err PMalformed (parse_probe line) in
    let strict :=
      let? wire := map_err PMalformed (parse_wire line) in decode_op wire in
    match probe with
    | Some v => if negb (v =? PROTO_VERSION) then Err (VersionMismatch v) else strict
    | None => strict
    end.

Definition request_wire (op : Op) : RequestWire :=
  let mk name host ttl token profile :=
    {| w_proto := PROTO_VERSION; w_op := name; w_host := host; w_ttl := ttl;
       w_token := token; w_profile := profile |} in
  match op with
  | OOpen host ttl profile => mk "open" (Some host) (Some ttl) None profile
  | OApprove host token => mk "approve" (Some host) None (Some token) None
  | OClose host => mk "close" (Some host) None None None
  | ORenew host ttl => mk "renew" (Some host) (Some ttl) None None
  | OStatus => mk "status" None None None None
  | ODrill host => mk "drill" (Some host) None None None
  end.

Definition encode_request (op : Op) : string := print_wire (request_wire op).
End Codec.

(** ** Responses *)

Inductive LineState :=
| LClosed | LAwaitingApproval | LApprovalExpired | LOpening | LOpen | LExpired | LNeedsRevert.

Record GrantLine := {
  gl_host : string;
  gl_state : LineState;
  gl_remaining_secs : option Z;
  gl_stuck_channels : option (list Channel);
}.

Definition status_line (p : string * GrantStatus) : GrantLine :=
  let line st rem stuck :=
    {| gl_host := p.1; gl_state := st; gl_remaining_secs := rem; gl_stuck_channels := stuck |} in
  match p.2 with
  | StClosed => line LClosed None None
  | StAwaitingApproval r => line LAwaitingApproval (Some (as_secs r)) None
  | StApprovalExpired => line LApprovalExpired None None
  | StOpening => line LOpening None None
  | StOpen r => line LOpen (Some (as_secs r)) None
  | StExpired => line LExpired None None
  | StNeedsRevert cs => line LNeedsRevert None (Some cs)
  end.

Definition status_lines (registry : GrantRegistry) (now : SystemTime) : list GrantLine :=
  status_line <$> Registry.statuses registry now.

(** A label of what an authority still needs: the rendering of a [Missing], or
    the fixed label of a dry run. *)
Inductive MissingLabel := LMissing (m : Missing) | LAnyToken.

Record PendingChallenge := {
  pc_host : string;
  pc_challenge : string;
  pc_ttl_secs : Z;
  pc_requested_at : Z;
  pc_approval_deadline : Z;
  pc_profile : string;
  pc_weight : Z;
  pc_threshold : Z;
  pc_missing : list MissingLabel;
}.

Inductive ResponseResult := RsOk | RsRefused.
#[export] Instance ResponseResult_eq_dec : EqDecision ResponseResult.
Proof. solve_decision. Defined.

(** The [error] field carries the refusal; [R] is the type of refusals the
    daemon renders as text.  A narrowing is the channel and host its fixed
    sentence names. *)
Record Response (R : Type) := {
  rs_proto : Z;
  rs_result : ResponseResult;
  rs_error : option R;
  rs_expires_at : option Z;
  rs_outcome : option string;
  rs_grants : option (list GrantLine);
  rs_secret : option string;
  rs_secret_label : option string;
  rs_pending : option PendingChallenge;
  rs_narrowings : option (list (Channel * string));
}.
Arguments rs_result {R} _.
Arguments rs_error {R} _.
Arguments rs_expires_at {R} _.
Arguments rs_outcome {R} _.
Arguments rs_grants {R} _.
Arguments rs_secret {R} _.
Arguments rs_pending {R} _.

(** [Response::ok()] with the fields an arm fills. *)
Definition response {R} (expires_at : option Z) (outcome : option string)
    (grants : option (list GrantLine)) (secret secret_label : option string)
    (pending : option PendingChallenge) (narrowings : option (list (Channel * string))) : Response R :=
  {| rs_proto := PROTO_VERSION; rs_result := RsOk; rs_error := None; rs_expires_at := expires_at;
     rs_outcome := outcome; rs_grants := grants; rs_secret := secret;
     rs_secret_label := secret_label; rs_pending := pending; rs_narrowings := narrowings |}.

Definition ok {R} : Response R := response None None None None None None None.

Definition refused {R} (error : R) : Response R :=
  {| rs_proto := PROTO_VERSION; rs_result := RsRefused; rs_error := Some error;
     rs_expires_at := None; rs_outcome := None; rs_grants := None; rs_secret := None;
     rs_secret_label := None; rs_pending := None; rs_narrowings := None |}.

(** ** Properties *)

(** Requests round trip: what the client encodes, within the line cap, the
    daemon decodes as the same operation. *)
Theorem decode_encode_request `{RequestJsonLaws} (op : Op)
    (Hlen : str_len (encode_request op) <= MAX_LINE_BYTES) :
  decode_request (encode_request op) = Ok op.
Proof.
  unfold decode_request. rewrite (proj2 (Z.ltb_ge _ _) Hlen).
  unfold encode_request. rewrite probe_print, wire_print. by destruct op.
Qed.

(** Version first: a request that carries another protocol version is
    refused as a version mismatch naming it, whatever else the line holds. *)
Theorem other_version_refused `{RequestJson} (line : string) (v : Z)
    (Hlen : str_len line <= MAX_LINE_BYTES)
    (Hprobe : parse_probe line = Ok (Some v)) (Hv : v <> PROTO_VERSION) :
  decode_request line = Err (VersionMismatch v).
Proof.
  unfold decode_request. rewrite (proj2 (Z.ltb_ge _ _) Hlen), Hprobe. cbn [map_err].
  by rewrite (proj2 (Z.eqb_neq _ _) Hv).
Qed.

(** A concrete printer: the binary digits of the record's code. *)
Fixpoint pos_print (p : positive) : string :=
  match p with
  | xH => "1"
  | xO p => String "0"%char (pos_print p)
  | xI p => String "2"%char (pos_print p)
  end.

Fixpoint pos_parse (s : string) : option positive :=
  match s with
  | EmptyString => None
  | String c s =>
      if Ascii.eqb c "1"%char then Some xH
      else if Ascii.eqb c "0"%char then xO <$> pos_parse s
      else xI <$> pos_parse s
  end.

Lemma pos_parse_print p : pos_parse (pos_print p) = Some p.
Proof. induction p as [p IH|p IH|]; cbn; rewrite ?IH; done. Qed.

Definition wire_tuple (w : RequestWire) :=
  (w_proto w, w_op w, w_host w, w_ttl w, w_token w, w_profile w).
Definition wire_untuple (t : Z * string * option string * option string * option string
    * option string) : RequestWire :=
  let '(p, o, h, t, k, f) := t in
  {| w_proto := p; w_op := o; w_host := h; w_ttl := t; w_token := k; w_profile := f |}.

Definition ref_parse_wire (s : string) : result string RequestWire :=
  match pos_parse s ≫= decode with
  | Some t => Ok (wire_untuple t)
  | None => Err "not a request"
  end.

#[export] Instance RefRequestJson : RequestJson := {|
  parse_probe s := result_map (fun w => Some (w_proto w)) (ref_parse_wire s);
  parse_wire := ref_parse_wire;
  print_wire w := pos_print (encode (wire_tuple w));
|}.

Lemma ref_parse_print w : ref_parse_wire (pos_print (encode (wire_tuple w))) = Ok w.
Proof.
  unfold ref_parse_wire. rewrite pos_parse_print. cbn. rewrite decode_encode. by destruct w.
Qed.

#[export] Instance RefRequestJsonLaws : RequestJsonLaws.
Proof.
  split; intros w; cbn; rewrite ref_parse_print; done.
Qed.

Lemma decode_encode_request_witness :
  str_len (encode_request (OClose "db-01")) <= MAX_LINE_BYTES /\
  decode_request (encode_request (OClose "db-01")) = Ok (OClose "db-01").
Proof.
  assert (Hl : str_len (encode_request (OClose "db-01")) <= MAX_LINE_BYTES) by (by vm_compute).
  split; [exact Hl|]. exact (decode_encode_request (OClose "db-01") Hl).
Defined.

Lemma other_version_refused_witness :
  let line := print_wire {| w_proto := 3; w_op := "status"; w_host := None; w_ttl := None;
                            w_token := None; w_profile := None |} in
  str_len line <= MAX_LINE_BYTES /\ parse_probe line = Ok (Some 3) /\ 3 <> PROTO_VERSION /\
  decode_request line = Err (VersionMismatch 3).
Proof.
  cbn zeta. split; [by vm_compute|]. split; [by vm_compute|]. split; [discriminate|].
  apply other_version_refused; [by vm_compute|by vm_compute|discriminate].
Defined.
