(* ===== verification/Mcp.v ===== *)
(** * Mcp: the MCP front door (mcp/src)

    The JSON-RPC server (rpc.rs), its tools (tools.rs) and the signer's use
    (signer.rs).  JSON text is a parse into values; the daemon behind the
    socket (transport.rs) and the principal's key are parameters.  A text the
    code formats is a constructor with what it is formatted from. *)

From S2P Require Import Prelude Text Clock Authority Inventory Registry Proto.

(** ** JSON *)

Inductive Value :=
| VNull
| VBool (b : bool)
| VNum (z : Z)
| VStr (s : string)
| VArr (l : list Value)
| VObj (fields : list (string * Value)).

(** [Value::get] with a key, [Value::as_str]. *)
Fixpoint field_of (fields : list (string * Value)) (key : string) : option Value :=
  match fields with
  | [] => None
  | (k, v) :: rest => if String.eqb k key then Some v else field_of rest key
  end.

Definition get (v : Value) (key : string) : option Value :=
  match v with VObj fields => field_of fields key | _ => None end.

Definition as_str (v : Value) : option string := match v with VStr s => Some s | _ => None end.

(** ** The texts *)

Inductive ToolFailure :=
| MissingArgument (key : string)
| BackendFailed (error : string)
| OpenRefused (error : string)
| SigningFailed (error : string)
| RenewRefused (error : string)
| CloseRefused (error : string).

Inductive ToolError := NotFound | Failed (f : ToolFailure).

Inductive ToolText :=
| Described (host : string) (expires_at : option Z)
| StillAwaiting (host profile : string) (weight threshold : Z) (missing : list MissingLabel)
    (challenge : string)
| NowOpen (host profile : string) (expires_at : option Z)
| FactorNotAccepted (host profile : string) (weight threshold : Z) (error : string)
    (missing : list MissingLabel) (challenge : string)
| NoGrantFor (host : string)
| NoGrants
| GrantLines (lines : list (string * LineState * option Z))
| Renewed (host : string) (expires_at : option Z)
| ClosedWith (host : string) (outcome : string)
| HandleOpen (host : string) (remaining_secs : option Z)
| HandleUnusable (host : string) (state : LineState).

(** ** The tools *)

Definition Answer : Type := Response string.

Section Server.
Context {T : Type}.
(** [Backend::call] and [Signer::sign_challenge]. *)
Context (call : Op -> T -> T * result string Answer).
Context (sign_challenge : string -> result string string).

Definition TM (A : Type) : Type := T -> T * result ToolError A.
Definition tret {A} (a : A) : TM A := fun t => (t, Ok a).
Definition tfail {A} (f : ToolFailure) : TM A := fun t => (t, Err (Failed f)).
Definition tbind {A B} (m : TM A) (k : A -> TM B) : TM B := fun t =>
  match m t with (t', Ok a) => k a t' | (t', Err e) => (t', Err e) end.
Notation "'let@' x ':=' m 'in' k" := (tbind m (fun x => k)) (at level 10, x pattern, m at level 100, k at level 200).

Definition backend (op : Op) : TM Answer := fun t =>
  let '(t', r) := call op t in (t', map_err (fun e => Failed (BackendFailed e)) r).

Definition req_str (args : Value) (key : string) : TM string :=
  match get args key ≫= as_str with Some s => tret s | None => tfail (MissingArgument key) end.

Definition opt_str (args : Value) (key : string) : option string := get args key ≫= as_str.

Definition error_text (r : Answer) : string := default "" (rs_error r).

Definition open_grant (args : Value) : TM ToolText :=
  let@ host := req_str args "host" in
  let@ ttl := req_str args "ttl" in
  let profile := opt_str args "profile" in
  let@ open := backend (OOpen host ttl profile) in
  if bool_decide (rs_result open = RsRefused) then tfail (OpenRefused (error_text open))
  else
    match rs_pending open with
    | None => tret (Described host (rs_expires_at open))
    | Some pending =>
        let@ token := match sign_challenge (pc_challenge pending) with
                      | Ok token => tret token
                      | Err e => tfail (SigningFailed e)
                      end in
        let@ approved := backend (OApprove host token) in
        tret (match rs_result approved with
              | RsOk =>
                  match rs_pending approved with
                  | Some p => StillAwaiting host (pc_profile p) (pc_weight p) (pc_threshold p)
                                (pc_missing p) (pc_challenge pending)
                  | None => NowOpen host (pc_profile pending) (rs_expires_at approved)
                  end
              | RsRefused =>
                  FactorNotAccepted host (pc_profile pending) (pc_weight pending)
                    (pc_threshold pending) (error_text approved) (pc_missing pending)
                    (pc_challenge pending)
              end)
    end.

Definition render_grant_line (g : GrantLine) : string * LineState * option Z :=
  (gl_host g, gl_state g, gl_remaining_secs g).

Definition grant_status (args : Value) : TM ToolText :=
  let only := opt_str args "host" in
  let@ resp := backend OStatus in
  let grants := default [] (rs_grants resp) in
  let lines := render_grant_line <$>
    List.filter (fun g => match only with None => true | Some h => String.eqb h (gl_host g) end) grants in
  tret (match lines, only with
        | [], Some h => NoGrantFor h
        | [], None => NoGrants
        | _, _ => GrantLines lines
        end).

Definition renew_grant (args : Value) : TM ToolText :=
  let@ host := req_str args "host" in
  let@ ttl := req_str args "ttl" in
  let@ resp := backend (ORenew host ttl) in
  match rs_result resp with
  | RsOk => tret (Renewed host (rs_expires_at resp))
  | RsRefused => tfail (RenewRefused (error_text resp))
  end.

Definition close_grant (args : Value) : TM ToolText :=
  let@ host := req_str args "host" in
  let@ resp := backend (OClose host) in
  match rs_result resp with
  | RsOk => tret (ClosedWith host (default "reverted" (rs_outcome resp)))
  | RsRefused => tfail (CloseRefused (error_text resp))
  end.

Definition access_handle (args : Value) : TM ToolText :=
  let@ host := req_str args "host" in
  let@ resp := backend OStatus in
  tret (match List.find (fun g => String.eqb (gl_host g) host) (default [] (rs_grants resp)) with
        | None => NoGrantFor host
        | Some g =>
            match gl_state g with
            | LOpen => HandleOpen host (gl_remaining_secs g)
            | st => HandleUnusable host st
            end
        end).

Definition call_tool (name : string) (args : Value) : TM ToolText :=
  if String.eqb name "open_grant" then open_grant args
  else if String.eqb name "grant_status" then grant_status args
  else if String.eqb name "renew_grant" then renew_grant args
  else if String.eqb name "close_grant" then close_grant args
  else if String.eqb name "access_handle" then access_handle args
  else fun t => (t, Err NotFound).

(** ** The server *)

Inductive RpcResult :=
| Initialized
| Pong
| ToolSchemas
| ToolResult (text : ToolText)
| ToolIsError (failure : ToolFailure).

Inductive RpcError :=
| ParseError
| MethodNotFound (name : string)
| MissingParams
| MissingToolName
| UnknownTool (name : string).

Definition code_of (e : RpcError) : Z :=
  match e with
  | ParseError => -32700
  | MethodNotFound _ => -32601
  | MissingParams | MissingToolName | UnknownTool _ => -32602
  end.

Inductive RpcReply := OkLine (id : Value) (r : RpcResult) | ErrorLine (id : Value) (e : RpcError).

Definition tools_call (params : option Value) : T -> T * result RpcError RpcResult := fun t =>
  match params with
  | None => (t, Err MissingParams)
  | Some params =>
      match get params "name" ≫= as_str with
      | None => (t, Err MissingToolName)
      | Some name =>
          let args := default (VObj []) (get params "arguments") in
          let '(t', r) := call_tool name args t in
          (t', match r with
               | Ok text => Ok (ToolResult text)
               | Err (Failed f) => Ok (ToolIsError f)
               | Err NotFound => Err (UnknownTool name)
               end)
      end
  end.

Definition dispatch (method : string) (params : option Value) : T -> T * result RpcError RpcResult :=
  fun t =>
  if String.eqb method "initialize" then (t, Ok Initialized)
  else if String.eqb method "ping" then (t, Ok Pong)
  else if String.eqb method "tools/list" then (t, Ok ToolSchemas)
  else if String.eqb method "tools/call" then tools_call params t
  else (t, Err (MethodNotFound method)).

Context (from_str : string -> option Value).

Definition handle_line (line : string) : T -> T * option RpcReply := fun t =>
  let line := trim line in
  if str_is_empty line then (t, None)
  else
    match from_str line with
    | None => (t, Some (ErrorLine VNull ParseError))
    | Some msg =>
        let id := get msg "id" in
        let method := default "" (get msg "method" ≫= as_str) in
        let '(t', outcome) := dispatch method (get msg "params") t in
        (t', match id with
             | None => None
             | Some id =>
                 Some (match outcome with
                       | Ok result => OkLine id result
                       | Err e => ErrorLine id e
                       end)
             end)
    end.

(** The loop of [main]: one line in, at most one line out. *)
Fixpoint serve (lines : list string) (t : T) : T * list RpcReply :=
  match lines with
  | [] => (t, [])
  | line :: rest =>
      let '(t, reply) := handle_line line t in
      let '(t, replies) := serve rest t in
      (t, match reply with Some r => r :: replies | None => replies end)
  end.
End Server.

(** ** What the front door can ask for *)

Section Confinement.
Context {T : Type} (call : Op -> T -> T * result string Answer).
Context (sign_challenge : string -> result string string) (from_str : string -> option Value).
(** The operations the daemon has been sent. *)
Context (sent : T -> list Op) (Hsent : forall op t, sent (call op t).1 = sent t ++ [op]).

(** The exchanges one line can cause: nothing, one question, or an opening
    followed by the approval of the very challenge it brought. *)
Definition exchange (t : T) (ops : list Op) : Prop :=
  ops = [] \/ ops = [OStatus]
  \/ (exists host ttl, ops = [ORenew host ttl]) \/ (exists host, ops = [OClose host])
  \/ exists host ttl profile, ops = [OOpen host ttl profile]
       \/ exists t1 resp pending token,
            call (OOpen host ttl profile) t = (t1, Ok resp) /\ rs_result resp = RsOk
            /\ rs_pending resp = Some pending /\ sign_challenge (pc_challenge pending) = Ok token
            /\ ops = [OOpen host ttl profile; OApprove host token].

Definition extends (t t' : T) : Prop := exists ops, sent t' = sent t ++ ops /\ exchange t ops.

Lemma extends_nil t : extends t t.
Proof. exists []. rewrite app_nil_r. by split; [|left]. Qed.

Lemma extends_once t op : exchange t [op] -> extends t (call op t).1.
Proof. intros Hx. exists [op]. by rewrite Hsent. Qed.

Lemma backend_state op t : (backend call op t).1 = (call op t).1.
Proof. unfold backend. by destruct (call op t). Qed.

(** A tool that asks once. *)
Lemma ask_once {A} op t (k : Answer -> TM (T := T) A) :
  exchange t [op] -> (forall r t', (k r t').1 = t') -> extends t (tbind (backend call op) k t).1.
Proof.
  intros Hx Hk. unfold tbind. pose proof (backend_state op t) as Hb.
  destruct (backend call op t) as [t' [r|e]]; cbn [fst] in *; rewrite ?Hk, ?Hb; subst;
    by apply extends_once.
Qed.

Lemma open_grant_extends args t : extends t (open_grant call sign_challenge args t).1.
Proof.
  unfold open_grant, req_str. destruct (get args "host" ≫= as_str) as [host|]; [|apply extends_nil].
  unfold tbind at 1. cbn [tret]. destruct (get args "ttl" ≫= as_str) as [ttl|]; [|apply extends_nil].
  unfold tbind at 1. cbn [tret]. set (profile := opt_str args "profile").
  assert (Hopen : extends t (call (OOpen host ttl profile) t).1).
  { apply extends_once. do 4 right. exists host, ttl, profile. by left. }
  unfold tbind at 1, backend at 1.
  destruct (call (OOpen host ttl profile) t) as [t1 [resp|e]] eqn:Eo; cbn [map_err]; [|done].
  case_bool_decide as Hr; [done|]. destruct (rs_pending resp) as [pending|] eqn:Ep; [|done].
  destruct (sign_challenge (pc_challenge pending)) as [token|] eqn:Es; [|done].
  unfold tbind. cbn [tret]. pose proof (backend_state (OApprove host token) t1) as Hb.
  assert (Happ : extends t (call (OApprove host token) t1).1).
  { exists [OOpen host ttl profile; OApprove host token].
    pose proof (Hsent (OOpen host ttl profile) t) as H1. rewrite Eo in H1. cbn [fst] in H1.
    rewrite Hsent, H1, <-app_assoc. split; [done|]. do 4 right. exists host, ttl, profile. right.
    exists t1, resp, pending, token. split_and!; try done. by destruct (rs_result resp). }
  destruct (backend call (OApprove host token) t1) as [t2 [a|e]]; cbn [fst tret] in *; by subst.
Qed.

Lemma call_tool_extends name args t : extends t (call_tool call sign_challenge name args t).1.
Proof.
  unfold call_tool. destruct (String.eqb name "open_grant"); [apply open_grant_extends|].
  destruct (String.eqb name "grant_status"); [apply ask_once; [by right; left|done]|].
  destruct (String.eqb name "renew_grant").
  { unfold renew_grant, req_str. destruct (get args "host" ≫= as_str) as [host|]; [|apply extends_nil].
    unfold tbind at 1. cbn [tret]. destruct (get args "ttl" ≫= as_str) as [ttl|]; [|apply extends_nil].
    apply ask_once; [do 2 right; left; by eauto|]. intros r t'. by destruct (rs_result r). }
  destruct (String.eqb name "close_grant").
  { unfold close_grant, req_str. destruct (get args "host" ≫= as_str) as [host|]; [|apply extends_nil].
    apply ask_once; [do 3 right; left; by eauto|]. intros r t'. by destruct (rs_result r). }
  destruct (String.eqb name "access_handle"); [|apply extends_nil].
  unfold access_handle, req_str. destruct (get args "host" ≫= as_str) as [host|]; [|apply extends_nil].
  apply ask_once; [by right; left|done].
Qed.

(** The front door asks for little: one line from the model makes it send
    the daemon nothing, one status, renewal, closing or opening, or an
    opening and then an approval of the same host whose token signs exactly
    the challenge that opening returned; it never drills, and never approves
    a request it did not make. *)
Theorem mcp_sends_only_exchanges (line : string) (t : T) :
  exists ops, sent (handle_line call sign_challenge from_str line t).1 = sent t ++ ops
    /\ exchange t ops.
Proof.
  change (extends t (handle_line call sign_challenge from_str line t).1).
  unfold handle_line. destruct (str_is_empty _); [apply extends_nil|].
  destruct (from_str _) as [msg|]; [|apply extends_nil].
  assert (Hd : forall m p, extends t (dispatch call sign_challenge m p t).1).
  { intros m p. unfold dispatch. repeat (case_match; [apply extends_nil|]).
    destruct (String.eqb m "tools/call"); [|apply extends_nil].
    unfold tools_call. destruct p as [p|]; [|apply extends_nil].
    destruct (get p "name" ≫= as_str) as [name|]; [|apply extends_nil].
    pose proof (call_tool_extends name (default (VObj []) (get p "arguments")) t) as Hc.
    by destruct (call_tool _ _ name _ t). }
  specialize (Hd (default "" (get msg "method" ≫= as_str)) (get msg "params")).
  by destruct (dispatch _ _ _ _ t).
Qed.
End Confinement.

(** ** Secrets stay behind *)

(** An answer without the one-time credential and its label. *)
Definition erase (r : Answer) : Answer :=
  {| rs_proto := rs_proto _ r; rs_result := rs_result r; rs_error := rs_error r;
     rs_expires_at := rs_expires_at r; rs_outcome := rs_outcome r; rs_grants := rs_grants r;
     rs_secret := None; rs_secret_label := None; rs_pending := rs_pending r;
     rs_narrowings := rs_narrowings _ r |}.

Section Erasure.
Context {T : Type} (call : Op -> T -> T * result string Answer).
Context (sign_challenge : string -> result string string) (from_str : string -> option Value).

(** A daemon that answers the same and never hands out a credential. *)
Definition blind (op : Op) (t : T) : T * result string Answer :=
  let '(t', r) := call op t in (t', result_map erase r).

Lemma ask_blind {A} op (k k' : Answer -> TM (T := T) A) t :
  (forall r t', k (erase r) t' = k' r t') -> tbind (backend blind op) k t = tbind (backend call op) k' t.
Proof.
  intros Hk. unfold tbind, backend, blind. destruct (call op t) as [t' [r|e]]; cbn; [apply Hk|done].
Qed.

Lemma tbind_same {A B} (m : TM (T := T) A) (k k' : A -> TM B) t :
  (forall a t', k a t' = k' a t') -> tbind m k t = tbind m k' t.
Proof. intros Hk. unfold tbind. destruct (m t) as [t' [a|e]]; [apply Hk|done]. Qed.

Lemma call_tool_blind name args t :
  call_tool blind sign_challenge name args t = call_tool call sign_challenge name args t.
Proof.
  unfold call_tool. repeat (case_match; [|]); try done.
  - unfold open_grant. apply tbind_same. intros host t1. apply tbind_same. intros ttl t2.
    apply ask_blind. intros r t3. cbn [rs_result rs_pending rs_expires_at erase error_text].
    unfold error_text. cbn [rs_error erase]. case_bool_decide; [done|]. case_match; [|done].
    apply tbind_same. intros token t4. by apply ask_blind.
  - unfold grant_status. by apply ask_blind.
  - unfold renew_grant. apply tbind_same. intros host t1. apply tbind_same. intros ttl t2.
    by apply ask_blind.
  - unfold close_grant. apply tbind_same. intros host t1. by apply ask_blind.
  - unfold access_handle. apply tbind_same. intros host t1. by apply ask_blind.
Qed.

Lemma dispatch_blind method params t :
  dispatch blind sign_challenge method params t = dispatch call sign_challenge method params t.
Proof.
  unfold dispatch. repeat (case_match; [done|]). case_match; [|done]. unfold tools_call.
  destruct params as [p|]; [|done]. destruct (get p "name" ≫= as_str); [|done].
  by rewrite call_tool_blind.
Qed.

Lemma handle_line_blind line t :
  handle_line blind sign_challenge from_str line t = handle_line call sign_challenge from_str line t.
Proof. unfold handle_line. case_match; [done|]. case_match; [|done]. by rewrite dispatch_blind. Qed.

(** No credential reaches the model: over any sequence of lines the
    replies are those of a daemon that never hands out a one-time secret. *)
Theorem mcp_reveals_no_secret (lines : list string) (t : T) :
  serve blind sign_challenge from_str lines t = serve call sign_challenge from_str lines t.
Proof.
  revert t. induction lines as [|line lines IH]; intros t; [done|]. cbn [serve].
  rewrite handle_line_blind. destruct (handle_line _ _ _ line t) as [t1 r]. by rewrite IH.
Qed.
End Erasure.

(** ** A recorded session *)

(** A daemon that grants everything, with the record of what it was asked. *)
Definition pending_db01 : PendingChallenge :=
  {| pc_host := "db-01"; pc_challenge := "lg1.req.abc"; pc_ttl_secs := 60; pc_requested_at := 0;
     pc_approval_deadline := 300; pc_profile := "ai"; pc_weight := 0; pc_threshold := 1;
     pc_missing := [LAnyToken] |}.

Definition recorder (op : Op) (t : list Op) : list Op * result string Answer :=
  (t ++ [op], Ok (match op with
                  | OOpen _ _ _ => response None None None None None (Some pending_db01) None
                  | OApprove _ _ => response (Some 60) None None (Some "hunter2") None None None
                  | _ => ok
                  end)).
Definition stamp (challenge : string) : result string string := Ok ("signed " +:+ challenge).

Definition tool_line (id : list (string * Value)) (tool : string) (args : list (string * Value)) : Value :=
  VObj (id ++ [("method", VStr "tools/call");
               ("params", VObj [("name", VStr tool); ("arguments", VObj args)])]).
Definition canned (line : string) : option Value :=
  if String.eqb line "open" then
    Some (tool_line [("id", VNum 1)] "open_grant" [("host", VStr "db-01"); ("ttl", VStr "60s")])
  else if String.eqb line "note" then Some (tool_line [] "close_grant" [("host", VStr "db-01")])
  else None.

Lemma mcp_sends_only_exchanges_witness :
  exists ops, (handle_line recorder stamp canned "open" []).1 = [] ++ ops
    /\ exchange recorder stamp [] ops /\ ops = [OOpen "db-01" "60s" None; OApprove "db-01" "signed lg1.req.abc"].
Proof.
  destruct (mcp_sends_only_exchanges recorder stamp canned id (fun _ _ => eq_refl) "open" [])
    as (ops & E & Hx).
  exists ops. split; [exact E|]. split; [exact Hx|].
  change (id []) with (@nil Op) in E. cbn [app] in E. rewrite <-E. vm_compute. reflexivity.
Defined.

(** A tool call without an id is no request and gets no reply, but the tool
    runs: the grant is closed. *)
Example notification_still_acts :
  handle_line recorder stamp canned "note" [] = ([OClose "db-01"], None).
Proof. vm_compute. reflexivity. Qed.

(** A refused status reads as no grants. *)
Example refused_status_reads_empty :
  (grant_status (fun _ t => (t, Ok (refused "protocol mismatch"))) (VObj []) tt).2 = Ok NoGrants.
Proof. vm_compute. reflexivity. Qed.
