(* ===== verification/Daemon.v ===== *)
(** * Daemon: the state and effects of the running daemon

    The state the handlers of daemon/src/lifecycle.rs share (store file,
    driver set, dead-man, proof verifiers, journal), the store of
    daemon/src/store.rs, the journal of daemon/src/journal.rs, and the monad
    the handlers are written in.

    Every I/O of the store and the journal may fail: an environment decides,
    one answer per attempt.  A failed write leaves the old file (it is
    written beside and renamed over).  [past] records the pair (file, target
    world) after every write and every driver call: the points at which the
    daemon may die. *)

From S2P Require Import Prelude Text Clock Ttl External Approval Authority Factors Inventory Channel Grant GrantProps Registry Snapshot Proto.

(** The refusals of the handlers, one constructor per message. *)
Inductive Refusal :=
| RfTtl (e : TtlError)
| RfRegistry (e : RegistryError)
| RfNoProfiles (host : string)
| RfManyProfiles (host : string) (permitted : list string)
| RfNotPermitted (host profile : string)
| RfProfileUndefined (profile : string)
| RfOverride (e : AuthorityError)
| RfWaitTooLong (profile : string) (wait_secs window_secs : Z)
| RfWindowOverflow
| RfApproval (e : ApprovalError)
| RfNoLongerAwaiting
| RfDeadmanInstall (e : DriverError)
| RfOpenFailed (failed : Channel) (e : DriverError) (stuck : list Channel)
| RfDeadmanReschedule (e : DriverError)
| RfChannelNotTold (c : Channel) (e : DriverError)
| RfNotCanary (host : string)
| RfCanaryNotIdle (host : string)
| RfDrillBegin (e : RegistryError)
| RfCanaryDidNotOpen
| RfRevertDidNotComplete
| RfDrillFailed (host : string) (reason : Refusal)
| RfCloseIncomplete (host : string) (stuck : list Channel)
| RfMcpNeedsPolicy
| RfMcpDrill
| RfMcpProfile (profile host : string).

(** The [error] of an [OpenFailed] event. *)
Inductive OpenError :=
| OeDriver (e : DriverError)
| OeDeadman (e : DriverError)
| OeRestartedMidOpen
| OeNotReestablished (lost : list (Channel * DriverError)).

Inductive Event :=
| EvDaemonStart (inventory : string) (hosts : Z)
| EvDaemonStop
| EvOpen (host : string) (applied declared : list Channel) (ttl_secs expires_at : Z)
| EvOpenFailed (host : string) (failed : Channel) (stuck : list Channel) (error : OpenError)
| EvRenew (host : string) (ttl_secs expires_at : Z)
| EvClose (host : string) (deadman_fired : bool)
| EvExpire (host : string) (channels : list Channel) (opened_at expires_at : Z)
| EvReestablish (host : string) (channels : list Channel)
| EvRequested (host : string) (declared : list Channel) (ttl_secs requested_at approval_deadline : Z)
| EvProofAccepted (host authenticator : string)
| EvApproved (host : string) (requested_at : Z)
| EvRequestExpired (host : string) (requested_at approval_deadline : Z)
| EvRequestCancelled (host : string)
| EvApprovalDenied (host : string) (reason : ApprovalError)
| EvMcpRefused (host : string) (reason : Refusal)
| EvDrillPassed (host : string)
| EvDrillFailed (host : string) (reason : Refusal).

(** What ends the daemon: an [anyhow] error that reaches the caller. *)
Inductive Fatal :=
| FIo
| FCorrupt
| FVersion (file_says : Z)
| FInvalid (e : SnapshotError)
| FProof
| FFinishingRevert (e : RegistryError)
| FRetainingStuck (e : RegistryError).

(** The trait [DeadmanControl]. *)
Class DeadmanControl (D : Type) := {
  dm_install : Host -> SystemTime -> D -> D * result DriverError unit;
  dm_reschedule : Host -> SystemTime -> D -> D * result DriverError unit;
  dm_remove : Host -> D -> D * result DriverError bool;
}.

(** The proof verifiers: what [verify_proof] promises [approve].  The outer
    error is a failure of a ledger, which is fatal. *)
Class ProofVerifier `{ApprovalKeys} (V : Type) := {
  verify_proof : AuthorityModel -> ApprovalRequest -> string -> SystemTime -> V ->
    V * result Fatal (result ApprovalError string);
}.

(** What the environment decides: whether the n-th I/O succeeds, and the n-th
    reading of [/dev/urandom]. *)
Record Env := { io_ok : nat -> bool; urandom : nat -> list Z }.

(** The immutable part of the struct [Daemon]. *)
Record Config `{ApprovalKeys} := {
  inventory : Inventory;
  approval_window : Duration;
  approval_policy : option AuthorityModel;
}.

(** The mutable part. *)
Record Sys (W D V : Type) := {
  store : option StateDoc;
  drivers : DriverSet W;
  deadman : D;
  proofs : V;
  journal : list (Z * Event);
  io : nat;
  past : list (option StateDoc * W);
}.
Arguments store {W D V} _.
Arguments drivers {W D V} _.
Arguments deadman {W D V} _.
Arguments proofs {W D V} _.
Arguments journal {W D V} _.
Arguments io {W D V} _.
Arguments past {W D V} _.

Section Effects.
Context {W D V : Type}.
Implicit Types s : Sys W D V.

Definition M (A : Type) : Type := Sys W D V -> Sys W D V * result (Fault Fatal) A.

Definition ret {A} (a : A) : M A := fun s => (s, Ok a).
Definition bind {A B} (m : M A) (k : A -> M B) : M B := fun s =>
  match m s with
  | (s', Ok a) => k a s'
  | (s', Err e) => (s', Err e)
  end.
Definition fail {A} (f : Fault Fatal) : M A := fun s => (s, Err f).
Definition fatal {A} (e : Fatal) : M A := fail (Refused e).

(** [expect] on a value that must be [Ok] / [Some]. *)
Definition expect {E A} (r : result E A) : M A :=
  match r with Ok a => ret a | Err _ => fail Panic end.
Definition expect_some {A} (o : option A) : M A :=
  match o with Some a => ret a | None => fail Panic end.
Definition lift {A} (r : result Fatal A) : M A :=
  match r with Ok a => ret a | Err e => fatal e end.
(** A value of a fuelled function of core. *)
Definition fuelled {A} (o : option A) : M A :=
  match o with Some a => ret a | None => fail OutOfFuel end.
End Effects.

Notation "'let!' x ':=' m 'in' k" := (bind m (fun x => k))
  (at level 10, x pattern, m at level 100, k at level 200) : lychgate_scope.
Notation "m ';!' k" := (bind m (fun _ => k)) (at level 100, k at level 200, right associativity)
  : lychgate_scope.

(** [READABLE]. *)
Definition READABLE : list Z := [2; 3; STATE_VERSION].

(** What reading the file answers when the I/O itself succeeds: an absent
    file is an empty store. *)
Definition read_file (f : option StateDoc) : result Fatal StateDoc :=
  match f with
  | None => Ok Snapshot.default
  | Some written =>
      match reread_doc written with
      | None => Err FCorrupt
      | Some doc =>
          if bool_decide (version doc ∈ READABLE) then Ok doc else Err (FVersion (version doc))
      end
  end.

Section Handlers.
Context `{DataEncoding, ApprovalKeys} {W D V : Type}.
Context `{!ChannelDriver W, !DeadmanControl D, !ProofVerifier V}.
Context (env : Env) (cfg : Config).
Implicit Types s : Sys W D V.

Definition with_io s (n : nat) : Sys W D V :=
  {| store := store s; drivers := drivers s; deadman := deadman s; proofs := proofs s;
     journal := journal s; io := n; past := past s |}.

(** One attempt at an I/O. *)
Definition attempt_io : M unit := fun s =>
  (with_io s (S (io s)), if io_ok env (io s) then Ok tt else Err (Refused FIo)).

Definition generate_nonce : M (list Z) := fun s =>
  (with_io s (S (io s)), Ok (urandom env (io s))).

(** *** The store (daemon/src/store.rs) *)

Definition store_read : M StateDoc := attempt_io ;! fun s => lift (read_file (store s)) s.

Definition store_write (doc : StateDoc) : M unit :=
  attempt_io ;! fun s =>
    ({| store := Some doc; drivers := drivers s; deadman := deadman s; proofs := proofs s;
        journal := journal s; io := io s;
        past := (Some doc, world (drivers s)) :: past s |}, Ok tt).

Definition store_lock : M unit := attempt_io.

Definition mutate {A} (f : StateDoc -> result (Fault Fatal) (StateDoc * A)) : M A :=
  store_lock ;!
  let! doc := store_read in
  match f doc with
  | Err e => fail e
  | Ok (doc', out) => store_write doc' ;! ret out
  end.

(** *** The journal (daemon/src/journal.rs), fatal on failure *)

Definition record_event (now : SystemTime) (event : Event) : M unit :=
  attempt_io ;! fun s =>
    ({| store := store s; drivers := drivers s; deadman := deadman s; proofs := proofs s;
        journal := journal s ++ [(epoch_secs now, event)]; io := io s; past := past s |}, Ok tt).

(** *** The driver set and the dead-man, behind their mutexes *)

(** [None] is a panic of the orchestration. *)
Definition with_drivers {A} (f : DriverSet W -> option (DriverSet W * A)) : M A := fun s =>
  match f {| registered := registered (drivers s); world := world (drivers s); seen := [] |} with
  | None => (s, Err Panic)
  | Some (ds, a) =>
      ({| store := store s; drivers := ds; deadman := deadman s; proofs := proofs s;
          journal := journal s; io := io s;
          past := (pair (store s) <$> seen ds) ++ past s |}, Ok a)
  end.

Definition with_deadman {A} (f : D -> D * A) : M A := fun s =>
  let '(d, a) := f (deadman s) in
  ({| store := store s; drivers := drivers s; deadman := d; proofs := proofs s;
      journal := journal s; io := io s; past := past s |}, Ok a).

Definition with_proofs {A} (f : V -> V * result Fatal A) : M A := fun s =>
  let '(v, r) := f (proofs s) in
  let s' := {| store := store s; drivers := drivers s; deadman := deadman s; proofs := v;
               journal := journal s; io := io s; past := past s |} in
  lift r s'.

(** *** The registry over the store *)

(** [GrantRegistry::from_parts(&self.inventory, &doc).with_context(..)]. *)
Definition validate (doc : StateDoc) : result Fatal GrantRegistry :=
  map_err FInvalid (from_parts (inventory cfg) doc).

Definition read_registry : M GrantRegistry := let! doc := store_read in lift (validate doc).

Definition with_registry {A} (op : GrantRegistry -> GrantRegistry * result RegistryError A)
    : M (result RegistryError A) :=
  mutate (fun doc =>
    match validate doc with
    | Err e => Err (Refused e)
    | Ok registry =>
        match op registry with
        | (registry', Ok value) => Ok (snapshot registry', Ok value)
        | (_, Err refusal) => Ok (doc, Err refusal)
        end
    end).

Definition with_read_registry {A} (op : GrantRegistry -> result RegistryError A)
    : M (result RegistryError A) :=
  let! registry := read_registry in ret (op registry).
End Handlers.
