(* ===== verification/Proofs.v ===== *)
(** * Proofs: how the daemon judges a submitted proof

    [verify_proof] of daemon/src/lifecycle.rs over the factors and the two
    ledgers, as the instance of the interface [ProofVerifier] that the
    handlers are proved against; and what an accepted proof means. *)

From stdpp Require Import relations.
From S2P Require Import Prelude Text Clock External Reference Approval Authority Factors Ledgers Daemon.
#[local] Open Scope Z_scope.

(** The secret material [main] loads at startup. *)
Record Secrets := {
  totp_secrets : gmap string (list Z);
  password_hashes : gmap string string;
  hmac_secrets : gmap string (list Z);
}.

Section Verify.
Context `{DataEncoding, FactorCrypto} (io_ok : nat -> bool) (sec : Secrets).

Definition Verdict : Type := result Fatal (result ApprovalError string).

(** A ledger failure is fatal. *)
Definition or_fatal {A} (p : Ledgers * result IoError A) : Ledgers * result Fatal A :=
  (p.1, map_err (fun _ => FProof) p.2).

(** The loop over the FIDO2 credentials. *)
Fixpoint try_fido2 (creds : list (string * Fido2Credential)) (trimmed expected : string)
    (matched_err : option Fido2Error) (l : Ledgers) : Ledgers * Verdict :=
  match creds with
  | [] =>
      (l, Ok (Err (match matched_err with
                   | Some (F2Malformed m) => TokenMalformed m
                   | Some _ => BadSignature
                   | None => UnknownApprover "no configured FIDO2 credential matches this assertion"
                   end)))
  | (id, cred) :: creds =>
      match fido2_verify cred trimmed expected with
      | Ok _ =>
          match token_counter trimmed with
          | Err _ => (l, Err FProof)
          | Ok c =>
              let '(l, observed) := or_fatal (observe io_ok (cred_id cred) c l) in
              (l, match observed with
                  | Err e => Err e
                  | Ok CvOk => Ok (Ok id)
                  | Ok CvRegressed => Ok (Err CloneSuspected)
                  end)
          end
      | Err F2WrongCredential => try_fido2 creds trimmed expected matched_err l
      | Err e => try_fido2 creds trimmed expected (Some e) l
      end
  end.

(** The loop over the TPM keys. *)
Fixpoint try_tpm (creds : list (string * list Z)) (trimmed expected : string)
    (any : bool) (malformed : option string) : result ApprovalError string :=
  match creds with
  | [] =>
      Err (match any, malformed with
           | _, Some m => TokenMalformed m
           | true, None => BadSignature
           | false, None => UnknownApprover "no TPM authenticator is configured"
           end)
  | (id, pk) :: creds =>
      match tpm_verify pk trimmed expected with
      | Ok _ => Ok id
      | Err (TpmMalformed m) => try_tpm creds trimmed expected true (Some m)
      | Err _ => try_tpm creds trimmed expected true malformed
      end
  end.

(** The loop over the HMAC secrets. *)
Fixpoint try_hmac (secrets : list (string * list Z)) (trimmed expected : string)
    (any malformed : bool) : result ApprovalError string :=
  match secrets with
  | [] =>
      Err (match any, malformed with
           | _, true => TokenMalformed "lghmac token is not lghmac. + base64url of a 32-byte MAC"
           | true, false => BadSignature
           | false, false => UnknownApprover "no hmac authenticator is configured"
           end)
  | (id, secret) :: secrets =>
      match hmac_verify secret trimmed expected with
      | Ok _ => Ok id
      | Err HmMalformed => try_hmac secrets trimmed expected true true
      | Err _ => try_hmac secrets trimmed expected true malformed
      end
  end.

(** The loop over the TOTP secrets: the first that matches decides. *)
Fixpoint try_totp (secrets : list (string * list Z)) (trimmed : string) (now : SystemTime)
    (l : Ledgers) : Ledgers * Verdict :=
  match secrets with
  | [] => (l, Ok (Err (UnknownApprover "no configured TOTP authenticator matches this code")))
  | (id, secret) :: secrets =>
      match matches secret trimmed now 1 with
      | Some c =>
          let '(l, fresh) := or_fatal (consume io_ok id c now l) in
          (l, match fresh with
              | Err e => Err e
              | Ok true => Ok (Ok id)
              | Ok false => Ok (Err AlreadyUsed)
              end)
      | None => try_totp secrets trimmed now l
      end
  end.

(** The loop over the password hashes. *)
Fixpoint try_password (hashes : list (string * string)) (trimmed : string) : Verdict :=
  match hashes with
  | [] => Ok (Err (UnknownApprover
            "proof is not a recognized SSHSIG, TOTP code, or configured password"))
  | (id, phc) :: hashes =>
      match password_verify phc trimmed with
      | Ok true => Ok (Ok id)
      | Ok false => try_password hashes trimmed
      | Err _ => Err FProof
      end
  end.

Definition SSHSIG_BEGIN : string := "-----BEGIN SSH SIGNATURE-----".

Definition is_totp_code (trimmed : string) : bool :=
  negb (str_is_empty trimmed) && str_forall is_ascii_digit trimmed.

Definition judge_proof (model : AuthorityModel) (request : ApprovalRequest) (token : string)
    (now : SystemTime) (l : Ledgers) : Ledgers * Verdict :=
  let trimmed := trim token in
  if starts_with SSHSIG_BEGIN trimmed then (l, Ok (verify_ed25519 model request token))
  else if starts_with FIDO2_PREFIX trimmed then
    try_fido2 (fido2_credentials model) trimmed (challenge_string request) None l
  else if starts_with TPM_PREFIX trimmed then
    (l, Ok (try_tpm (tpm_credentials model) trimmed (challenge_string request) false None))
  else if starts_with HMAC_PREFIX trimmed then
    (l, Ok (try_hmac (btree_iter (hmac_secrets sec)) trimmed (challenge_string request) false false))
  else if is_totp_code trimmed then
    try_totp (btree_iter (totp_secrets sec)) trimmed now l
  else (l, try_password (btree_iter (password_hashes sec)) trimmed).

#[export] Instance DaemonProofs : ProofVerifier Ledgers := {| verify_proof := judge_proof |}.

(** ** What an accepted proof is

    One case per kind of factor; every signature and tag is over the
    challenge of this very request. *)

Inductive proves (model : AuthorityModel) (request : ApprovalRequest) (token : string)
    (now : SystemTime) (l : Ledgers) (id : string) : Prop :=
| by_ssh pk sig :
    authenticators model !! id = Some (Ed25519 pk) -> sshsig_parse (trim token) = Ok sig ->
    sshsig_namespace sig = APPROVAL_NAMESPACE ->
    sshsig_verify pk APPROVAL_NAMESPACE (as_bytes (challenge_string request)) sig = true ->
    proves model request token now l id
| by_fido2 cred c :
    authenticators model !! id = Some (Fido2 cred) ->
    fido2_verify cred (trim token) (challenge_string request) = Ok tt ->
    token_counter (trim token) = Ok c ->
    mark_of l (cred_id cred) < c \/ (mark_of l (cred_id cred) = 0 /\ c = 0) ->
    proves model request token now l id
| by_tpm pk :
    authenticators model !! id = Some (Tpm pk) ->
    tpm_verify pk (trim token) (challenge_string request) = Ok tt ->
    proves model request token now l id
| by_hmac secret :
    hmac_secrets sec !! id = Some secret ->
    hmac_verify secret (trim token) (challenge_string request) = Ok tt ->
    proves model request token now l id
| by_totp secret c :
    totp_secrets sec !! id = Some secret -> matches secret (trim token) now 1 = Some c ->
    (forall e, e ∈ spent l -> kept (epoch_secs now) e = true -> spends id c e = false) ->
    proves model request token now l id
| by_password phc :
    password_hashes sec !! id = Some phc -> password_verify phc (trim token) = Ok true ->
    proves model request token now l id.

Lemma try_tpm_sound creds trimmed expected any malformed id :
  try_tpm creds trimmed expected any malformed = Ok id ->
  exists pk, (id, pk) ∈ creds /\ tpm_verify pk trimmed expected = Ok tt.
Proof.
  revert any malformed. induction creds as [|[id' pk] creds IH]; intros any malformed; cbn; [done|].
  destruct (tpm_verify pk trimmed expected) as [[]|[]] eqn:E.
  - intros [= <-]. exists pk. split; [by left|done].
  - intros (pk' & ? & ?)%IH. exists pk'. split; [by right|done].
  - intros (pk' & ? & ?)%IH. exists pk'. split; [by right|done].
  - intros (pk' & ? & ?)%IH. exists pk'. split; [by right|done].
Qed.

Lemma try_hmac_sound secrets trimmed expected any malformed id :
  try_hmac secrets trimmed expected any malformed = Ok id ->
  exists secret, (id, secret) ∈ secrets /\ hmac_verify secret trimmed expected = Ok tt.
Proof.
  revert any malformed. induction secrets as [|[id' s] secrets IH]; intros any malformed; cbn; [done|].
  destruct (hmac_verify s trimmed expected) as [[]|[]] eqn:E.
  - intros [= <-]. exists s. split; [by left|done].
  - intros (s' & ? & ?)%IH. exists s'. split; [by right|done].
  - intros (s' & ? & ?)%IH. exists s'. split; [by right|done].
Qed.

Lemma try_password_sound hashes trimmed id :
  try_password hashes trimmed = Ok (Ok id) ->
  exists phc, (id, phc) ∈ hashes /\ password_verify phc trimmed = Ok true.
Proof.
  induction hashes as [|[id' phc] hashes IH]; cbn; [done|].
  destruct (password_verify phc trimmed) as [[]|] eqn:E; [| |done].
  - intros [= <-]. exists phc. split; [by left|done].
  - intros (phc' & ? & ?)%IH. exists phc'. split; [by right|done].
Qed.

(** The TOTP loop spends at most one pair; accepting means it was fresh. *)
Lemma try_totp_spec secrets trimmed now l l' v :
  try_totp secrets trimmed now l = (l', v) ->
  (l' = l \/ exists id c r, consume io_ok id c now l = (l', r))
  /\ (forall id, v = Ok (Ok id) -> exists secret c, (id, secret) ∈ secrets
        /\ matches secret trimmed now 1 = Some c /\ consume io_ok id c now l = (l', Ok true)).
Proof.
  induction secrets as [|[id' s] secrets IH]; cbn [try_totp].
  - intros [= <- <-]. split; [by left|done].
  - destruct (matches s trimmed now 1) as [c|] eqn:Em.
    + unfold or_fatal. destruct (consume io_ok id' c now l) as [l1 r] eqn:Ec. cbn.
      intros [= <- <-]. split; [right; by exists id', c, r|]. intros id Hid. exists s, c.
      destruct r as [[]|]; cbn in Hid; simplify_eq. split; [by left|done].
    + intros [Hl Hs]%IH. split; [done|]. intros id (s' & c & ? & ? & ?)%Hs.
      exists s', c. split; [by right|done].
Qed.

Lemma try_fido2_spec creds trimmed expected err l l' v :
  try_fido2 creds trimmed expected err l = (l', v) ->
  (l' = l \/ exists cred c r, token_counter trimmed = Ok c /\ observe io_ok cred c l = (l', r))
  /\ (forall id, v = Ok (Ok id) -> exists cred c, (id, cred) ∈ creds
        /\ fido2_verify cred trimmed expected = Ok tt /\ token_counter trimmed = Ok c
        /\ observe io_ok (cred_id cred) c l = (l', Ok CvOk)).
Proof.
  revert err. induction creds as [|[id' cred] creds IH]; intros err; cbn [try_fido2].
  - intros [= <- <-]. split; [by left|done].
  - destruct (fido2_verify cred trimmed expected) as [[]|e] eqn:Ev.
    + destruct (token_counter trimmed) as [c|] eqn:Ec; [|intros [= <- <-]; split; [by left|done]].
      unfold or_fatal. destruct (observe io_ok (cred_id cred) c l) as [l1 r] eqn:Eo. cbn.
      intros [= <- <-]. split; [right; by exists (cred_id cred), c, r|]. intros id Hid. exists cred, c.
      destruct r as [[]|]; cbn in Hid; simplify_eq. split; [by left|done].
    + assert (Hgo : forall err', try_fido2 creds trimmed expected err' l = (l', v) ->
        (l' = l \/ exists cred c r, token_counter trimmed = Ok c /\ observe io_ok cred c l = (l', r))
        /\ (forall id, v = Ok (Ok id) -> exists cred0 c, (id, cred0) ∈ (id', cred) :: creds
              /\ fido2_verify cred0 trimmed expected = Ok tt /\ token_counter trimmed = Ok c
              /\ observe io_ok (cred_id cred0) c l = (l', Ok CvOk))).
      { intros err' [Hl Hs]%IH. split; [done|]. intros id (cred' & c & ? & ?)%Hs.
        exists cred', c. split; [by right|done]. }
      destruct e; apply Hgo.
Qed.
End Verify.

(** ** Lemmas on whole judgements *)

Section Judgements.
Context `{DataEncodingLaws, FactorCrypto} (io_ok : nat -> bool) (sec : Secrets).
Notation judge := (judge_proof io_ok sec).

Definition marks_ok (l : Ledgers) : Prop := forall cred, 0 <= mark_of l cred.

Lemma starts_with_Some p s : starts_with p s = true -> exists r, s = p +:+ r.
Proof.
  unfold starts_with. destruct (strip_prefix p s) as [r|] eqn:E; [|done].
  intros _. exists r. by apply strip_prefix_Some.
Qed.

Lemma nth_u8 bs i : Forall is_u8 bs -> 0 <= nth i bs 0.
Proof.
  intros Hb. destruct (nth_in_or_default i bs 0) as [Hin| ->]; [|done].
  rewrite Forall_forall in Hb. apply (Hb _). by apply list_elem_of_In.
Qed.

Lemma token_counter_nonneg token c : token_counter token = Ok c -> 0 <= c.
Proof.
  unfold token_counter. destruct (assertion_of token) as [tok|]; [|done].
  unfold unb64. destruct (base64url_decode _) as [bs|] eqn:E; [|done]. cbn [ok_or].
  destruct (_ <? 37)%nat; [done|]. intros [= <-]. apply base64url_decode_u8 in E.
  pose proof (nth_u8 bs 33 E). pose proof (nth_u8 bs 34 E).
  pose proof (nth_u8 bs 35 E). pose proof (nth_u8 bs 36 E). lia.
Qed.

(** A judgement leaves the ledgers alone, consumes one code or observes one
    counter. *)
Lemma judge_ledgers model request token now l l' v :
  judge model request token now l = (l', v) ->
  l' = l \/ (exists id c r, consume io_ok id c now l = (l', r))
  \/ (exists cred c r, 0 <= c /\ observe io_ok cred c l = (l', r)).
Proof.
  unfold judge_proof. destruct (starts_with SSHSIG_BEGIN _); [intros [= <- _]; by left|].
  destruct (starts_with FIDO2_PREFIX _).
  { intros [[->|(cred & c & r & Hc & Ho)] _]%try_fido2_spec; [by left|].
    right. right. exists cred, c, r. split; [by eapply token_counter_nonneg|done]. }
  destruct (starts_with TPM_PREFIX _); [intros [= <- _]; by left|].
  destruct (starts_with HMAC_PREFIX _); [intros [= <- _]; by left|].
  destruct (is_totp_code _); [|intros [= <- _]; by left].
  intros [[->|?] _]%try_totp_spec; auto.
Qed.

Lemma judge_keeps model request token now l l' v :
  judge model request token now l = (l', v) -> marks_ok l ->
  marks_ok l' /\ (forall cred, mark_of l cred <= mark_of l' cred)
  /\ (forall e, e ∈ spent l -> kept (epoch_secs now) e = true -> e ∈ spent l').
Proof.
  intros Hj Hm.
  assert (Hgo : (forall cred, mark_of l cred <= mark_of l' cred)
    /\ (forall e, e ∈ spent l -> kept (epoch_secs now) e = true -> e ∈ spent l')).
  { destruct (judge_ledgers _ _ _ _ _ _ _ Hj) as [->|[(id & c & r & Hc)|(cred & c & r & Hp & Ho)]].
    - split; [lia|done].
    - apply consume_spec in Hc as (Hf & Hs & _). split; [|done].
      intros cred. unfold mark_of. rewrite Hf. lia.
    - apply observe_spec in Ho as (Hf & Hs & _); [|done|done]. split; [done|].
      intros e He _. unfold spent in *. by rewrite Hf. }
  destruct Hgo as [Hmo Hs]. split; [|done]. intros cred. specialize (Hmo cred).
  specialize (Hm cred). lia.
Qed.

(** A digit code goes to the TOTP loop. *)
Lemma judge_code model request token now l :
  is_totp_code (trim token) = true ->
  judge model request token now l
  = try_totp io_ok (btree_iter (totp_secrets sec)) (trim token) now l.
Proof.
  intros Hc. unfold judge_proof. rewrite Hc.
  assert (Hd : forall p, match p with String a _ => is_ascii_digit a = false | "" => False end ->
    starts_with p (trim token) = false).
  { intros [|a p] Ha; [done|]. destruct (starts_with _ _) eqn:E; [|done].
    apply starts_with_Some in E as [r E]. rewrite E in Hc. cbn in Hc. by rewrite Ha in Hc. }
  by rewrite !Hd.
Qed.

Lemma judge_assertion model request token now l :
  starts_with FIDO2_PREFIX (trim token) = true ->
  judge model request token now l
  = try_fido2 io_ok (fido2_credentials model) (trim token) (challenge_string request) None l.
Proof.
  intros Hp. unfold judge_proof. rewrite Hp. apply starts_with_Some in Hp as [r ->].
  done.
Qed.

Lemma of_kind_fido2 model id cred :
  (id, cred) ∈ fido2_credentials model -> authenticators model !! id = Some (Fido2 cred).
Proof.
  intros (a & Ha & Hf)%elem_of_of_kind. destruct a; simplify_eq. done.
Qed.

Lemma judge_sound model request token now l id :
  marks_ok l -> (judge model request token now l).2 = Ok (Ok id) ->
  proves sec model request token now l id.
Proof.
  intros Hm. destruct (judge model request token now l) as [l' v] eqn:Hj. cbn. intros ->.
  unfold judge_proof in Hj. destruct (starts_with SSHSIG_BEGIN _).
  { injection Hj as _ Hv. unfold verify_ed25519 in Hv.
    destruct (sshsig_parse (trim token)) as [sig|] eqn:Es; [|done]. cbn in Hv.
    case_bool_decide as Hns; [|done]. cbn in Hv.
    destruct (head _) as [[id' pk]|] eqn:Eh; [|done]. cbn in Hv.
    destruct (sshsig_verify _ _ _ _) eqn:Ev; [|done]. simplify_eq.
    apply head_Some_elem_of, elem_of_of_kind in Eh as (a & Ha & Hf). destruct a; try done.
    destruct (sshsig_signer _ _); [|done]. simplify_eq. by eapply by_ssh. }
  destruct (starts_with FIDO2_PREFIX _).
  { apply try_fido2_spec in Hj as [_ Hs].
    destruct (Hs id eq_refl) as (cred & c & Hin%of_kind_fido2 & Hv & Hc & Ho).
    apply observe_spec in Ho as (_ & _ & Hok); [|by eapply token_counter_nonneg|done].
    eapply by_fido2; eauto. by apply Hok. }
  destruct (starts_with TPM_PREFIX _).
  { injection Hj as _ (pk & (a & Ha & Hf)%elem_of_of_kind & Hv)%try_tpm_sound.
    destruct a; simplify_eq. by eapply by_tpm. }
  destruct (starts_with HMAC_PREFIX _).
  { injection Hj as _ (s & Hin%elem_of_btree_iter & Hv)%try_hmac_sound. by eapply by_hmac. }
  destruct (is_totp_code _).
  { apply try_totp_spec in Hj as [_ Hs].
    destruct (Hs id eq_refl) as (s & c & Hin%elem_of_btree_iter & Hmt & Hc).
    apply consume_spec in Hc as (_ & _ & Hok). eapply by_totp; eauto. by apply Hok. }
  injection Hj as _ (phc & Hin%elem_of_btree_iter & Hv)%try_password_sound. by eapply by_password.
Qed.

(** ** Sequences of judgements *)

(** The daemon judges any proofs, for any requests, on a clock that does not
    step back. *)
Inductive judged : SystemTime * Ledgers -> SystemTime * Ledgers -> Prop :=
| judged_one t l model request token now :
    t <= now -> judged (t, l) (now, (judge model request token now l).1).

Lemma judged_inv p q : rtc judged p q -> marks_ok p.2 ->
  p.1 <= q.1 /\ marks_ok q.2 /\ (forall cred, mark_of p.2 cred <= mark_of q.2 cred)
  /\ (forall e, e ∈ spent p.2 -> kept (epoch_secs q.1) e = true -> e ∈ spent q.2).
Proof.
  intros Hr Hm. refine (rtc_ind_r (fun q => p.1 <= q.1 /\ marks_ok q.2
    /\ (forall cred, mark_of p.2 cred <= mark_of q.2 cred)
    /\ (forall e, e ∈ spent p.2 -> kept (epoch_secs q.1) e = true -> e ∈ spent q.2)) p _ _ q Hr);
    [auto with lia|]. clear q Hr.
  intros q q' _ Hs (Ht & Hq & Hmo & Hsp). destruct Hs as [t l model request token now Hle].
  cbn [fst snd] in *. destruct (judge model request token now l) as [l' v] eqn:Hj.
  destruct (judge_keeps _ _ _ _ _ _ _ Hj Hq) as (Hq' & Hmo' & Hsp'). cbn [fst].
  split; [lia|]. split; [done|]. split.
  - intros cred. specialize (Hmo cred). specialize (Hmo' cred). lia.
  - intros e He Hk. apply Hsp'; [|done]. apply Hsp; [done|].
    unfold kept, saturating_sub64 in *. bool_prop. apply Z.leb_le.
    pose proof (epoch_secs_mono t now Hle). lia.
Qed.
End Judgements.

(** ** Properties *)

Section Properties.
Context `{DataEncodingLaws, FactorCrypto} (io_ok : nat -> bool) (sec : Secrets).
Notation judge := (judge_proof io_ok sec).


(** C14. A TOTP code is spent once.  After a code was accepted for an
    authenticator on some time step, whatever other proofs are judged
    meanwhile and however late the code is tried again, no code of that step
    is accepted for that authenticator: the ledger forgets an entry only when
    the step is outside every window. *)
Theorem totp_code_spent_once (model1 model2 : AuthorityModel) (request1 request2 : ApprovalRequest)
    (token1 token2 : string) (now1 now2 t : SystemTime) (l l2 : Ledgers) (id : string)
    (secret : list Z) (c : Z) (Hl : marks_ok l)
    (Hcode1 : is_totp_code (trim token1) = true) (Hcode2 : is_totp_code (trim token2) = true)
    (Hsecret : totp_secrets sec !! id = Some secret)
    (Hacc : (judge model1 request1 token1 now1 l).2 = Ok (Ok id))
    (Hc1 : matches secret (trim token1) now1 1 = Some c)
    (Hsteps : rtc (judged io_ok sec) (now1, (judge model1 request1 token1 now1 l).1) (t, l2))
    (Hlater : t <= now2) (Hc2 : matches secret (trim token2) now2 1 = Some c) :
  (judge model2 request2 token2 now2 l2).2 <> Ok (Ok id).
Proof.
  destruct (judge model1 request1 token1 now1 l) as [l1 v] eqn:Hj. cbn in Hacc, Hsteps. subst v.
  destruct (judge_keeps _ _ _ _ _ _ _ _ _ Hj Hl) as (Hl1 & _ & _).
  rewrite judge_code in Hj by done. apply try_totp_spec in Hj as [_ Hs].
  destruct (Hs id eq_refl) as (s & c' & Hin%elem_of_btree_iter & Hm & Hcons).
  rewrite Hsecret in Hin. injection Hin as <-. rewrite Hc1 in Hm. injection Hm as <-.
  apply consume_spec in Hcons as (_ & _ & Hrec). destruct (Hrec eq_refl) as [Hent _].
  pose proof (matches_sound _ _ _ _ Hc1) as [Hw1 _]. pose proof (matches_sound _ _ _ _ Hc2) as [Hw2 _].
  destruct (judged_inv _ _ _ _ Hsteps Hl1) as (Ht & _ & _ & Hsp). cbn [fst snd] in *.
  assert (Hnear : epoch_secs now2 - epoch_secs now1 <= RETAIN_SECS).
  { unfold counter_at, STEP_SECS, RETAIN_SECS in *.
    pose proof (Z.div_mod (epoch_secs now1) 30). pose proof (Z.mod_pos_bound (epoch_secs now1) 30).
    pose proof (Z.div_mod (epoch_secs now2) 30). pose proof (Z.mod_pos_bound (epoch_secs now2) 30).
    lia. }
  pose proof (epoch_secs_mono t now2 Hlater) as Htm.
  rewrite judge_code by done. destruct (try_totp _ _ _ _ l2) as [l3 v2] eqn:Hj2. cbn [snd].
  intros ->. apply try_totp_spec in Hj2 as [_ Hs2].
  destruct (Hs2 id eq_refl) as (s2 & c2 & Hin2%elem_of_btree_iter & Hm2 & Hcons2).
  rewrite Hsecret in Hin2. injection Hin2 as <-. rewrite Hc2 in Hm2. injection Hm2 as <-.
  apply consume_spec in Hcons2 as (_ & _ & Hrec2). destruct (Hrec2 eq_refl) as [_ Hfresh].
  assert (Hk : forall n, n <= epoch_secs now2 ->
    kept n {| authenticator := id; counter := c; at_ := epoch_secs now1 |} = true).
  { intros n Hn. apply Z.leb_le. cbn. unfold saturating_sub64, RETAIN_SECS in *. lia. }
  pose proof (Hfresh _ (Hsp _ Hent (Hk _ Htm)) (Hk _ (Z.le_refl _))) as Hno.
  unfold spends in Hno. cbn in Hno. by rewrite bool_decide_eq_true_2, Z.eqb_refl in Hno.
Qed.

(** A cloned security key shows.  After an assertion with a nonzero
    counter was accepted, every later accepted assertion of the same
    credential, whatever was judged in between, carries a greater one. *)
Theorem fido2_counter_advances (model1 model2 : AuthorityModel) (request1 request2 : ApprovalRequest)
    (token1 token2 : string) (now1 now2 t : SystemTime) (l l2 : Ledgers) (id1 id2 : string)
    (cred1 cred2 : Fido2Credential) (c1 c2 : Z) (Hl : marks_ok l)
    (Hfido1 : starts_with FIDO2_PREFIX (trim token1) = true)
    (Hfido2 : starts_with FIDO2_PREFIX (trim token2) = true)
    (Hacc1 : (judge model1 request1 token1 now1 l).2 = Ok (Ok id1))
    (Hcred1 : authenticators model1 !! id1 = Some (Fido2 cred1))
    (Hc1 : token_counter (trim token1) = Ok c1) (Hpos : 0 < c1)
    (Hsteps : rtc (judged io_ok sec) (now1, (judge model1 request1 token1 now1 l).1) (t, l2))
    (Hacc2 : (judge model2 request2 token2 now2 l2).2 = Ok (Ok id2))
    (Hcred2 : authenticators model2 !! id2 = Some (Fido2 cred2))
    (Hc2 : token_counter (trim token2) = Ok c2) (Hsame : cred_id cred1 = cred_id cred2) :
  c1 < c2.
Proof.
  destruct (judge model1 request1 token1 now1 l) as [l1 v] eqn:Hj. cbn in Hacc1, Hsteps. subst v.
  destruct (judge_keeps _ _ _ _ _ _ _ _ _ Hj Hl) as (Hl1 & _ & _).
  destruct (judged_inv _ _ _ _ Hsteps Hl1) as (_ & Hl2 & Hmo & _). cbn [fst snd] in *.
  rewrite judge_assertion in Hj by done. apply try_fido2_spec in Hj as [_ Hs].
  destruct (Hs id1 eq_refl) as (cred & c & Hin%of_kind_fido2 & _ & Hc & Ho).
  rewrite Hcred1 in Hin. injection Hin as <-. rewrite Hc1 in Hc. injection Hc as <-.
  apply observe_spec in Ho as (_ & _ & Hm1); [|lia|done]. destruct (Hm1 eq_refl) as [Hm1' _].
  rewrite judge_assertion in Hacc2 by done.
  destruct (try_fido2 _ _ _ _ _ l2) as [l3 v2] eqn:Hj2. cbn in Hacc2. subst v2.
  apply try_fido2_spec in Hj2 as [_ Hs2].
  destruct (Hs2 id2 eq_refl) as (cred & c & Hin%of_kind_fido2 & _ & Hc & Ho).
  rewrite Hcred2 in Hin. injection Hin as <-. rewrite Hc2 in Hc. injection Hc as <-.
  apply observe_spec in Ho as (_ & _ & Hm2); [|by eapply token_counter_nonneg|done].
  destruct (Hm2 eq_refl) as [_ Hlt]. specialize (Hmo (cred_id cred1)). rewrite <-Hsame in Hlt. lia.
Qed.
End Properties.

(** ** Witnesses: factors over the reference codecs *)

(** Fields separated by bars stand for the JSON of the tokens. *)
Definition bar_fields (bs : list Z) : list string := split "|"%char (str_of_bytes bs).

#[local] Instance RefFactors : FactorCrypto := {|
  hmac_sha1 key m := checksum 20 1 (key ++ m);
  hmac_sha256 key m := checksum 32 2 (key ++ m);
  factor_sha256 m := checksum 32 3 m;
  ecdsa_from_der der := Ok der;
  ecdsa_verify pk m sig := bool_decide (sig = ref_sign pk m);
  eddsa_from_slice bs := Ok bs;
  eddsa_verify pk m sig := bool_decide (sig = ref_sign pk m);
  PasswordHash := string;
  password_hash_new phc := Ok phc;
  hash_is_none _ := false;
  verify_password pw h := if bool_decide (pw = as_bytes h) then PvOk else PvWrong;
  SshSig := string;
  sshsig_parse s := Ok s;
  sshsig_namespace _ := APPROVAL_NAMESPACE;
  sshsig_signer pk sig := bool_decide (pk = sig);
  sshsig_verify _ _ _ _ := true;
  assertion_from_slice bs :=
    match bar_fields bs with
    | [a; b; c; d] => Ok {| at_credential_id := a; at_authenticator_data := b;
                            at_client_data_json := c; at_signature := d |}
    | _ => Err "fields"
    end;
  client_data_from_slice bs :=
    match bar_fields bs with
    | [a; b] => Ok {| ty := a; challenge := b |}
    | _ => Err "fields"
    end;
  debug_str s := s;
|}.

#[local] Instance RefFactorsLaws : FactorCryptoLaws.
Proof. split; intros; cbn -[checksum]; solve [done | apply checksum_u8]. Qed.

Definition demo_secret : list Z := [11; 22; 33].
Definition demo_secrets : Secrets :=
  {| totp_secrets := {["alice" := demo_secret]}; password_hashes := ∅; hmac_secrets := ∅ |}.
Definition demo_key : Fido2Credential :=
  {| cred_alg := Es256; cred_id := [5; 6; 7]; cred_public_key := [1; 2; 3] |}.
Definition demo_model : AuthorityModel :=
  {| authenticators := {["alice" := Totp "t"; "key" := Fido2 demo_key]};
     groups := ∅; profiles := ∅; mcp_profiles := ∅ |}.
Definition demo_request : ApprovalRequest := sample_request 0.
Definition demo_now : SystemTime := Clock.from_secs 1000000.
Definition fresh_ledgers : Ledgers :=
  {| totp_file := Absent; counters_file := Absent; attempts := 0 |}.
Definition always : nat -> bool := fun _ => true.
Definition demo_code : string := code_at demo_secret (counter_at demo_now).

(** An assertion of the demo key with the given counter. *)
Definition demo_assertion (c : Z) : string :=
  let auth := factor_sha256 (as_bytes RP_ID) ++ [1; 0; 0; 0; c] in
  let client := as_bytes ("webauthn.get|"
    +:+ base64url_encode (as_bytes (challenge_string demo_request))) in
  let sig := ref_sign (cred_public_key demo_key) (auth ++ factor_sha256 client) in
  FIDO2_PREFIX +:+ base64url_encode (as_bytes (base64url_encode (cred_id demo_key) +:+ "|"
    +:+ base64url_encode auth +:+ "|" +:+ base64url_encode client +:+ "|" +:+ base64url_encode sig)).

Lemma fresh_marks_ok : marks_ok fresh_ledgers.
Proof. done. Qed.

Lemma totp_window_exact_witness :
  exists c', matches demo_secret (code_at demo_secret (counter_at demo_now - 1)) demo_now 1 = Some c'
    /\ code_at demo_secret c' = code_at demo_secret (counter_at demo_now - 1).
Proof.
  assert (Hclock : 0 <= demo_now < CLOCK_END) by (vm_compute; split; congruence).
  apply (totp_window_exact demo_secret demo_now Hclock); vm_compute; [congruence|split; congruence].
Defined.


Lemma totp_code_spent_once_witness :
  let l1 := (judge_proof always demo_secrets demo_model demo_request demo_code demo_now
               fresh_ledgers).1 in
  (judge_proof always demo_secrets demo_model demo_request demo_code
     (demo_now + NANOS_PER_SEC) l1).2 <> Ok (Ok "alice").
Proof.
  cbv zeta.
  apply (totp_code_spent_once always demo_secrets demo_model demo_model demo_request demo_request
    demo_code demo_code demo_now (demo_now + NANOS_PER_SEC) demo_now fresh_ledgers _ "alice"
    demo_secret (counter_at demo_now));
    first [exact fresh_marks_ok|apply rtc_refl|vm_compute; reflexivity|vm_compute; congruence].
Defined.

Lemma fido2_counter_advances_witness :
  let l1 := (judge_proof always demo_secrets demo_model demo_request (demo_assertion 7) demo_now
               fresh_ledgers).1 in
  (judge_proof always demo_secrets demo_model demo_request (demo_assertion 9) demo_now l1).2
    = Ok (Ok "key") /\ 7 < 9.
Proof.
  cbv zeta. split; [vm_compute; reflexivity|].
  apply (fido2_counter_advances always demo_secrets demo_model demo_model demo_request demo_request
    (demo_assertion 7) (demo_assertion 9) demo_now demo_now demo_now fresh_ledgers
    (judge_proof always demo_secrets demo_model demo_request (demo_assertion 7) demo_now
       fresh_ledgers).1 "key" "key" demo_key demo_key);
    first [exact fresh_marks_ok|apply rtc_refl|vm_compute; reflexivity].
Defined.
