(* ===== verification/Provers.v ===== *)
(** * Provers: how the proofs are made

    The client half of the factors: the software authenticator and the token
    assembly of core/src/fido2.rs and core/src/tpm.rs, the signer of
    core/src/hmac_factor.rs, the hash of core/src/password.rs.  The theorem
    is the completeness of the daemon's judgement: what these functions make
    for a request's challenge, the daemon accepts. *)

From stdpp Require Import relations.
From S2P Require Import Prelude Text Clock External Reference Approval Cbor TextLines Authority Factors Ledgers Daemon Proofs.
#[local] Open Scope Z_scope.

(** What clientDataJSON is written from. *)
Record ClientDataOut := { out_ty : string; out_challenge : string; out_origin : string }.

(** The signing half of the crates. *)
Class FactorSigners `{FactorCrypto} := {
  (** [p256::ecdsa::SigningKey]: the parse of a scalar, the SEC1 point of its
      public half, a signature in DER. *)
  p256_signing_key : list Z -> result string unit;
  p256_point : list Z -> list Z;
  ecdsa_sign_der : list Z -> list Z -> list Z;
  (** [ed25519_dalek::SigningKey], from 32 bytes. *)
  ed25519_point : list Z -> list Z;
  eddsa_sign : list Z -> list Z -> list Z;
  (** [serde_json::to_vec]. *)
  assertion_to_vec : AssertionToken -> list Z;
  client_data_to_vec : ClientDataOut -> list Z;
  (** [SaltString::encode_b64] and [hash_password]. *)
  Salt : Type;
  salt_encode : list Z -> result string Salt;
  hash_password : list Z -> Salt -> result string string;
}.

Class FactorSignersLaws `{FactorSigners} : Prop := {
  p256_point_parses d : p256_signing_key d = Ok tt -> p256_from_sec1 (p256_point d) = Ok tt;
  ecdsa_sign_u8 d m : Forall is_u8 (ecdsa_sign_der d m);
  ecdsa_sign_verifies d m : p256_signing_key d = Ok tt ->
    exists sig, ecdsa_from_der (ecdsa_sign_der d m) = Ok sig
      /\ ecdsa_verify (p256_point d) m sig = true;
  ed25519_point_parses d : length d = 32%nat ->
    length (ed25519_point d) = 32%nat /\ ed25519_from_bytes (ed25519_point d) = Ok tt;
  eddsa_sign_u8 d m : Forall is_u8 (eddsa_sign d m);
  eddsa_sign_verifies d m : length d = 32%nat ->
    exists sig, eddsa_from_slice (eddsa_sign d m) = Ok sig
      /\ eddsa_verify (ed25519_point d) m sig = true;
  assertion_to_vec_u8 t : Forall is_u8 (assertion_to_vec t);
  assertion_from_to_vec t :
    str_forall is_base64url_char (at_credential_id t) = true ->
    str_forall is_base64url_char (at_authenticator_data t) = true ->
    str_forall is_base64url_char (at_client_data_json t) = true ->
    str_forall is_base64url_char (at_signature t) = true ->
    assertion_from_slice (assertion_to_vec t) = Ok t;
  client_data_to_vec_u8 o : Forall is_u8 (client_data_to_vec o);
  client_data_from_to_vec o :
    out_ty o = "webauthn.get" -> str_forall is_base64url_char (out_challenge o) = true ->
    client_data_from_slice (client_data_to_vec o)
    = Ok {| ty := out_ty o; challenge := out_challenge o |};
  factor_sha256_u8 m : Forall is_u8 (factor_sha256 m);
  factor_sha256_length m : length (factor_sha256 m) = 32%nat;
  hash_password_verifies pw salt phc : hash_password pw salt = Ok phc ->
    exists parsed, password_hash_new phc = Ok parsed /\ hash_is_none parsed = false
      /\ verify_password pw parsed = PvOk;
}.

Section Provers.
Context `{DataEncoding, FactorSigners}.

(** ** FIDO2 *)

Definition rp_id_hash : list Z := factor_sha256 (as_bytes RP_ID).

Definition client_data_json (challenge : string) : list Z :=
  client_data_to_vec {| out_ty := "webauthn.get";
                        out_challenge := base64url_encode (as_bytes challenge);
                        out_origin := RP_ID |}.

Definition client_data_hash (challenge : string) : list Z :=
  factor_sha256 (client_data_json challenge).

Definition fido2_assemble_token (credential_id authenticator_data client_data signature : list Z)
    : string :=
  let tok := {| at_credential_id := base64url_encode credential_id;
                at_authenticator_data := base64url_encode authenticator_data;
                at_client_data_json := base64url_encode client_data;
                at_signature := base64url_encode signature |} in
  FIDO2_PREFIX +:+ base64url_encode (assertion_to_vec tok).

Definition fido2_public_key (alg : Alg) (private_key : list Z) : result Fido2Error (list Z) :=
  match alg with
  | Es256 =>
      let? _ := map_err (fun e => F2UnsupportedKey ("es256 private key: " +:+ e))
                  (p256_signing_key private_key) in
      Ok (p256_point private_key)
  | EdDsa =>
      if negb (Nat.eqb (length private_key) 32)
      then Err (F2UnsupportedKey "eddsa private key is not 32 bytes")
      else Ok (ed25519_point private_key)
  end.

Definition fido2_sign (alg : Alg) (private_key msg : list Z) : result Fido2Error (list Z) :=
  match alg with
  | Es256 =>
      let? _ := map_err (fun e => F2UnsupportedKey ("es256 private key: " +:+ e))
                  (p256_signing_key private_key) in
      Ok (ecdsa_sign_der private_key msg)
  | EdDsa =>
      if negb (Nat.eqb (length private_key) 32)
      then Err (F2UnsupportedKey "eddsa private key is not 32 bytes")
      else Ok (eddsa_sign private_key msg)
  end.

(** [authenticatorData]: relying party, user-present flag, counter. *)
Definition authenticator_data (counter : Z) : list Z :=
  rp_id_hash ++ [FLAG_UP] ++ be_bytes 4 counter.

Definition build_assertion_with_counter (alg : Alg) (private_key credential_id : list Z)
    (challenge : string) (counter : Z) : result Fido2Error string :=
  let client_data := client_data_json challenge in
  let auth_data := authenticator_data counter in
  let? signature := fido2_sign alg private_key (auth_data ++ factor_sha256 client_data) in
  Ok (fido2_assemble_token credential_id auth_data client_data signature).

Definition build_assertion (alg : Alg) (private_key credential_id : list Z) (challenge : string)
    : result Fido2Error string :=
  build_assertion_with_counter alg private_key credential_id challenge 0.

(** ** TPM *)

Definition tpm_assemble_token (signature_der : list Z) : string :=
  TPM_PREFIX +:+ base64url_encode signature_der.

Definition tpm_public_key (private_key : list Z) : result TpmError (list Z) :=
  let? _ := map_err (fun e => TpmUnsupportedKey ("p256 private key: " +:+ e))
              (p256_signing_key private_key) in
  Ok (p256_point private_key).

Definition tpm_sign (private_key : list Z) (challenge : string) : result TpmError string :=
  let? _ := map_err (fun e => TpmUnsupportedKey ("p256 private key: " +:+ e))
              (p256_signing_key private_key) in
  Ok (tpm_assemble_token (ecdsa_sign_der private_key (as_bytes challenge))).

(** ** Passwords *)

Inductive PasswordError := BadHash (text : string) | Hashing (text : string).

Definition password_hash (password : string) (salt : list Z) : result PasswordError string :=
  let? salt := map_err (fun e => Hashing ("salt: " +:+ e)) (salt_encode salt) in
  map_err Hashing (hash_password (as_bytes password) salt).
End Provers.

(** ** The tokens read back *)

Section Tokens.
Context `{DataEncodingLaws, FactorSigners, !FactorSignersLaws}.

Lemma unb64_encode bs what : Forall is_u8 bs -> unb64 (base64url_encode bs) what = Ok bs.
Proof.
  intros Hu. unfold unb64. rewrite trim_base64url by by apply base64url_encode_alphabet.
  by rewrite base64url_decode_encode.
Qed.

(** Base64url and the dot of a prefix. *)
Definition is_token_char (c : ascii) : bool := is_base64url_char c || bool_decide (c = "."%char).

Lemma trim_token p bs :
  Forall is_u8 bs -> str_forall is_token_char p = true ->
  trim (p +:+ base64url_encode bs) = p +:+ base64url_encode bs.
Proof.
  intros Hu Hp. apply (trim_unchanged is_token_char); [by vm_compute..|].
  rewrite str_forall_app, Hp. cbn. eapply str_forall_impl; [|by apply base64url_encode_alphabet].
  intros c Hc. unfold is_token_char. by rewrite Hc.
Qed.

Lemma authenticator_data_u8 counter : Forall is_u8 (authenticator_data counter).
Proof.
  unfold authenticator_data. rewrite !Forall_app. split; [apply factor_sha256_u8|].
  split; [repeat constructor; unfold u8_max, FLAG_UP; lia|apply be_bytes_u8].
Qed.

(** The parts of an assembled assertion. *)
Definition assembled (credential_id auth_data client_data signature : list Z) : AssertionToken :=
  {| at_credential_id := base64url_encode credential_id;
     at_authenticator_data := base64url_encode auth_data;
     at_client_data_json := base64url_encode client_data;
     at_signature := base64url_encode signature |}.

Lemma assertion_of_assembled cid auth client sig :
  Forall is_u8 cid -> Forall is_u8 auth -> Forall is_u8 client -> Forall is_u8 sig ->
  assertion_of (fido2_assemble_token cid auth client sig) = Ok (assembled cid auth client sig).
Proof.
  intros. unfold assertion_of, fido2_assemble_token. rewrite strip_prefix_app. cbn [ok_or].
  rewrite unb64_encode by apply assertion_to_vec_u8.
  by rewrite assertion_from_to_vec by by apply base64url_encode_alphabet.
Qed.

Lemma fido2_sign_verifies alg private cid public msg sig :
  fido2_public_key alg private = Ok public -> fido2_sign alg private msg = Ok sig ->
  Forall is_u8 sig /\
  verify_signature {| cred_alg := alg; cred_id := cid; cred_public_key := public |} msg sig = Ok tt.
Proof.
  unfold fido2_public_key, fido2_sign, verify_signature. cbn [cred_alg cred_public_key]. destruct alg.
  - destruct (p256_signing_key private) as [[]|] eqn:Ek; [|done]. cbn. intros [= <-] [= <-].
    split; [apply ecdsa_sign_u8|]. rewrite p256_point_parses by done. cbn.
    destruct (ecdsa_sign_verifies private msg Ek) as (sig & -> & Hv). cbn. by rewrite Hv.
  - destruct (Nat.eqb_spec (length private) 32) as [El|]; [|done]. cbn. intros [= <-] [= <-].
    split; [apply eddsa_sign_u8|]. destruct (ed25519_point_parses private El) as [-> ->]. cbn.
    destruct (eddsa_sign_verifies private msg El) as (sig & -> & Hv). cbn. by rewrite Hv.
Qed.

Lemma be_bytes_4 n :
  0 <= n < 2 ^ 32 ->
  let bs := FLAG_UP :: be_bytes 4 n in
  nth 1 bs 0 * 2 ^ 24 + nth 2 bs 0 * 2 ^ 16 + nth 3 bs 0 * 2 ^ 8 + nth 4 bs 0 = n.
Proof.
  intros Hn. cbn -[Z.mul Z.pow Z.div Z.modulo Z.add].
  Z.to_euclidean_division_equations. lia.
Qed.

(** The software authenticator's assertion verifies under the registered
    key, and carries its counter. *)
Lemma built_assertion_verifies alg private cid public challenge counter token :
  Forall is_u8 cid -> 0 <= counter < 2 ^ 32 ->
  fido2_public_key alg private = Ok public ->
  build_assertion_with_counter alg private cid challenge counter = Ok token ->
  trim token = token /\ starts_with FIDO2_PREFIX token = true
  /\ fido2_verify {| cred_alg := alg; cred_id := cid; cred_public_key := public |} token challenge
     = Ok tt
  /\ token_counter token = Ok counter.
Proof.
  intros Hcid Hc Hpub. unfold build_assertion_with_counter.
  set (client := client_data_json challenge). set (auth := authenticator_data counter).
  destruct (fido2_sign alg private _) as [sig|] eqn:Es; [|done]. cbn beta iota. intros [= <-].
  destruct (fido2_sign_verifies _ _ cid _ _ _ Hpub Es) as [Hsig Hv].
  assert (Hclient : Forall is_u8 client) by apply client_data_to_vec_u8.
  assert (Hauth : Forall is_u8 auth) by apply authenticator_data_u8.
  assert (Hlen : length auth = 37%nat).
  { unfold auth, authenticator_data, rp_id_hash.
    by rewrite !length_app, factor_sha256_length, length_be_bytes. }
  split; [apply trim_token; [apply assertion_to_vec_u8|done]|].
  split; [unfold starts_with, fido2_assemble_token; by rewrite strip_prefix_app|].
  unfold fido2_verify, token_counter. rewrite assertion_of_assembled by done.
  unfold assembled. cbn [at_credential_id at_authenticator_data at_client_data_json at_signature].
  rewrite !unb64_encode by done. cbn [cred_id]. rewrite bool_decide_eq_true_2 by done. cbn [negb].
  unfold client at 1. unfold client_data_json.
  rewrite client_data_from_to_vec by (done || apply base64url_encode_alphabet, as_bytes_u8).
  cbn [map_err ty Factors.challenge out_ty out_challenge].
  rewrite !bool_decide_eq_true_2 by done. rewrite Hlen. cbn [negb Nat.ltb Nat.leb].
  assert (Ht : take 32 auth = factor_sha256 (as_bytes RP_ID)).
  { unfold auth, authenticator_data, rp_id_hash. rewrite take_app_le by by rewrite factor_sha256_length.
    apply take_ge. by rewrite factor_sha256_length. }
  assert (Hn : forall k, (32 <= k)%nat ->
    nth k auth 0 = nth (k - 32) (FLAG_UP :: be_bytes 4 counter) 0).
  { intros k Hk. unfold auth, authenticator_data, rp_id_hash.
    by rewrite app_nth2; rewrite factor_sha256_length. }
  rewrite Ht, bool_decide_eq_true_2 by done. cbn [negb].
  rewrite !Hn by lia.
  split; [exact Hv|]. f_equal. apply be_bytes_4. done.
Qed.
End Tokens.

(** ** Honest proofs are accepted *)

(** The ledger files are new or of the version the daemon writes. *)
Definition ready (l : Ledgers) : Prop :=
  match totp_file l with
  | Absent => True | Corrupt => False | Present d => td_version d = LEDGER_VERSION
  end /\
  match counters_file l with
  | Absent => True | Corrupt => False | Present d => cd_version d = LEDGER_VERSION
  end.

Section Complete.
Context `{DataEncodingLaws, FactorSigners, !FactorCryptoLaws, !FactorSignersLaws}.
Context (io_ok : nat -> bool) (Hio : forall n, io_ok n = true) (sec : Secrets).

Lemma observe_accepts cid c l :
  ready l -> 0 <= c -> mark_of l cid < c \/ (mark_of l cid = 0 /\ c = 0) ->
  (observe io_ok cid c l).2 = Ok CvOk.
Proof.
  intros [_ Hr] Hc Hm. unfold mark_of in Hm.
  unfold observe, counters_read, counters_write, lbind, attempt, lret. cbn. rewrite !Hio.
  destruct (counters_file l) as [| |d]; [|done|]; cbn.
  - rewrite lookup_empty. cbn. destruct (0 <? c); cbn; by rewrite ?Hio.
  - rewrite Hr. cbn. set (stored := default 0 _) in *.
    replace ((0 <? stored) && (c <=? stored)) with false
      by (symmetry; apply andb_false_iff; rewrite Z.ltb_ge, Z.leb_gt; lia).
    destruct (0 <? c); cbn; by rewrite ?Hio.
Qed.

Lemma consume_accepts id c now l :
  ready l -> (forall e, e ∈ spent l -> spends id c e = false) ->
  (consume io_ok id c now l).2 = Ok true.
Proof.
  intros [Hr _] Hs. unfold spent in Hs.
  unfold consume, totp_read, totp_write, lbind, attempt, lret. cbn. rewrite !Hio.
  destruct (totp_file l) as [| |d]; [|done|]; cbn; [by rewrite Hio|].
  rewrite Hr. cbn. replace (existsb (spends id c) _) with false; [cbn; by rewrite Hio|].
  symmetry. apply not_true_is_false. intros (e & [He _]%filter_In & Hsp)%existsb_exists.
  apply list_elem_of_In in He. by rewrite (Hs e He) in Hsp.
Qed.

(** A credential that verifies has the id the token names. *)
Lemma fido2_verify_id cred cred' token expected :
  fido2_verify cred token expected = Ok tt -> fido2_verify cred' token expected = Ok tt ->
  cred_id cred = cred_id cred'.
Proof.
  unfold fido2_verify. destruct (assertion_of token) as [tok|]; [|done]. cbn.
  destruct (unb64 (at_credential_id tok) _) as [cid|]; [|done].
  do 2 (case_bool_decide; [|done]). by subst.
Qed.

Lemma try_fido2_complete creds token expected err c l cred :
  (exists id, (id, cred) ∈ creds) -> fido2_verify cred token expected = Ok tt ->
  token_counter token = Ok c -> (observe io_ok (cred_id cred) c l).2 = Ok CvOk ->
  exists id, (try_fido2 io_ok creds token expected err l).2 = Ok (Ok id).
Proof.
  intros [id Hin] Hv Hc Ho. revert err. induction creds as [|[id' cred'] creds IH]; intros err.
  { by apply elem_of_nil in Hin. }
  cbn [try_fido2]. destruct (fido2_verify cred' token expected) as [[]|e] eqn:Ev'.
  - rewrite Hc, <-(fido2_verify_id _ _ _ _ Hv Ev'). exists id'. unfold or_fatal.
    destruct (observe io_ok (cred_id cred) c l) as [l' r]. cbn in *. by subst r.
  - apply elem_of_cons in Hin as [[= -> ->]|Hin]; [by rewrite Hv in Ev'|].
    destruct e; by apply IH.
Qed.

Lemma try_tpm_complete creds token expected any malformed pk :
  (exists id, (id, pk) ∈ creds) -> tpm_verify pk token expected = Ok tt ->
  exists id, try_tpm creds token expected any malformed = Ok id.
Proof.
  intros [id Hin] Hv. revert any malformed.
  induction creds as [|[id' pk'] creds IH]; intros any malformed; [by apply elem_of_nil in Hin|].
  cbn [try_tpm]. destruct (tpm_verify pk' token expected) as [[]|e] eqn:Ev'; [by exists id'|].
  apply elem_of_cons in Hin as [[= -> ->]|Hin]; [by rewrite Hv in Ev'|]. destruct e; by apply IH.
Qed.

Lemma try_hmac_complete secrets token expected any malformed s :
  (exists id, (id, s) ∈ secrets) -> hmac_verify s token expected = Ok tt ->
  exists id, try_hmac secrets token expected any malformed = Ok id.
Proof.
  intros [id Hin] Hv. revert any malformed.
  induction secrets as [|[id' s'] secrets IH]; intros any malformed; [by apply elem_of_nil in Hin|].
  cbn [try_hmac]. destruct (hmac_verify s' token expected) as [[]|e] eqn:Ev'; [by exists id'|].
  apply elem_of_cons in Hin as [[= -> ->]|Hin]; [by rewrite Hv in Ev'|]. destruct e; by apply IH.
Qed.

(** The first secret whose window holds the code decides. *)
Lemma try_totp_complete secrets code now l id s c :
  (id, s) ∈ secrets -> matches s code now 1 = Some c ->
  (forall id' s', (id', s') ∈ secrets -> (id', s') <> (id, s) -> matches s' code now 1 = None) ->
  (consume io_ok id c now l).2 = Ok true ->
  (try_totp io_ok secrets code now l).2 = Ok (Ok id).
Proof.
  intros Hin Hm Hother Hc. induction secrets as [|[id' s'] secrets IH]; [by apply elem_of_nil in Hin|].
  cbn [try_totp]. destruct (decide ((id', s') = (id, s))) as [[= -> ->]|Hne].
  - rewrite Hm. unfold or_fatal. destruct (consume io_ok id c now l). cbn in *. by subst.
  - rewrite (Hother id' s') by (done || left). apply IH.
    + by apply elem_of_cons in Hin as [|].
    + intros id2 s2 Hin2. apply Hother. by right.
Qed.

Lemma try_password_complete hashes pw phc :
  (exists id, (id, phc) ∈ hashes) -> password_verify phc pw = Ok true ->
  (forall id phc', (id, phc') ∈ hashes -> exists b, password_verify phc' pw = Ok b) ->
  exists id, try_password hashes pw = Ok (Ok id).
Proof.
  intros [id Hin] Hv Hok. induction hashes as [|[id' phc'] hashes IH]; [by apply elem_of_nil in Hin|].
  cbn [try_password]. destruct (Hok id' phc') as [[] Eb]; [by left|rewrite Eb; by exists id'|].
  rewrite Eb. apply IH; [|intros; eapply Hok; by right].
  apply elem_of_cons in Hin as [[= -> ->]|Hin]; [by rewrite Hv in Eb|done].
Qed.

(** A password the dispatch does not take for another factor. *)
Definition plain_password (s : string) : bool :=
  negb (starts_with SSHSIG_BEGIN s) && negb (starts_with FIDO2_PREFIX s)
  && negb (starts_with TPM_PREFIX s) && negb (starts_with HMAC_PREFIX s)
  && negb (is_totp_code s).

(** A token made by the client's code for the request, with the secret half
    of an authenticator of the policy. *)
Inductive honest (model : AuthorityModel) (request : ApprovalRequest) (now : SystemTime)
    (l : Ledgers) (token : string) : Prop :=
| honest_fido2 id alg private cid public c :
    authenticators model !! id
      = Some (Fido2 {| cred_alg := alg; cred_id := cid; cred_public_key := public |}) ->
    Forall is_u8 cid -> 0 <= c < 2 ^ 32 ->
    mark_of l cid < c \/ (mark_of l cid = 0 /\ c = 0) ->
    fido2_public_key alg private = Ok public ->
    build_assertion_with_counter alg private cid (challenge_string request) c = Ok token ->
    honest model request now l token
| honest_tpm id private public :
    authenticators model !! id = Some (Tpm public) -> tpm_public_key private = Ok public ->
    tpm_sign private (challenge_string request) = Ok token ->
    honest model request now l token
| honest_hmac id secret :
    hmac_secrets sec !! id = Some secret -> token = hmac_sign secret (challenge_string request) ->
    honest model request now l token
| honest_totp id secret :
    totp_secrets sec !! id = Some secret -> token = code_at secret (counter_at now) ->
    (forall id' s, totp_secrets sec !! id' = Some s -> id' <> id -> matches s token now 1 = None) ->
    (forall c e, counter_at now - 1 <= c <= counter_at now + 1 -> e ∈ spent l ->
       spends id c e = false) ->
    honest model request now l token
| honest_password id salt phc :
    password_hashes sec !! id = Some phc -> password_hash (trim token) salt = Ok phc ->
    plain_password (trim token) = true ->
    (forall id' phc', password_hashes sec !! id' = Some phc' ->
       exists b, password_verify phc' (trim token) = Ok b) ->
    honest model request now l token.

Lemma judge_tpm model request token now l :
  starts_with TPM_PREFIX (trim token) = true ->
  judge_proof io_ok sec model request token now l
  = (l, Ok (try_tpm (tpm_credentials model) (trim token) (challenge_string request) false None)).
Proof.
  intros Hp. unfold judge_proof. rewrite Hp. by apply starts_with_Some in Hp as [r ->].
Qed.

Lemma judge_hmac model request token now l :
  starts_with HMAC_PREFIX (trim token) = true ->
  judge_proof io_ok sec model request token now l
  = (l, Ok (try_hmac (btree_iter (hmac_secrets sec)) (trim token) (challenge_string request)
              false false)).
Proof.
  intros Hp. unfold judge_proof. rewrite Hp. by apply starts_with_Some in Hp as [r ->].
Qed.

Lemma judge_password model request token now l :
  plain_password (trim token) = true ->
  judge_proof io_ok sec model request token now l
  = (l, try_password (btree_iter (password_hashes sec)) (trim token)).
Proof.
  unfold plain_password. rewrite !andb_true_iff, !negb_true_iff.
  intros [[[[E1 E2] E3] E4] E5]. unfold judge_proof. by rewrite E1, E2, E3, E4, E5.
Qed.

Lemma starts_with_app p s : starts_with p (p +:+ s) = true.
Proof. unfold starts_with. by rewrite strip_prefix_app. Qed.

Lemma tpm_signed_verifies private public challenge token :
  tpm_public_key private = Ok public -> tpm_sign private challenge = Ok token ->
  trim token = token /\ starts_with TPM_PREFIX token = true
  /\ tpm_verify public token challenge = Ok tt.
Proof.
  unfold tpm_public_key, tpm_sign. destruct (p256_signing_key private) as [[]|] eqn:Ek; [|done].
  cbn beta iota. intros [= <-] [= <-]. unfold tpm_assemble_token.
  split; [apply trim_token; [apply ecdsa_sign_u8|done]|]. split; [apply starts_with_app|].
  unfold tpm_verify. rewrite strip_prefix_app. cbn [ok_or].
  rewrite trim_base64url by apply base64url_encode_alphabet, ecdsa_sign_u8.
  rewrite base64url_decode_encode by apply ecdsa_sign_u8. cbn [ok_or].
  rewrite p256_point_parses by done. cbn.
  destruct (ecdsa_sign_verifies private (as_bytes challenge) Ek) as (sig & -> & Hv). cbn. by rewrite Hv.
Qed.

Lemma hmac_signed_verifies secret challenge :
  let token := hmac_sign secret challenge in
  trim token = token /\ starts_with HMAC_PREFIX token = true
  /\ hmac_verify secret token challenge = Ok tt.
Proof.
  unfold hmac_sign. split; [apply trim_token; [apply hmac_sha256_u8|done]|].
  split; [apply starts_with_app|]. unfold hmac_verify. rewrite strip_prefix_app. cbn [ok_or].
  rewrite base64url_decode_encode by apply hmac_sha256_u8. cbn [ok_or].
  rewrite hmac_sha256_length. cbn. by rewrite bool_decide_eq_true_2.
Qed.

Lemma password_hash_verifies pw salt phc :
  password_hash pw salt = Ok phc -> password_verify phc pw = Ok true.
Proof.
  unfold password_hash, password_verify, password_parse.
  destruct (salt_encode salt) as [s|]; [|done]. cbn.
  destruct (hash_password (as_bytes pw) s) as [phc'|] eqn:Eh; [|done]. cbn. intros [= <-].
  destruct (hash_password_verifies _ _ _ Eh) as (parsed & -> & Hn & Hv). cbn. by rewrite Hn, Hv.
Qed.

Lemma judge_honest model request token now l :
  ready l -> 0 <= now < CLOCK_END -> honest model request now l token ->
  exists id, (judge_proof io_ok sec model request token now l).2 = Ok (Ok id).
Proof.
  intros Hr Hclock [id alg private cid public c Ha Hcid Hc Hm Hpub Hb|id private public Ha Hpub Hs
    |id secret Hs ->|id secret Hs -> Hother Hfresh|id salt phc Hp Hh Hplain Hok].
  - destruct (built_assertion_verifies _ _ _ _ _ _ _ Hcid Hc Hpub Hb) as (Ht & Hpre & Hv & Hcnt).
    rewrite judge_assertion by by rewrite Ht. rewrite Ht.
    eapply try_fido2_complete; [|exact Hv|exact Hcnt|apply observe_accepts; [done|lia|done]].
    exists id. apply elem_of_of_kind. eauto.
  - destruct (tpm_signed_verifies _ _ _ _ Hpub Hs) as (Ht & Hpre & Hv).
    rewrite judge_tpm by by rewrite Ht. rewrite Ht. cbn [snd].
    destruct (try_tpm_complete (tpm_credentials model) token (challenge_string request) false None
      public) as [id' ->]; [|done|by exists id'].
    exists id. apply elem_of_of_kind. eauto.
  - destruct (hmac_signed_verifies secret (challenge_string request)) as (Ht & Hpre & Hv).
    rewrite judge_hmac by by rewrite Ht. rewrite Ht. cbn [snd].
    edestruct try_hmac_complete as [id' ->]; [|exact Hv|by exists id'].
    exists id. by apply elem_of_btree_iter.
  - destruct (code_at_shape secret (counter_at now)) as [Hl Hd].
    assert (Ht : trim (code_at secret (counter_at now)) = code_at secret (counter_at now))
      by by apply trim_digits.
    pose proof (epoch_secs_u64 now Hclock) as Hu.
    destruct (matches_complete secret now (counter_at now)) as (c & Hmc & _).
    { unfold counter_at, STEP_SECS, is_u64 in *. apply Z.div_pos; lia. }
    { lia. }
    { unfold counter_at, STEP_SECS, is_u64, u64_max in *. apply Z.div_lt_upper_bound; lia. }
    exists id. rewrite judge_code; rewrite Ht; [|unfold is_totp_code; rewrite Hd;
      by destruct (code_at secret (counter_at now))].
    eapply try_totp_complete; [by apply elem_of_btree_iter|exact Hmc| |].
    + intros id' s Hin%elem_of_btree_iter Hne. apply (Hother id'); [done|]. intros ->.
      apply Hne. congruence.
    + apply consume_accepts; [done|]. intros e. apply Hfresh.
      by apply matches_sound in Hmc as [? _].
  - rewrite judge_password by done. cbn [snd].
    eapply try_password_complete; [|by eapply password_hash_verifies|].
    + exists id. by apply elem_of_btree_iter.
    + intros id' phc' ?%elem_of_btree_iter. by eapply Hok.
Qed.
End Complete.


(** ** Witness *)

#[local] Existing Instance RefFactors.
#[local] Existing Instance RefFactorsLaws.

Definition bar (s t : string) : string := s +:+ String "|"%char t.

#[local] Instance RefSigners : FactorSigners := {|
  p256_signing_key _ := Ok tt;
  p256_point d := d;
  ecdsa_sign_der := ref_sign;
  ed25519_point d := d;
  eddsa_sign := ref_sign;
  assertion_to_vec t :=
    as_bytes (bar (at_credential_id t) (bar (at_authenticator_data t)
                (bar (at_client_data_json t) (at_signature t))));
  client_data_to_vec o := as_bytes (bar (out_ty o) (out_challenge o));
  Salt := unit;
  salt_encode _ := Ok tt;
  hash_password pw _ :=
    if bool_decide (as_bytes (str_of_bytes pw) = pw) then Ok (str_of_bytes pw) else Err "bytes";
|}.

Lemma base64url_no_bar s : str_forall is_base64url_char s = true -> without "|"%char s = true.
Proof.
  apply str_forall_impl. intros c Hc. apply negb_true_iff, bool_decide_eq_false. by intros ->.
Qed.

Lemma split_bar s t : without "|"%char s = true -> split "|"%char (bar s t) = s :: split "|"%char t.
Proof. apply split_app_sep. Qed.

Lemma split_whole c s : without c s = true -> split c s = [s].
Proof.
  induction s as [|a s IH]; [done|]. intros [Ha Hs]%andb_true_iff. specialize (IH Hs).
  unfold split in *. cbn. destruct (split_go c s) as [w ws]. simplify_eq.
  by rewrite (proj1 (negb_true_iff _) Ha).
Qed.

#[local] Instance RefSignersLaws : FactorSignersLaws.
Proof.
  split; intros; cbn -[ref_sign checksum bar bar_fields]; try done;
    try solve [apply checksum_u8 | apply as_bytes_u8].
  - eexists. split; [done|]. by apply bool_decide_eq_true.
  - eexists. split; [done|]. by apply bool_decide_eq_true.
  - unfold bar_fields. rewrite str_of_as_bytes.
    rewrite !split_bar, split_whole by by apply base64url_no_bar. by destruct t.
  - unfold bar_fields. rewrite str_of_as_bytes.
    rewrite split_bar, split_whole; [done|by apply base64url_no_bar|by rewrite H].
  - cbn in H. case_bool_decide as E; [|done]. injection H as <-. eexists. split; [done|].
    split; [done|]. cbn. by rewrite bool_decide_eq_true_2.
Qed.

Definition honest_assertion : string :=
  match build_assertion_with_counter Es256 [1; 2; 3] [5; 6; 7] (challenge_string demo_request) 9 with
  | Ok token => token
  | Err _ => ""
  end.

