(* ===== verification/TpmCrate.v ===== *)
(** * TpmCrate: the TPM plumbing (tpm/src/real.rs)

    The fixed templates, the signing primary, sealing and unsealing, the
    probe and the sealed file.  The TSS library and the chip behind it are an
    interface: its calls with the errors they may answer, and laws that say
    which objects the chip holds, what a signature verifies under and which
    chip opens a sealed object. *)

From stdpp Require Import relations.
From S2P Require Import Prelude Text TextLines Clock External Reference Approval Authority DriverMonad Factors Ledgers Proto Daemon Proofs Provers.
#[local] Open Scope Z_scope.

(** ** Templates *)

(** The attributes a builder of the crate sets; the others are clear. *)
Record Attributes := {
  fixed_tpm : bool;
  fixed_parent : bool;
  sensitive_data_origin : bool;
  user_with_auth : bool;
  restricted : bool;
  decrypt : bool;
  sign_encrypt : bool;
}.

Inductive EccScheme := EccNull | EcDsaSha256.
Inductive Symmetric := SymmetricNull | AES_128_CFB.

(** The builder's fields; the curve is always P-256 and the derivation
    scheme null. *)
Record EccParameters := {
  ecc_scheme : EccScheme;
  symmetric : Symmetric;
  is_signing_key : bool;
  is_decryption_key : bool;
  ecc_restricted : bool;
}.

(** A public area to be filled in by the chip: the name algorithm is SHA-256
    and the unique field empty. *)
Inductive Template :=
| EccTemplate (attributes : Attributes) (parameters : EccParameters)
| KeyedHashTemplate (attributes : Attributes).

(** ** The TSS *)

(** A TSS call on a context: [None] is an error of the library or the chip. *)
Definition TssCall (C A : Type) : Type := C -> C * option A.

Class Tss := {
  Context_ : Type;
  PublicArea : Type;
  Signature : Type;
  (** [TctiNameConf]'s parse and [Context::new]. *)
  TctiNameConf : Type;
  parse_tcti : string -> option TctiNameConf;
  context_new : TctiNameConf -> option Context_;
  (** The builders' checks. *)
  attributes_build : Attributes -> bool;
  ecc_build : EccParameters -> bool;
  public_build : Template -> bool;
  (** The calls, each inside its null-auth session.  A handle is a number. *)
  get_manufacturer : TssCall Context_ (option Z);
  create_primary : Template -> TssCall Context_ (PublicArea * Z);
  create : Z -> Template -> list Z -> TssCall Context_ (PublicArea * list Z);
  load : Z -> list Z -> PublicArea -> TssCall Context_ Z;
  unseal_object : Z -> TssCall Context_ (list Z);
  sign : Z -> list Z -> TssCall Context_ Signature;
  flush_context : Z -> TssCall Context_ unit;
  (** The coordinates of a [Public::Ecc], the two numbers of a
      [Signature::EcDsa]. *)
  ecc_point : PublicArea -> option (list Z * list Z);
  ecdsa_numbers : Signature -> option (list Z * list Z);
  (** [Marshall], [UnMarshall] and the checked buffers. *)
  marshall : PublicArea -> option (list Z);
  unmarshall : list Z -> option PublicArea;
  digest_fits : list Z -> bool;
  sensitive_fits : list Z -> bool;
  private_fits : list Z -> bool;
  null_ticket : bool;
  (** [p256::ecdsa::Signature::from_scalars] and [to_der]. *)
  from_scalars_der : list Z -> list Z -> option (list Z);
}.

Record SealedBlob := { blob_version : Z; blob_public : string; blob_private : string }.
Definition SEALED_BLOB_VERSION : Z := 1.

(** [serde_json] on a blob. *)
Class BlobJson := {
  blob_to_json : SealedBlob -> option string;
  blob_of_json : string -> option SealedBlob;
}.

Inductive TpmFail :=
| TctiParse (tcti : string) | TctiConnect (tcti : string)
| Building (what : string) | Calling (what : string) | Marshalling
| NotEcc | NotEcdsa | DigestFit | NullTicket
| RLength | SLength | Scalars
| TooLarge | BlobVersion (file_says : Z) | PublicBase64 | PrivateBase64 | Unmarshalling | PrivateArea
| RoundTrip | BlobEncoding | BlobParsing.

Section Crate.
Context `{DataEncoding, FactorCrypto, Tss, BlobJson}.

Definition TM (A : Type) : Type := eff Context_ TpmFail A.

(** [.context(what)?] on a call. *)
Definition tss {A} (what : TpmFail) (call : TssCall Context_ A) : TM A := fun c =>
  let '(c', r) := call c in (c', match r with Some a => Ok a | None => Err (Refused what) end).

Definition context (tcti : string) : result TpmFail Context_ :=
  let? conf := ok_or (parse_tcti tcti) (TctiParse tcti) in
  ok_or (context_new conf) (TctiConnect tcti).

(** The lead of a well-formed sequence of length [n] at the head of [bs], or
    how many bytes one replacement character stands for. *)
Definition utf8_step (bs : list Z) : bool * nat :=
  let cont b := (0x80 <=? b) && (b <=? 0xbf) in
  match bs with
  | [] => (true, 0%nat)
  | b0 :: rest =>
      if b0 <=? 0x7f then (true, 1%nat)
      else if (0xc2 <=? b0) && (b0 <=? 0xdf) then
        match rest with b1 :: _ => if cont b1 then (true, 2%nat) else (false, 1%nat) | _ => (false, 1%nat) end
      else if (0xe0 <=? b0) && (b0 <=? 0xef) then
        match rest with
        | b1 :: rest =>
            if ((if b0 =? 0xe0 then 0xa0 else 0x80) <=? b1) && (b1 <=? (if b0 =? 0xed then 0x9f else 0xbf))
            then match rest with b2 :: _ => if cont b2 then (true, 3%nat) else (false, 2%nat) | _ => (false, 2%nat) end
            else (false, 1%nat)
        | _ => (false, 1%nat)
        end
      else if (0xf0 <=? b0) && (b0 <=? 0xf4) then
        match rest with
        | b1 :: rest =>
            if ((if b0 =? 0xf0 then 0x90 else 0x80) <=? b1) && (b1 <=? (if b0 =? 0xf4 then 0x8f else 0xbf))
            then match rest with
                 | b2 :: rest =>
                     if cont b2
                     then match rest with b3 :: _ => if cont b3 then (true, 4%nat) else (false, 3%nat) | _ => (false, 3%nat) end
                     else (false, 2%nat)
                 | _ => (false, 2%nat)
                 end
            else (false, 1%nat)
        | _ => (false, 1%nat)
        end
      else (false, 1%nat)
  end.

(** [String::from_utf8_lossy]; a step takes at least one byte. *)
Fixpoint from_utf8_lossy (fuel : nat) (bs : list Z) : list Z :=
  match fuel, bs with
  | O, _ | _, [] => []
  | S fuel, _ =>
      let '(ok, n) := utf8_step bs in
      (if ok then take n bs else [0xef; 0xbf; 0xbd]) ++ from_utf8_lossy fuel (drop n bs)
  end.

Definition manufacturer : eff Context_ TpmFail (option string) := fun c =>
  let '(c', r) := get_manufacturer c in
  (c', Ok (raw ← mjoin r;
           let bytes := be_bytes 4 raw in
           Some (trim_end_matches (fun a => bool_decide (a = "000"%char))
                   (str_of_bytes (from_utf8_lossy 4 bytes))))).

Definition signing_attributes : Attributes :=
  {| fixed_tpm := true; fixed_parent := true; sensitive_data_origin := true; user_with_auth := true;
     sign_encrypt := true; restricted := false; decrypt := false |}.

Definition signing_parameters : EccParameters :=
  {| ecc_scheme := EcDsaSha256; symmetric := SymmetricNull; is_signing_key := true;
     is_decryption_key := false; ecc_restricted := false |}.

Definition signing_template : TM Template :=
  erequire (attributes_build signing_attributes) (Building "signing attributes") ;&
  erequire (ecc_build signing_parameters) (Building "signing ecc parameters") ;&
  let template := EccTemplate signing_attributes signing_parameters in
  erequire (public_build template) (Building "signing template") ;&
  eret template.

Definition storage_attributes : Attributes :=
  {| fixed_tpm := true; fixed_parent := true; sensitive_data_origin := true; user_with_auth := true;
     restricted := true; decrypt := true; sign_encrypt := false |}.

Definition storage_parameters : EccParameters :=
  {| ecc_scheme := EccNull; symmetric := AES_128_CFB; is_signing_key := false;
     is_decryption_key := true; ecc_restricted := true |}.

Definition storage_template : TM Template :=
  erequire (attributes_build storage_attributes) (Building "storage attributes") ;&
  erequire (ecc_build storage_parameters) (Building "storage ecc parameters") ;&
  let template := EccTemplate storage_attributes storage_parameters in
  erequire (public_build template) (Building "storage template") ;&
  eret template.

Definition signing_public_sec1 : TM (list Z) :=
  let& template := signing_template in
  let& created := tss (Calling "creating the signing primary") (create_primary template) in
  let '(out_public, key_handle) := created in
  let& public := match ecc_point out_public with
                 | Some (x, y) => eret ([0x04] ++ x ++ y)
                 | None => efail NotEcc
                 end in
  tss (Calling "flushing the signing primary") (flush_context key_handle) ;&
  eret public.

Definition sign_challenge (challenge : string) : TM (list Z) :=
  let digest := factor_sha256 (as_bytes challenge) in
  erequire (digest_fits digest) DigestFit ;&
  let& template := signing_template in
  let& created := tss (Calling "creating the signing primary") (create_primary template) in
  let key_handle := created.2 in
  erequire null_ticket NullTicket ;&
  let& signature := tss (Calling "TPM2_Sign") (sign key_handle digest) in
  tss (Calling "flushing the signing primary") (flush_context key_handle) ;&
  match ecdsa_numbers signature with
  | Some (r, s) =>
      erequire (Nat.eqb (length r) 32) RLength ;&
      erequire (Nat.eqb (length s) 32) SLength ;&
      esome (from_scalars_der r s) Scalars
  | None => efail NotEcdsa
  end.

Definition storage_parent : TM Z :=
  let& template := storage_template in
  let& created := tss (Calling "creating the storage primary") (create_primary template) in
  eret created.2.

Definition sealed_attributes : Attributes :=
  {| fixed_tpm := true; fixed_parent := true; user_with_auth := true; sensitive_data_origin := false;
     restricted := false; decrypt := false; sign_encrypt := false |}.

Definition seal (data : list Z) : TM SealedBlob :=
  let& parent := storage_parent in
  erequire (attributes_build sealed_attributes) (Building "sealed-object attributes") ;&
  let sealed_public := KeyedHashTemplate sealed_attributes in
  erequire (public_build sealed_public) (Building "sealed-object template") ;&
  erequire (sensitive_fits data) TooLarge ;&
  let& created := tss (Calling "sealing") (create parent sealed_public data) in
  let& public := esome (marshall created.1) Marshalling in
  let blob := {| blob_version := SEALED_BLOB_VERSION; blob_public := base64url_encode public;
                 blob_private := base64url_encode created.2 |} in
  tss (Calling "flushing the storage primary") (flush_context parent) ;&
  eret blob.

Definition unseal (blob : SealedBlob) : TM (list Z) :=
  erequire (blob_version blob =? SEALED_BLOB_VERSION) (BlobVersion (blob_version blob)) ;&
  let& public_bytes := esome (base64url_decode (blob_public blob)) PublicBase64 in
  let& private_bytes := esome (base64url_decode (blob_private blob)) PrivateBase64 in
  let& public := esome (unmarshall public_bytes) Unmarshalling in
  erequire (private_fits private_bytes) PrivateArea ;&
  let& parent := storage_parent in
  let& loaded := tss (Calling "loading the sealed object") (load parent private_bytes public) in
  let& data := tss (Calling "unsealing") (unseal_object loaded) in
  tss (Calling "flushing the storage primary") (flush_context parent) ;&
  eret data.

Definition PROBE : list Z := as_bytes "lychgate-probe".

(** [probe] on a connected context. *)
Definition probe_on : TM (string * string) :=
  let& manufacturer := manufacturer in
  let& public := signing_public_sec1 in
  let& blob := seal PROBE in
  let& back := unseal blob in
  erequire (bool_decide (back = PROBE)) RoundTrip ;&
  eret (default "(unknown)" manufacturer, base64url_encode public).

Definition probe (tcti : string) : result (Fault TpmFail) (string * string) :=
  match context tcti with
  | Err e => Err (Refused e)
  | Ok c => (probe_on c).2
  end.

Definition blob_to_string (blob : SealedBlob) : result TpmFail string := ok_or (blob_to_json blob) BlobEncoding.
Definition blob_from_str (text : string) : result TpmFail SealedBlob := ok_or (blob_of_json text) BlobParsing.
End Crate.

(** ** What the chip does *)

Inductive Object_ := Primary (template : Template) | SealedData (data : list Z).

(** The chip behind a context, the transient objects loaded in it with their
    number bounded, the key a template derives, what a sealed object opens
    to under a storage primary. *)
Class Chips `{Tss} := {
  Chip : Type;
  chip : Context_ -> Chip;
  objects : Context_ -> gmap Z Object_;
  slots : Chip -> nat;
  primary_point : Chip -> Template -> option (list Z * list Z);
  opens : Chip -> Template -> PublicArea -> list Z -> option (list Z);
  signed : Chip -> Template -> list Z -> Signature -> Prop;
  (** No call fails but for want of a slot or of the right object. *)
  healthy : Context_ -> Prop;
}.

(** A call stays on its chip, and one that fails leaves its objects. *)
Definition steady `{Chips} {A} (f : TssCall Context_ A) : Prop :=
  forall c, chip (f c).1 = chip c /\ ((f c).2 = None -> objects (f c).1 = objects c).

Class ChipLaws `{FactorCrypto, Chips} : Prop := {
  steady_primary t : steady (create_primary t);
  steady_create h t d : steady (create h t d);
  steady_load h p a : steady (load h p a);
  steady_unseal h : steady (unseal_object h);
  steady_sign h d : steady (sign h d);
  steady_flush h : steady (flush_context h);
  steady_manufacturer : steady get_manufacturer;
  manufacturer_objects c : objects (get_manufacturer c).1 = objects c;
  primary_made t c c' pub h : create_primary t c = (c', Some (pub, h)) ->
    objects c !! h = None /\ (size (objects c) < slots (chip c))%nat
    /\ objects c' = <[h := Primary t]> (objects c) /\ ecc_point pub = primary_point (chip c) t;
  created parent t data c c' pub priv : create parent t data c = (c', Some (pub, priv)) ->
    objects c' = objects c /\ Forall is_u8 priv /\ private_fits priv = true
    /\ exists p, objects c !! parent = Some (Primary p) /\ opens (chip c) p pub priv = Some data;
  loaded_ parent priv pub c c' h : load parent priv pub c = (c', Some h) ->
    objects c !! h = None /\ (size (objects c) < slots (chip c))%nat
    /\ exists p data, objects c !! parent = Some (Primary p) /\ opens (chip c) p pub priv = Some data
      /\ objects c' = <[h := SealedData data]> (objects c);
  unsealed h c c' data : unseal_object h c = (c', Some data) ->
    objects c' = objects c /\ objects c !! h = Some (SealedData data);
  signed_ h digest c c' sg : sign h digest c = (c', Some sg) ->
    objects c' = objects c /\ exists p, objects c !! h = Some (Primary p) /\ signed (chip c) p digest sg;
  flushed h c c' u : flush_context h c = (c', Some u) -> objects c' = delete h (objects c);
  (** A fixed-TPM object opens only where it was made. *)
  opens_here k k' p p' pub priv data data' :
    opens k p pub priv = Some data -> opens k' p' pub priv = Some data' -> k' = k;
  marshall_back pub bytes : marshall pub = Some bytes -> Forall is_u8 bytes /\ unmarshall bytes = Some pub;
  (** A signature over a digest verifies under the key the template derives. *)
  signed_verifies k p m sg x y r s der :
    signed k p (factor_sha256 m) sg -> primary_point k p = Some (x, y) ->
    ecdsa_numbers sg = Some (r, s) -> from_scalars_der r s = Some der ->
    Forall is_u8 der
    /\ exists sig, ecdsa_from_der der = Ok sig /\ ecdsa_verify ([0x04] ++ x ++ y) m sig = true;
}.

(** What a healthy chip answers. *)
Class ChipWorks `{Chips} : Prop := {
  works_primary t c : healthy c -> (size (objects c) < slots (chip c))%nat ->
    exists c' pub h, create_primary t c = (c', Some (pub, h)) /\ healthy c';
  works_load parent p pub priv data c : healthy c -> (size (objects c) < slots (chip c))%nat ->
    objects c !! parent = Some (Primary p) -> opens (chip c) p pub priv = Some data ->
    exists c' h, load parent priv pub c = (c', Some h) /\ healthy c';
  works_unseal h data c : healthy c -> objects c !! h = Some (SealedData data) ->
    exists c', unseal_object h c = (c', Some data) /\ healthy c';
  works_flush h c : healthy c -> is_Some (objects c !! h) ->
    exists c', flush_context h c = (c', Some tt) /\ healthy c';
}.

Section Facts.
Context `{DataEncodingLaws, FactorCrypto, Chips, BlobJson, !ChipLaws}.

(** Runs as equations. *)
Lemma ebind_inv {W E A B} (m : eff W E A) (k : A -> eff W E B) w w' b :
  ebind m k w = (w', Ok b) -> exists a w1, m w = (w1, Ok a) /\ k a w1 = (w', Ok b).
Proof. unfold ebind. destruct (m w) as [w1 [a|]]; [by eauto|done]. Qed.

Lemma erequire_inv {W E} b (e : E) (w w' : W) u : erequire b e w = (w', Ok u) -> b = true /\ w' = w.
Proof. destruct b; unfold erequire, eret, efail; intros; by simplify_eq. Qed.

Lemma esome_inv {W E A} (o : option A) (e : E) (w w' : W) a : esome o e w = (w', Ok a) -> o = Some a /\ w' = w.
Proof. destruct o; unfold esome, eret, efail; intros; by simplify_eq. Qed.

Lemma tss_inv {A} what (f : TssCall Context_ A) c c' a : tss what f c = (c', Ok a) <-> f c = (c', Some a).
Proof. unfold tss. destruct (f c) as [c1 [b|]]; cbn; split; intros; by simplify_eq. Qed.

Ltac run_inv :=
  repeat lazymatch goal with
  | H : ebind _ _ _ = (_, Ok _) |- _ =>
      let a := fresh "a" in let w := fresh "c" in let Hm := fresh "Hm" in
      apply ebind_inv in H as (a & w & Hm & H)
  | H : erequire _ _ _ = (_, Ok _) |- _ => apply erequire_inv in H as [H ->]
  | H : esome _ _ _ = (_, Ok _) |- _ => apply esome_inv in H as [H ->]
  | H : tss _ _ _ = (_, Ok _) |- _ => apply tss_inv in H
  | H : eret _ _ = (_, Ok _) |- _ => unfold eret in H; injection H as <- <-
  end.

Definition signing_key : Template := EccTemplate signing_attributes signing_parameters.
Definition storage_key : Template := EccTemplate storage_attributes storage_parameters.

Lemma signing_template_inv c c' t : signing_template c = (c', Ok t) -> c' = c /\ t = signing_key.
Proof. unfold signing_template. intros Hr. by run_inv. Qed.

Lemma storage_template_inv c c' t : storage_template c = (c', Ok t) -> c' = c /\ t = storage_key.
Proof. unfold storage_template. intros Hr. by run_inv. Qed.

(** The primary a run creates is loaded, and nothing else changed. *)
Lemma create_primary_inv t c c' pub h :
  create_primary t c = (c', Some (pub, h)) ->
  chip c' = chip c /\ objects c !! h = None /\ (size (objects c) < slots (chip c))%nat
  /\ objects c' = <[h := Primary t]> (objects c) /\ ecc_point pub = primary_point (chip c) t.
Proof.
  intros Hr. destruct (steady_primary t c) as [Hc _]. rewrite Hr in Hc. split; [done|by eapply primary_made].
Qed.

Lemma storage_parent_inv c c' h :
  storage_parent c = (c', Ok h) ->
  chip c' = chip c /\ objects c !! h = None /\ (size (objects c) < slots (chip c))%nat
  /\ objects c' = <[h := Primary storage_key]> (objects c).
Proof.
  unfold storage_parent. intros Hr. run_inv. apply storage_template_inv in Hm as [-> ->].
  destruct a0 as [pub h]. apply create_primary_inv in Hm0. naive_solver.
Qed.

Lemma flush_inv h c c' u :
  flush_context h c = (c', Some u) -> chip c' = chip c /\ objects c' = delete h (objects c).
Proof.
  intros Hr. destruct (steady_flush h c) as [Hc _]. rewrite Hr in Hc. split; [done|by eapply flushed].
Qed.

Lemma load_inv parent priv pub c c' h :
  load parent priv pub c = (c', Some h) ->
  chip c' = chip c /\ objects c !! h = None /\ (size (objects c) < slots (chip c))%nat
  /\ exists p data, objects c !! parent = Some (Primary p) /\ opens (chip c) p pub priv = Some data
    /\ objects c' = <[h := SealedData data]> (objects c).
Proof.
  intros Hr. destruct (steady_load parent priv pub c) as [Hc _]. rewrite Hr in Hc.
  split; [done|by apply loaded_].
Qed.

Lemma unseal_object_inv h c c' data :
  unseal_object h c = (c', Some data) ->
  chip c' = chip c /\ objects c' = objects c /\ objects c !! h = Some (SealedData data).
Proof.
  intros Hr. destruct (steady_unseal h c) as [Hc _]. rewrite Hr in Hc. split; [done|by apply unsealed].
Qed.

Lemma sign_inv h digest c c' sg :
  sign h digest c = (c', Some sg) ->
  chip c' = chip c /\ objects c' = objects c
  /\ exists p, objects c !! h = Some (Primary p) /\ signed (chip c) p digest sg.
Proof.
  intros Hr. destruct (steady_sign h digest c) as [Hc _]. rewrite Hr in Hc. split; [done|by apply signed_].
Qed.

(** What a completed sealing made: a blob that opens on this chip. *)
Lemma seal_inv data c c' blob :
  seal data c = (c', Ok blob) ->
  chip c' = chip c /\ objects c' = objects c /\ blob_version blob = SEALED_BLOB_VERSION
  /\ exists pub priv public, opens (chip c) storage_key pub priv = Some data
     /\ base64url_decode (blob_public blob) = Some public /\ unmarshall public = Some pub
     /\ base64url_decode (blob_private blob) = Some priv /\ private_fits priv = true.
Proof.
  unfold seal. intros Hr. run_inv. destruct (storage_parent_inv _ _ _ Hm) as (Hchip & Hnew & _ & Hobj).
  destruct a3 as [pub priv]. cbn in *.
  destruct (created _ _ _ _ _ _ _ Hm3) as (Hobj' & Hu8 & Hfits & p & Hp & Hopens).
  destruct (steady_create a (KeyedHashTemplate sealed_attributes) data c0) as [Hchip' _]. rewrite Hm3 in Hchip'. cbn in Hchip'.
  destruct (flush_inv _ _ _ _ Hm5) as [Hchip'' Hobj''].
  rewrite Hobj, lookup_insert_eq in Hp. simplify_eq.
  destruct (marshall_back _ _ Hm4) as [Hmu8 Hback].
  split; [congruence|]. split; [by rewrite Hobj'', Hobj', Hobj, delete_insert_id|]. split; [done|].
  exists pub, priv, a4. rewrite <-Hchip. by rewrite !base64url_decode_encode.
Qed.
(** What a completed unsealing read; the loaded object stays. *)
Lemma unseal_inv blob c c' data :
  unseal blob c = (c', Ok data) ->
  chip c' = chip c /\ (S (size (objects c)) < slots (chip c))%nat
  /\ (exists h, objects c !! h = None /\ objects c' = <[h := SealedData data]> (objects c))
  /\ exists pub priv public, opens (chip c) storage_key pub priv = Some data
     /\ base64url_decode (blob_public blob) = Some public /\ unmarshall public = Some pub
     /\ base64url_decode (blob_private blob) = Some priv.
Proof.
  unfold unseal. intros Hr. run_inv. destruct (storage_parent_inv _ _ _ Hm4) as (Hchip & Hnew & Hroom & Hobj).
  destruct (load_inv _ _ _ _ _ _ Hm5) as (Hc1 & Hh & Hroom' & p & data' & Hp & Hopens & Hobj1).
  destruct (unseal_object_inv _ _ _ _ Hm6) as (Hc2 & Hobj2 & Hd).
  destruct (flush_inv _ _ _ _ Hm7) as [Hchip' Hobj3].
  rewrite Hobj1, lookup_insert_eq in Hd. simplify_eq. rewrite Hobj, lookup_insert_eq in Hp. simplify_eq.
  rewrite Hobj, lookup_insert_None in Hh. destruct Hh as [Hh Hne].
  rewrite Hobj, map_size_insert_None, Hchip in Hroom' by done.
  split; [congruence|]. split; [done|]. split.
  - exists a5. split; [done|]. rewrite Hobj3, Hobj2, Hobj1, Hobj, delete_insert_ne, delete_insert_id by done. done.
  - rewrite Hchip in Hopens. by eauto 10.
Qed.

(** *** Slots *)

Lemma signing_public_inv c c' public :
  signing_public_sec1 c = (c', Ok public) ->
  chip c' = chip c /\ objects c' = objects c
  /\ exists x y, primary_point (chip c) signing_key = Some (x, y) /\ public = [0x04] ++ x ++ y.
Proof.
  unfold signing_public_sec1. intros Hr. run_inv. apply signing_template_inv in Hm as [-> ->].
  destruct a0 as [pub h]. destruct (create_primary_inv _ _ _ _ _ Hm0) as (Hchip & Hnew & _ & Hobj & Hpt).
  run_inv. destruct (ecc_point pub) as [[x y]|] eqn:E; [|done]. run_inv.
  destruct (flush_inv _ _ _ _ Hm1) as [Hchip' Hobj']. split; [congruence|].
  split; [by rewrite Hobj', Hobj, delete_insert_id|]. eauto.
Qed.

Lemma sign_challenge_inv challenge c c' der :
  sign_challenge challenge c = (c', Ok der) ->
  chip c' = chip c /\ objects c' = objects c
  /\ exists sg r s, signed (chip c) signing_key (factor_sha256 (as_bytes challenge)) sg
       /\ ecdsa_numbers sg = Some (r, s) /\ from_scalars_der r s = Some der.
Proof.
  unfold sign_challenge. intros Hr. run_inv. apply signing_template_inv in Hm0 as [-> ->].
  destruct a1 as [pub h]. destruct (create_primary_inv _ _ _ _ _ Hm1) as (Hchip & Hnew & _ & Hobj & _).
  cbn in Hm3, Hm4. destruct (sign_inv _ _ _ _ _ Hm3) as (Hc1 & Hobj1 & p & Hp & Hs).
  destruct (flush_inv _ _ _ _ Hm4) as [Hchip' Hobj'].
  rewrite Hobj, lookup_insert_eq in Hp. simplify_eq.
  destruct (ecdsa_numbers a3) as [[r s]|] eqn:E; [|done]. run_inv.
  split; [congruence|]. split; [by rewrite Hobj', Hobj1, Hobj, delete_insert_id|].
  rewrite Hchip in Hs. by eauto 10.
Qed.
(** The builders answer the same in every context. *)
Lemma storage_template_same c c' t c2 :
  storage_template c = (c', Ok t) -> storage_template c2 = (c2, Ok storage_key).
Proof.
  unfold storage_template. intros Hr. run_inv. unfold ebind. by rewrite Hm, Hm0, Hm1.
Qed.

Lemma seal_builds data c c' blob c2 :
  seal data c = (c', Ok blob) -> storage_template c2 = (c2, Ok storage_key).
Proof.
  unfold seal, storage_parent. intros Hr. apply ebind_inv in Hr as (h & c1 & Hr & _).
  apply ebind_inv in Hr as (t & c0 & Ht & _). by eapply storage_template_same.
Qed.

Lemma storage_parent_works `{!ChipWorks} c :
  storage_template c = (c, Ok storage_key) -> healthy c -> (size (objects c) < slots (chip c))%nat ->
  exists c' h, storage_parent c = (c', Ok h) /\ healthy c'.
Proof.
  intros Ht Hh Hroom. destruct (works_primary storage_key c Hh Hroom) as (c' & pub & h & Hp & Hh').
  exists c', h. split; [|done]. unfold storage_parent. rewrite (ebind_eq _ _ _ _ _ Ht).
  by rewrite (ebind_eq _ _ _ c' (pub, h)) by by apply tss_inv.
Qed.

Lemma unseal_works `{!ChipWorks} blob pub priv public data c :
  storage_template c = (c, Ok storage_key) -> healthy c -> (S (size (objects c)) < slots (chip c))%nat ->
  blob_version blob = SEALED_BLOB_VERSION -> opens (chip c) storage_key pub priv = Some data ->
  base64url_decode (blob_public blob) = Some public -> unmarshall public = Some pub ->
  base64url_decode (blob_private blob) = Some priv -> private_fits priv = true ->
  exists c', unseal blob c = (c', Ok data).
Proof.
  intros Ht Hh Hroom Hv Ho Hpub Hun Hpriv Hfits. unfold unseal.
  rewrite Hv, Hpub, Hpriv. cbn [Z.eqb]. unfold SEALED_BLOB_VERSION. cbn.
  destruct (storage_parent_works c Ht Hh) as (c1 & parent & Hp & Hh1); [lia|].
  destruct (storage_parent_inv _ _ _ Hp) as (Hchip & Hnew & _ & Hobj).
  destruct (works_load parent storage_key pub priv data c1) as (c2 & h & Hl & Hh2); [done| | |by rewrite Hchip|].
  { rewrite Hobj, map_size_insert_None, Hchip by done. lia. }
  { by rewrite Hobj, lookup_insert_eq. }
  destruct (load_inv _ _ _ _ _ _ Hl) as (_ & Hnone & _ & p & data' & Hp' & Ho' & Hobj2).
  rewrite Hobj, lookup_insert_eq in Hp'. simplify_eq. rewrite Hchip in Ho'. simplify_eq.
  destruct (works_unseal h data c2) as (c3 & Hu & Hh3); [done|by rewrite Hobj2, lookup_insert_eq|].
  destruct (unseal_object_inv _ _ _ _ Hu) as (_ & Hobj3 & _).
  destruct (works_flush parent c3) as (c4 & Hf & _); [done| |].
  { rewrite Hobj3, Hobj2, lookup_insert_ne, Hobj, lookup_insert_eq; [done|].
    intros ->. by rewrite Hobj, lookup_insert_eq in Hnone. }
  exists c4. unfold ebind, esome, erequire, eret. rewrite Hun, Hfits. unfold ebind. rewrite Hp.
  by rewrite (proj2 (tss_inv _ _ _ _ _) Hl), (proj2 (tss_inv _ _ _ _ _) Hu), (proj2 (tss_inv _ _ _ _ _) Hf).
Qed.
(** A signature of the chip is a token the daemon's verifier accepts. *)
Lemma signed_challenge_verifies challenge c1 c1' public c2 c2' der :
  signing_public_sec1 c1 = (c1', Ok public) -> sign_challenge challenge c2 = (c2', Ok der) ->
  chip c1 = chip c2 -> p256_from_sec1 public = Ok tt ->
  let token := tpm_assemble_token der in
  trim token = token /\ starts_with TPM_PREFIX token = true /\ tpm_verify public token challenge = Ok tt.
Proof.
  intros Hpub Hsign Hchip Hkey.
  destruct (signing_public_inv _ _ _ Hpub) as (_ & _ & x & y & Hpt & ->).
  destruct (sign_challenge_inv _ _ _ _ Hsign) as (_ & _ & sg & r & s & Hs & Hn & Hder).
  rewrite Hchip in Hpt.
  destruct (signed_verifies _ _ _ _ _ _ _ _ _ Hs Hpt Hn Hder) as (Hu8 & sig & Hfrom & Hv).
  cbn zeta. unfold tpm_assemble_token. split; [by apply trim_token|]. split; [apply starts_with_app|].
  unfold tpm_verify. rewrite strip_prefix_app. cbn [ok_or].
  rewrite trim_base64url by by apply base64url_encode_alphabet.
  rewrite base64url_decode_encode by done. cbn [ok_or].
  rewrite Hkey. cbn. rewrite Hfrom. cbn. cbn in Hv. by rewrite Hv.
Qed.

(** The secrets of a start, unsealed one after the other in one context. *)
Fixpoint unseal_all (blobs : list SealedBlob) : TM (list (list Z)) :=
  match blobs with
  | [] => eret []
  | blob :: blobs =>
      let& data := unseal blob in
      let& rest := unseal_all blobs in
      eret (data :: rest)
  end.

Lemma unseal_all_leaves blobs c c' out :
  unseal_all blobs c = (c', Ok out) ->
  chip c' = chip c /\ size (objects c') = (size (objects c) + length blobs)%nat
  /\ (blobs <> [] -> size (objects c) + length blobs < slots (chip c))%nat.
Proof.
  revert c out. induction blobs as [|blob blobs IH]; intros c out Hr; cbn [unseal_all] in Hr; run_inv.
  { split_and!; [done|cbn; lia|done]. }
  destruct (unseal_inv _ _ _ _ Hm) as (Hchip & Hroom & (h & Hh & Hobj) & _).
  destruct (IH _ _ Hm0) as (Hchip' & Hsize & Hfit).
  assert (Hs : size (objects c0) = S (size (objects c))) by by rewrite Hobj, map_size_insert_None.
  rewrite Hchip, Hs in *. cbn. split_and!; [done|lia|]. intros _.
  destruct blobs as [|b blobs]; [cbn; lia|]. specialize (Hfit ltac:(done)). cbn in *. lia.
Qed.
End Facts.

(** The JSON of a blob whose fields are base64url reads back. *)
Class BlobJsonLaws `{BlobJson} : Prop := {
  blob_json_back blob text : blob_to_json blob = Some text -> blob_of_json text = Some blob;
}.

(** ** Claims *)

(** C20. A secret sealed by [tpm-seal] opens on its own TPM and nowhere else:
    through the JSON of its file, an unsealing that answers Ok happens on the
    chip that sealed it and returns exactly the sealed bytes, whatever else
    that chip did in between; and on that chip, working and with two slots
    free, it does answer Ok. *)
Theorem sealed_secret_opens_here `{DataEncodingLaws, FactorCrypto, Chips, BlobJson, !ChipLaws, !ChipWorks,
      !BlobJsonLaws} (data : list Z) (c c1 : Context_) (blob : SealedBlob) (text : string)
    (Hseal : seal data c = (c1, Ok blob)) (Htext : blob_to_string blob = Ok text) :
  exists blob', blob_from_str text = Ok blob'
  /\ (forall c2 c3 out, unseal blob' c2 = (c3, Ok out) -> chip c2 = chip c /\ out = data)
  /\ (forall c2, chip c2 = chip c -> healthy c2 -> (S (size (objects c2)) < slots (chip c2))%nat ->
        exists c3, unseal blob' c2 = (c3, Ok data)).
Proof.
  exists blob. unfold blob_to_string, blob_from_str in *.
  destruct (blob_to_json blob) as [t|] eqn:E; [|done]. cbn in Htext. injection Htext as ->.
  rewrite (blob_json_back _ _ E). split; [done|].
  destruct (seal_inv _ _ _ _ Hseal) as (_ & _ & Hv & pub & priv & public & Ho & Hp & Hu & Hpr & Hf). split.
  - intros c2 c3 out Hr. destruct (unseal_inv _ _ _ _ Hr) as (_ & _ & _ & pub' & priv' & public' & Ho' & Hp' & Hu' & Hpr').
    simplify_eq. pose proof (opens_here _ _ _ _ _ _ _ _ Ho Ho') as Hchip. split; [done|].
    rewrite Hchip in Ho'. by simplify_eq.
  - intros c2 Hchip Hh Hroom. eapply unseal_works; try done; [by eapply seal_builds|by rewrite Hchip].
Qed.

(** The TPM factor is complete: what [tpm-register] prints and [tpm-sign]
    signs on one TPM, in whatever contexts, is a key and a token with which
    the daemon accepts the request, once the policy that names the key is
    loaded. *)
Theorem tpm_key_approves `{DataEncodingLaws, FactorCrypto, Chips, !ChipLaws} (io_ok : nat -> bool) (sec : Secrets)
    (model : AuthorityModel) (request : ApprovalRequest) (now : SystemTime) (l : Ledgers) (id : string)
    (c1 c1' c2 c2' : Context_) (public der : list Z)
    (Hreg : signing_public_sec1 c1 = (c1', Ok public))
    (Hsign : sign_challenge (challenge_string request) c2 = (c2', Ok der)) (Hchip : chip c1 = chip c2)
    (Hpolicy : authenticators model !! id = Some (Tpm public)) (Hkey : p256_from_sec1 public = Ok tt) :
  exists id', (judge_proof io_ok sec model request (tpm_assemble_token der) now l).2 = Ok (Ok id').
Proof.
  destruct (signed_challenge_verifies _ _ _ _ _ _ _ Hreg Hsign Hchip Hkey) as (Ht & Hpre & Hv).
  rewrite judge_tpm by by rewrite Ht. rewrite Ht. cbn [snd].
  destruct (try_tpm_complete (tpm_credentials model) (tpm_assemble_token der) (challenge_string request)
    false None public) as [id' ->]; [|done|by exists id'].
  exists id. apply elem_of_of_kind. eauto.
Qed.

(** Unsealing keeps the loaded object: one context reads at most one secret
    fewer than the TPM has slots, and the next one fails. *)
Theorem secrets_exhaust_slots `{DataEncodingLaws, FactorCrypto, Chips, !ChipLaws} (blobs : list SealedBlob)
    (c c' : Context_) (out : list (list Z)) (Hrun : unseal_all blobs c = (c', Ok out)) (Hne : blobs <> []) :
  (length blobs < slots (chip c))%nat.
Proof. destruct (unseal_all_leaves _ _ _ _ Hrun) as (_ & _ & Hfit). specialize (Hfit Hne). lia. Qed.

(** ** A chip for the witnesses *)

(** A chip is a byte; it signs with a key of its own and seals by writing its
    byte beside the secret. *)
Record RefContext := { ref_chip : Z; ref_objects : gmap Z Object_; ref_next : Z }.

Definition ref_put (o : Object_) (c : RefContext) : RefContext :=
  {| ref_chip := ref_chip c; ref_objects := <[ref_next c := o]> (ref_objects c); ref_next := ref_next c + 1 |}.

Definition ref_x (k : Z) : list Z := repeat k 32.
Definition ref_y : list Z := repeat 0 32.
Definition ref_slots : nat := 3.

(** The next handle is free when a slot is. *)
Definition ref_room (c : RefContext) : bool :=
  bool_decide (size (ref_objects c) < ref_slots)%nat && bool_decide (ref_objects c !! ref_next c = None).

Definition ref_opens (k : Z) (p : Template) (pub priv : list Z) : option (list Z) :=
  if bool_decide (pub = [k; 0] /\ Forall is_u8 priv) then Some priv else None.

#[local] Instance RefTss : Tss := {|
  Context_ := RefContext;
  PublicArea := list Z;
  Signature := list Z;
  TctiNameConf := unit;
  parse_tcti _ := Some tt;
  context_new _ := Some {| ref_chip := 7; ref_objects := ∅; ref_next := 0 |};
  attributes_build _ := true;
  ecc_build _ := true;
  public_build _ := true;
  get_manufacturer c := (c, Some (Some 0x49424d00));
  create_primary t c := if ref_room c then (ref_put (Primary t) c, Some ([ref_chip c; 1], ref_next c)) else (c, None);
  create parent t data c :=
    (c, match ref_objects c !! parent with
        | Some (Primary _) => if bool_decide (Forall is_u8 data) then Some ([ref_chip c; 0], data) else None
        | _ => None
        end);
  load parent priv pub c :=
    match ref_objects c !! parent with
    | Some (Primary p) =>
        match ref_opens (ref_chip c) p pub priv with
        | Some data => if ref_room c then (ref_put (SealedData data) c, Some (ref_next c)) else (c, None)
        | None => (c, None)
        end
    | _ => (c, None)
    end;
  unseal_object h c := (c, match ref_objects c !! h with Some (SealedData data) => Some data | _ => None end);
  sign h digest c :=
    (c, match ref_objects c !! h with
        | Some (Primary _) => Some (ref_sign ([0x04] ++ ref_x (ref_chip c) ++ ref_y) digest)
        | _ => None
        end);
  flush_context h c :=
    if bool_decide (is_Some (ref_objects c !! h))
    then ({| ref_chip := ref_chip c; ref_objects := delete h (ref_objects c); ref_next := ref_next c |}, Some tt)
    else (c, None);
  ecc_point pub := match pub with [k; 1] => Some (ref_x k, ref_y) | _ => None end;
  ecdsa_numbers sg := Some (take 32 sg, drop 32 sg);
  marshall pub := if bool_decide (Forall is_u8 pub) then Some pub else None;
  unmarshall bytes := Some bytes;
  digest_fits _ := true;
  sensitive_fits _ := true;
  private_fits _ := true;
  null_ticket := true;
  from_scalars_der r s := Some (r ++ s);
|}.

#[local] Instance RefChips : Chips := {|
  Chip := Z;
  chip := ref_chip;
  objects := ref_objects;
  slots _ := ref_slots;
  primary_point k _ := Some (ref_x k, ref_y);
  opens := ref_opens;
  signed k _ digest sg := sg = ref_sign ([0x04] ++ ref_x k ++ ref_y) digest;
  healthy c := forall h, is_Some (ref_objects c !! h) -> h < ref_next c;
|}.

(** Verification of a prehashed message, the rest as before. *)
#[local] Instance PrehashFactors : FactorCrypto := {|
  hmac_sha1 := @hmac_sha1 _ RefFactors; hmac_sha256 := @hmac_sha256 _ RefFactors;
  factor_sha256 := @factor_sha256 _ RefFactors;
  ecdsa_from_der der := Ok der;
  ecdsa_verify pk m sig := bool_decide (sig = ref_sign pk (checksum 32 3 m));
  eddsa_from_slice := @eddsa_from_slice _ RefFactors; eddsa_verify := @eddsa_verify _ RefFactors;
  PasswordHash := @PasswordHash _ RefFactors; password_hash_new := @password_hash_new _ RefFactors;
  hash_is_none := @hash_is_none _ RefFactors; verify_password := @verify_password _ RefFactors;
  SshSig := @SshSig _ RefFactors; sshsig_parse := @sshsig_parse _ RefFactors;
  sshsig_namespace := @sshsig_namespace _ RefFactors; sshsig_signer := @sshsig_signer _ RefFactors;
  sshsig_verify := @sshsig_verify _ RefFactors;
  assertion_from_slice := @assertion_from_slice _ RefFactors;
  client_data_from_slice := @client_data_from_slice _ RefFactors; debug_str := @debug_str _ RefFactors;
|}.

Lemma ref_room_true c :
  ref_room c = true -> (size (ref_objects c) < ref_slots)%nat /\ ref_objects c !! ref_next c = None.
Proof. unfold ref_room. rewrite andb_true_iff, !bool_decide_eq_true. done. Qed.

Lemma ref_room_healthy c :
  (forall h, is_Some (ref_objects c !! h) -> h < ref_next c) -> (size (ref_objects c) < ref_slots)%nat ->
  ref_room c = true.
Proof.
  intros Hh Hs. unfold ref_room. rewrite andb_true_iff, !bool_decide_eq_true. split; [done|].
  destruct (ref_objects c !! ref_next c) eqn:E; [|done]. specialize (Hh (ref_next c)). rewrite E in Hh.
  specialize (Hh ltac:(eauto)). lia.
Qed.

Lemma ref_put_healthy o c :
  (forall h, is_Some (ref_objects c !! h) -> h < ref_next c) ->
  forall h, is_Some (ref_objects (ref_put o c) !! h) -> h < ref_next (ref_put o c).
Proof.
  intros Hh h. cbn. destruct (decide (h = ref_next c)) as [->|]; [lia|].
  rewrite lookup_insert_ne by done. intros H%Hh. lia.
Qed.

#[local] Instance RefChipLaws : ChipLaws.
Proof.
  split.
  - intros t c. cbn. by destruct (ref_room c).
  - intros h t d c. done.
  - intros h p a c. cbn. by repeat case_match.
  - intros h c. done.
  - intros h d c. done.
  - intros h c. cbn. by case_bool_decide.
  - intros c. done.
  - intros c. done.
  - intros t c c' pub h. cbn. destruct (ref_room c) eqn:E; intros; simplify_eq.
    destruct (ref_room_true _ E). done.
  - intros parent t data c c' pub priv. cbn. destruct (ref_objects c !! parent) as [[p|]|] eqn:E; try done.
    case_bool_decide as Hd; [|done]. intros. simplify_eq. split_and!; [done..|]. exists p. split; [done|].
    unfold ref_opens. by rewrite bool_decide_eq_true_2.
  - intros parent priv pub c c' h. cbn. destruct (ref_objects c !! parent) as [[p|]|] eqn:E; try done.
    destruct (ref_opens _ _ _ _) as [data|] eqn:Eo; [|done]. destruct (ref_room c) eqn:Er; [|done].
    intros. simplify_eq. destruct (ref_room_true _ Er). split_and!; [done..|]. eauto.
  - intros h c c' data. cbn. intros. simplify_eq. split; [done|]. by repeat case_match; simplify_eq.
  - intros h digest c c' sg [= <- Hs]. split; [done|]. change (objects c) with (ref_objects c).
    destruct (ref_objects c !! h) as [[p|]|]; [|done|done]. injection Hs as <-. by exists p.
  - intros h c c' u. cbn. case_bool_decide; intros; by simplify_eq.
  - intros k k' p p' pub priv data data'. cbn. unfold ref_opens. intros. by repeat case_bool_decide; simplify_eq; destruct_and?; simplify_eq.
  - intros pub bytes. cbn. case_bool_decide; intros; by simplify_eq.
  - intros k p m sg x y r s der Hs [= <- <-] [= <- <-] [= <-]. rewrite take_drop, Hs.
    split; [apply checksum_u8|]. eexists. split; [reflexivity|]. by apply bool_decide_eq_true.
Qed.

#[local] Instance RefChipWorks : ChipWorks.
Proof.
  split; cbn.
  - intros t c Hh Hs. rewrite ref_room_healthy by done. eexists _, _, _. split; [done|by apply ref_put_healthy].
  - intros parent p pub priv data c Hh Hs -> ->. rewrite ref_room_healthy by done.
    eexists _, _. split; [done|by apply ref_put_healthy].
  - intros h data c Hh ->. by exists c.
  - intros h c Hh Hs. rewrite bool_decide_eq_true_2 by done. eexists. split; [done|]. cbn.
    intros h' [o [_ Hl]%lookup_delete_Some]. apply Hh. by exists o.
Qed.

Definition blob_tuple (b : SealedBlob) := (blob_version b, blob_public b, blob_private b).
#[local] Instance RefBlobJson : BlobJson := {|
  blob_to_json b := Some (pos_print (encode (blob_tuple b)));
  blob_of_json s :=
    p ← pos_parse s; t ← decode p;
    let '(v, pub, priv) := t in Some {| blob_version := v; blob_public := pub; blob_private := priv |};
|}.
#[local] Instance RefBlobJsonLaws : BlobJsonLaws.
Proof. split. intros [v p q] text [= <-]. cbn. rewrite pos_parse_print. cbn. by rewrite decode_encode. Qed.

Definition fresh_tpm (k : Z) : Context_ := {| ref_chip := k; ref_objects := ∅; ref_next := 0 |}.
Definition demo_blob : SealedBlob :=
  match (seal [1; 2; 3] (fresh_tpm 7)).2 with
  | Ok blob => blob
  | Err _ => {| blob_version := 0; blob_public := ""; blob_private := "" |}
  end.

Lemma sealed_secret_opens_here_witness :
  exists blob', blob_from_str (pos_print (encode (blob_tuple demo_blob))) = Ok blob'
  /\ (forall c2 c3 out, unseal blob' c2 = (c3, Ok out) -> chip c2 = chip (fresh_tpm 7) /\ out = [1; 2; 3])
  /\ (forall c2, chip c2 = chip (fresh_tpm 7) -> healthy c2 -> (S (size (objects c2)) < slots (chip c2))%nat ->
        exists c3, unseal blob' c2 = (c3, Ok [1; 2; 3])).
Proof.
  eapply sealed_secret_opens_here with (c1 := (seal [1; 2; 3] (fresh_tpm 7)).1) (blob := demo_blob);
    [by vm_compute|reflexivity].
Defined.

Definition tpm_model : AuthorityModel :=
  {| authenticators := {["host-tpm" := Tpm ([0x04] ++ ref_x 7 ++ ref_y)]}; groups := ∅; profiles := ∅;
     mcp_profiles := ∅ |}.
Definition tpm_der : list Z :=
  match (sign_challenge (challenge_string demo_request) (fresh_tpm 7)).2 with Ok der => der | Err _ => [] end.

Lemma tpm_key_approves_witness :
  exists id, (judge_proof always demo_secrets tpm_model demo_request (tpm_assemble_token tpm_der) demo_now
                fresh_ledgers).2 = Ok (Ok id).
Proof.
  eapply tpm_key_approves with (id := "host-tpm") (public := [0x04] ++ ref_x 7 ++ ref_y)
    (c1 := fresh_tpm 7) (c1' := (signing_public_sec1 (fresh_tpm 7)).1)
    (c2 := fresh_tpm 7) (c2' := (sign_challenge (challenge_string demo_request) (fresh_tpm 7)).1); by vm_compute.
Defined.

(** With three slots, as the smallest chips have, the third secret of a start
    cannot be read; each of them alone can. *)
Example third_secret_refused :
  (unseal_all [demo_blob] (fresh_tpm 7)).2 = Ok [[1; 2; 3]]
  /\ (unseal_all [demo_blob; demo_blob] (fresh_tpm 7)).2 = Ok [[1; 2; 3]; [1; 2; 3]]
  /\ (unseal_all [demo_blob; demo_blob; demo_blob] (fresh_tpm 7)).2
     = Err (Refused (Calling "loading the sealed object")).
Proof. by vm_compute. Qed.

Example probe_passes : probe "device:/dev/tpm0" = Ok ("IBM", base64url_encode ([0x04] ++ ref_x 7 ++ ref_y)).
Proof. by vm_compute. Qed.

Example lossy_replaces : from_utf8_lossy 4 [0x49; 0xe2; 0x82; 0x4d] = [0x49; 0xef; 0xbf; 0xbd; 0x4d].
Proof. by vm_compute. Qed.
