(* ===== verification/Lifecycle.v ===== *)
(** * Lifecycle: the handlers of the daemon (daemon/src/lifecycle.rs)

    Every handler of [impl Daemon], with its guards, its early returns, its
    store commits, driver calls, dead-man calls and journal lines in the
    order of the source.  Lines printed on stdout have no effect on the
    state and are left out. *)

From S2P Require Import Prelude Text Clock Ttl External Approval Authority Inventory Channel Grant GrantProps Registry Snapshot Proto Daemon.

Inductive Origin := Operator | Mcp.
#[export] Instance Origin_eq_dec : EqDecision Origin.
Proof. solve_decision. Defined.

Definition DRY_RUN_PROFILE : string := "dry-run".
Definition DRILL_PROFILE : string := "drill".

Inductive RevertProgress :=
| PrClosed
| PrStuck (stuck : list Channel).

(** Is the verification of this generic channel [verify = "none"]? *)
Definition unverified (host : Host) (c : Channel) : bool :=
  match c with
  | Http => match http_verify <$> http host with Some (VNone _) => true | _ => false end
  | Mqtt => match mqtt_verify <$> mqtt host with Some (VNone _) => true | _ => false end
  | Serial => match serial_verify <$> serial host with Some (VNone _) => true | _ => false end
  | _ => false
  end.

Definition narrowings_for (host : Host) (applied : list Channel)
    : option (list (Channel * string)) :=
  match (fun c => (c, name host)) <$> List.filter (unverified host) applied with
  | [] => None
  | out => Some out
  end.

Definition is_some_config {A} (o : option A) : bool := match o with Some _ => true | None => false end.

Definition wants_deadman (host : Host) (applied : list Channel) : bool :=
  is_some_config (ssh host)
  && existsb (fun c => match c with Ssh | AuthorizedKeys => true | _ => false end) applied.

Section Lifecycle.
Context `{DataEncoding, ApprovalKeys} {W D V : Type}.
Context `{!ChannelDriver W, !DeadmanControl D, !ProofVerifier V}.
Context (env : Env) (cfg : Config).

Local Abbreviation M := (Daemon.M (W := W) (D := D) (V := V)).
Local Abbreviation Resp := (Response Refusal).

Definition host_of (n : string) : option Host :=
  List.find (fun h => String.eqb (name h) n) (hosts (inventory cfg)).

Definition declared (host : string) : list Channel :=
  match host_of host with Some h => channels h | None => [] end.

Definition read_registry : M GrantRegistry := Daemon.read_registry env cfg.
Definition with_registry {A} (op : GrantRegistry -> GrantRegistry * result RegistryError A)
    : M (result RegistryError A) := Daemon.with_registry env cfg op.
Definition with_read_registry {A} (op : GrantRegistry -> result RegistryError A)
    : M (result RegistryError A) := Daemon.with_read_registry env cfg op.
Definition log (now : SystemTime) (event : Event) : M unit := record_event env now event.

(** *** Profiles *)

Definition permitted_profiles (model : AuthorityModel) (host_cfg : Host) : list string :=
  match access host_cfg with
  | Some a => access_profiles a
  | None => profile_ids model
  end.

Definition resolve_authority (model : AuthorityModel) (host_cfg : Host) (prof : string)
    : result Refusal Authority :=
  if negb (existsb (String.eqb prof) (permitted_profiles model host_cfg))
  then Err (RfNotPermitted (name host_cfg) prof)
  else
    let from_model := ok_or (Authority.profile model prof) (RfProfileUndefined prof) in
    match access host_cfg with
    | Some a =>
        match access_overrides a !! prof with
        | Some body => map_err RfOverride (resolve_override model prof body)
        | None => from_model
        end
    | None => from_model
    end.

Definition resolve_open_profile (host : string) (prof : option string) : option string :=
  model ← approval_policy cfg;
  host_cfg ← host_of host;
  match prof with
  | Some p => Some p
  | None => match permitted_profiles model host_cfg with [only] => Some only | _ => None end
  end.

Definition pending_profile (host : string) (now : SystemTime) : M (option string) :=
  let! registry := read_registry in
  ret (match Registry.pending_view registry host now with
       | Ok v => Some (pv_profile v)
       | Err _ => None
       end).

Definition status (now : SystemTime) : M (list GrantLine) :=
  let! registry := read_registry in ret (status_lines registry now).

Definition progress (authority : option Authority) (satisfied : gset string)
    (elapsed : Duration) : M (Z * Z * list MissingLabel) :=
  match approval_policy cfg, authority with
  | Some model, Some a =>
      let! out := fuelled (evaluate model a satisfied elapsed) in
      ret (out_weight out, out_threshold out, LMissing <$> missing out)
  | _, _ => ret (0, 1, [LAnyToken])
  end.

(** *** The MCP front door *)

Definition mcp_profile_gate (host : string) (prof : option string) : M (option Refusal) :=
  match prof with
  | None => ret None
  | Some p =>
      let! model := expect_some (approval_policy cfg) in
      if mcp_allowed model p then ret None else ret (Some (RfMcpProfile p host))
  end.

Definition mcp_gate (op : Proto.Op) (now : SystemTime) : M (option Refusal) :=
  match op with
  | OOpen host _ prof =>
      if negb (is_some_config (approval_policy cfg)) then ret (Some RfMcpNeedsPolicy)
      else mcp_profile_gate host (resolve_open_profile host prof)
  | OApprove host _ =>
      if negb (is_some_config (approval_policy cfg)) then ret (Some RfMcpNeedsPolicy)
      else let! prof := pending_profile host now in mcp_profile_gate host prof
  | ODrill _ => ret (Some RfMcpDrill)
  | ORenew _ _ | OClose _ | OStatus => ret None
  end.

Definition op_host (op : Proto.Op) : string :=
  match op with
  | OOpen host _ _ | OApprove host _ | ORenew host _ | OClose host | ODrill host => host
  | OStatus => ""
  end.

(** *** open *)

(** The profile an [open] records and its authority. *)
Definition choose_profile (host : string) (host_cfg : Host) (prof : option string)
    : M (result Refusal (string * option Authority)) :=
  match approval_policy cfg with
  | None => ret (Ok (DRY_RUN_PROFILE, None))
  | Some model =>
      let permitted := permitted_profiles model host_cfg in
      let chosen :=
        match prof with
        | Some p => Ok p
        | None =>
            match permitted with
            | [only] => Ok only
            | [] => Err (RfNoProfiles host)
            | _ => Err (RfManyProfiles host permitted)
            end
        end in
      match chosen with
      | Err e => ret (Err e)
      | Ok chosen =>
          match resolve_authority model host_cfg chosen with
          | Err reason => ret (Err reason)
          | Ok authority =>
              let! max_wait := fuelled (max_wait model authority) in
              if approval_window cfg <=? max_wait
              then ret (Err (RfWaitTooLong chosen (as_secs max_wait) (as_secs (approval_window cfg))))
              else ret (Ok (chosen, Some authority))
          end
      end
  end.

Definition open (host ttl_str : string) (prof : option string) (now : SystemTime) : M Resp :=
  match Ttl.parse ttl_str with
  | Err e => ret (refused (RfTtl e))
  | Ok ttl =>
      match host_of host with
      | None => ret (refused (RfRegistry (UnknownHost host)))
      | Some host_cfg =>
          let! choice := choose_profile host host_cfg prof in
          match choice with
          | Err reason => ret (refused reason)
          | Ok (chosen_profile, authority) =>
              match checked_add now (approval_window cfg) with
              | None => ret (refused RfWindowOverflow)
              | Some deadline =>
                  let! nonce := generate_nonce env in
                  let! begun := with_registry (fun reg =>
                    Registry.begin_pending reg host now deadline ttl nonce chosen_profile) in
                  match begun with
                  | Err refusal => ret (refused (RfRegistry refusal))
                  | Ok _ =>
                      log now (EvRequested host (declared host) (as_secs (duration ttl))
                                (epoch_secs now) (epoch_secs deadline)) ;!
                      let challenge := challenge_string
                        (Approval.new nonce host (as_secs (duration ttl)) now) in
                      let! p := progress authority ∅ 0 in
                      ret (response None None None None None
                        (Some {| pc_host := host; pc_challenge := challenge;
                                 pc_ttl_secs := as_secs (duration ttl);
                                 pc_requested_at := epoch_secs now;
                                 pc_approval_deadline := epoch_secs deadline;
                                 pc_profile := chosen_profile; pc_weight := p.1.1;
                                 pc_threshold := p.1.2; pc_missing := p.2 |}) None)
                  end
              end
          end
      end
  end.

(** *** The pending to open tail *)

Definition already_opening_response (host : string) (now : SystemTime) : M Resp :=
  let! registry := read_registry in
  match Registry.status registry host now with
  | Ok (StOpen remaining) =>
      ret (response (Some (epoch_secs now + as_secs remaining)) None None None None None None)
  | Ok StOpening => ret (response None (Some "opening") None None None None None)
  | _ => ret (refused RfNoLongerAwaiting)
  end.

(** Commit the failure of an open: a clean abort, or needs-revert. *)
Definition commit_open_failure (host : string) (stuck : list Channel) (now : SystemTime) : M unit :=
  match stuck with
  | [] => let! r := with_registry (fun reg => Registry.abort_open reg host) in expect r
  | _ => let! r := with_registry (fun reg => Registry.fail_open reg host stuck now) in expect r
  end.

(** [applied.iter().find_map(|c| drivers.take_secret(c)..)]. *)
Fixpoint first_secret (ds : DriverSet W) (cs : list Channel)
    : DriverSet W * option (Channel * string) :=
  match cs with
  | [] => (ds, None)
  | c :: rest =>
      match take_secret ds c with
      | (ds', Some x) => (ds', Some (c, x))
      | (ds', None) => first_secret ds' rest
      end
  end.

Definition stuck_of (outcome : RevertOutcome) : list Channel :=
  match outcome with Reverted => [] | Stuck stuck => stuck.*1 end.

(** The terminal commit of a fully applied open. *)
Definition finish_drive (host : string) (host_cfg : Host) (applied declared : list Channel)
    (ttl_secs : Z) (expires now : SystemTime) : M Resp :=
  let! r := with_registry (fun reg => Registry.finish_open reg host) in
  expect r ;!
  log now (EvOpen host applied declared ttl_secs (epoch_secs expires)) ;!
  let! produced := with_drivers (fun ds => Some (first_secret ds applied)) in
  let '(secret, label, outcome) :=
    match produced with
    | Some (Vnc, x) =>
        (Some x, Some "one-time VNC password",
         (fun v => "vnc console at 127.0.0.1:" +:+ dec_u64 (local_port v)) <$> vnc host_cfg)
    | Some (_, x) => (Some x, Some "break-glass BMC password", None)
    | None => (None, None, None)
    end in
  ret (response (Some (epoch_secs expires)) outcome None secret label None
         (narrowings_for host_cfg applied)).

Definition drive_open (host : string) (host_cfg : Host) (to_apply declared : list Channel)
    (ttl_secs : Z) (expires now : SystemTime) : M Resp :=
  let ctx := {| ctx_ttl_secs := ttl_secs; ctx_expires_at := expires |} in
  let! outcome := with_drivers (fun ds => apply_channels ds host_cfg to_apply ctx) in
  match outcome with
  | Applied applied =>
      let finish := finish_drive host host_cfg applied declared ttl_secs expires now in
      if wants_deadman host_cfg applied then
        let! installed := with_deadman (dm_install host_cfg expires) in
        match installed with
        | Ok _ => finish
        | Err error =>
            let! reverted := with_drivers (fun ds => Some (revert_channels ds host_cfg applied)) in
            let stuck := stuck_of reverted in
            commit_open_failure host stuck now ;!
            log now (EvOpenFailed host Ssh stuck (OeDeadman error)) ;!
            ret (refused (RfDeadmanInstall error))
        end
      else finish
  | Failed failed error _ stuck =>
      commit_open_failure host stuck now ;!
      log now (EvOpenFailed host failed stuck (OeDriver error)) ;!
      ret (refused (RfOpenFailed failed error stuck))
  end.

Definition open_pending_now (host : string) (host_cfg : Host) (requested_at now : SystemTime)
    : M Resp :=
  let decl := declared host in
  let! to_apply := with_drivers (fun ds => Some (ds, drivable ds decl)) in
  let! claimed := with_registry (fun reg => Registry.approve_to_opening reg host now to_apply) in
  match claimed with
  | Err (EGrant NotPending) => already_opening_response host now
  | Err refusal => ret (refused (RfRegistry refusal))
  | Ok expires =>
      log now (EvApproved host (epoch_secs requested_at)) ;!
      let ttl_secs := match duration_since expires now with
                      | Some d => as_secs d | None => 0 end in
      drive_open host host_cfg to_apply decl ttl_secs expires now
  end.

(** *** approve *)

Definition pending_challenge (host : string) (view : PendingView) (authority : Authority)
    : M PendingChallenge :=
  let! p := progress (Some authority) (pv_satisfied view) (pv_elapsed view) in
  ret {| pc_host := host; pc_challenge := ""; pc_ttl_secs := 0;
         pc_requested_at := epoch_secs (pv_requested_at view); pc_approval_deadline := 0;
         pc_profile := pv_profile view; pc_weight := p.1.1; pc_threshold := p.1.2;
         pc_missing := p.2 |}.

(** The tail of [approve] once a proof has been recorded. *)
Definition approve_evaluate (model : AuthorityModel) (host : string) (host_cfg : Host)
    (now : SystemTime) : M Resp :=
  let! view := with_read_registry (fun reg => Registry.pending_view reg host now) in
  match view with
  | Err refusal => ret (refused (RfRegistry refusal))
  | Ok view =>
      match resolve_authority model host_cfg (pv_profile view) with
      | Err reason => ret (refused reason)
      | Ok authority =>
          let! outcome := fuelled (evaluate model authority (pv_satisfied view) (pv_elapsed view)) in
          if met outcome
          then open_pending_now host host_cfg (pv_requested_at view) now
          else
            let! pc := pending_challenge host view authority in
            ret (response None None None None None (Some pc) None)
      end
  end.

Definition approve (host token : string) (now : SystemTime) : M Resp :=
  let! registry := read_registry in
  match Registry.pending registry host now with
  | Err refusal => ret (refused (RfRegistry refusal))
  | Ok request =>
      let! host_cfg := expect_some (host_of host) in
      match approval_policy cfg with
      | None => open_pending_now host host_cfg (Approval.requested_at request) now
      | Some model =>
          let! verdict := with_proofs (verify_proof model request token now) in
          match verdict with
          | Err e => log now (EvApprovalDenied host e) ;! ret (refused (RfApproval e))
          | Ok authenticator =>
              let! added := with_registry (fun reg =>
                Registry.add_satisfied reg host now authenticator) in
              match added with
              | Err refusal => ret (refused (RfRegistry refusal))
              | Ok newly =>
                  (if newly : bool then log now (EvProofAccepted host authenticator) else ret tt) ;!
                  approve_evaluate model host host_cfg now
              end
          end
      end
  end.

(** *** Reverting *)

Definition drive_one_revert (host : string) (cs : list Channel) (now : SystemTime)
    : M RevertProgress :=
  let! host_cfg := expect_some (host_of host) in
  let! outcome := with_drivers (fun ds => Some (revert_channels ds host_cfg cs)) in
  match outcome with
  | Reverted =>
      let! removed :=
        (if is_some_config (ssh host_cfg) then with_deadman (dm_remove host_cfg)
         else ret (Ok false)) in
      match removed with
      | Err _ =>
          let! _ := with_registry (fun reg => Registry.retain_stuck reg host cs) in
          ret (PrStuck cs)
      | Ok deadman_fired =>
          let! finished := with_registry (fun reg => Registry.finish_revert reg host) in
          match finished with
          | Ok _ => log now (EvClose host deadman_fired) ;! ret PrClosed
          | Err (EGrant NotOpen) => ret PrClosed
          | Err other => fatal (FFinishingRevert other)
          end
      end
  | Stuck stuck =>
      let stuck_channels := stuck.*1 in
      let! retained := with_registry (fun reg => Registry.retain_stuck reg host stuck_channels) in
      match retained with
      | Ok _ => ret (PrStuck stuck_channels)
      | Err (EGrant NotOpen) => ret PrClosed
      | Err other => fatal (FRetainingStuck other)
      end
  end.

Definition close (host : string) (now : SystemTime) : M Resp :=
  let! registry := read_registry in
  let cancel :=
    let! r := with_registry (fun reg => Registry.cancel_pending reg host) in
    expect r ;!
    log now (EvRequestCancelled host) ;!
    ret (response None (Some "cancelled") None None None None None) in
  match Registry.status registry host now with
  | Ok (StAwaitingApproval _) | Ok StApprovalExpired => cancel
  | _ =>
      let! begun := with_registry (fun reg => Registry.begin_revert reg host now) in
      match begun with
      | Err (EGrant NotOpen) =>
          ret (response None (Some "already-closed") None None None None None)
      | Err refusal => ret (refused (RfRegistry refusal))
      | Ok cs =>
          let! outcome := drive_one_revert host cs now in
          match outcome with
          | PrClosed => ret (response None (Some "closed") None None None None None)
          | PrStuck stuck => ret (refused (RfCloseIncomplete host stuck))
          end
      end
  end.

(** *** renew *)

(** The channels of the host's open grant. *)
Definition open_channels_of (registry : GrantRegistry) (host : string) (now : SystemTime)
    : list Channel :=
  match List.find (fun p => String.eqb p.1 host) (Registry.open_channels registry now) with
  | Some p => p.2
  | None => []
  end.

(** Move the backstop, then tell the channels; [Some] is the refusal. *)
Definition renew_tell (host : string) (host_cfg : Host) (ttl : Ttl) (expires now : SystemTime)
    : M (option Refusal) :=
  let! moved :=
    (if is_some_config (ssh host_cfg) then with_deadman (dm_reschedule host_cfg expires)
     else ret (Ok tt)) in
  match moved with
  | Err e => ret (Some (RfDeadmanReschedule e))
  | Ok _ =>
      let! registry := read_registry in
      let cs := open_channels_of registry host now in
      match cs with
      | [] => ret None
      | _ =>
          let ctx := {| ctx_ttl_secs := as_secs (duration ttl); ctx_expires_at := expires |} in
          let! told := with_drivers (fun ds => Some (renew_channels ds host_cfg cs ctx)) in
          match told with
          | Err (c, e) => ret (Some (RfChannelNotTold c e))
          | Ok _ => ret None
          end
      end
  end.

Definition renew (host ttl_str : string) (now : SystemTime) : M Resp :=
  match Ttl.parse ttl_str with
  | Err e => ret (refused (RfTtl e))
  | Ok ttl =>
      let! probe := read_registry in
      match (Registry.renew probe host now ttl).2 with
      | Err refusal => ret (refused (RfRegistry refusal))
      | Ok expires =>
          let! told :=
            match host_of host with
            | Some host_cfg => renew_tell host host_cfg ttl expires now
            | None => ret None
            end in
          match told with
          | Some reason => ret (refused reason)
          | None =>
              let! renewed := with_registry (fun reg => Registry.renew reg host now ttl) in
              match renewed with
              | Err refusal => ret (refused (RfRegistry refusal))
              | Ok expires =>
                  log now (EvRenew host (as_secs (duration ttl)) (epoch_secs expires)) ;!
                  ret (response (Some (epoch_secs expires)) None None None None None None)
              end
          end
      end
  end.

(** *** drill *)

Definition drill_failed (host : string) (now : SystemTime) (reason : Refusal) : M Resp :=
  log now (EvDrillFailed host reason) ;! ret (refused (RfDrillFailed host reason)).

(** [let _ = self.close(host, now);]: an error is dropped, a panic is not. *)
Definition ignore {A} (m : M A) : M unit := fun s =>
  match m s with
  | (s', Err (Refused _)) => (s', Ok tt)
  | (s', Err f) => (s', Err f)
  | (s', Ok _) => (s', Ok tt)
  end.

Definition drill (host : string) (now : SystemTime) : M Resp :=
  match host_of host with
  | None => ret (refused (RfRegistry (UnknownHost host)))
  | Some host_cfg =>
      if negb (drill host_cfg) then ret (refused (RfNotCanary host))
      else
        let! registry := read_registry in
        match Registry.status registry host now with
        | Ok StClosed =>
            match Ttl.parse "5m" with
            | Err e => drill_failed host now (RfTtl e)
            | Ok ttl =>
                let deadline := match checked_add now (approval_window cfg) with
                                | Some d => d | None => now end in
                let! nonce := generate_nonce env in
                let! begun := with_registry (fun reg =>
                  Registry.begin_pending reg host now deadline ttl nonce DRILL_PROFILE) in
                match begun with
                | Err refusal => drill_failed host now (RfDrillBegin refusal)
                | Ok _ =>
                    let! opened := open_pending_now host host_cfg now now in
                    if negb (bool_decide (rs_result opened = RsOk))
                       || negb (is_some_config (rs_expires_at opened))
                    then
                      ignore (close host now) ;!
                      drill_failed host now
                        (match rs_error opened with Some e => e | None => RfCanaryDidNotOpen end)
                    else
                      let! closed := close host now in
                      if negb (bool_decide (rs_result closed = RsOk))
                      then drill_failed host now
                        (match rs_error closed with Some e => e | None => RfRevertDidNotComplete end)
                      else
                        log now (EvDrillPassed host) ;!
                        ret (response None
                          (Some ("drill passed: " +:+ host +:+ " opened and fully reverted"))
                          None None None None None)
                end
            end
        | _ => ret (refused (RfCanaryNotIdle host))
        end
  end.

(** *** Dispatch *)

Definition dispatch_from (op : Proto.Op) (now : SystemTime) (origin : Origin) : M Resp :=
  let! gate := (if bool_decide (origin = Mcp) then mcp_gate op now else ret None) in
  match gate with
  | Some reason =>
      log now (EvMcpRefused (op_host op) reason) ;! ret (refused reason)
  | None =>
      match op with
      | OOpen host ttl prof => open host ttl prof now
      | OApprove host token => approve host token now
      | ORenew host ttl => renew host ttl now
      | OClose host => close host now
      | OStatus =>
          let! lines := status now in ret (response None None (Some lines) None None None None)
      | ODrill host => drill host now
      end
  end.

Definition dispatch (op : Proto.Op) (now : SystemTime) : M Resp :=
  dispatch_from op now Operator.

(** *** The pass *)

(** [for x in xs { f(x)?; }]. *)
Fixpoint for_each {A} (f : A -> M unit) (xs : list A) : M unit :=
  match xs with
  | [] => ret tt
  | x :: rest => f x ;! for_each f rest
  end.

(** The closure of the first commit of a pass. *)
Definition reap_all (now : SystemTime) (doc : StateDoc)
    : result (Fault Fatal) (StateDoc * (list ExpiredGrant * list ExpiredPending)) :=
  match validate cfg doc with
  | Err e => Err (Refused e)
  | Ok registry =>
      match reap_to_revert registry now with
      | None => Err Panic
      | Some (registry, expired) =>
          match reap_expired_pending registry now with
          | None => Err Panic
          | Some (registry, expired_pending) =>
              Ok (snapshot registry, (expired, expired_pending))
          end
      end
  end.

(** The body of the loop over the hosts awaiting approval. *)
Definition mature_wait (model : AuthorityModel) (now : SystemTime) (host : string) : M unit :=
  let! host_cfg := expect_some (host_of host) in
  let! view := with_read_registry (fun reg => Registry.pending_view reg host now) in
  match view with
  | Err _ => ret tt
  | Ok view =>
      match resolve_authority model host_cfg (pv_profile view) with
      | Err _ => ret tt
      | Ok authority =>
          let! o1 := fuelled (evaluate model authority (pv_satisfied view) (pv_elapsed view)) in
          let! o2 := fuelled (evaluate model authority (pv_satisfied view) 0) in
          if met o1 && negb (met o2)
          then open_pending_now host host_cfg (pv_requested_at view) now ;! ret tt
          else ret tt
      end
  end.

(** [report] only prints what [status] answers. *)
Definition report (now : SystemTime) : M unit := status now ;! ret tt.

Definition pass (now : SystemTime) : M unit :=
  let! reaped := mutate env (reap_all now) in
  for_each (fun e : ExpiredGrant =>
    log now (EvExpire (eg_host e) (eg_channels e) (epoch_secs (eg_opened_at e))
              (epoch_secs (eg_expires_at e)))) reaped.1 ;!
  for_each (fun e : ExpiredPending =>
    log now (EvRequestExpired (ep_host e) (epoch_secs (ep_requested_at e))
              (epoch_secs (ep_approval_deadline e)))) reaped.2 ;!
  let! registry := read_registry in
  for_each (fun p : string * list Channel =>
    drive_one_revert p.1 p.2 now ;! ret tt) (needing_revert registry now) ;!
  (match approval_policy cfg with
   | None => ret tt
   | Some model =>
       let! registry := read_registry in
       for_each (mature_wait model now) (awaiting_approval registry now)
   end) ;!
  report now.

(** *** Boot *)

Definition demote_all (now : SystemTime) (doc : StateDoc)
    : result (Fault Fatal) (StateDoc * list (string * list Channel)) :=
  match validate cfg doc with
  | Err e => Err (Refused e)
  | Ok registry =>
      match demote_opening registry now with
      | None => Err Panic
      | Some (registry, demoted) => Ok (snapshot registry, demoted)
      end
  end.

Definition reestablish_one (now : SystemTime) (p : string * list Channel) : M unit :=
  let! host_cfg := expect_some (host_of p.1) in
  let! outcome := with_drivers (fun ds => Some (reestablish_channels ds host_cfg p.2)) in
  match outcome with
  | Restored => log now (EvReestablish p.1 p.2)
  | Lost lost =>
      let! r := with_registry (fun reg => Registry.begin_revert reg p.1 now) in
      expect r ;!
      let stuck := lost.*1 in
      log now (EvOpenFailed p.1 (match stuck with c :: _ => c | [] => Vnc end) stuck
                (OeNotReestablished lost))
  end.

Definition reestablish_open (now : SystemTime) : M unit :=
  let! registry := read_registry in
  for_each (reestablish_one now) (Registry.open_channels registry now).

Definition boot_recover (now : SystemTime) : M unit :=
  let! demoted := mutate env (demote_all now) in
  for_each (fun p : string * list Channel =>
    log now (EvOpenFailed p.1 (match p.2 with c :: _ => c | [] => Ssh end) p.2
              OeRestartedMidOpen)) demoted ;!
  reestablish_open now.
End Lifecycle.
