(* ===== verification/LifecycleLogic.v ===== *)
(** * LifecycleLogic: a program logic for the daemon's handlers

    The safety predicate (everything open on a target is recorded in the
    state file), what the file says of each host, and a Hoare logic in which
    a handler keeps the predicate at every point where the daemon may die,
    and never panics. *)

From S2P Require Import Prelude Text Clock Ttl External Approval Authority Inventory Channel Grant GrantProps Registry Snapshot Proto Daemon Lifecycle.

(** ** What the file says of a host *)

(** The state name and the channels of the record of [h]. *)
Definition entry (f : option StateDoc) (h : string) : option (string * list Channel) :=
  doc ← f; record ← doc_grants doc !! h; Some (state record, rec_channels record).

Definition rec_of (f : option StateDoc) (h : string) : list Channel :=
  match entry f h with Some e => e.2 | None => [] end.

Definition grant_entry (g : Grant) : option (string * list Channel) :=
  match g with
  | Closed => None
  | Pending _ _ _ _ _ _ => Some ("pending", [])
  | Opening _ _ cs => Some ("opening", cs)
  | Open _ _ cs => Some ("open", cs)
  | NeedsRevert cs _ => Some ("needs-revert", cs)
  end.

Lemma grant_entry_recorded g :
  match grant_entry g with Some e => e.2 | None => [] end = recorded_channels g.
Proof. by destruct g. Qed.

(** The state names tell the phases apart. *)
Lemma grant_entry_opening g cs :
  grant_entry g = Some ("opening", cs) -> exists o e, g = Opening o e cs.
Proof. destruct g; cbn; intros; simplify_eq; eauto. Qed.
Lemma grant_entry_revert g cs :
  grant_entry g = Some ("needs-revert", cs) -> exists t, g = NeedsRevert cs t.
Proof. destruct g; cbn; intros; simplify_eq; eauto. Qed.
Lemma grant_entry_open g cs :
  grant_entry g = Some ("open", cs) -> exists o e, g = Open o e cs.
Proof. destruct g; cbn; intros; simplify_eq; eauto. Qed.

(** Two files that agree on every host but [h]. *)
Definition same_except (h : string) (f f' : option StateDoc) : Prop :=
  forall h', h' <> h -> entry f' h' = entry f h'.

Definition same_entries (f f' : option StateDoc) : Prop := forall h, entry f' h = entry f h.

Lemma same_except_refl h f : same_except h f f.
Proof. by intros ??. Qed.
Lemma same_except_trans h f1 f2 f3 :
  same_except h f1 f2 -> same_except h f2 f3 -> same_except h f1 f3.
Proof. intros H1 H2 h' Hn. rewrite H2 by done. by apply H1. Qed.
Lemma same_entries_except h f f' : same_entries f f' -> same_except h f f'.
Proof. by intros Hs h' _. Qed.
#[export] Hint Resolve same_except_refl same_except_trans same_entries_except : lychgate.

Section Files.
Context `{DataEncoding}.

Lemma reread_record_fields r r' :
  reread_record r = Some r' -> state r' = state r /\ rec_channels r' = rec_channels r.
Proof.
  unfold reread_record. intros Hr.
  repeat match type of Hr with
  | (_ ≫= _) = Some _ => apply bind_Some in Hr as (? & _ & Hr)
  end. simplify_eq. done.
Qed.

Lemma entry_reread d d' : reread_doc d = Some d' -> same_entries (Some d) (Some d').
Proof.
  unfold reread_doc. intros (l & Hl & Hd)%bind_Some h. simplify_eq. unfold entry. cbn.
  apply mapM_Some in Hl.
  assert (Hfst : l.*1 = (btree_iter (doc_grants d)).*1).
  { clear -Hl. induction Hl as [|x y k k' Hxy _ IH]; [done|]. cbn. f_equal; [|done].
    apply fmap_Some in Hxy as (? & _ & ->). done. }
  assert (Hnd : NoDup l.*1) by (rewrite Hfst; apply NoDup_btree_keys).
  destruct (doc_grants d !! h) as [r|] eqn:Hr; cbn.
  - apply elem_of_btree_iter, list_elem_of_lookup in Hr as [i Hi].
    destruct (Forall2_lookup_l _ _ _ _ _ Hl Hi) as (y & Hy & Hxy).
    apply fmap_Some in Hxy as (r' & Hrr & ->). cbn in *.
    rewrite (elem_of_list_to_map_1 l h r') by (done || by eapply list_elem_of_lookup_2).
    cbn. destruct (reread_record_fields _ _ Hrr) as [-> ->]. done.
  - destruct (list_to_map l !! h) as [r'|] eqn:Hl'; [|done].
    apply elem_of_list_to_map_2 in Hl'. apply list_elem_of_lookup in Hl' as [i Hi].
    destruct (Forall2_lookup_r _ _ _ _ _ Hl Hi) as ([k r] & Hy & Hxy).
    apply fmap_Some in Hxy as (? & _ & ?). cbn in *. simplify_eq.
    apply list_elem_of_lookup_2, elem_of_btree_iter in Hy. congruence.
Qed.

Lemma read_file_entries f doc : read_file f = Ok doc -> same_entries f (Some doc).
Proof.
  destruct f as [d|]; cbn.
  - destruct (reread_doc d) as [d'|] eqn:Hd; [|done]. case_goal; [|done]. intros. simplify_eq.
    by apply entry_reread.
  - intros. simplify_eq. intros h. unfold entry. cbn. by rewrite lookup_empty.
Qed.

Lemma entry_snapshot (r : GrantRegistry) h : entry (Some (snapshot r)) h = r !! h ≫= grant_entry.
Proof.
  unfold entry. cbn -[snapshot]. rewrite lookup_snapshot. destruct (r !! h) as [[]|]; done.
Qed.

(** What a record that validates says. *)
Lemma parts_of_entry host record p :
  parts_of host record = Ok p ->
  grant_entry (Grant.restore p) = Some (state record, rec_channels record).
Proof.
  unfold parts_of. destruct (String.eqb_spec (state record) "pending") as [Hst|_].
  { rewrite Hst. unfold pending_parts. intros Hp.
    repeat (case_hyp Hp; try done); simplify_eq; cbn; bool_prop; congruence. }
  destruct (String.eqb_spec (state record) "opening") as [Hst|_].
  { rewrite Hst. destruct (interval host record); [|done]. intros. by simplify_eq. }
  destruct (String.eqb_spec (state record) "open") as [Hst|_].
  { rewrite Hst. destruct (interval host record); [|done]. intros. by simplify_eq. }
  destruct (String.eqb_spec (state record) "needs-revert") as [Hst|_]; [|done].
  rewrite Hst. intros Hp. repeat (case_hyp Hp; try done). by simplify_eq.
Qed.

Lemma restore_all_entry l r r' :
  NoDup l.*1 -> (forall k, k ∈ l.*1 -> is_Some (r !! k)) -> restore_all l r = Ok r' ->
  forall h, r' !! h ≫= grant_entry =
    match list_to_map (M := gmap string GrantRecord) l !! h with
    | Some record => Some (state record, rec_channels record)
    | None => r !! h ≫= grant_entry
    end /\ (is_Some (r' !! h) <-> is_Some (r !! h)).
Proof.
  revert r. induction l as [|[k record] l IH]; intros r Hnd Hk Hr h; cbn in *.
  { simplify_eq. by rewrite lookup_empty. }
  apply NoDup_cons in Hnd as [Hni Hnd].
  destruct (parts_of k record) as [p|] eqn:Hp; [|done].
  unfold Registry.restore in Hr. destruct (Hk k ltac:(left)) as [g Hg]. rewrite Hg in Hr.
  assert (Hk' : forall k', k' ∈ l.*1 -> is_Some (<[k := Grant.restore p]> r !! k')).
  { intros k' Hk'. destruct (decide (k' = k)) as [->|]; [rewrite lookup_insert_eq; eauto|].
    rewrite lookup_insert_ne by done. apply Hk. by right. }
  destruct (IH _ Hnd Hk' Hr h) as [Hr1 Hr2]. rewrite Hr1, Hr2.
  destruct (decide (h = k)) as [->|Hne].
  - rewrite !lookup_insert_eq. rewrite (not_elem_of_list_to_map_1 l k) by done. cbn.
    rewrite (parts_of_entry _ _ _ Hp). rewrite Hg. split; [done|]. split; eauto.
  - by rewrite !lookup_insert_ne by done.
Qed.

(** A validated document: the registry has exactly the inventory's hosts
    and says of each what the document says. *)
Lemma from_parts_entries inv doc r :
  from_parts inv doc = Ok r ->
  forall h, r !! h ≫= grant_entry = entry (Some doc) h
    /\ (is_Some (r !! h) <-> h ∈ name <$> hosts inv).
Proof.
  unfold from_parts. case_goal; [done|]. bool_prop. intros Hr h.
  assert (Hk : forall k, k ∈ btree_keys (doc_grants doc) -> is_Some (Registry.new inv !! k)).
  { intros k Hin. destruct (knows (Registry.new inv) k) eqn:Hkn.
    - unfold knows in Hkn. by apply bool_decide_eq_true in Hkn.
    - assert (Hf : k ∈ List.filter (fun host => negb (knows (Registry.new inv) host))
                 (btree_keys (doc_grants doc))).
      { apply base.list_elem_of_In, filter_In. split; [by apply base.list_elem_of_In|].
        by rewrite Hkn. }
      rewrite Heqb in Hf. by apply not_elem_of_nil in Hf. }
  destruct (restore_all_entry _ _ _ (NoDup_btree_keys _) Hk Hr h) as [Hr1 Hr2].
  rewrite Hr1, Hr2, list_to_map_btree_iter, lookup_new. split.
  - unfold entry. cbn. destruct (doc_grants doc !! h); [done|]. by case_decide.
  - case_decide; split; intros Hx; done.
Qed.
End Files.

(** ** The logic *)

(** Whether the computation is also expected to return: the recursions of the
    policy are then known to end within their bounds. *)
Class Expectation := total : Prop.

Section Logic.
Context `{!Expectation} `{DataEncoding, ApprovalKeys} {W D V : Type}.
Context `{!ChannelDriver W, !DriverContract W, !DeadmanControl D, !ProofVerifier V}.
Context (env : Env) (cfg : Config) (regs : gset Channel).

Local Abbreviation M := (Daemon.M (W := W) (D := D) (V := V)).

(** Everything a target really offers is recorded in the file. *)
Definition Safe (p : option StateDoc * W) : Prop :=
  forall h c, exposed p.2 h c = true -> c ∈ rec_of p.1 h.

(** Safe now and at every point passed so far. *)
Definition Inv (s : Sys W D V) : Prop :=
  registered (drivers s) = regs /\ Forall Safe ((store s, world (drivers s)) :: past s).

(** [m], from a state where [P] holds of the file and the world, keeps
    [Inv], does not panic (and returns, where that is expected), and ends
    where [Q] holds of its value. *)
Definition triple {A} (P : option StateDoc -> W -> Prop) (m : M A)
    (Q : A -> option StateDoc -> W -> Prop) : Prop :=
  forall s, Inv s -> P (store s) (world (drivers s)) ->
    Inv (m s).1 /\
    match (m s).2 with
    | Ok a => Q a (store (m s).1) (world (drivers (m s).1))
    | Err Panic => False
    | Err OutOfFuel => ~ total
    | Err (Refused _) => True
    end.

Lemma triple_ret {A} (P : option StateDoc -> W -> Prop) (a : A)
    (Q : A -> option StateDoc -> W -> Prop) :
  (forall f w, P f w -> Q a f w) -> triple P (ret a) Q.
Proof. intros HQ s Hi Hp. cbn. auto. Qed.

Lemma triple_bind {A B} P R Q (m : M A) (k : A -> M B) :
  triple P m R -> (forall a, triple (R a) (k a) Q) -> triple P (bind m k) Q.
Proof.
  intros Hm Hk s Hi Hp. destruct (Hm s Hi Hp) as [Hi' Hr]. unfold bind.
  destruct (m s) as [s' [a|e]]; cbn in *; [by apply Hk|]. done.
Qed.

Lemma triple_conseq {A} (P P' : option StateDoc -> W -> Prop) Q Q' (m : M A) :
  triple P' m Q' -> (forall f w, Safe (f, w) -> P f w -> P' f w) ->
  (forall a f w, Q' a f w -> Q a f w) -> triple P m Q.
Proof.
  intros Hm HP HQ s Hi Hp. destruct (Hm s Hi) as [Hi' Hr].
  { apply HP; [|done]. destruct Hi as [_ Hf]. by apply Forall_cons in Hf as [? _]. }
  split; [done|]. destruct (m s).2; [by apply HQ|done].
Qed.

Lemma triple_pre {A} (P P' : option StateDoc -> W -> Prop) Q (m : M A) :
  triple P' m Q -> (forall f w, Safe (f, w) -> P f w -> P' f w) -> triple P m Q.
Proof. intros Hm HP. eapply triple_conseq; eauto. Qed.

(** A precondition that does not depend on the state. *)
Lemma triple_fact {A} (X : Prop) (P : option StateDoc -> W -> Prop) Q (m : M A) :
  (X -> triple P m Q) -> triple (fun f w => X /\ P f w) m Q.
Proof. intros Hm s Hi [Hx Hp]. by apply Hm. Qed.

(** A starting file fixed for reference. *)
Lemma triple_fix {A} (P : option StateDoc -> W -> Prop) Q (m : M A) :
  (forall f0 w0, Safe (f0, w0) -> P f0 w0 -> triple (fun f w => f = f0 /\ w = w0) m Q) ->
  triple P m Q.
Proof.
  intros Hm s Hi Hp. apply (Hm (store s) (world (drivers s))); [|done|done|done].
  destruct Hi as [_ Hf]. by apply Forall_cons in Hf as [? _].
Qed.

(** Effects on neither the file nor the targets. *)
Definition quiet {A} (m : M A) : Prop :=
  forall s, let s' := (m s).1 in
    store s' = store s /\ drivers s' = drivers s /\ past s' = past s
    /\ (m s).2 <> Err Panic /\ (total -> (m s).2 <> Err OutOfFuel).

Lemma triple_quiet {A} P (m : M A) : quiet m -> triple P m (fun _ => P).
Proof.
  intros Hq s [Hr Hf] Hp. destruct (Hq s) as (E1 & E2 & E3 & E4 & E5). unfold Inv.
  rewrite E1, E2, E3. split; [done|]. destruct (m s).2 as [|[]]; try done.
  intros Ht. by apply (E5 Ht).
Qed.

Lemma triple_quiet_bind {A B} P (m : M A) (k : A -> M B) Q :
  quiet m -> (forall a, triple P (k a) Q) -> triple P (bind m k) Q.
Proof. intros Hq Hk. eapply triple_bind; [by apply triple_quiet|done]. Qed.

Lemma quiet_bind {A B} (m : M A) (k : A -> M B) :
  quiet m -> (forall a, quiet (k a)) -> quiet (bind m k).
Proof.
  intros Hm Hk s. destruct (Hm s) as (E1 & E2 & E3 & E4 & E5). unfold bind.
  destruct (m s) as [s' [a|e]]; cbn in *.
  - destruct (Hk a s') as (? & ? & ? & ? & ?). split_and!; congruence || done.
  - split_and!; try congruence. intros Ht [= ->]. by apply (E5 Ht).
Qed.

Lemma quiet_attempt_io : quiet (attempt_io env).
Proof. intros s. cbn. by destruct (io_ok env (io s)). Qed.
Lemma quiet_generate_nonce : quiet (generate_nonce env).
Proof. intros s. by cbn. Qed.
Lemma quiet_log now e : quiet (log env now e).
Proof. intros s. unfold log, record_event, bind, attempt_io. by destruct (io_ok env (io s)). Qed.
Lemma quiet_with_deadman {A} (f : D -> D * A) : quiet (with_deadman f).
Proof. intros s. unfold with_deadman. by destruct (f (deadman s)). Qed.
Lemma quiet_with_proofs {A} (f : V -> V * result Fatal A) : quiet (with_proofs f).
Proof. intros s. unfold with_proofs. destruct (f (proofs s)) as [v []]; done. Qed.
Lemma quiet_fuelled {A} (o : option A) : (total -> is_Some o) -> quiet (fuelled o).
Proof.
  intros Ho s. destruct o; [done|]. split_and!; [done..|]. intros Ht. by destruct (Ho Ht).
Qed.
Lemma quiet_ret {A} (a : A) : quiet (ret a).
Proof. by intros s. Qed.

(** A value that is certain to be there. *)
Lemma triple_expect {E A} P (r : result E A) (a : A) (Q : A -> option StateDoc -> W -> Prop) :
  r = Ok a -> (forall f w, P f w -> Q a f w) -> triple P (expect r) Q.
Proof. intros -> HQ. by apply triple_ret. Qed.
Lemma triple_expect_some {A} P (o : option A) (a : A) (Q : A -> option StateDoc -> W -> Prop) :
  o = Some a -> (forall f w, P f w -> Q a f w) -> triple P (expect_some o) Q.
Proof. intros -> HQ. by apply triple_ret. Qed.

(** What the next load of the file gives. *)
Definition load (f : option StateDoc) : result Fatal GrantRegistry :=
  let? doc := read_file f in validate cfg doc.

Lemma validate_Ok doc r : validate cfg doc = Ok r -> from_parts (inventory cfg) doc = Ok r.
Proof. unfold validate. by destruct (from_parts _ _); intros; simplify_eq/=. Qed.

Lemma load_entries f r : load f = Ok r -> forall h,
  r !! h ≫= grant_entry = entry f h
  /\ (is_Some (r !! h) <-> h ∈ name <$> hosts (inventory cfg)).
Proof.
  unfold load. intros Hl h. destruct (read_file f) as [doc|] eqn:Hd; [|done].
  destruct (from_parts_entries _ _ _ (validate_Ok _ _ Hl) h) as [He Hs].
  by rewrite He, (read_file_entries _ _ Hd h).
Qed.

Lemma load_entry f r h g : load f = Ok r -> r !! h = Some g -> entry f h = grant_entry g.
Proof. intros Hl Hg. destruct (load_entries _ _ Hl h) as [<- _]. by rewrite Hg. Qed.

Lemma load_rec f r h g : load f = Ok r -> r !! h = Some g -> rec_of f h = recorded_channels g.
Proof.
  intros Hl Hg. unfold rec_of. rewrite (load_entry _ _ _ _ Hl Hg). apply grant_entry_recorded.
Qed.

(** A host the registry tracks is in the inventory under its own name. *)
Lemma load_host f r h : load f = Ok r -> is_Some (r !! h) ->
  exists hc, host_of cfg h = Some hc /\ name hc = h.
Proof.
  intros Hl Hs. apply (load_entries _ _ Hl h) in Hs. unfold host_of.
  induction (hosts (inventory cfg)) as [|x l IH]; [by apply not_elem_of_nil in Hs|].
  cbn in *. destruct (String.eqb_spec (name x) h) as [Hn|Hn]; [eauto|].
  apply elem_of_cons in Hs as [E|Hs]; [by destruct Hn|]. by apply IH.
Qed.

Lemma host_of_name h hc : host_of cfg h = Some hc -> name hc = h.
Proof.
  unfold host_of. intros Hf%List.find_some. destruct Hf as [_ Hn]. by apply String.eqb_eq in Hn.
Qed.

Lemma triple_read_registry P :
  triple P (read_registry env cfg) (fun r f w => P f w /\ load f = Ok r).
Proof.
  intros s [Hr Hf] Hp. unfold Lifecycle.read_registry, Daemon.read_registry, store_read, bind,
    attempt_io. destruct (io_ok env (io s)); [|done]. cbn. unfold load.
  destruct (read_file (store s)) as [doc|] eqn:Hd; cbn; [|done].
  destruct (validate cfg doc) eqn:Hv; cbn; [|done]. by rewrite Hd.
Qed.

(** A commit: the closure decides from the document that is read. *)
Lemma triple_mutate {A} P (F : StateDoc -> result (Fault Fatal) (StateDoc * A)) Q :
  (forall f w doc, P f w -> Safe (f, w) -> read_file f = Ok doc ->
     match F doc with
     | Ok (doc', a) => Safe (Some doc', w) /\ Q a (Some doc') w
     | Err (Refused _) => True
     | Err _ => False
     end) -> triple P (mutate env F) Q.
Proof.
  intros HF s [Hr Hf] Hp. unfold mutate, store_lock, store_read, store_write, bind, attempt_io.
  destruct (io_ok env (io s)); [|done]. cbn. destruct (io_ok env (S (io s))); [|done]. cbn.
  destruct (read_file (store s)) as [doc|] eqn:Hd; cbn; [|done].
  pose proof Hf as Hf'. apply Forall_cons in Hf' as [Hs Hpast].
  pose proof (HF _ _ _ Hp Hs Hd) as HFd.
  destruct (F doc) as [[doc' a]|[]]; cbn; try done.
  destruct (io_ok env (S (S (io s)))); cbn; [|done]. destruct HFd as [Hs' HQ].
  split; [|done]. split; [done|]. by repeat constructor.
Qed.
End Logic.
