(* ===== verification/LifecycleSafe.v ===== *)
(** * LifecycleSafe: the daemon never hides access

    The triples of the handlers, and the theorem they add up to: through
    every sequence of requests, passes, crashes and restarts, whatever the
    I/O does, everything open on a target is recorded in the state file. *)

From stdpp Require Import relations.
From S2P Require Import Prelude Text Clock Ttl External Reference Approval Authority AuthorityEval AuthorityWait Inventory Channel ScriptedDrivers Grant GrantProps Registry Snapshot Proto Daemon Lifecycle LifecycleLogic.
#[local] Open Scope Z_scope.

(** Termination is only expected of a policy that [from_spec] accepts. *)
Definition policy_valid `{!Expectation, DataEncoding, ApprovalKeys} (cfg : Config) : Prop :=
  total -> forall m, approval_policy cfg = Some m -> valid_model m.

Section Safe.
Context `{!Expectation} `{DataEncoding, ApprovalKeys} {W D V : Type}.
Context `{!ChannelDriver W, !DriverContract W, !DeadmanControl D, !ProofVerifier V}.
Context (env : Env) (cfg : Config) (regs : gset Channel).
Context (Hpolicy : policy_valid cfg).

Local Abbreviation M := (Daemon.M (W := W) (D := D) (V := V)).
Local Abbreviation triple := (LifecycleLogic.triple (D := D) (V := V) regs).
Local Abbreviation Safe := (LifecycleLogic.Safe (W := W)).
Implicit Types (f : option StateDoc) (w : W).

(** Pre- and postconditions that hold everywhere. *)
Definition anyP : option StateDoc -> W -> Prop := fun _ _ => True.
Definition anyQ {A} : A -> option StateDoc -> W -> Prop := fun _ _ _ => True.

(** The host is in the inventory, under its own name. *)
Definition known (h : string) : Prop := exists hc, host_of cfg h = Some hc /\ name hc = h.

(** *** Commits of one grant operation *)

Lemma triple_grant_op {A} P host (gop : Grant -> Grant * result GrantError A) Q :
  (forall f w g, P f w -> Safe (f, w) -> entry f host = grant_entry g -> known host ->
     match gop g with
     | (g', Ok v) =>
         (forall c, exposed w host c = true -> c ∈ recorded_channels g') /\
         forall f', entry f' host = grant_entry g' -> same_except host f f' -> Q (Ok v) f' w
     | (_, Err e) => forall f', same_entries f f' -> Q (Err (EGrant e)) f' w
     end) ->
  (forall f w f', P f w -> same_entries f f' -> entry f host = None ->
     Q (Err (UnknownHost host)) f' w) ->
  triple P (with_registry env cfg (fun reg => grant_mut reg host gop)) Q.
Proof.
  intros Hop Hun. apply triple_mutate. intros f w doc Hp Hs Hd.
  destruct (validate cfg doc) as [r|] eqn:Hv; [|done].
  assert (Hl : load cfg f = Ok r) by (unfold load; by rewrite Hd).
  assert (Hsd : Safe (Some doc, w)).
  { intros h c Hx. unfold rec_of. cbn [fst]. rewrite (read_file_entries _ _ Hd h). by apply Hs. }
  destruct (r !! host) as [g|] eqn:Hg.
  - rewrite (grant_mut_known _ _ _ _ Hg).
    assert (Hkn : known host) by (eapply load_host; [exact Hl|eauto]).
    pose proof (Hop f w g Hp Hs (load_entry _ _ _ _ _ Hl Hg) Hkn) as Hgop.
    destruct (gop g) as [g' [v|e]]; cbn [map_err fst snd].
    + destruct Hgop as [Hx HQ].
      assert (Hown : entry (Some (snapshot (<[host := g']> r))) host = grant_entry g').
      { rewrite entry_snapshot, lookup_insert_eq. done. }
      assert (Hoth : same_except host f (Some (snapshot (<[host := g']> r)))).
      { intros h' Hn. rewrite entry_snapshot, lookup_insert_ne by done.
        by apply (load_entries _ _ _ Hl). }
      split; [|by apply HQ]. intros h c Hc. unfold rec_of. cbn [fst].
      destruct (decide (h = host)) as [->|Hn].
      * rewrite Hown. rewrite grant_entry_recorded. by apply Hx.
      * rewrite Hoth by done. by apply Hs.
    + split; [done|]. apply Hgop. by apply read_file_entries.
  - rewrite grant_mut_unknown by done. split; [done|]. apply (Hun f); [done|by apply read_file_entries|].
    destruct (load_entries _ _ _ Hl host) as [<- _]. by rewrite Hg.
Qed.

(** *** Driver calls *)

Definition start (w : W) : DriverSet W := {| registered := regs; world := w; seen := [] |}.

Lemma triple_drivers {A} P (F : DriverSet W -> option (DriverSet W * A)) Q :
  (forall f w, P f w -> Safe (f, w) -> exists ds a, F (start w) = Some (ds, a)
     /\ registered ds = regs /\ Forall (fun w' => Safe (f, w')) (world ds :: seen ds)
     /\ Q a f (world ds)) ->
  triple P (with_drivers F) Q.
Proof.
  intros HF s [Hr Hf] Hp. pose proof Hf as Hf'. apply Forall_cons in Hf' as [Hs Hpast].
  destruct (HF _ _ Hp Hs) as (ds & a & HFs & Hreg & Hsafe & HQ).
  unfold with_drivers. unfold start in HFs. rewrite Hr, HFs. cbn.
  apply Forall_cons in Hsafe as [Hw Hseen]. split; [|done]. split; [done|].
  constructor; [done|]. apply Forall_app. split; [|done]. by apply Forall_fmap.
Qed.

(** Calls that touch only recorded channels keep every point safe. *)
Lemma touches_safe f w h cs ds :
  Safe (f, w) -> (forall c, c ∈ cs -> c ∈ rec_of f h) -> touches h cs (start w) ds ->
  registered ds = regs /\ Forall (fun w' => Safe (f, w')) (world ds :: seen ds).
Proof.
  intros Hs Hcs (Hr & ws & Hsn & Hf). split; [done|].
  cbn in Hsn. rewrite app_nil_r in Hsn. rewrite Hsn.
  eapply Forall_impl; [exact Hf|]. intros w' Ha h' c' Hx. cbn in *.
  destruct (decide (h' = h /\ c' ∈ cs)) as [[-> Hin]|Hn]; [by apply Hcs|].
  rewrite Ha in Hx by done. by apply Hs.
Qed.

Lemma rec_of_entry f h st cs : entry f h = Some (st, cs) -> rec_of f h = cs.
Proof. intros He. unfold rec_of. by rewrite He. Qed.

Lemma safe_exposed f w h c : Safe (f, w) -> exposed w h c = true -> c ∈ rec_of f h.
Proof. intros Hs. apply Hs. Qed.

(** *** The open path *)

Lemma triple_assoc {A B C} P (m : M A) (k1 : A -> M B) (k2 : B -> M C) Q :
  triple P (bind (bind m k1) k2) Q -> triple P (bind m (fun a => bind (k1 a) k2)) Q.
Proof.
  intros Ht s Hi Hp. specialize (Ht s Hi Hp). revert Ht. unfold bind.
  by destruct (m s) as [s' []].
Qed.

(** An operation that must succeed on the state the record names. *)
Lemma triple_grant_expect {A} P host st cs (gop : Grant -> Grant * result GrantError A)
    (Q : A -> option StateDoc -> W -> Prop) :
  (forall f w, P f w -> entry f host = Some (st, cs)) ->
  (forall f w g, P f w -> Safe (f, w) -> grant_entry g = Some (st, cs) ->
     exists g' v, gop g = (g', Ok v) /\
        (forall c, exposed w host c = true -> c ∈ recorded_channels g') /\
        forall f', entry f' host = grant_entry g' -> same_except host f f' -> Q v f' w) ->
  triple P (let! r := with_registry env cfg (fun reg => grant_mut reg host gop) in expect r) Q.
Proof.
  intros He Hop.
  apply triple_bind with (R := fun r f w => match r with Ok v => Q v f w | Err _ => False end).
  - apply triple_grant_op.
    + intros f w g Hp Hs Hg _. rewrite (He _ _ Hp) in Hg.
      by destruct (Hop f w g Hp Hs (eq_sym Hg)) as (g' & v & -> & Hx & HQ).
    + intros f w f' Hp Hsf Hn. rewrite (He _ _ Hp) in Hn. done.
  - intros [v|e]; [by apply triple_ret|]. by intros s Hi [].
Qed.

Lemma triple_commit_open_failure f0 host stuck now cs :
  triple (fun f w => same_except host f0 f /\ entry f host = Some ("opening", cs)
            /\ forall c, exposed w host c = true -> c ∈ stuck)
    (commit_open_failure env cfg host stuck now)
    (fun _ f w => same_except host f0 f).
Proof.
  unfold commit_open_failure, Registry.abort_open, Registry.fail_open.
  destruct stuck as [|c0 stuck];
    (eapply (triple_grant_expect _ host "opening" cs); [naive_solver|]);
    intros f w g (Hse & He & Hx) Hs (o & e & ->)%grant_entry_opening;
    eexists _, _; (split; [done|]); (split; [exact Hx|]); eauto with lychgate.
Qed.

Lemma first_secret_touches h ds cs : touches h [] ds (first_secret ds cs).1.
Proof.
  revert ds. induction cs as [|c cs IH]; intros ds; [apply touches_refl|]. cbn.
  pose proof (take_secret_touches ds h c) as Ht.
  destruct (take_secret ds c) as [ds' [x|]]; [done|]. by eapply touches_trans.
Qed.

Lemma triple_finish_drive f0 host hc applied decl ttl_secs expires now cs :
  triple (fun f w => same_except host f0 f /\ entry f host = Some ("opening", cs))
    (finish_drive env cfg host hc applied decl ttl_secs expires now)
    (fun _ f w => same_except host f0 f).
Proof.
  unfold finish_drive, Registry.finish_open. apply triple_assoc.
  apply triple_bind with (R := fun _ f w => same_except host f0 f).
  { eapply (triple_grant_expect _ host "opening" cs); [naive_solver|].
    intros f w g (Hse & He) Hs (o & e & ->)%grant_entry_opening.
    eexists _, _. split; [done|]. split; [|eauto with lychgate].
    intros c Hc. apply Hs in Hc. cbn in Hc. by rewrite (rec_of_entry _ _ _ _ He) in Hc. }
  intros _. apply triple_quiet_bind; [apply quiet_log|]. intros _.
  apply triple_bind with (R := fun _ f w => same_except host f0 f).
  { apply triple_drivers. intros f w Hse Hs.
    pose proof (first_secret_touches host (start w) applied) as Ht.
    destruct (first_secret (start w) applied) as [ds x].
    destruct (touches_safe f w host [] ds Hs) as [Hr Hf]; [by intros c Hc; apply not_elem_of_nil in Hc|done|].
    eauto 10. }
  intros produced. destruct produced as [[[] ?]|]; by apply triple_ret.
Qed.

(** Reverting recorded channels keeps every point safe; what is left
    exposed on the host is what the outcome reports. *)
Lemma triple_revert_channels (P : option StateDoc -> W -> Prop) hc cs :
  (forall f w, P f w -> rec_of f (name hc) = cs) ->
  (forall f w w', P f w -> P f w') ->
  triple P (with_drivers (fun ds => Some (revert_channels ds hc cs)))
    (fun out f w => P f w /\
       (out = Reverted -> forall c, exposed w (name hc) c = false) /\
       forall c, exposed w (name hc) c = true -> c ∈ stuck_of out).
Proof.
  intros Hrec Hmono. apply triple_drivers. intros f w Hp Hs.
  destruct (revert_channels_spec (start w) hc cs) as (ds & out & Ho & Ht & Hok).
  exists ds, out. rewrite Ho. split; [done|].
  destruct (touches_safe f w (name hc) cs ds Hs) as [Hr Hf]; [by rewrite (Hrec _ _ Hp)|done|].
  split; [done|]. split; [done|].
  assert (Hin : forall c, exposed (world ds) (name hc) c = true -> c ∈ cs).
  { intros c Hc. apply Forall_cons in Hf as [Hw _]. apply Hw in Hc. cbn in Hc.
    by rewrite (Hrec _ _ Hp) in Hc. }
  split; [by eapply Hmono|]. destruct out as [|stuck]; cbn.
  - assert (Hno : forall c, exposed (world ds) (name hc) c = false).
    { intros c. destruct (exposed _ _ c) eqn:Hc; [|done].
      destruct (Hok c) as [Hx _]; [by apply Hin|]. congruence. }
    split; [done|]. intros c Hc. by rewrite Hno in Hc.
  - destruct Hok as (_ & _ & Hx). split; [done|]. intros c Hc. by apply Hx; [apply Hin|].
Qed.

Lemma triple_drive_open f0 host hc to_apply decl ttl_secs expires now :
  name hc = host -> Forall (fun c => c ∈ regs) to_apply ->
  triple (fun f w => same_except host f0 f /\ entry f host = Some ("opening", to_apply)
            /\ forall c, exposed w host c = false)
    (drive_open env cfg host hc to_apply decl ttl_secs expires now)
    (fun _ f w => same_except host f0 f).
Proof.
  intros Hn Hreg. unfold drive_open.
  set (P1 := fun f (w : W) => same_except host f0 f /\ entry f host = Some ("opening", to_apply)).
  apply triple_bind with (R := fun out f w => P1 f w /\
    match out with
    | Applied applied => applied = to_apply
    | Failed _ _ _ stuck => forall c, exposed w host c = true -> c ∈ stuck
    end).
  { apply triple_drivers. intros f w (Hse & He & Hx) Hs.
    destruct (apply_channels_spec (start w) hc to_apply
      {| ctx_ttl_secs := ttl_secs; ctx_expires_at := expires |}) as (ds & out & Ho & Ht & Hok);
      [done|].
    exists ds, out. split; [done|]. rewrite Hn in Ht.
    destruct (touches_safe f w host to_apply ds Hs) as [Hr Hf]; [|done|].
    { by rewrite (rec_of_entry _ _ _ _ He). }
    split; [done|]. split; [done|]. split; [done|].
    destruct out as [applied|failed error rv stuck]; cbn in Hok; [done|].
    destruct Hok as (_ & _ & Hst). intros c Hc. rewrite Hn in Hst.
    destruct (Hst c Hc) as [Hc'|]; [|done]. cbn in Hc'. by rewrite Hx in Hc'. }
  intros [applied|failed error rv stuck].
  - eapply triple_pre with (P' := fun f w => applied = to_apply /\ P1 f w); [|naive_solver].
    apply triple_fact. intros ->.
    assert (Hfin : triple P1 (finish_drive env cfg host hc to_apply decl ttl_secs expires now)
      (fun _ f w => same_except host f0 f)) by apply triple_finish_drive.
    case_goal; [|done].
    apply triple_quiet_bind; [apply quiet_with_deadman|]. intros [u|error]; [done|].
    eapply triple_bind.
    { apply (triple_revert_channels P1 hc to_apply); [|done].
      intros f w [_ He]. rewrite Hn. by eapply rec_of_entry. }
    intros out. apply triple_bind with (R := fun _ f w => same_except host f0 f).
    { eapply triple_pre; [apply (triple_commit_open_failure f0 host (stuck_of out) now to_apply)|].
      intros f w _ ((Hse & He) & _ & Hx). rewrite Hn in Hx. done. }
    intros _. apply triple_quiet_bind; [apply quiet_log|]. intros _. by apply triple_ret.
  - apply triple_bind with (R := fun _ f w => same_except host f0 f).
    { eapply triple_pre; [apply (triple_commit_open_failure f0 host stuck now to_apply)|].
      intros f w _ ((Hse & He) & Hx). done. }
    intros _. apply triple_quiet_bind; [apply quiet_log|]. intros _. by apply triple_ret.
Qed.

(** A value computed from the driver set alone. *)
Lemma triple_drivers_pure {A} P (F : DriverSet W -> A) :
  triple P (with_drivers (fun ds => Some (ds, F ds)))
    (fun a f w => a = F (start w) /\ P f w).
Proof.
  apply triple_drivers. intros f w Hp Hs. eexists _, _. split; [done|]. split; [done|].
  split; [|done]. by repeat constructor.
Qed.

Lemma triple_open_pending_now f0 host hc requested_at now :
  name hc = host ->
  triple (fun f w => same_except host f0 f) (open_pending_now env cfg host hc requested_at now)
    (fun _ f w => same_except host f0 f).
Proof.
  intros Hn. unfold open_pending_now.
  apply triple_bind with (R := fun cs f w =>
    Forall (fun c => c ∈ regs) cs /\ same_except host f0 f).
  { eapply triple_conseq;
      [apply (triple_drivers_pure (fun f w => same_except host f0 f))|by intros|].
    intros cs f w [-> Hp]. split; [|done]. apply (drivable_registered (start w)). }
  intros cs. apply triple_fact. intros Hreg.
  apply triple_bind with (R := fun r f w => same_except host f0 f /\
    match r with
    | Ok _ => entry f host = Some ("opening", cs) /\ forall c, exposed w host c = false
    | Err _ => True
    end).
  { apply triple_grant_op.
    - intros f w g Hse Hs He _.
      destruct (Grant.approve_to_opening g now cs) as [g' r] eqn:Hop.
      unfold Grant.approve_to_opening in Hop.
      destruct r as [e|e]; [|intros f' Hsf; eauto with lychgate].
      assert (exists r d ttl n p s x, g = Pending r d ttl n p s /\ g' = Opening now x cs)
        as (r & d & ttl & n & p & st & x & -> & ->).
      { repeat (case_hyp Hop; simplify_eq; try done). eauto 10. }
      assert (Hno : forall c, exposed w host c = false).
      { intros c. destruct (exposed w host c) eqn:Hc; [|done]. apply Hs in Hc.
        unfold rec_of in Hc. cbn [fst] in Hc. rewrite He in Hc. by apply not_elem_of_nil in Hc. }
      split; [intros c Hc; by rewrite Hno in Hc|]. eauto with lychgate.
    - intros f w f' Hse Hsf _. eauto with lychgate. }
  intros [expires|e].
  - apply triple_quiet_bind; [apply quiet_log|]. intros _.
    eapply triple_pre; [by apply (triple_drive_open f0)|]. naive_solver.
  - assert (Href : forall x, triple (fun f w => same_except host f0 f /\ True) (ret x)
      (fun (_ : Response Refusal) f w => same_except host f0 f)).
    { intros x. apply triple_ret. by intros f w []. }
    destruct e as [|[]]; try apply Href.
    unfold already_opening_response.
    eapply triple_bind; [apply triple_read_registry|]. intros r.
    repeat case_goal; apply triple_ret; naive_solver.
Qed.

(** *** The revert path *)

Lemma triple_drive_one_revert f0 host cs now :
  known host ->
  triple (fun f w => same_except host f0 f /\ entry f host = Some ("needs-revert", cs))
    (drive_one_revert env cfg host cs now) (fun _ f w => same_except host f0 f).
Proof.
  intros (hc & Hhc & Hn). unfold drive_one_revert.
  set (P := fun f (w : W) => same_except host f0 f /\ entry f host = Some ("needs-revert", cs)).
  apply triple_bind with (R := fun x f w => x = hc /\ P f w).
  { by eapply triple_expect_some. }
  intros x. apply triple_fact. intros ->.
  eapply triple_bind.
  { apply (triple_revert_channels P hc cs); [|done].
    intros f w [_ He]. rewrite Hn. by eapply rec_of_entry. }
  (* Committing a new stuck list that names everything still exposed. *)
  assert (Hretain : forall stuck (R : result RegistryError bool -> option StateDoc -> W -> Prop),
    (forall f f' w r, P f w -> same_except host f f' -> R r f' w) ->
    triple (fun f w => P f w /\ forall c, exposed w host c = true -> c ∈ stuck)
      (with_registry env cfg (fun reg => Registry.retain_stuck reg host stuck)) R).
  { intros stuck R HR. apply triple_grant_op.
    - intros f w g [Hp Hx] Hs Hg _. destruct Hp as [Hse He]. rewrite He in Hg.
      destruct (grant_entry_revert g cs (eq_sym Hg)) as (t & ->). cbn.
      split; [done|]. intros f' _ Hsf. by eapply HR.
    - intros f w f' [[Hse He] _] _ Hnone. congruence. }
  intros [|stuck].
  - set (P2 := fun f w => P f w /\ forall c, exposed w host c = false).
    eapply triple_pre with (P' := P2).
    2:{ intros f w _ (Hp & Hx & _). rewrite Hn in Hx. split; [done|]. by apply Hx. }
    apply triple_quiet_bind.
    { case_goal; [apply quiet_with_deadman|apply quiet_ret]. }
    intros [fired|e].
    + apply triple_bind with (R := fun r f w => same_except host f0 f).
      { apply triple_grant_op.
        - intros f w g [[Hse He] Hx] Hs Hg _. rewrite He in Hg.
          destruct (grant_entry_revert g cs (eq_sym Hg)) as (t & ->). cbn.
          split; [|eauto with lychgate]. intros c Hc. by rewrite Hx in Hc.
        - intros f w f' [[Hse He] _] _ Hnone. congruence. }
      intros [u|[|[]]]; try (by intros s Hi Hp); try (by apply triple_ret).
      apply triple_quiet_bind; [apply quiet_log|]. intros _. by apply triple_ret.
    + apply triple_bind with (R := fun r f w => same_except host f0 f).
      { eapply triple_pre; [apply (Hretain cs (fun _ f w => same_except host f0 f))|].
        - intros f f' w r [Hse _] Hsf. eauto with lychgate.
        - intros f w Hs [Hp Hx]. split; [done|]. intros c Hc. by rewrite Hx in Hc. }
      intros _. by apply triple_ret.
  - apply triple_bind with (R := fun r f w => same_except host f0 f).
    { eapply triple_pre; [apply (Hretain stuck.*1 (fun _ f w => same_except host f0 f))|].
      - intros f f' w r [Hse _] Hsf. eauto with lychgate.
      - intros f w Hs (Hp & _ & Hx). rewrite Hn in Hx. done. }
    intros [u|[|[]]]; try (by intros s Hi Hp); by apply triple_ret.
Qed.

Lemma begin_revert_entry g now g' cs :
  Grant.begin_revert g now = (g', Ok cs) ->
  grant_entry g' = Some ("needs-revert", cs) /\ recorded_channels g = cs.
Proof. destruct g; cbn; intros; simplify_eq; done. Qed.

Lemma triple_close f0 host now :
  triple (fun f w => same_except host f0 f) (close env cfg host now)
    (fun _ f w => same_except host f0 f).
Proof.
  unfold close. eapply triple_bind; [apply triple_read_registry|]. intros r. cbn beta.
  set (m_revert := bind (with_registry env cfg (fun reg => Registry.begin_revert reg host now)) _).
  assert (Hrev : triple (fun f w => same_except host f0 f /\ load cfg f = Ok r) m_revert
    (fun _ f w => same_except host f0 f)).
  { apply triple_bind with (R := fun x f w => same_except host f0 f /\
      match x with Ok cs => known host /\ entry f host = Some ("needs-revert", cs)
                 | Err _ => True end).
    - apply triple_grant_op.
      + intros f w g [Hse _] Hs He Hkn.
        destruct (Grant.begin_revert g now) as [g' [cs|e]] eqn:Hop;
          [|intros f' Hsf; eauto with lychgate].
        apply begin_revert_entry in Hop as [Hg' Hcs]. split.
        * intros c Hc. apply Hs in Hc. unfold rec_of in Hc. cbn [fst] in Hc.
          rewrite He, grant_entry_recorded in Hc. rewrite Hcs in Hc.
          pose proof (grant_entry_recorded g') as Hr'. rewrite Hg' in Hr'. by rewrite <-Hr'.
        * intros f' He' Hsf. rewrite He'. eauto with lychgate.
      + intros f w f' [Hse _] Hsf _. eauto with lychgate.
    - intros [cs|e].
      + eapply triple_pre with (P' := fun f w => known host /\ same_except host f0 f /\
          entry f host = Some ("needs-revert", cs)); [|naive_solver].
        apply triple_fact. intros Hkn.
        eapply triple_bind; [by apply (triple_drive_one_revert f0)|].
        intros [|stuck]; by apply triple_ret.
      + destruct e as [|[]]; apply triple_ret; naive_solver. }
  assert (Hcan : (exists a b c d e g, r !! host = Some (Pending a b c d e g)) ->
    triple (fun f w => same_except host f0 f /\ load cfg f = Ok r)
      (let! x := with_registry env cfg (fun reg => Registry.cancel_pending reg host) in
       expect x ;! log env now (EvRequestCancelled host) ;!
       ret (response None (Some "cancelled") None None None None None))
      (fun (_ : Response Refusal) f w => same_except host f0 f)).
  { intros (a & b & c & d & e & g & Hg). apply triple_assoc.
    apply triple_bind with (R := fun _ f w => same_except host f0 f).
    - eapply (triple_grant_expect _ host "pending" []).
      + intros f w [_ Hl]. by rewrite (load_entry _ _ _ _ _ Hl Hg).
      + intros f w g' [Hse Hl] Hs Hg'.
        assert (exists g1, Grant.cancel_pending g' = (Closed, Ok g1)) as [g1 ->].
        { destruct g'; cbn in *; simplify_eq; eauto. }
        eexists _, _. split; [done|]. split; [|eauto with lychgate].
        intros c' Hc. apply Hs in Hc. cbn [fst snd] in Hc.
        by rewrite (load_rec _ _ _ _ _ Hl Hg) in Hc.
    - intros _. apply triple_quiet_bind; [apply quiet_log|]. intros _. by apply triple_ret. }
  unfold Registry.status. destruct (r !! host) as [g|] eqn:Hg; [|done].
  destruct (Grant.status g now) eqn:Hst; try done; apply Hcan; status_prop; eauto 10.
Qed.

(** *** Requests *)

(** A commit that leaves the host's recorded channels in place. *)
Lemma triple_keep {A} host (gop : Grant -> Grant * result GrantError A) :
  (forall g, recorded_channels (gop g).1 = recorded_channels g) ->
  triple anyP (with_registry env cfg (fun reg => grant_mut reg host gop)) anyQ.
Proof.
  intros Hk. apply triple_grant_op; [|done]. intros f w g _ Hs He _.
  pose proof (Hk g) as Hg. destruct (gop g) as [g' [v|e]]; [|done]. cbn in Hg. split; [|done].
  intros c Hc. apply Hs in Hc. unfold rec_of in Hc. cbn [fst] in Hc.
  rewrite He, grant_entry_recorded in Hc. by rewrite Hg.
Qed.

Lemma keep_begin_pending now d ttl n p g :
  recorded_channels (Grant.begin_pending g now d ttl n p).1 = recorded_channels g.
Proof.
  unfold Grant.begin_pending. case_goal; try done. by apply status_Closed_iff in Heqg0 as ->.
Qed.

Lemma keep_add_satisfied now id g :
  recorded_channels (Grant.add_satisfied g now id).1 = recorded_channels g.
Proof. unfold Grant.add_satisfied. repeat case_goal; done. Qed.

Lemma keep_renew now ttl g :
  recorded_channels (Grant.renew g now ttl).1 = recorded_channels g.
Proof. unfold Grant.renew. repeat case_goal; done. Qed.

Lemma any_ret {A} P (a : A) : triple P (ret a) anyQ.
Proof. by apply triple_ret. Qed.

Lemma any_weak {A} (P : option StateDoc -> W -> Prop) (m : M A) :
  triple anyP m anyQ -> triple P m anyQ.
Proof. intros Hm. by eapply triple_pre. Qed.

Lemma any_bind {A B} (m : M A) (k : A -> M B) :
  triple anyP m anyQ -> (forall a, triple anyP (k a) anyQ) -> triple anyP (bind m k) anyQ.
Proof. intros Hm Hk. eapply triple_bind; [exact Hm|]. intros a. by apply any_weak. Qed.

Lemma any_quiet_bind {A B} (m : M A) (k : A -> M B) :
  quiet m -> (forall a, triple anyP (k a) anyQ) -> triple anyP (bind m k) anyQ.
Proof. apply triple_quiet_bind. Qed.

Lemma any_open_pending_now host hc requested_at now :
  name hc = host -> triple anyP (open_pending_now env cfg host hc requested_at now) anyQ.
Proof.
  intros Hn. apply triple_fix. intros f0 w0 _ _.
  eapply triple_conseq; [by apply (triple_open_pending_now f0)| |done].
  intros f w _ [-> _]. apply same_except_refl.
Qed.

Lemma any_close host now : triple anyP (close env cfg host now) anyQ.
Proof.
  apply triple_fix. intros f0 w0 _ _.
  eapply triple_conseq; [by apply (triple_close f0)| |done].
  intros f w _ [-> _]. apply same_except_refl.
Qed.

Lemma any_read {B} (k : GrantRegistry -> M B) :
  (forall r f0, load cfg f0 = Ok r ->
     triple (fun f _ => load cfg f = Ok r) (k r) anyQ) ->
  triple anyP (bind (read_registry env cfg) k) anyQ.
Proof.
  intros Hk. eapply triple_bind; [apply triple_read_registry|]. intros r.
  intros s Hi [_ Hl]. by apply (Hk r _ Hl).
Qed.

Lemma any_expect {A B} (o : option A) (a : A) (k : A -> M B) :
  o = Some a -> triple anyP (k a) anyQ -> triple anyP (bind (expect_some o) k) anyQ.
Proof. intros -> Hk s Hi Hp. by apply (Hk s Hi Hp). Qed.

Lemma quiet_evaluate model a sat el :
  approval_policy cfg = Some model -> quiet (fuelled (evaluate model a sat el) : M _).
Proof using Hpolicy.
  intros Hm. apply quiet_fuelled. intros Ht.
  destruct (evaluate_returns model (Hpolicy Ht _ Hm) a sat el) as [o ->]. eauto.
Qed.

Lemma quiet_max_wait model a : quiet (fuelled (max_wait model a) : M _).
Proof. apply quiet_fuelled. intros _. apply max_wait_returns. Qed.

Lemma quiet_progress a sat el : quiet (progress cfg a sat el : M _).
Proof using Hpolicy.
  unfold progress. repeat case_goal; try apply quiet_ret.
  apply quiet_bind; [by apply quiet_evaluate|]. intros. apply quiet_ret.
Qed.

Lemma quiet_choose_profile host hc prof : quiet (choose_profile cfg host hc prof : M _).
Proof.
  unfold choose_profile. repeat (case_goal; try apply quiet_ret);
    (apply quiet_bind; [apply quiet_max_wait|]); intros; case_goal; apply quiet_ret.
Qed.

Lemma any_open host ttl_str prof now : triple anyP (open env cfg host ttl_str prof now) anyQ.
Proof.
  unfold open. case_goal; [|apply any_ret]. case_goal; [|apply any_ret].
  apply any_quiet_bind; [apply quiet_choose_profile|]. intros [[chosen authority]|]; [|apply any_ret].
  case_goal; [|apply any_ret]. apply any_quiet_bind; [apply quiet_generate_nonce|]. intros nonce.
  apply any_bind; [apply triple_keep; intros; apply keep_begin_pending|].
  intros []; [|apply any_ret]. apply any_quiet_bind; [apply quiet_log|]. intros _.
  apply any_quiet_bind; [apply quiet_progress|]. intros pr. apply any_ret.
Qed.

Lemma any_approve_evaluate model host hc now :
  approval_policy cfg = Some model ->
  name hc = host -> triple anyP (approve_evaluate env cfg model host hc now) anyQ.
Proof using Hpolicy.
  intros Hm Hn. unfold approve_evaluate, with_read_registry, Daemon.with_read_registry.
  apply any_bind. { apply any_read. intros. apply any_ret. }
  intros [view|]; [|apply any_ret]. case_goal; [|apply any_ret].
  apply any_quiet_bind; [by apply quiet_evaluate|]. intros o. case_goal.
  - by apply any_open_pending_now.
  - unfold pending_challenge.
    apply any_bind; [|intros; apply any_ret].
    apply any_quiet_bind; [apply quiet_progress|]. intros. apply any_ret.
Qed.

Lemma pending_known r f host now req :
  load cfg f = Ok r -> Registry.pending r host now = Ok req -> known host.
Proof.
  unfold Registry.pending. intros Hl. destruct (r !! host) as [g|] eqn:Hg; [|done].
  intros _. eapply load_host; eauto.
Qed.

Lemma any_approve host token now : triple anyP (approve env cfg host token now) anyQ.
Proof.
  unfold approve. apply any_read. intros r f0 Hl. apply any_weak.
  destruct (Registry.pending r host now) as [req|] eqn:Hp; [|apply any_ret].
  destruct (pending_known _ _ _ _ _ Hl Hp) as (hc & Hhc & Hn). rewrite Hhc.
  eapply any_expect; [done|]. case_goal; [|by apply any_open_pending_now].
  apply any_quiet_bind; [apply quiet_with_proofs|]. intros [authenticator|e].
  - apply any_bind; [apply triple_keep; intros; apply keep_add_satisfied|].
    intros [newly|]; [|apply any_ret]. apply any_quiet_bind.
    { case_goal; [apply quiet_log|apply quiet_ret]. }
    intros _. by apply any_approve_evaluate.
  - apply any_quiet_bind; [apply quiet_log|]. intros. apply any_ret.
Qed.

(** *** Renewal *)

Lemma open_channels_entry r f host now cs :
  load cfg f = Ok r -> open_channels_of r host now = cs -> cs <> [] ->
  rec_of f host = cs.
Proof.
  unfold open_channels_of. intros Hl Hcs Hne.
  destruct (List.find _ _) as [[h cs']|] eqn:Hf; [|done]. cbn in Hcs. subst.
  apply List.find_some in Hf as [Hin Heq]. apply String.eqb_eq in Heq. cbn in Heq. subst.
  apply base.list_elem_of_In, elem_of_filter_hosts in Hin as (h' & g & Hg & Hx).
  destruct (Grant.status g now) eqn:Hst; try done. status_prop. cbn in Hx. simplify_eq.
  by apply (load_rec _ _ _ _ _ Hl Hg).
Qed.

Lemma any_renew_tell host hc ttl expires now :
  name hc = host -> triple anyP (renew_tell env cfg host hc ttl expires now) anyQ.
Proof.
  intros Hn. unfold renew_tell. apply any_quiet_bind.
  { case_goal; [apply quiet_with_deadman|apply quiet_ret]. }
  intros [u|e]; [|apply any_ret]. apply any_read. intros r _ _.
  destruct (open_channels_of r host now) as [|c cs] eqn:Hcs; [apply any_ret|].
  set (ctx := {| ctx_ttl_secs := _; ctx_expires_at := _ |}).
  eapply triple_bind with (R := anyQ).
  - apply triple_drivers. intros f w Hl Hs.
    pose proof (renew_channels_touches (start w) hc (c :: cs) ctx) as Ht.
    destruct (renew_channels (start w) hc (c :: cs) ctx) as [ds res] eqn:Hds.
    exists ds, res. split; [done|].
    destruct (touches_safe f w (name hc) (c :: cs) ds Hs) as [Hr Hf]; [|done|done].
    rewrite Hn. by rewrite (open_channels_entry _ _ _ _ _ Hl Hcs).
  - intros [u'|[c' e']]; apply any_ret.
Qed.

Lemma any_renew host ttl_str now : triple anyP (renew env cfg host ttl_str now) anyQ.
Proof.
  unfold renew. case_goal; [|apply any_ret]. apply any_read. intros r _ _. apply any_weak.
  case_goal; [|apply any_ret]. apply any_bind.
  { destruct (host_of cfg host) as [hc|] eqn:Hh; [|apply any_ret].
    apply any_renew_tell. by eapply host_of_name. }
  intros [reason|]; [apply any_ret|].
  apply any_bind; [apply triple_keep; intros; apply keep_renew|].
  intros []; [|apply any_ret]. apply any_quiet_bind; [apply quiet_log|]. intros. apply any_ret.
Qed.

(** *** The drill *)

Lemma any_ignore {A} (m : M A) : triple anyP m anyQ -> triple anyP (ignore m) anyQ.
Proof.
  intros Hm s Hi Hp. destruct (Hm s Hi Hp) as [Hi' Hr]. unfold ignore.
  destruct (m s) as [s' [a|[]]]; done.
Qed.

Lemma any_drill_failed host now reason : triple anyP (drill_failed env host now reason) anyQ.
Proof. apply any_quiet_bind; [apply quiet_log|]. intros. apply any_ret. Qed.

Lemma any_drill host now : triple anyP (drill env cfg host now) anyQ.
Proof.
  unfold drill. destruct (host_of cfg host) as [hc|] eqn:Hh; [|apply any_ret].
  pose proof (host_of_name _ _ _ Hh) as Hn. case_goal; [apply any_ret|].
  apply any_read. intros r _ _. apply any_weak.
  destruct (Registry.status r host now) as [[]|]; try apply any_ret.
  destruct (Ttl.parse "5m") as [ttl|]; [|apply any_drill_failed].
  apply any_quiet_bind; [apply quiet_generate_nonce|]. intros nonce.
  apply any_bind; [apply triple_keep; intros; apply keep_begin_pending|].
  intros []; [|apply any_drill_failed].
  apply any_bind; [by apply any_open_pending_now|]. intros opened. case_goal.
  - apply any_bind; [apply any_ignore, any_close|]. intros _. apply any_drill_failed.
  - apply any_bind; [apply any_close|]. intros closed. case_goal; [apply any_drill_failed|].
    apply any_quiet_bind; [apply quiet_log|]. intros. apply any_ret.
Qed.

(** *** Dispatch *)

Lemma any_status now : triple anyP (status env cfg now) anyQ.
Proof. apply any_read. intros. apply any_ret. Qed.

Lemma any_mcp_profile_gate host prof :
  is_some_config (approval_policy cfg) = true ->
  triple anyP (mcp_profile_gate cfg host prof) anyQ.
Proof.
  intros Hp. unfold mcp_profile_gate. destruct prof; [|apply any_ret].
  destruct (approval_policy cfg); [|done]. eapply any_expect; [done|].
  case_goal; apply any_ret.
Qed.

Lemma any_mcp_gate op now : triple anyP (mcp_gate env cfg op now) anyQ.
Proof.
  destruct op; cbn [mcp_gate]; try apply any_ret;
    (case_goal; [apply any_ret|]); bool_prop.
  - by apply any_mcp_profile_gate.
  - apply any_bind; [|intros; by apply any_mcp_profile_gate].
    apply any_read. intros. apply any_ret.
Qed.

Lemma any_dispatch op now origin : triple anyP (dispatch_from env cfg op now origin) anyQ.
Proof.
  unfold dispatch_from. apply any_bind.
  { case_goal; [apply any_mcp_gate|apply any_ret]. }
  intros [reason|].
  - apply any_quiet_bind; [apply quiet_log|]. intros. apply any_ret.
  - destruct op; auto using any_open, any_approve, any_renew, any_close, any_drill.
    apply any_bind; [apply any_status|]. intros. apply any_ret.
Qed.

(** *** Sweeps and loops *)

(** Rewriting the whole registry keeps the predicate when every host keeps
    its recorded channels. *)
Lemma safe_snapshot f w r r' :
  load cfg f = Ok r ->
  (forall k, recorded_channels <$> r' !! k = recorded_channels <$> r !! k) ->
  Safe (f, w) -> Safe (Some (snapshot r'), w).
Proof.
  intros Hl Hr Hs h c Hc. apply Hs in Hc. unfold rec_of in *. cbn [fst] in *.
  destruct (load_entries _ _ _ Hl h) as [He _]. rewrite <-He in Hc. rewrite entry_snapshot.
  specialize (Hr h). destruct (r !! h) as [g|], (r' !! h) as [g'|]; cbn in *; simplify_eq;
    rewrite ?grant_entry_recorded in *; congruence.
Qed.

Lemma recorded_reaped now k g : recorded_channels (reaped now k g).1 = recorded_channels g.
Proof. destruct g; cbn; try done. by case_goal. Qed.
Lemma recorded_reaped_pending now k g :
  recorded_channels (reaped_pending now k g).1 = recorded_channels g.
Proof. destruct g; cbn; try done. by case_goal. Qed.
Lemma recorded_demoted now k g : recorded_channels (demoted now k g).1 = recorded_channels g.
Proof. by destruct g. Qed.

Lemma any_reap now : triple anyP (mutate env (reap_all cfg now)) anyQ.
Proof.
  apply triple_mutate. intros f w doc _ Hs Hd. unfold reap_all.
  destruct (validate cfg doc) as [r|] eqn:Hv; [|done].
  assert (Hl : load cfg f = Ok r) by (unfold load; by rewrite Hd).
  destruct (reap_to_revert_spec r now) as (r1 & -> & Hr1).
  destruct (reap_expired_pending_spec r1 now) as (r2 & -> & Hr2).
  split; [|done]. eapply safe_snapshot; [done| |done]. intros k. rewrite Hr2, Hr1.
  destruct (r !! k) as [g|]; [|done]. cbn. by rewrite recorded_reaped_pending, recorded_reaped.
Qed.

Lemma any_demote now : triple anyP (mutate env (demote_all cfg now)) anyQ.
Proof.
  apply triple_mutate. intros f w doc _ Hs Hd. unfold demote_all.
  destruct (validate cfg doc) as [r|] eqn:Hv; [|done].
  assert (Hl : load cfg f = Ok r) by (unfold load; by rewrite Hd).
  destruct (demote_opening_spec r now) as (r1 & -> & Hr1).
  split; [|done]. eapply safe_snapshot; [done| |done]. intros k. rewrite Hr1.
  destruct (r !! k) as [g|]; [|done]. cbn. by rewrite recorded_demoted.
Qed.

Lemma any_for_each {A} (body : A -> M unit) l :
  (forall x, x ∈ l -> triple anyP (body x) anyQ) -> triple anyP (for_each body l) anyQ.
Proof.
  induction l as [|x l IH]; intros Hb; [apply any_ret|]. cbn [for_each].
  apply any_bind; [apply Hb; left|]. intros _. apply IH. intros. apply Hb. by right.
Qed.

(** A loop whose iterations each own one host: what the file says of the
    hosts still to come is not disturbed. *)
Lemma owned_for_each (body : string * list Channel -> M unit) (st : string) l :
  NoDup l.*1 ->
  (forall p f0, p ∈ l ->
     triple (fun f w => same_except p.1 f0 f /\ entry f p.1 = Some (st, p.2)) (body p)
       (fun _ f w => same_except p.1 f0 f)) ->
  triple (fun f w => forall p, p ∈ l -> entry f p.1 = Some (st, p.2)) (for_each body l) anyQ.
Proof.
  induction l as [|p l IH]; intros Hnd Hb; [apply any_ret|]. cbn [for_each].
  cbn in Hnd. apply NoDup_cons in Hnd as [Hni Hnd]. apply triple_fix. intros f0 w0 _ Hall.
  apply triple_bind with (R := fun _ f w => same_except p.1 f0 f).
  - eapply triple_pre; [apply (Hb p f0); left|]. intros f w _ [-> _].
    split; [apply same_except_refl|]. apply Hall. left.
  - intros _. eapply triple_pre; [apply IH; [done|]; intros; apply Hb; by right|].
    intros f w _ Hse q Hq. rewrite Hse; [apply Hall; by right|].
    intros Heq. apply Hni. rewrite <-Heq. apply list_elem_of_fmap. eauto.
Qed.

Lemma filter_hosts_NoDup {B} (F : string -> Grant -> option (string * B)) r :
  (forall k g q, F k g = Some q -> q.1 = k) -> NoDup (filter_hosts F r).*1.
Proof.
  intros HF. eapply sublist_NoDup; [apply (NoDup_btree_keys r)|]. apply omap_fst_sublist.
  intros [k g] q Hq. by eapply HF.
Qed.

Lemma needing_revert_entry r f now p :
  load cfg f = Ok r -> p ∈ needing_revert r now ->
  entry f p.1 = Some ("needs-revert", p.2) /\ known p.1.
Proof.
  intros Hl (h & g & Hg & Hx)%elem_of_filter_hosts.
  destruct (Grant.status g now) eqn:Hst; try done. status_prop. cbn [fst snd]. split.
  - by rewrite (load_entry _ _ _ _ _ Hl Hg).
  - eapply load_host; eauto.
Qed.

Lemma open_channels_list_entry r f now p :
  load cfg f = Ok r -> p ∈ Registry.open_channels r now ->
  entry f p.1 = Some ("open", p.2) /\ known p.1.
Proof.
  intros Hl (h & g & Hg & Hx)%elem_of_filter_hosts.
  destruct (Grant.status g now) eqn:Hst; try done. status_prop. cbn in Hx. simplify_eq. cbn [fst snd]. split.
  - by rewrite (load_entry _ _ _ _ _ Hl Hg).
  - eapply load_host; eauto.
Qed.

Lemma any_mature_wait model now host :
  approval_policy cfg = Some model ->
  known host -> triple anyP (mature_wait env cfg model now host) anyQ.
Proof using Hpolicy.
  intros Hm (hc & Hh & Hn). unfold mature_wait. eapply any_expect; [done|].
  unfold with_read_registry, Daemon.with_read_registry.
  apply any_bind. { apply any_read. intros. apply any_ret. }
  intros [view|]; [|apply any_ret]. case_goal; [|apply any_ret].
  do 2 (apply any_quiet_bind; [by apply quiet_evaluate|]; intros ?). case_goal; [|apply any_ret].
  apply any_bind; [by apply any_open_pending_now|]. intros. apply any_ret.
Qed.

Lemma any_pass now : triple anyP (pass env cfg now) anyQ.
Proof.
  unfold pass. apply any_bind; [apply any_reap|]. intros reaped.
  apply any_bind; [apply any_for_each; intros; apply triple_quiet, quiet_log|]. intros _.
  apply any_bind; [apply any_for_each; intros; apply triple_quiet, quiet_log|]. intros _.
  apply any_read. intros r f0 Hl. apply triple_bind with (R := anyQ).
  { eapply triple_pre.
    - apply (owned_for_each _ "needs-revert").
      + apply filter_hosts_NoDup. intros k g q. case_goal; intros; by simplify_eq.
      + intros p f1 Hp. destruct (needing_revert_entry _ _ _ _ Hl Hp) as [_ Hk].
        eapply triple_bind; [by apply (triple_drive_one_revert f1)|]. intros x. by apply triple_ret.
    - intros f w _ Hlf p Hp. by destruct (needing_revert_entry _ _ _ _ Hlf Hp). }
  intros ?. apply any_weak, any_bind.
  { case_goal; [|apply any_ret]. apply any_read. intros r' f1 Hl'. apply any_weak.
    apply any_for_each. intros h Hh. apply any_mature_wait; [done|].
    apply elem_of_filter_hosts in Hh as (h' & g & Hg & Hx).
    assert (h' = h) as -> by (repeat case_hyp Hx; by simplify_eq). eapply load_host; eauto. }
  intros _. apply any_bind; [apply any_status|]. intros. apply any_ret.
Qed.

Lemma triple_reestablish_one f0 now p :
  known p.1 ->
  triple (fun f w => same_except p.1 f0 f /\ entry f p.1 = Some ("open", p.2))
    (reestablish_one env cfg now p) (fun _ f w => same_except p.1 f0 f).
Proof.
  intros (hc & Hh & Hn). unfold reestablish_one.
  set (P := fun f (w : W) => same_except p.1 f0 f /\ entry f p.1 = Some ("open", p.2)).
  apply triple_bind with (R := fun x f w => x = hc /\ P f w); [by eapply triple_expect_some|].
  intros x. apply triple_fact. intros ->. apply triple_bind with (R := fun _ => P).
  { apply triple_drivers. intros f w [Hse He] Hs.
    pose proof (reestablish_channels_touches (start w) hc p.2) as Ht.
    destruct (reestablish_channels (start w) hc p.2) as [ds out].
    exists ds, out. split; [done|]. rewrite Hn in Ht.
    destruct (touches_safe f w p.1 p.2 ds Hs) as [Hr Hf]; [|done|done].
    by rewrite (rec_of_entry _ _ _ _ He). }
  intros [|lost].
  - eapply triple_conseq; [apply (triple_quiet _ P), quiet_log|done|]. by intros a f w [].
  - apply triple_assoc. apply triple_bind with (R := fun _ f w => same_except p.1 f0 f).
    + eapply (triple_grant_expect _ p.1 "open" p.2); [by intros f w []|].
      intros f w g [Hse He] Hs (o & e & ->)%grant_entry_open.
      eexists _, _. split; [done|]. split; [|eauto with lychgate].
      intros c Hc. apply Hs in Hc. cbn [fst snd] in Hc. by rewrite (rec_of_entry _ _ _ _ He) in Hc.
    + intros _. apply triple_quiet, quiet_log.
Qed.

Lemma any_boot now : triple anyP (boot_recover env cfg now) anyQ.
Proof.
  unfold boot_recover. apply any_bind; [apply any_demote|]. intros demoted.
  apply any_bind; [apply any_for_each; intros; apply triple_quiet, quiet_log|]. intros _.
  unfold reestablish_open. apply any_read. intros r f0 Hl. eapply triple_pre.
  - apply (owned_for_each _ "open").
    + apply filter_hosts_NoDup. intros k g q Hq. repeat case_hyp Hq; by simplify_eq.
    + intros p f1 Hp. destruct (open_channels_list_entry _ _ _ _ Hl Hp) as [_ Hk].
      by apply triple_reestablish_one.
  - intros f w _ Hlf p Hp. by destruct (open_channels_list_entry _ _ _ _ Hlf Hp).
Qed.
End Safe.
