(* ===== verification/LifecycleProps.v ===== *)
(** * LifecycleProps: what the daemon guarantees

    The theorems about the handlers as a whole: crash safety of the access
    record, absence of panics, what may open a host, the MCP front door, and
    the state a renewal can leave behind. *)

From stdpp Require Import relations.
From S2P Require Import Prelude Text Clock Ttl External Reference Approval Authority Inventory AuthorityEval AuthorityProps Channel ScriptedDrivers Grant GrantProps Registry Snapshot Proto Daemon Lifecycle LifecycleLogic LifecycleSafe.
#[local] Open Scope Z_scope.

(** What the daemon does: serve a request, make a pass, recover at boot. *)
Inductive Activity :=
| Request (op : Proto.Op) (now : SystemTime) (origin : Origin)
| PassAt (now : SystemTime)
| BootAt (now : SystemTime).

Section Props.
Context `{DataEncoding, ApprovalKeys} {W D V : Type}.
Context `{!ChannelDriver W, !DriverContract W, !DeadmanControl D, !ProofVerifier V}.
Context (cfg : Config).
Implicit Types s : Sys W D V.

Definition perform (env : Env) (a : Activity) : M (W := W) (D := D) (V := V) unit :=
  match a with
  | Request op now origin => dispatch_from env cfg op now origin ;! ret tt
  | PassAt now => pass env cfg now
  | BootAt now => boot_recover env cfg now
  end.

(** One activity of a daemon started on the file and the targets as they
    are, ending wherever it ends: at its completion, or at any point where
    the process died.  The drivers registered, the dead-man, the proof
    ledgers and every I/O outcome are whatever they are. *)
Inductive life_step : option StateDoc * W -> option StateDoc * W -> Prop :=
| life_run env a s p :
    past s = [] ->
    p ∈ (store (perform env a s).1, world (drivers (perform env a s).1))
          :: past (perform env a s).1 ->
    life_step (store s, world (drivers s)) p.

Lemma any_perform `{!Expectation} env a regs :
  policy_valid cfg -> triple (D := D) (V := V) regs anyP (perform env a) anyQ.
Proof.
  intros Hpol. destruct a; cbn.
  - apply any_bind; [by apply any_dispatch|]. intros. apply any_ret.
  - by apply any_pass.
  - apply any_boot.
Qed.

(** What holds of an activity whether or not it returns, and what holds of
    it because it does. *)
#[local] Instance partially : Expectation := False.
Definition totally : Expectation := True.

Lemma partial_policy : policy_valid (H := partially) cfg.
Proof. by intros []. Qed.
#[local] Hint Resolve partial_policy : core.

Lemma life_step_safe p p' : life_step p p' -> Safe p -> Safe p'.
Proof.
  intros [env a s q Hpast Hin] Hs.
  destruct (any_perform env a (registered (drivers s)) partial_policy s) as [[_ Hinv] _];
    [|done|].
  - split; [done|]. rewrite Hpast. by constructor.
  - rewrite Forall_forall in Hinv. by apply Hinv.
Qed.

(** C1. Access is never hidden.  Through any sequence of requests, passes
    and boots, each of them cut short anywhere by a crash, under any I/O
    failures and any driver failures the contract allows, whatever is open
    on a target is recorded in the state file as a channel of that host
    that is, or may be, applied; a restart therefore always knows what it
    has to revert. *)
Theorem open_access_always_recorded (f f' : option StateDoc) (w w' : W)
    (Hstart : forall h c, exposed w h c = true -> c ∈ rec_of f h)
    (Hlife : rtc life_step (f, w) (f', w')) :
  forall h c, exposed w' h c = true -> c ∈ rec_of f' h.
Proof.
  change (Safe (f', w')). revert Hlife. generalize (f', w').
  apply rtc_ind_r; [done|]. intros. by eapply life_step_safe.
Qed.


(** *** What may drive a channel *)

Local Abbreviation Mm := (Daemon.M (W := W) (D := D) (V := V)).

(** [m] calls no driver. *)
Definition undriven {A} (m : Mm A) : Prop := forall s, drivers (m s).1 = drivers s.

Lemma undriven_quiet {A} (m : Mm A) : quiet m -> undriven m.
Proof. intros Hq s. by destruct (Hq s) as (_ & ? & _). Qed.

Lemma undriven_bind {A B} (m : Mm A) (k : A -> Mm B) :
  undriven m -> (forall a, undriven (k a)) -> undriven (bind m k).
Proof.
  intros Hm Hk s. unfold bind. specialize (Hm s). destruct (m s) as [s' [a|e]]; [|done].
  cbn in Hm. by rewrite Hk.
Qed.

Lemma undriven_io {A} env (k : Sys W D V -> Sys W D V * result (Fault Fatal) A) :
  undriven k -> undriven (attempt_io env ;! k).
Proof. intros Hk. apply undriven_bind; [apply undriven_quiet, quiet_attempt_io|done]. Qed.

Lemma undriven_store_read env : undriven (store_read env).
Proof. apply undriven_io. intros s. by destruct (read_file (store s)). Qed.

Lemma undriven_read env : undriven (read_registry env cfg).
Proof.
  apply undriven_bind; [apply undriven_store_read|]. intros doc s. by destruct (validate cfg doc).
Qed.

Lemma undriven_with_registry {A} env (op : GrantRegistry -> GrantRegistry * result RegistryError A) :
  undriven (with_registry env cfg op).
Proof.
  apply undriven_bind; [apply undriven_quiet, quiet_attempt_io|]. intros _.
  apply undriven_bind; [apply undriven_store_read|]. intros doc.
  destruct (validate cfg doc) as [r|]; [|done].
  destruct (op r) as [r' [v|e]]; (apply undriven_bind; [by apply undriven_io|]; by intros _ s).
Qed.

(** If a driver was called, the undriven prefix completed. *)
Lemma driven_bind {A B} (m : Mm A) (k : A -> Mm B) s :
  undriven m -> drivers (bind m k s).1 <> drivers s ->
  exists a s', m s = (s', Ok a) /\ drivers s' = drivers s /\ drivers (k a s').1 <> drivers s'.
Proof.
  intros Hm Hd. specialize (Hm s). unfold bind in Hd.
  destruct (m s) as [s' [a|e]]; cbn in *; [|done]. exists a, s'. split_and!; [done|done|].
  by rewrite Hm.
Qed.

Lemma read_registry_load env s s' r :
  read_registry env cfg s = (s', Ok r) ->
  load cfg (store s) = Ok r /\ store s' = store s /\ proofs s' = proofs s.
Proof.
  unfold Lifecycle.read_registry, Daemon.read_registry, store_read, bind, attempt_io, load,
    lift, fatal, fail, ret.
  destruct (io_ok env (io s)); [|done]. cbn.
  destruct (read_file (store s)) as [doc|] eqn:Hd; cbn; [|done].
  destruct (validate cfg doc) eqn:Hv; cbn; intros Hx; [|done]. injection Hx as <- ->. done.
Qed.

(** The evidence an approval needs: the authority of the request's profile,
    evaluated on what the state file records, is met. *)
Definition threshold_met (model : AuthorityModel) (f : option StateDoc) (host : string)
    (now : SystemTime) : Prop :=
  exists r view hc a o,
    load cfg f = Ok r /\ Registry.pending_view r host now = Ok view
    /\ host_of cfg host = Some hc /\ resolve_authority model hc (pv_profile view) = Ok a
    /\ evaluate model a (pv_satisfied view) (pv_elapsed view) = Some o /\ met o = true.

Lemma approve_evaluate_driven env model host hc now s :
  host_of cfg host = Some hc ->
  drivers (approve_evaluate env cfg model host hc now s).1 <> drivers s ->
  threshold_met model (store s) host now.
Proof.
  intros Hh Hd. unfold approve_evaluate, with_read_registry, Daemon.with_read_registry in Hd.
  apply driven_bind in Hd as (view & s1 & Hv & _ & Hd).
  2:{ apply undriven_bind; [apply undriven_read|]. by intros r s0. }
  unfold bind in Hv. destruct (read_registry env cfg s) as [s0 [r|]] eqn:Hr;
    unfold Lifecycle.read_registry in Hr; rewrite Hr in Hv; [|done].
  apply read_registry_load in Hr as (Hl & Hst & _). unfold ret in Hv. simplify_eq.
  destruct (Registry.pending_view r host now) as [view|] eqn:Hpv; [|done].
  destruct (resolve_authority model hc (pv_profile view)) as [a|] eqn:Ha; [|done].
  apply driven_bind in Hd as (o & s2 & Ho & _ & Hd); [|by apply undriven_quiet, quiet_fuelled].
  unfold fuelled in Ho.
  destruct (evaluate model a (pv_satisfied view) (pv_elapsed view)) as [o'|] eqn:Hev; [|done].
  unfold ret in Ho. simplify_eq. destruct (met o) eqn:Hm.
  - exists r, view, hc, a, o. done.
  - exfalso. apply Hd. unfold pending_challenge. apply undriven_bind; [|by intros ? ?].
    apply undriven_bind; [by apply undriven_quiet, quiet_progress|]. by intros ? ?.
Qed.

(** What an [approve] that drove anything went through. *)
Lemma approve_driven (env : Env) (model : AuthorityModel) (host token : string)
    (now : SystemTime) (s : Sys W D V)
    (Hpol : approval_policy cfg = Some model)
    (Hdriven : drivers (approve env cfg host token now s).1 <> drivers s) :
  exists r0 request id s1 s2 newly,
    load cfg (store s) = Ok r0 /\ Registry.pending r0 host now = Ok request
    /\ (verify_proof model request token now (proofs s)).2 = Ok (Ok id)
    /\ store s1 = store s
    /\ with_registry env cfg (fun reg => Registry.add_satisfied reg host now id) s1
       = (s2, Ok (Ok newly))
    /\ threshold_met model (store s2) host now.
Proof.
  unfold approve in Hdriven.
  apply driven_bind in Hdriven as (r0 & s0 & Hr & _ & Hd); [|apply undriven_read].
  apply read_registry_load in Hr as (Hl & Hst & Hpv).
  destruct (Registry.pending r0 host now) as [request|] eqn:Hp; [|done].
  destruct (host_of cfg host) as [hc|] eqn:Hh; [|done].
  apply driven_bind in Hd as (hc' & s0' & Hx & _ & Hd); [|by intros ?].
  unfold expect_some, ret in Hx. injection Hx as <- <-. rewrite Hpol in Hd.
  apply driven_bind in Hd as (verdict & s1 & Hv & _ & Hd);
    [|apply undriven_quiet, quiet_with_proofs].
  unfold with_proofs in Hv. rewrite Hpv in Hv.
  destruct (verify_proof model request token now (proofs s)) as [v res] eqn:Hvp.
  destruct res as [verdict'|]; [|done]. cbn in Hv. unfold ret in Hv. injection Hv as Hs1 ->.
  destruct verdict as [id|e].
  2:{ exfalso. apply Hd. apply undriven_bind; [apply undriven_quiet, quiet_log|]. by intros ? ?. }
  apply driven_bind in Hd as (added & s2 & Hw & _ & Hd); [|apply undriven_with_registry].
  destruct added as [newly|]; [|done].
  apply driven_bind in Hd as (u & s3 & Hlog & _ & Hd).
  2:{ apply undriven_quiet. case_goal; [apply quiet_log|apply quiet_ret]. }
  apply approve_evaluate_driven in Hd; [|done].
  assert (Hst3 : store s3 = store s2).
  { assert (Hq : quiet (if newly then log env now (EvProofAccepted host id) else ret tt : Mm unit))
      by (case_goal; [apply quiet_log|apply quiet_ret]).
    destruct (Hq s2) as (E & _). by rewrite Hlog in E. }
  rewrite Hst3 in Hd. exists r0, request, id, s1, s2, newly. rewrite Hvp. split_and!; try done.
  by rewrite <-Hs1.
Qed.

(** No proof, no access.  With an approval policy, an [approve] that
    calls any driver has verified the submitted proof against the pending
    request of the state file, has committed its authenticator, and has
    found the authority of the request's profile met by what the file then
    records. *)
Theorem approve_drives_only_when_met (env : Env) (model : AuthorityModel) (host token : string)
    (now : SystemTime) (s : Sys W D V)
    (Hpol : approval_policy cfg = Some model)
    (Hdriven : drivers (approve env cfg host token now s).1 <> drivers s) :
  exists r0 request id s1 s2 newly,
    load cfg (store s) = Ok r0 /\ Registry.pending r0 host now = Ok request
    /\ (verify_proof model request token now (proofs s)).2 = Ok (Ok id)
    /\ store s1 = store s
    /\ with_registry env cfg (fun reg => Registry.add_satisfied reg host now id) s1
       = (s2, Ok (Ok newly))
    /\ threshold_met model (store s2) host now.
Proof. by apply approve_driven. Qed.

(** *** The front door *)

(** The MCP socket cannot reach past its profiles.  An [open] whose
    profile resolves to one that does not allow MCP is refused on that
    socket: neither the state file nor any driver is touched, and the
    answer is the refusal (or the journal's failure). *)
Theorem mcp_open_refused (env : Env) (model : AuthorityModel) (host ttl p : string)
    (prof : option string) (now : SystemTime) (s : Sys W D V)
    (Hpol : approval_policy cfg = Some model)
    (Hres : resolve_open_profile cfg host prof = Some p)
    (Hmcp : mcp_allowed model p = false) :
  let '(s', out) := dispatch_from env cfg (OOpen host ttl prof) now Mcp s in
  store s' = store s /\ drivers s' = drivers s
  /\ (out = Ok (refused (RfMcpProfile p host)) \/ out = Err (Refused FIo)).
Proof.
  unfold dispatch_from. cbn [bool_decide decide]. rewrite bool_decide_true by done.
  cbn [mcp_gate]. rewrite Hpol. cbn [is_some_config negb]. unfold mcp_profile_gate.
  rewrite Hres, Hpol. cbn [expect_some]. unfold bind, ret. rewrite Hmcp.
  unfold log, record_event, attempt_io, bind. cbn. destruct (io_ok env (io s)); cbn; eauto.
Qed.

(** A drill is refused on the MCP socket outright. *)
Lemma mcp_drill_refused (env : Env) (host : string) (now : SystemTime) (s : Sys W D V) :
  let '(s', out) := dispatch_from env cfg (ODrill host) now Mcp s in
  store s' = store s /\ drivers s' = drivers s
  /\ (out = Ok (refused RfMcpDrill) \/ out = Err (Refused FIo)).
Proof.
  unfold dispatch_from. rewrite bool_decide_true by done. cbn [mcp_gate].
  unfold log, record_event, attempt_io, bind, ret. cbn. destruct (io_ok env (io s)); cbn; eauto.
Qed.
End Props.

(** ** A concrete daemon *)

#[export] Instance RefDeadman : DeadmanControl unit := {|
  dm_install _ _ d := (d, Ok tt);
  dm_reschedule _ _ d := (d, Ok tt);
  dm_remove _ d := (d, Ok false);
|}.

(** A verifier that takes the token for the authenticator's name. *)
#[export] Instance RefProofs : ProofVerifier unit := {|
  verify_proof _ _ token _ v := (v, Ok (Ok token));
|}.

Definition demo_env : Env := {| io_ok := fun _ => true; urandom := fun _ => replicate 32 0 |}.

Definition demo_inventory : Inventory :=
  {| hosts := [plain_host "db-01"]; signing := None; approval := None |}.

Definition demo_cfg (policy : option AuthorityModel) : Config :=
  {| inventory := demo_inventory; approval_window := Clock.from_secs 3600;
     approval_policy := policy |}.

Definition demo_sys (f : option StateDoc) (open_now : gset (string * Channel))
    : Sys Scripts unit unit :=
  {| store := f;
     drivers := {| registered := {[Ssh; Bmc]};
                   world := with_opened (world (scripted_set [] [] [])) open_now; seen := [] |};
     deadman := tt; proofs := tt; journal := []; io := 0; past := [] |}.

(** A day-long grant on [db-01], open. *)
Definition demo_file : StateDoc :=
  snapshot {["db-01" := Open 0 (Clock.from_secs MAX_TTL_SECS) [Ssh]]}.

Definition demo_open : Sys Scripts unit unit := demo_sys (Some demo_file) {[("db-01", Ssh)]}.

Lemma demo_safe :
  forall h c, exposed (world (drivers demo_open)) h c = true -> c ∈ rec_of (store demo_open) h.
Proof.
  intros h c Hx. apply bool_decide_eq_true in Hx. cbn in Hx.
  apply elem_of_singleton in Hx. simplify_eq.
  assert (Hr : rec_of (store demo_open) "db-01" = [Ssh]) by (by vm_compute). rewrite Hr. left.
Qed.

Lemma open_access_always_recorded_witness :
  let s' := (perform (demo_cfg None) demo_env
               (Request (ORenew "db-01" "24h") (Clock.from_secs 82800) Operator) demo_open).1 in
  rtc (life_step (D := unit) (V := unit) (demo_cfg None))
    (store demo_open, world (drivers demo_open)) (store s', world (drivers s')) /\
  exposed (world (drivers s')) "db-01" Ssh = true /\
  forall h c, exposed (world (drivers s')) h c = true -> c ∈ rec_of (store s') h.
Proof.
  cbn zeta. set (a := Request _ _ _). set (s' := (perform (demo_cfg None) demo_env a demo_open).1).
  assert (Hl : rtc (life_step (D := unit) (V := unit) (demo_cfg None))
    (store demo_open, world (drivers demo_open)) (store s', world (drivers s'))).
  { apply rtc_once. apply (life_run (demo_cfg None) demo_env a demo_open); [reflexivity|left]. }
  split; [exact Hl|]. split; [vm_compute; reflexivity|].
  exact (open_access_always_recorded (D := unit) (V := unit) (demo_cfg None) _ _ _ _ demo_safe Hl).
Defined.


(** A request under the sample policy that already holds one of two proofs. *)
Definition demo_pending : Sys Scripts unit unit :=
  demo_sys (Some (snapshot {["db-01" :=
    Pending 0 (Clock.from_secs 3600) (MkTtl (Clock.from_secs 60)) (replicate 32 0) "claude"
      {["alice"]}]})) ∅.

Lemma approve_drives_only_when_met_witness :
  let cfg := demo_cfg (Some sample_model) in
  let now := Clock.from_secs 10 in
  approval_policy cfg = Some sample_model /\
  drivers (approve demo_env cfg "db-01" "bob" now demo_pending).1 <> drivers demo_pending /\
  exists r0 request id s1 s2 newly,
    load cfg (store demo_pending) = Ok r0 /\ Registry.pending r0 "db-01" now = Ok request
    /\ (verify_proof sample_model request "bob" now (proofs demo_pending)).2 = Ok (Ok id)
    /\ store s1 = store demo_pending
    /\ with_registry (W := Scripts) (D := unit) (V := unit) demo_env cfg
         (fun reg => Registry.add_satisfied reg "db-01" now id) s1 = (s2, Ok (Ok newly))
    /\ threshold_met cfg sample_model (store s2) "db-01" now.
Proof.
  cbn zeta.
  assert (Hd : drivers (approve demo_env (demo_cfg (Some sample_model)) "db-01" "bob"
                 (Clock.from_secs 10) demo_pending).1 <> drivers demo_pending).
  { intros E. apply (f_equal (fun ds => exposed (world ds) "db-01" Ssh)) in E.
    vm_compute in E. discriminate. }
  split; [reflexivity|]. split; [exact Hd|].
  exact (approve_drives_only_when_met (demo_cfg (Some sample_model)) demo_env sample_model "db-01"
           "bob" (Clock.from_secs 10) demo_pending eq_refl Hd).
Defined.

Definition closed_door : AuthorityModel :=
  {| authenticators := authenticators sample_model; groups := groups sample_model;
     profiles := profiles sample_model; mcp_profiles := ∅ |}.

Lemma mcp_open_refused_witness :
  let cfg := demo_cfg (Some closed_door) in
  approval_policy cfg = Some closed_door /\
  resolve_open_profile cfg "db-01" (Some "claude") = Some "claude" /\
  mcp_allowed closed_door "claude" = false /\
  let '(s', out) :=
    dispatch_from demo_env cfg (OOpen "db-01" "1h" (Some "claude")) 7 Mcp (demo_sys None ∅) in
  store s' = store (demo_sys None ∅) /\ drivers s' = drivers (demo_sys None ∅)
  /\ (out = Ok (refused (RfMcpProfile "claude" "db-01")) \/ out = Err (Refused FIo)).
Proof.
  cbn zeta. split; [reflexivity|]. split; [reflexivity|]. split; [reflexivity|].
  apply (mcp_open_refused (demo_cfg (Some closed_door)) demo_env closed_door); reflexivity.
Defined.

(** ** The renewal that stops the daemon *)

