(* ===== verification/Listener.v ===== *)
(** * Listener: the daemon's sockets (daemon/src/listener.rs)

    One request line in, one response line out, over a connection given by
    the bytes that arrive on it.  The socket paths and the accept call are
    what the operating system answers. *)

From S2P Require Import Prelude Text Clock External Approval Authority Inventory TextLines Line Reference Channel ScriptedDrivers Registry Proto Daemon Lifecycle LifecycleProps.

(** ** Binding *)

(** What is at the path, as the calls on it find out. *)
Inductive AtPath := Nothing | Listening | Stale.
Inductive RemoveOutcome := Removed | AlreadyGone | RemoveFailed.

Inductive BindError := AlreadyRunning | RemovingStale | Binding | Restricting | NonBlocking.

(** The calls that can fail, in the order they are made. *)
Record BindEnv := {
  at_path : AtPath;
  remove_outcome : RemoveOutcome;
  bind_ok : bool;
  chmod_ok : bool;
  nonblocking_ok : bool;
}.

Definition bind (e : BindEnv) : result BindError unit :=
  let? _ := match at_path e with
            | Nothing => Ok tt
            | Listening => Err AlreadyRunning
            | Stale =>
                match remove_outcome e with
                | Removed | AlreadyGone => Ok tt
                | RemoveFailed => Err RemovingStale
                end
            end in
  let? _ := if bind_ok e then Ok tt else Err Binding in
  let? _ := if chmod_ok e then Ok tt else Err Restricting in
  if nonblocking_ok e then Ok tt else Err NonBlocking.

(** ** One connection *)

(** The bytes that arrive, and how the stream then ends: closed by the peer,
    or silent past the deadline (or failing). *)
Inductive Ending := Eof | Silent.
Record Incoming := { bytes : list Z; ending : Ending }.

(** [read_line] on the stream behind [take(cap)]: up to and with the first
    LF, within the cap. *)
Fixpoint until_lf (cap : nat) (bs : list Z) : list Z * bool :=
  match cap, bs with
  | O, _ => ([], true)
  | _, [] => ([], false)
  | S cap, b :: bs =>
      if b =? 10 then ([b], true)
      else let '(l, done) := until_lf cap bs in (b :: l, done)
  end.

Definition read_line (cap : nat) (c : Incoming) : option string :=
  let '(l, finished) := until_lf cap (bytes c) in
  if (finished || match ending c with Eof => true | Silent => false end) && utf8_valid l
  then Some (str_of_bytes l) else None.

(** What goes out: the refusal of a line that is no request, or the
    handler's answer. *)
Inductive Outgoing := BadRequest (e : ProtoError) | Answered (r : Response Refusal).

Section Handle.
Context `{RequestJson} `{DataEncoding, ApprovalKeys} {W D V : Type}.
Context `{!ChannelDriver W, !DeadmanControl D, !ProofVerifier V}.
Context (env : Env) (cfg : Config).
Local Abbreviation M := (Daemon.M (W := W) (D := D) (V := V)).

Definition line_cap : nat := Z.to_nat (MAX_LINE_BYTES + 1).

(** [None] drops the connection without an answer. *)
Definition handle (c : Incoming) (now : SystemTime) (origin : Origin) : M (option Outgoing) :=
  match read_line line_cap c with
  | None => ret None
  | Some line =>
      match decode_request (trim_end_matches (fun a => bool_decide (a = LF)) line) with
      | Err e => ret (Some (BadRequest e))
      | Ok op =>
          let! r := match origin with
                    | Operator => dispatch env cfg op now
                    | Mcp => dispatch_from env cfg op now Mcp
                    end in
          ret (Some (Answered r))
      end
  end.

(** The accept loop: what each turn finds, until the shutdown flag. *)
Inductive Turn := Connected (c : Incoming) (now : SystemTime) | WouldBlock | AcceptFailed | ShutDown.

Fixpoint serve (origin : Origin) (turns : list Turn) : M (list Outgoing) :=
  match turns with
  | [] | ShutDown :: _ => ret []
  | Connected c now :: rest =>
      let! out := handle c now origin in
      let! outs := serve origin rest in
      ret (match out with Some o => o :: outs | None => outs end)
  | (WouldBlock | AcceptFailed) :: rest => serve origin rest
  end.
End Handle.

(** ** What the socket carries *)

(** serde's compact printer yields a Rust string without raw line feeds
    (control characters are escaped). *)
Class RequestText `{RequestJson} : Prop := {
  print_utf8 w : utf8_valid (as_bytes (print_wire w)) = true;
  print_no_lf w : without LF (print_wire w) = true;
}.

Lemma until_lf_line cap l rest :
  10 ∉ l -> (length l < cap)%nat -> until_lf cap (l ++ 10 :: rest) = (l ++ [10], true).
Proof.
  revert cap. induction l as [|b l IH]; intros [|cap] Hn Hc; cbn in *; try lia; [done|].
  apply not_elem_of_cons in Hn as [Hb Hn].
  rewrite (proj2 (Z.eqb_neq b 10)) by done. by rewrite IH by (done || lia).
Qed.

Lemma until_lf_open cap l :
  10 ∉ take cap l ->
  until_lf cap l = (take cap l, bool_decide (cap <= length l)%nat).
Proof.
  revert l. induction cap as [|cap IH]; intros [|b l] Hn; cbn in *; try done.
  apply not_elem_of_cons in Hn as [Hb Hn].
  rewrite (proj2 (Z.eqb_neq b 10)) by done. rewrite IH by done.
  f_equal. apply bool_decide_ext. lia.
Qed.

Lemma utf8_valid_app_ascii l b :
  utf8_valid l = true -> 0 <= b <= 0x7f -> utf8_valid (l ++ [b]) = true.
Proof.
  intros Hl Hb. remember (length l) as n eqn:Hn. revert l Hl Hn.
  induction (lt_wf n) as [n _ IH]; intros l Hl ->.
  destruct l as [|b0 l]; cbn in *; [by rewrite (proj2 (Z.leb_le b 0x7f)) by lia|].
  destruct (b0 <=? 0x7f); [by eapply IH; [|done|done]; cbn; lia|].
  repeat case_match; try done;
    destruct l as [|b1 [|b2 [|b3 l]]]; cbn in *; simplify_eq; try done;
    repeat match goal with
           | H : _ && _ = true |- _ => apply andb_true_iff in H as [? H]
           end;
    rewrite ?andb_true_iff; repeat split; try done;
    try (by eapply IH; [|done|done]; cbn; lia).
Qed.

Lemma as_bytes_without_lf s : without LF s = true -> 10 ∉ as_bytes s.
Proof.
  induction s as [|a s IH]; cbn; [by intros _ ?%elem_of_nil|].
  intros [Ha Hs]%andb_true_iff. apply negb_true_iff, bool_decide_eq_false in Ha.
  apply not_elem_of_cons. split; [|by apply IH]. intros E. apply Ha.
  by apply byte_of_ascii_inj.
Qed.

Lemma line_cap_bytes : Z.of_nat line_cap = MAX_LINE_BYTES + 1.
Proof. unfold line_cap. by rewrite Z2Nat.id. Qed.
#[local] Opaque line_cap.

Lemma length_str_of_bytes l : String.length (str_of_bytes l) = length l.
Proof. induction l; cbn; congruence. Qed.

Lemma str_of_bytes_no_lf l :
  10 ∉ l -> Forall is_u8 l ->
  str_forall (fun a => negb (bool_decide (a = LF))) (str_of_bytes l) = true.
Proof.
  induction l as [|b l IH]; [done|]. intros [Hb Hl]%not_elem_of_cons [Hu Hus]%Forall_cons. cbn.
  rewrite IH by done. rewrite bool_decide_eq_false_2; [done|]. intros E. apply Hb.
  rewrite <-(byte_of_ascii_of_byte b); [by rewrite E|]. unfold is_u8, u8_max in Hu. lia.
Qed.

(** A client's connection: its request line, and whatever it sends after. *)
Definition request_bytes `{RequestJson} (op : Proto.Op) : list Z :=
  as_bytes (encode_request op) ++ [10].

Lemma read_request `{RequestText} op rest e :
  str_len (encode_request op) <= MAX_LINE_BYTES ->
  read_line line_cap {| bytes := request_bytes op ++ rest; ending := e |}
  = Some (encode_request op +:+ nl).
Proof.
  intros Hlen. unfold read_line, request_bytes. cbn [bytes ending]. rewrite <-app_assoc.
  cbn [app]. rewrite until_lf_line.
  - cbn [orb andb]. rewrite utf8_valid_app_ascii by (apply print_utf8 || lia).
    rewrite <-(as_bytes_app _ nl : _ = as_bytes (encode_request op) ++ [10]).
    by rewrite str_of_as_bytes.
  - apply as_bytes_without_lf, print_no_lf.
  - rewrite length_as_bytes. pose proof line_cap_bytes. unfold str_len in Hlen. lia.
Qed.

Lemma trim_request `{RequestText} op :
  trim_end_matches (fun a => bool_decide (a = LF)) (encode_request op +:+ nl) = encode_request op.
Proof.
  rewrite trim_end_app. cbn. apply trim_none, print_no_lf.
Qed.

Section Served.
Context `{!RequestJson, !RequestJsonLaws, !RequestText} `{DataEncoding, ApprovalKeys} {W D V : Type}.
Context `{!ChannelDriver W, !DeadmanControl D, !ProofVerifier V}.
Context (env : Env) (cfg : Config) (origin : Origin).
Local Abbreviation M := (Daemon.M (W := W) (D := D) (V := V)).

Lemma handle_request op rest e now :
  str_len (encode_request op) <= MAX_LINE_BYTES ->
  handle env cfg {| bytes := request_bytes op ++ rest; ending := e |} now origin
  = (let! r := dispatch_from env cfg op now origin in ret (Some (Answered r))
     : M (option Outgoing)).
Proof.
  intros Hlen. unfold handle. rewrite read_request, trim_request by done.
  rewrite decode_encode_request by done. by destruct origin.
Qed.

(** Over the cap: refused as too large, or dropped when the cut falls inside
    a character. *)
Lemma handle_oversized c now :
  Forall is_u8 (bytes c) -> (line_cap <= length (bytes c))%nat ->
  10 ∉ take line_cap (bytes c) ->
  handle env cfg c now origin
  = (ret (if utf8_valid (take line_cap (bytes c)) then Some (BadRequest (TooLarge (MAX_LINE_BYTES + 1)))
          else None) : M (option Outgoing)).
Proof.
  intros Hu Hlen Hno. unfold handle, read_line. rewrite until_lf_open by done.
  rewrite bool_decide_eq_true_2 by done. cbn [orb andb].
  destruct (utf8_valid _); [|done]. rewrite trim_none by by apply str_of_bytes_no_lf, Forall_take.
  unfold decode_request, str_len. rewrite length_str_of_bytes, length_take, Nat.min_l by done.
  rewrite line_cap_bytes. done.
Qed.

(** A peer that falls silent before its line feed is dropped. *)
Lemma handle_silent l now :
  10 ∉ l -> (length l < line_cap)%nat ->
  handle env cfg {| bytes := l; ending := Silent |} now origin = (ret None : M (option Outgoing)).
Proof.
  intros Hno Hlen. unfold handle, read_line. cbn [bytes ending].
  assert (Ht : take line_cap l = l) by (apply take_ge; lia).
  rewrite until_lf_open by by rewrite Ht. by rewrite bool_decide_eq_false_2 by lia.
Qed.

(** The requests a run of the accept loop receives: turns that find nobody,
    peers that fall silent and lines over the cap carry none; a client that
    sends an encoded request carries it, whatever it sends after; after the
    shutdown nothing is received. *)
Inductive carries : list Turn -> list (Proto.Op * SystemTime) -> Prop :=
| cr_end : carries [] []
| cr_shutdown turns : carries (ShutDown :: turns) []
| cr_idle turns ops : carries turns ops -> carries (WouldBlock :: turns) ops
| cr_failed turns ops : carries turns ops -> carries (AcceptFailed :: turns) ops
| cr_silent l now turns ops :
    10 ∉ l -> (length l < line_cap)%nat -> carries turns ops ->
    carries (Connected {| bytes := l; ending := Silent |} now :: turns) ops
| cr_oversized c now turns ops :
    Forall is_u8 (bytes c) -> (line_cap <= length (bytes c))%nat ->
    10 ∉ take line_cap (bytes c) -> carries turns ops ->
    carries (Connected c now :: turns) ops
| cr_request op rest e now turns ops :
    str_len (encode_request op) <= MAX_LINE_BYTES -> carries turns ops ->
    carries (Connected {| bytes := request_bytes op ++ rest; ending := e |} now :: turns)
      ((op, now) :: ops).

(** The daemon as a server of requests, with no socket in between. *)
Fixpoint served (ops : list (Proto.Op * SystemTime)) : M (list (Response Refusal)) :=
  match ops with
  | [] => ret []
  | (op, now) :: ops =>
      let! r := dispatch_from env cfg op now origin in
      let! rs := served ops in
      ret (r :: rs)
  end.

Definition answer (o : Outgoing) : option (Response Refusal) :=
  match o with Answered r => Some r | BadRequest _ => None end.

Definition answers (m : M (list Outgoing)) : M (list (Response Refusal)) :=
  let! outs := m in ret (omap answer outs).

Lemma answers_silent c now turns o s :
  handle env cfg c now origin = ret o -> (o ≫= answer) = None ->
  answers (serve env cfg origin (Connected c now :: turns)) s
  = answers (serve env cfg origin turns) s.
Proof.
  intros Hh Ho. unfold answers. cbn [serve]. rewrite Hh. unfold Daemon.bind, ret.
  destruct (serve env cfg origin turns s) as [s' [outs|]]; [|done].
  destruct o as [o|]; [|done]. cbn in *. by rewrite Ho.
Qed.

(** C21. The socket is transparent: a run of the accept loop changes the
    daemon's state, fails and answers exactly as the requests its clients
    sent would if they were dispatched one after the other under the
    socket's origin.  Turns without a peer, peers that fall silent, lines
    over the cap and bytes after a request's line do nothing. *)
Theorem socket_serves_requests turns ops (Hc : carries turns ops) s :
  answers (serve env cfg origin turns) s = served ops s.
Proof.
  revert s. induction Hc as [| | | |l now turns ops Hl Hlen _ IH|c now turns ops Hu Hlen Hno _ IH
    |op rest e now turns ops Hlen _ IH]; intros s; try done.
  - rewrite <-IH. by rewrite (answers_silent _ _ _ None) by (by apply handle_silent || done).
  - rewrite <-IH. eapply answers_silent; [by apply handle_oversized|].
    by destruct (utf8_valid (take line_cap (bytes c))).
  - unfold answers in *. cbn [serve served]. rewrite handle_request by done.
    unfold Daemon.bind, ret in *.
    destruct (dispatch_from env cfg op now origin s) as [s' [r|]]; [|done].
    rewrite <-IH. by destruct (serve env cfg origin turns s') as [s'' [outs|]].
Qed.
End Served.

(** The concrete printer of [Proto] prints digits. *)
Lemma pos_print_digits p :
  utf8_valid (as_bytes (pos_print p)) = true /\ without LF (pos_print p) = true.
Proof. induction p as [p IH|p IH|]; cbn; by repeat case_match. Qed.

#[export] Instance RefRequestText : RequestText.
Proof. split; intros w; apply (pos_print_digits (encode (wire_tuple w))). Qed.

(** Somebody falls silent, nobody comes, then a close arrives with trailing
    bytes. *)
Definition demo_turns : list Turn :=
  [Connected {| bytes := [123]; ending := Silent |} 5; WouldBlock;
   Connected {| bytes := request_bytes (OClose "db-01") ++ [1; 2]; ending := Eof |} 7; ShutDown].

Lemma socket_serves_requests_witness :
  carries demo_turns [(OClose "db-01", 7)] /\
  answers (serve demo_env (demo_cfg None) Operator demo_turns) demo_open
  = served demo_env (demo_cfg None) Operator [(OClose "db-01", 7)] demo_open.
Proof.
  assert (Hc : carries demo_turns [(OClose "db-01", 7)]).
  { constructor; [set_solver|pose proof line_cap_bytes; cbn [length]; unfold MAX_LINE_BYTES in *; lia|].
    constructor. constructor; [by vm_compute|constructor]. }
  split; [exact Hc|].
  exact (socket_serves_requests demo_env (demo_cfg None) Operator demo_turns _ Hc demo_open).
Defined.
