(* ===== verification/StoreFile.v ===== *)
(** * StoreFile: the state file and the journal on a disk

    [Daemon] takes a write of the state file for all or nothing and a record
    of the journal for one event more.  Here the two are the system calls of
    daemon/src/store.rs and daemon/src/journal.rs on a disk that can lose
    power: file data is on the medium only once synced, and the directory
    may come back as it was before any of its recent changes.  A data block
    is not reused while a directory that still names it may come back. *)

From stdpp Require Import relations.
From S2P Require Import Prelude Text Clock External Approval Authority Inventory TextLines Grant Registry Snapshot Proto Factors Channel Daemon Listener.
#[local] Open Scope Z_scope.

(** ** A disk *)

Record Inode := { data : list Z; synced : bool }.

(** [dirs] are the directories a power cut may still bring back. *)
Record Disk := {
  inodes : gmap nat Inode;
  dir : gmap string nat;
  dirs : list (gmap string nat);
  fresh : nat;
}.

Definition content (d : Disk) (file : string) : option (list Z) :=
  i ← dir d !! file; data <$> inodes d !! i.

Definition put (d : Disk) (i : nat) (n : Inode) : Disk :=
  {| inodes := <[i := n]> (inodes d); dir := dir d; dirs := dirs d; fresh := fresh d |}.

Definition set_dir (d : Disk) (t : gmap string nat) : Disk :=
  {| inodes := inodes d; dir := t; dirs := dir d :: dirs d; fresh := fresh d |}.

(** [File::create]: a new empty file, or the old one cut to nothing. *)
Definition create (d : Disk) (file : string) : Disk * nat :=
  match dir d !! file with
  | Some i => (put d i {| data := []; synced := false |}, i)
  | None =>
      (set_dir {| inodes := <[fresh d := {| data := []; synced := false |}]> (inodes d);
                  dir := dir d; dirs := dirs d; fresh := S (fresh d) |}
         (<[file := fresh d]> (dir d)), fresh d)
  end.

(** A write at the end of an open file. *)
Definition append (d : Disk) (i : nat) (bytes : list Z) : Disk :=
  match inodes d !! i with
  | Some n => put d i {| data := data n ++ bytes; synced := false |}
  | None => d
  end.

Definition sync_all (d : Disk) (i : nat) : Disk :=
  match inodes d !! i with
  | Some n => put d i {| data := data n; synced := true |}
  | None => d
  end.

Definition rename (d : Disk) (from to : string) : Disk :=
  match dir d !! from with
  | Some i => set_dir d (<[to := i]> (delete from (dir d)))
  | None => d
  end.

Definition remove_file (d : Disk) (file : string) : Disk := set_dir d (delete file (dir d)).

(** What a power cut may leave: one of the directories, every synced file as it
    was, anything in the others. *)
Definition cut (d d' : Disk) : Prop :=
  dir d' ∈ dir d :: dirs d /\ dirs d' = [] /\ fresh d' = fresh d
  /\ forall i n, inodes d !! i = Some n -> synced n = true -> inodes d' !! i = Some n.

(** ** The store *)

(** The name up to its last dot, and what follows the dot. *)
Fixpoint last_dot (s : string) : option (string * string) :=
  match s with
  | "" => None
  | String a s' =>
      match last_dot s' with
      | Some (l, r) => Some (String a l, r)
      | None => if bool_decide (a = "."%char) then Some ("", s') else None
      end
  end.

(** [Path::with_extension] on a file name: a leading dot starts no extension. *)
Definition with_extension (file ext : string) : string :=
  let stem := match last_dot file with
              | Some (String a l, _) => String a l
              | _ => file
              end in
  stem +:+ "." +:+ ext.

(** [serde_json] on the document. *)
Class StateJson := {
  state_to_json : StateDoc -> list Z;
  state_from_json : list Z -> option StateDoc;
}.

(** What is written is UTF-8 and reads back as what the fields' own encodings
    read back as. *)
Class StateJsonLaws `{StateJson} : Prop := {
  state_json_utf8 doc : utf8_valid (state_to_json doc) = true;
  state_json_reread doc : state_from_json (state_to_json doc) = reread_doc doc;
}.

(** How the calls of one write go; [written] is how far a failing one came. *)
Record Faults := {
  mkdir_ok : bool;
  create_ok : bool;
  written : option nat;
  sync_ok : bool;
  rename_ok : bool;
}.

Section Store.
Context (file : string) (pid : Z).

Definition tmp : string := with_extension file ("tmp." +:+ dec_u64 pid).

(** [Store::probe_writable]; the flags are how its calls go. *)
Definition probe_writable (open_ok mkdir_ok write_ok remove_ok : bool) (d : Disk) : Disk * result Fatal unit :=
  match dir d !! file with
  | Some _ => (d, if open_ok then Ok tt else Err FIo)
  | None =>
      let probe := ".lychgate-probe." +:+ dec_u64 pid in
      if negb mkdir_ok then (d, Err FIo)
      else if negb write_ok then (d, Err FIo)
      else
        let '(d, i) := create d probe in
        ((if remove_ok then remove_file d probe else d), Ok tt)
  end.

(** [Store::read] when the read itself works. *)
Definition read `{StateJson} (d : Disk) : result Fatal StateDoc :=
  match content d file with
  | None => Ok Snapshot.default
  | Some bytes =>
      if negb (utf8_valid bytes) then Err FIo
      else match state_from_json bytes with
           | None => Err FCorrupt
           | Some doc =>
               if bool_decide (version doc ∈ READABLE) then Ok doc else Err (FVersion (version doc))
           end
  end.

(** [Store::write] of a text: the disk after every call, the last one and the
    result.  [write_all] may stop after any byte. *)
Definition write (f : Faults) (text : list Z) (d : Disk) : list Disk * Disk * result Fatal unit :=
  if negb (mkdir_ok f) then ([], d, Err FIo)
  else if negb (create_ok f) then ([], d, Err FIo)
  else
    let '(d1, i) := create d tmp in
    let so_far n := (fun k => append d1 i (take k text)) <$> seq 0 (S n) in
    match written f with
    | Some n => (so_far n, append d1 i (take n text), Err FIo)
    | None =>
        let d2 := append d1 i text in
        let trace := so_far (length text) in
        if negb (sync_ok f) then (trace, d2, Err FIo)
        else
          let d3 := sync_all d2 i in
          if negb (rename_ok f) then (trace ++ [d3], d3, Err FIo)
          else let d4 := rename d3 tmp file in (trace ++ [d3; d4], d4, Ok tt)
    end.

(** ** What the disk can always bring back *)

(** Under every directory that may come back, the state file is absent or
    complete on the medium with a text of [T], and no other file shares its
    data. *)
Record durable (T : list Z -> Prop) (d : Disk) : Prop := {
  dur_inj D a b i : D ∈ dir d :: dirs d -> D !! a = Some i -> D !! b = Some i -> a = b;
  dur_fresh D a i : D ∈ dir d :: dirs d -> D !! a = Some i -> (i < fresh d)%nat;
  dur_text D i : D ∈ dir d :: dirs d -> D !! file = Some i ->
    exists n, inodes d !! i = Some n /\ synced n = true /\ T (data n);
  dur_apart D a i : D ∈ dir d :: dirs d -> a <> file -> dir d !! a = Some i -> D !! file <> Some i;
}.

Lemma durable_weaken (T U : list Z -> Prop) d : (forall x, T x -> U x) -> durable T d -> durable U d.
Proof.
  intros HTU []. split; try done. intros D i HD Hi. destruct (dur_text0 D i HD Hi) as (n & ? & ? & ?). eauto.
Qed.

Lemma durable_put T d other i n :
  other <> file -> dir d !! other = Some i -> durable T d -> durable T (put d i n).
Proof.
  intros Ho Hi []. split; try done. cbn. intros D j HD Hj. destruct (dur_text0 D j HD Hj) as (m & ? & ? & ?).
  exists m. rewrite lookup_insert_ne by (intros ->; by apply (dur_apart0 D other j)). done.
Qed.

Lemma durable_create T d other :
  other <> file -> durable T d ->
  durable T (create d other).1 /\ dir (create d other).1 !! other = Some (create d other).2
  /\ inodes (create d other).1 !! (create d other).2 = Some {| data := []; synced := false |}
  /\ dir (create d other).1 !! file = dir d !! file.
Proof.
  intros Ho Hd. unfold create. destruct (dir d !! other) as [i|] eqn:E; cbn.
  { split; [by eapply durable_put|]. by rewrite lookup_insert_eq. }
  split; [|by rewrite !lookup_insert_eq, lookup_insert_ne by done]. destruct Hd. split; cbn.
  - intros D a b i HD Ha Hb. apply elem_of_cons in HD as [->|HD]; [|by eapply dur_inj0].
    apply lookup_insert_Some in Ha as [[<- <-]|[Hna Ha]], Hb as [[<- Hb]|[Hnb Hb]]; [done|..].
    + pose proof (dur_fresh0 _ _ _ (list_elem_of_here _ _) Hb). lia.
    + subst i. pose proof (dur_fresh0 _ _ _ (list_elem_of_here _ _) Ha). lia.
    + eapply (dur_inj0 (dir d)); [left|done|done].
  - intros D a i HD Ha. apply elem_of_cons in HD as [->|HD]; [|pose proof (dur_fresh0 _ _ _ HD Ha); lia].
    apply lookup_insert_Some in Ha as [[_ <-]|[_ Ha]]; [lia|].
    pose proof (dur_fresh0 _ _ _ (list_elem_of_here _ _) Ha). lia.
  - intros D i HD Hi. assert (Hold : exists D', D' ∈ dir d :: dirs d /\ D' !! file = Some i).
    { apply elem_of_cons in HD as [->|HD]; [|eauto]. rewrite lookup_insert_ne in Hi by done.
      exists (dir d). split; [left|done]. }
    destruct Hold as (D' & HD' & Hi'). destruct (dur_text0 D' i HD' Hi') as (n & ? & ? & ?).
    exists n. apply dur_fresh0 in Hi'; [|done]. by rewrite lookup_insert_ne by lia.
  - intros D a i HD Ha Hi Hf. assert (Hold : exists D', D' ∈ dir d :: dirs d /\ D' !! file = Some i).
    { apply elem_of_cons in HD as [->|HD]; [|eauto]. rewrite lookup_insert_ne in Hf by done.
      exists (dir d). split; [left|done]. }
    destruct Hold as (D' & HD' & Hf'). destruct (decide (a = other)) as [->|].
    + rewrite lookup_insert_eq in Hi. simplify_eq. apply dur_fresh0 in Hf'; [lia|done].
    + rewrite lookup_insert_ne in Hi by done. by apply (dur_apart0 D' a i).
Qed.

Lemma durable_rename T d other i n :
  other <> file -> dir d !! other = Some i -> inodes d !! i = Some n -> synced n = true -> T (data n) ->
  durable T d -> durable T (rename d other file).
Proof.
  intros Ho Hi Hn Hs HT []. unfold rename. rewrite Hi. set (D' := <[file := i]> (delete other (dir d))).
  assert (Hoth : forall a j, a <> file -> D' !! a = Some j -> a <> other /\ dir d !! a = Some j).
  { intros a j Ha Hj. unfold D' in Hj. rewrite lookup_insert_ne in Hj by done.
    by apply lookup_delete_Some in Hj as [? ?]. }
  assert (Hfile : D' !! file = Some i) by (unfold D'; by rewrite lookup_insert_eq).
  split; cbn.
  - intros D a b j HD Ha Hb. apply elem_of_cons in HD as [->|HD]; [|by eapply dur_inj0].
    destruct (decide (a = file)) as [->|Hna], (decide (b = file)) as [->|Hnb]; [done|..]; simplify_eq.
    + apply Hoth in Hb as [Hbo Hb]; [|done]. destruct Hbo. eapply (dur_inj0 (dir d)); [left|done|done].
    + apply Hoth in Ha as [Hao Ha]; [|done]. destruct Hao. eapply (dur_inj0 (dir d)); [left|done|done].
    + apply Hoth in Ha as [_ Ha], Hb as [_ Hb]; [|done..]. eapply (dur_inj0 (dir d)); [left|done|done].
  - intros D a j HD Ha. apply elem_of_cons in HD as [->|HD]; [|by eapply dur_fresh0].
    destruct (decide (a = file)) as [->|Hna]; [simplify_eq; eapply (dur_fresh0 (dir d)); [left|done]|].
    apply Hoth in Ha as [_ Ha]; [|done]. eapply (dur_fresh0 (dir d)); [left|done].
  - intros D j HD Hj. apply elem_of_cons in HD as [->|HD]; [simplify_eq; by exists n|by eapply dur_text0].
  - intros D a j HD Ha Hj Hf. apply Hoth in Hj as [Hao Hj]; [|done].
    apply elem_of_cons in HD as [->|HD]; [|by eapply dur_apart0]. simplify_eq.
    destruct Hao. eapply (dur_inj0 (dir d)); [left|done|done].
Qed.

Lemma durable_remove T d other : other <> file -> durable T d -> durable T (remove_file d other).
Proof.
  intros Ho []. assert (Hsub : forall a i, delete other (dir d) !! a = Some i -> dir d !! a = Some i)
    by (intros a i [_ ?]%lookup_delete_Some; done).
  assert (Hhead : dir d ∈ dir d :: dirs d) by left.
  split; cbn.
  - intros D a b i HD Ha Hb. apply elem_of_cons in HD as [->|HD]; eauto.
  - intros D a i HD Ha. apply elem_of_cons in HD as [->|HD]; eauto.
  - intros D i HD Hi. apply elem_of_cons in HD as [->|HD]; eauto.
  - intros D a i HD Ha Hi Hf. apply elem_of_cons in HD as [->|HD].
    + by apply (dur_apart0 (dir d) a i); auto.
    + by apply (dur_apart0 D a i); auto.
Qed.

Lemma durable_cut T d d' : durable T d -> cut d d' -> durable T d'.
Proof.
  intros [] (Hdir & Hdirs & Hfr & Hkeep). split; rewrite Hdirs; intros D.
  - intros a b i ->%list_elem_of_singleton. eauto.
  - intros a i ->%list_elem_of_singleton. rewrite Hfr. eauto.
  - intros i ->%list_elem_of_singleton Hi. destruct (dur_text0 _ _ Hdir Hi) as (n & ? & ? & ?). eauto.
  - intros a i ->%list_elem_of_singleton Ha Hi Hf. by apply Ha, (dur_inj0 _ _ _ _ Hdir Hi Hf).
Qed.

(** ** One write *)

Lemma last_dot_None s : last_dot s = None -> without "."%char s = true.
Proof.
  induction s as [|a s IH]; cbn; [done|]. destruct (last_dot s) as [[]|]; [done|]. case_bool_decide; [done|].
  intros _. by apply IH.
Qed.

Lemma last_dot_Some s l r : last_dot s = Some (l, r) -> s = l +:+ "." +:+ r /\ without "."%char r = true.
Proof.
  revert l r. induction s as [|a s IH]; intros l r; cbn; [done|]. destruct (last_dot s) as [[l' r']|] eqn:E.
  - intros ?. simplify_eq. by destruct (IH l' r eq_refl) as [-> ?].
  - case_bool_decide; [|done]. intros ?. simplify_eq. split; [done|by apply last_dot_None].
Qed.

Lemma tmp_ne_file : tmp <> file.
Proof.
  assert (Hlonger : forall e, file +:+ "." +:+ e <> file).
  { intros e Heq%(f_equal String.length). rewrite !str_length_app in Heq. cbn in Heq. lia. }
  unfold tmp, with_extension. destruct (last_dot file) as [[[|a l] r]|] eqn:E; try apply Hlonger.
  apply last_dot_Some in E as [Hf Hr]. intros Heq. rewrite Hf in Heq.
  do 2 apply (inj (String.append _)) in Heq. by subst r.
Qed.

(** The temporary file [i] holds [n] and the state file is as in [d]. *)
Record staged (T : list Z -> Prop) (d : Disk) (i : nat) (n : Inode) (x : Disk) : Prop := {
  st_durable : durable T x;
  st_tmp : dir x !! tmp = Some i;
  st_inode : inodes x !! i = Some n;
  st_content : content x file = content d file;
}.

Lemma staged_create T d :
  durable T d -> staged T d (create d tmp).2 {| data := []; synced := false |} (create d tmp).1.
Proof.
  intros Hd. destruct (durable_create T d tmp tmp_ne_file Hd) as (Hd' & Htmp & Hi & Hfile).
  split; try done. unfold content. rewrite Hfile. destruct (dir d !! file) as [j|] eqn:Ej; cbn; [|done].
  f_equal. unfold create. destruct (dir d !! tmp) as [k|] eqn:Ek; cbn.
  - rewrite lookup_insert_ne; [done|]. intros ->.
    by apply (dur_apart _ _ Hd (dir d) tmp j); [left|apply tmp_ne_file| |].
  - rewrite lookup_insert_ne; [done|]. pose proof (dur_fresh _ _ Hd _ _ _ (list_elem_of_here _ _) Ej). lia.
Qed.

Lemma staged_put T d i n n' x : staged T d i n x -> staged T d i n' (put x i n').
Proof.
  intros []. split; cbn; [by eapply durable_put; [apply tmp_ne_file|..]|done|by rewrite lookup_insert_eq|].
  rewrite <-st_content0. unfold content. cbn. destruct (dir x !! file) as [j|] eqn:Ej; [|done]. cbn. f_equal.
  rewrite lookup_insert_ne; [done|]. intros ->.
  by apply (dur_apart _ _ st_durable0 (dir x) tmp j); [left|apply tmp_ne_file| |].
Qed.

Lemma staged_append T d i n x bytes :
  staged T d i n x -> staged T d i {| data := data n ++ bytes; synced := false |} (append x i bytes).
Proof. intros H. unfold append. rewrite (st_inode _ _ _ _ _ H). by eapply staged_put. Qed.

Lemma staged_sync T d i n x :
  staged T d i n x -> staged T d i {| data := data n; synced := true |} (sync_all x i).
Proof. intros H. unfold sync_all. rewrite (st_inode _ _ _ _ _ H). by eapply staged_put. Qed.

Lemma staged_rename (T U : list Z -> Prop) d i text x :
  (forall t, T t -> U t) -> U text -> staged T d i {| data := text; synced := true |} x ->
  durable U (rename x tmp file) /\ content (rename x tmp file) file = Some text.
Proof.
  intros HTU HU []. split; [eapply durable_rename; try done; [apply tmp_ne_file|by eapply durable_weaken]|].
  unfold content, rename. rewrite st_tmp0. cbn. rewrite lookup_insert_eq. cbn. by rewrite st_inode0.
Qed.

(** Every call of a write goes well. *)
Definition goes_well (f : Faults) : bool :=
  mkdir_ok f && create_ok f && bool_decide (written f = None) && sync_ok f && rename_ok f.

(** The disk has the state file as [d] has it, or the new text in it. *)
Definition unreplaced (T : list Z -> Prop) (d x : Disk) : Prop :=
  durable T x /\ content x file = content d file.
Definition installed (U : list Z -> Prop) (text : list Z) (x : Disk) : Prop :=
  durable U x /\ content x file = Some text.

Lemma staged_unreplaced T d i n x : staged T d i n x -> unreplaced T d x.
Proof. by intros []. Qed.

(** Through a write the state file is as it was up to a point and holds the
    whole text from there on; the answer tells which. *)
Lemma write_atomic (T U : list Z -> Prop) f text d :
  (forall t, T t -> U t) -> U text -> durable T d ->
  let '(trace, last, r) := write f text d in
  Forall (fun x => unreplaced T d x \/ installed U text x) trace
  /\ r = (if goes_well f then Ok tt else Err FIo)
  /\ (if goes_well f then installed U text last else unreplaced T d last).
Proof.
  intros HTU HU Hd. unfold write, goes_well. pose proof (staged_create T d Hd) as Hc.
  destruct (create d tmp) as [d1 i]. cbn in Hc.
  destruct (mkdir_ok f), (create_ok f); cbn; try by split_and!.
  assert (Happ : forall k, unreplaced T d (append d1 i (take k text)))
    by (intros k; exact (staged_unreplaced _ _ _ _ _ (staged_append _ _ _ _ _ (take k text) Hc))).
  assert (Htrace : forall n, Forall (fun x => unreplaced T d x \/ installed U text x)
    ((fun k => append d1 i (take k text)) <$> seq 0 n)) by (intros n; apply Forall_fmap, Forall_true; by left).
  assert (Hall := staged_append _ _ _ _ _ text Hc). pose proof (staged_sync _ _ _ _ _ Hall) as Hs. cbn in Hs.
  apply staged_unreplaced in Hall. pose proof (staged_unreplaced _ _ _ _ _ Hs) as Hsync.
  pose proof (staged_rename T U d i text _ HTU HU Hs) as Hr.
  destruct (written f) as [n|]; [rewrite bool_decide_eq_false_2 by done|rewrite bool_decide_eq_true_2 by done];
    cbn [negb andb]; [by split; [apply (Htrace (S n))|]|].
  destruct (sync_ok f); cbn [negb andb]; [|by split; [apply (Htrace (S (length text)))|]].
  destruct (rename_ok f); cbn [negb andb];
    (split; [apply (Forall_app_2 _ _ _ (Htrace (S (length text)))); by auto|done]).
Qed.
End Store.

(** ** The store [Daemon] assumes *)

(** The name main.rs gives the file. *)
Definition STATE_FILE : string := "grants.json".

(** What happens to the disk: a write of a process that returns or is killed
    after its [k]-th call, a probe, a power cut. *)
Inductive DiskOp :=
| Write (pid : Z) (f : Faults) (doc : StateDoc)
| Killed (pid : Z) (f : Faults) (doc : StateDoc) (k : nat)
| Probe (pid : Z) (open_ok mkdir_ok write_ok remove_ok : bool)
| PowerCut.

Inductive steps {S : Type} (R : DiskOp -> S -> S -> Prop) : list DiskOp -> S -> S -> Prop :=
| steps_nil s : steps R [] s s
| steps_cons op ops s s' s'' : R op s s' -> steps R ops s' s'' -> steps R (op :: ops) s s''.

(** The abstract store: what the file holds, as in [Daemon.Sys], and the
    documents whose write came to its end. *)
Record Kept := { held : option StateDoc; docs : list StateDoc }.

Definition replaced (doc : StateDoc) (k : Kept) : Kept := {| held := Some doc; docs := doc :: docs k |}.

Inductive on_store : DiskOp -> Kept -> Kept -> Prop :=
| kept_write pid f doc k : on_store (Write pid f doc) k (if goes_well f then replaced doc k else k)
| kept_unwritten pid f doc n k : on_store (Killed pid f doc n) k k
| kept_written pid f doc n k : on_store (Killed pid f doc n) k (replaced doc k)
| kept_probe pid o m w r k : on_store (Probe pid o m w r) k k
| kept_lost k : on_store PowerCut k {| held := None; docs := docs k |}
| kept_back doc k : doc ∈ docs k -> on_store PowerCut k {| held := Some doc; docs := docs k |}.

Section Refines.
Context `{Hjson : StateJson}.

Definition on_disk (op : DiskOp) (d d' : Disk) : Prop :=
  match op with
  | Write pid f doc => d' = (write STATE_FILE pid f (state_to_json doc) d).1.2
  | Killed pid f doc k => (write STATE_FILE pid f (state_to_json doc) d).1.1 !! k = Some d'
  | Probe pid o m w r => d' = (probe_writable STATE_FILE pid o m w r d).1
  | PowerCut => cut d d'
  end.

Definition texts (ds : list StateDoc) (t : list Z) : Prop := exists doc, doc ∈ ds /\ t = state_to_json doc.

Definition represents (d : Disk) (k : Kept) : Prop :=
  durable STATE_FILE (texts (docs k)) d /\ content d STATE_FILE = state_to_json <$> held k.

Lemma read_represents `{!StateJsonLaws} d k : represents d k -> read STATE_FILE d = read_file (held k).
Proof.
  intros [_ Hc]. unfold read. rewrite Hc. destruct (held k) as [doc|]; [|done]. cbn.
  by rewrite state_json_utf8, state_json_reread.
Qed.

Lemma durable_texts_cons doc ds d :
  durable STATE_FILE (texts ds) d -> durable STATE_FILE (texts (doc :: ds)) d.
Proof. apply durable_weaken. intros x (doc' & ? & ->). exists doc'. split; [by right|done]. Qed.

Lemma represents_write pid f doc d k :
  represents d k ->
  represents (write STATE_FILE pid f (state_to_json doc) d).1.2 (if goes_well f then replaced doc k else k)
  /\ Forall (fun x => represents x k \/ represents x (replaced doc k)) (write STATE_FILE pid f (state_to_json doc) d).1.1.
Proof.
  intros [Hd Hc].
  assert (HTU : forall t, texts (docs k) t -> texts (docs (replaced doc k)) t)
    by (intros t (doc' & ? & ->); exists doc'; split; [by right|done]).
  assert (HU : texts (docs (replaced doc k)) (state_to_json doc)) by (exists doc; split; [left|done]).
  assert (Hun : forall x, unreplaced STATE_FILE (texts (docs k)) d x -> represents x k)
    by (intros x [? Hx]; split; [done|by rewrite Hx]).
  pose proof (write_atomic STATE_FILE pid _ _ f _ d HTU HU Hd) as Hw.
  destruct (write _ _ _ _ _) as [[trace last] r]. destruct Hw as (Htrace & _ & Hlast). cbn. split.
  - destruct (goes_well f); [exact Hlast|by apply Hun].
  - eapply Forall_impl; [exact Htrace|]. intros x [?|?]; [left; by apply Hun|by right].
Qed.

Lemma represents_probe pid o m w r d k :
  represents d k -> represents (probe_writable STATE_FILE pid o m w r d).1 k.
Proof.
  intros [Hd Hc]. unfold probe_writable. destruct (dir d !! STATE_FILE) as [i|] eqn:E; [by destruct o|].
  destruct m, w; cbn [negb]; try done.
  set (probe := ".lychgate-probe." +:+ dec_u64 pid). assert (Hp : probe <> STATE_FILE) by done.
  destruct (durable_create _ _ _ probe Hp Hd) as (Hd' & _ & _ & Hf).
  assert (Hc' : forall d', dir d' !! STATE_FILE = None -> content d' STATE_FILE = state_to_json <$> held k).
  { intros d' Hd''. rewrite <-Hc. unfold content. by rewrite Hd'', E. }
  destruct (create d probe) as [d1 j]. cbn in *. rewrite E in Hf.
  destruct r; split; auto using durable_remove. apply Hc'. cbn. by rewrite lookup_delete_ne.
Qed.

Lemma represents_cut d d' k :
  represents d k -> cut d d' -> exists k', on_store PowerCut k k' /\ represents d' k'.
Proof.
  intros [Hd _] Hcut. pose proof (durable_cut _ _ _ _ Hd Hcut) as Hd'.
  destruct (dir d' !! STATE_FILE) as [i|] eqn:E.
  - destruct (dur_text _ _ _ Hd' _ _ (list_elem_of_here _ _) E) as (n & Hn & _ & doc & Hdoc & Ht).
    eexists. split; [by apply (kept_back doc)|]. split; [done|]. unfold content. rewrite E. cbn. by rewrite Hn, <-Ht.
  - eexists. split; [apply kept_lost|]. split; [done|]. unfold content. by rewrite E.
Qed.

Lemma represents_step op d d' k :
  represents d k -> on_disk op d d' -> exists k', on_store op k k' /\ represents d' k'.
Proof.
  intros Hr. destruct op as [pid f doc|pid f doc n|pid o m w r|]; cbn.
  - intros ->. eexists. split; [constructor|by apply represents_write].
  - intros Hn. destruct (represents_write pid f doc d k Hr) as [_ Hall].
    rewrite Forall_lookup in Hall. destruct (Hall _ _ Hn); eauto using on_store.
  - intros ->. eexists. split; [constructor|by apply represents_probe].
  - intros Hc. by apply (represents_cut d).
Qed.

(** A disk without files. *)
Definition blank : Disk := {| inodes := ∅; dir := ∅; dirs := []; fresh := 0 |}.

Lemma represents_blank : represents blank {| held := None; docs := [] |}.
Proof. split; [|done]. split; intros D; try (intros ?? ->%list_elem_of_singleton; done); naive_solver set_solver. Qed.

(** C7. The state file survives as the old truth or the new one: through any
    sequence of writes by any processes, each failing at any call or killed
    after any of its calls, of probes and of power cuts, the store reads as
    the all-or-nothing store does.  A write that is_ok Ok is what is read
    until the next one, a failed one changes nothing, and a power cut brings
    back no file or one of the documents whose write came to its end, never
    a truncated or mixed text. *)
Theorem store_refined `{!StateJsonLaws} ops d (Hrun : steps on_disk ops blank d) :
  exists k, steps on_store ops {| held := None; docs := [] |} k /\ read STATE_FILE d = read_file (held k).
Proof.
  revert Hrun. generalize represents_blank. generalize blank {| held := None; docs := [] |}.
  induction ops as [|op ops IH]; intros d0 k0 Hr Hrun; inversion Hrun; subst.
  - exists k0. split; [apply steps_nil|by apply read_represents].
  - edestruct represents_step as (k1 & Hk1 & Hr1); [done..|].
    edestruct IH as (k & ? & ?); [done..|]. exists k. split; [by econstructor|done].
Qed.
End Refines.

(** *** A printer and a disk for the claim *)

Definition record_tuple (r : GrantRecord) :=
  (state r, (opened_at r, expires_at r, since r), rec_channels r, (requested_at r, approval_deadline r),
   (ttl_secs r, nonce r, profile r, satisfied r)).
#[export] Instance GrantRecord_countable : Countable GrantRecord.
Proof.
  refine (inj_countable' record_tuple
    (fun '(st, (o, e, s), cs, (q, d), (t, n, p, sat)) =>
      {| state := st; opened_at := o; expires_at := e; since := s; rec_channels := cs; requested_at := q;
         approval_deadline := d; ttl_secs := t; nonce := n; profile := p; satisfied := sat |}) _).
  by intros [].
Defined.

(** The binary digits of the document's code. *)
Definition RefStateJson : StateJson := {|
  state_to_json doc := as_bytes (pos_print (encode (version doc, doc_grants doc)));
  state_from_json bytes :=
    p ← pos_parse (str_of_bytes bytes); vg ← decode p;
    reread_doc {| version := vg.1; doc_grants := vg.2 |};
|}.

Lemma RefStateJsonLaws : @StateJsonLaws RefStateJson.
Proof.
  split; intros doc; cbn.
  - apply (pos_print_digits (encode (version doc, doc_grants doc))).
  - rewrite str_of_as_bytes, pos_parse_print. cbn. rewrite decode_encode. by destruct doc.
Qed.

(** What a machine that forgets everything unsynced comes back with. *)
Definition restart (d : Disk) (D : gmap string nat) : Disk :=
  {| inodes := filter (fun x => synced x.2 = true) (inodes d); dir := D; dirs := []; fresh := fresh d |}.

Lemma restart_cut d D : D ∈ dir d :: dirs d -> cut d (restart d D).
Proof. intros HD. split_and!; try done. intros i n Hi Hs. cbn. by apply map_lookup_filter_Some. Qed.

Definition fine : Faults :=
  {| mkdir_ok := true; create_ok := true; written := None; sync_ok := true; rename_ok := true |}.
Definition version_3 : StateDoc := {| version := 3; doc_grants := ∅ |}.

Section Demo.
#[local] Existing Instance RefStateJson.

Definition after (pid : Z) (f : Faults) (doc : StateDoc) (d : Disk) : Disk :=
  (write STATE_FILE pid f (state_to_json doc) d).1.2.
Definition two_writes : Disk := after 8 fine Snapshot.default (after 7 fine version_3 blank).

(** The directory entry is not synced: a power cut after a write that answered
    Ok may bring the document before it back, or no file. *)
Example residual_window :
  (fun D => version <$> match read STATE_FILE (restart two_writes D) with Ok doc => Some doc | Err _ => None end)
    <$> dir two_writes :: dirs two_writes
  = [Some 4; Some 3; Some 3; Some 4; Some 4].
Proof. by vm_compute. Qed.

Lemma store_refined_witness :
  let d := restart two_writes (dir two_writes) in
  let ops := [Write 7 fine version_3; Write 8 fine Snapshot.default; PowerCut] in
  steps on_disk ops blank d
  /\ exists k, steps on_store ops {| held := None; docs := [] |} k /\ read STATE_FILE d = read_file (held k).
Proof.
  intros d ops. assert (Hrun : steps on_disk ops blank d).
  { repeat (eapply steps_cons; [exact eq_refl|]). eapply steps_cons; [apply restart_cut; left|apply steps_nil]. }
  split; [exact Hrun|]. exact (@store_refined RefStateJson RefStateJsonLaws ops d Hrun).
Defined.
End Demo.

(** ** The journal *)

Definition JOURNAL_FILE : string := "journal.jsonl".

(** [serde_json] on a [Line]: timestamp, pid, sequence number and event. *)
Class LineJson := { line_to_json : Z -> Z -> Z -> Event -> list Z }.

Record Journal := { jfile : nat; jpid : Z; jseq : Z }.

(** [Journal::open]: for append, created if absent, never truncated. *)
Definition open_journal (pid : Z) (open_ok : bool) (d : Disk) : Disk * result Fatal Journal :=
  if negb open_ok then (d, Err FIo)
  else match dir d !! JOURNAL_FILE with
       | Some i => (d, Ok {| jfile := i; jpid := pid; jseq := 0 |})
       | None => let '(d, i) := create d JOURNAL_FILE in (d, Ok {| jfile := i; jpid := pid; jseq := 0 |})
       end.

Section Journaling.
Context `{LineJson}.

(** One line and its newline. *)
Definition line_text (j : Journal) (now : SystemTime) (event : Event) : list Z :=
  line_to_json (epoch_secs now) (jpid j) (jseq j) event ++ [10].

(** [Journal::record]; [stop] is how far a failing [write_all] came.  A
    [File] has nothing to flush. *)
Definition record (stop : option nat) (sync_ok : bool) (now : SystemTime) (event : Event) (d : Disk) (j : Journal)
    : Disk * Journal * result Fatal unit :=
  let text := line_text j now event in
  match stop with
  | Some n => (append d (jfile j) (take n text), j, Err FIo)
  | None =>
      let d := append d (jfile j) text in
      if sync_ok then (sync_all d (jfile j), {| jfile := jfile j; jpid := jpid j; jseq := jseq j + 1 |}, Ok tt)
      else (d, j, Err FIo)
  end.

(** The journal is [i] under every directory that may come back. *)
Definition journal_is (d : Disk) (i : nat) : Prop :=
  forall D, D ∈ dir d :: dirs d -> D !! JOURNAL_FILE = Some i.

Definition journal_holds (d : Disk) (j : Journal) (bytes : list Z) (on_medium : bool) : Prop :=
  journal_is d (jfile j) /\ exists n, inodes d !! jfile j = Some n /\ data n = bytes /\ (on_medium = true -> synced n = true).

(** A record only appends: all of its line, on the medium, or a part of it. *)
Lemma record_appends stop sync_ok now event d j bytes b :
  journal_holds d j bytes b ->
  let '(d', j', r) := record stop sync_ok now event d j in
  exists part, part `prefix_of` line_text j now event
  /\ journal_holds d' j' (bytes ++ part) (is_ok r)
  /\ jseq j' = jseq j + (if is_ok r then 1 else 0)
  /\ (is_ok r = true -> part = line_text j now event).
Proof.
  intros (Hdir & n & Hn & Hbytes & _). unfold record, append, sync_all. rewrite Hn. cbn.
  destruct stop as [k|]; [|destruct sync_ok; cbn; rewrite ?lookup_insert_eq].
  - exists (take k (line_text j now event)).
    split_and!; [apply prefix_take| |cbn; lia|done]. split; [done|]. eexists. cbn. rewrite lookup_insert_eq.
    split_and!; [done|by rewrite Hbytes|done].
  - exists (line_text j now event). split_and!; try done.
    split; [done|]. eexists. cbn. rewrite lookup_insert_eq. split_and!; [done|by rewrite Hbytes|done].
  - exists (line_text j now event).
    split_and!; [done| |cbn; lia|done]. split; [done|]. eexists. cbn. rewrite lookup_insert_eq.
    split_and!; [done|by rewrite Hbytes|done].
Qed.
(** The records of a run, up to the first that fails, which ends the daemon. *)
Fixpoint record_all (entries : list (option nat * bool * (SystemTime * Event))) (d : Disk) (j : Journal)
    : Disk * Journal * result Fatal unit :=
  match entries with
  | [] => (d, j, Ok tt)
  | (stop, sync_ok, (now, event)) :: entries =>
      match record stop sync_ok now event d j with
      | (d, j, Ok _) => record_all entries d j
      | failed => failed
      end
  end.

(** The lines of events in a row, numbered from [seq]. *)
Fixpoint numbered (pid seq : Z) (events : list (SystemTime * Event)) : list Z :=
  match events with
  | [] => []
  | (now, event) :: events =>
      line_text {| jfile := 0; jpid := pid; jseq := seq |} now event ++ numbered pid (seq + 1) events
  end.

(** Within a run the journal grows by the lines of the events recorded, in
    order and numbered without a gap, and after a failure by at most a part
    of one line more. *)
Lemma journal_lines_numbered entries d j bytes :
  journal_holds d j bytes true ->
  let '(d', j', r) := record_all entries d j in
  exists m part, (m <= length entries)%nat
  /\ journal_holds d' j' (bytes ++ numbered (jpid j) (jseq j) (take m entries.*2) ++ part) (is_ok r)
  /\ (if is_ok r then m = length entries /\ part = [] /\ jseq j' = jseq j + Z.of_nat m
      else exists e, entries.*2 !! m = Some e
        /\ part `prefix_of` numbered (jpid j) (jseq j + Z.of_nat m) [e]).
Proof.
  revert d j bytes. induction entries as [|[[stop ok] [now event]] entries IH]; intros d j bytes Hj; cbn.
  { exists 0%nat, []. cbn. rewrite app_nil_r. split_and!; [lia|done..|lia]. }
  pose proof (record_appends stop ok now event d j bytes true Hj) as Hrec.
  assert (Hpid : jpid (record stop ok now event d j).1.2 = jpid j) by (by destruct stop, ok).
  destruct (record stop ok now event d j) as [[d1 j1] [u|e]];
    destruct Hrec as (part & Hpre & Hj1 & Hseq & Hfull); cbn in *.
  - specialize (Hfull eq_refl) as ->. specialize (IH d1 j1 _ Hj1).
    destruct (record_all entries d1 j1) as [[d' j'] r]. destruct IH as (m & part & Hm & Hh & Hr).
    exists (S m), part. cbn. rewrite Hpid, Hseq in *. split; [lia|]. split.
    { by rewrite <-app_assoc in Hh |- *. }
    destruct r; cbn in *.
    + destruct Hr as (-> & -> & ->). split_and!; lia || done.
    + by replace (jseq j + Z.of_nat (S m)) with (jseq j + 1 + Z.of_nat m) by lia.
  - exists 0%nat, part. cbn. split_and!; [lia|done|]. eexists. split; [done|].
    by rewrite Z.add_0_r, app_nil_r.
Qed.

(** A power cut keeps every line whose record answered Ok. *)
Lemma journal_survives_cut d d' j bytes :
  journal_holds d j bytes true -> cut d d' -> journal_holds d' j bytes true.
Proof.
  intros (Hdir & n & Hn & Hbytes & Hs) (Hin & Hdirs & _ & Hkeep). split.
  - intros D. rewrite Hdirs. intros ->%list_elem_of_singleton. by apply Hdir.
  - exists n. split; [by apply Hkeep, Hs|done].
Qed.
End Journaling.

(** *** Two windows of the journal *)

Section JournalDemo.
#[local] Instance SeqOnly : LineJson := {| line_to_json ts pid seq e := as_bytes ("{" +:+ dec_u64 seq +:+ "}") |}.

Definition start_run (pid : Z) (d : Disk) (entries : list (option nat * bool * (SystemTime * Event))) : Disk :=
  match open_journal pid true d with
  | (d, Ok j) => (record_all entries d j).1.1
  | (d, Err _) => d
  end.

Definition torn_run : Disk :=
  start_run 7 blank [(None, true, (0, EvDaemonStart "inv" 1)); (Some 2%nat, true, (0, EvDaemonStop))].

(** A write torn in the middle has no newline: the next run's start is glued
    to it, and no line of the file is that start. *)
Example torn_line_swallows_start :
  str_of_bytes <$> content (start_run 8 torn_run [(None, true, (0, EvDaemonStart "inv" 1))]) JOURNAL_FILE
  = Some ("{0}" +:+ String LF ("{1{0}" +:+ String LF "")).
Proof. by vm_compute. Qed.

(** The entry of a new journal is not synced: a power cut may lose the file
    with the lines whose records answered Ok. *)
Example new_journal_may_vanish :
  let d := start_run 7 blank [(None, true, (0, EvDaemonStart "inv" 1))] in
  is_Some (content d JOURNAL_FILE) /\ cut d (restart d ∅) /\ content (restart d ∅) JOURNAL_FILE = None.
Proof. split; [by eexists|]. split; [apply restart_cut; right; left|done]. Qed.
End JournalDemo.
