(* ===== verification/Exchange.v ===== *)
(** * Exchange: a request over the socket, end to end

    The client's half of the wire (cli/src/transport.rs and
    mcp/src/transport.rs), the JSON of the responses (core/src/proto.rs), and
    the two halves put together: what a client reads back is what the
    daemon's dispatch answered. *)

From S2P Require Import Prelude Text Clock External Reference Approval Authority Inventory TextLines Line Channel ScriptedDrivers Registry Proto Mcp Daemon Lifecycle LifecycleProps Listener.

(** [serde_json] at the type [Response], as the client holds it. *)
Class ResponseJson := {
  response_to_string : Answer -> string;
  response_from_str : string -> result string Answer;
}.

Class ResponseJsonLaws `{ResponseJson} : Prop := {
  response_read_back r : response_from_str (response_to_string r) = Ok r;
  response_utf8 r : utf8_valid (as_bytes (response_to_string r)) = true;
  response_no_lf r : without LF (response_to_string r) = true;
  response_empty : exists e, response_from_str "" = Err e;
}.

(** ** The client *)

(** How a connection goes: refused, lost while sending, or what comes back
    and how that stream then ends. *)
Inductive PeerResult := NotConnected | NotSent | Replied (c : Incoming).

Inductive ExchangeError := Connecting | Sending | Reading | MalformedResponse (e : string).

(** [read_line] without a cap. *)
Fixpoint first_line (bs : list Z) : list Z * bool :=
  match bs with
  | [] => ([], false)
  | b :: bs => if b =? 10 then ([b], true) else let '(l, done) := first_line bs in (b :: l, done)
  end.

Definition read_reply (c : Incoming) : option string :=
  let '(l, finished) := first_line (bytes c) in
  if (finished || match ending c with Eof => true | Silent => false end) && utf8_valid l
  then Some (str_of_bytes l) else None.

Section Client.
Context `{RequestJson, ResponseJson} {T : Type} (peer : list Z -> T -> T * PeerResult).

Definition roundtrip (op : Op) : T -> T * result ExchangeError Answer := fun t =>
  let '(t, r) := peer (request_bytes op) t in
  (t, match r with
      | NotConnected => Err Connecting
      | NotSent => Err Sending
      | Replied c =>
          match read_reply c with
          | None => Err Reading
          | Some reply =>
              map_err MalformedResponse
                (response_from_str (trim_end_matches (fun a => bool_decide (a = LF)) reply))
          end
      end).
End Client.

(** ** The daemon on the other end *)

Section Daemon.
Context `{RequestJson, ResponseJson} `{DataEncoding, ApprovalKeys} {W D V : Type}.
Context `{!ChannelDriver W, !DeadmanControl D, !ProofVerifier V}.
Context (env : Env) (cfg : Config).
(** The [Display] of a refusal and of a protocol error. *)
Context (show_refusal : Refusal -> string) (show_proto : ProtoError -> string).

Definition with_text {R} (show : R -> string) (r : Response R) : Answer :=
  {| rs_proto := rs_proto _ r; rs_result := rs_result r; rs_error := show <$> rs_error r;
     rs_expires_at := rs_expires_at r; rs_outcome := rs_outcome r; rs_grants := rs_grants r;
     rs_secret := rs_secret r; rs_secret_label := rs_secret_label _ r;
     rs_pending := rs_pending r; rs_narrowings := rs_narrowings _ r |}.

(** [response.encode()] and its line feed. *)
Definition response_bytes (o : Outgoing) : list Z :=
  as_bytes (response_to_string
    (match o with
     | BadRequest e => refused (show_proto e)
     | Answered r => with_text show_refusal r
     end)) ++ [10].

(** A daemon listening under [origin], answering at [now]; one that fails
    closes the connection without a word. *)
Definition daemon_peer (now : SystemTime) (origin : Origin) (sent : list Z) (s : Sys W D V)
    : Sys W D V * PeerResult :=
  let '(s', r) := handle env cfg {| bytes := sent; ending := Eof |} now origin s in
  (s', Replied {| bytes := match r with Ok (Some o) => response_bytes o | _ => [] end;
                  ending := Eof |}).
End Daemon.

(** ** The exchange *)

Lemma first_line_app l rest : 10 ∉ l -> first_line (l ++ 10 :: rest) = (l ++ [10], true).
Proof.
  induction l as [|b l IH]; intros Hn; cbn; [done|]. apply not_elem_of_cons in Hn as [Hb Hn].
  rewrite (proj2 (Z.eqb_neq b 10)) by done. by rewrite IH.
Qed.

(** A line of text that holds no line feed is read back. *)
Lemma read_reply_line line rest e :
  utf8_valid (as_bytes line) = true -> without LF line = true ->
  read_reply {| bytes := as_bytes line ++ 10 :: rest; ending := e |} = Some (line +:+ nl).
Proof.
  intros Hu Hn. unfold read_reply. cbn [bytes ending].
  rewrite first_line_app by by apply as_bytes_without_lf.
  rewrite utf8_valid_app_ascii by (done || lia). cbn [orb andb].
  rewrite <-(as_bytes_app _ nl : _ = as_bytes line ++ [10]). by rewrite str_of_as_bytes.
Qed.

Lemma trim_lf line : without LF line = true ->
  trim_end_matches (fun a => bool_decide (a = LF)) (line +:+ nl) = line.
Proof. intros Hn. rewrite trim_end_app. cbn. by apply trim_none. Qed.

Section Through.
Context `{!RequestJson, !RequestJsonLaws, !RequestText, !ResponseJson, !ResponseJsonLaws}.
Context `{DataEncoding, ApprovalKeys} {W D V : Type}.
Context `{!ChannelDriver W, !DeadmanControl D, !ProofVerifier V}.
Context (env : Env) (cfg : Config) (show_refusal : Refusal -> string) (show_proto : ProtoError -> string).
Context (now : SystemTime) (origin : Origin).
Local Abbreviation peer := (daemon_peer (W := W) (D := D) (V := V) env cfg show_refusal show_proto now origin).

Lemma roundtrip_dispatch op s :
  str_len (encode_request op) <= MAX_LINE_BYTES ->
  roundtrip peer op s
  = ((dispatch_from env cfg op now origin s).1,
     match (dispatch_from env cfg op now origin s).2 with
     | Ok r => Ok (with_text show_refusal r)
     | Err _ => map_err MalformedResponse (response_from_str "")
     end).
Proof.
  intros Hlen. unfold roundtrip, daemon_peer.
  pose proof (handle_request (W := W) (D := D) (V := V) env cfg origin op [] Eof now Hlen) as Hh.
  rewrite app_nil_r in Hh. rewrite Hh. unfold Daemon.bind, ret.
  destruct (dispatch_from env cfg op now origin s) as [s' [r|e]]; cbn -[read_reply response_bytes]; [|done].
  unfold response_bytes.
  rewrite (read_reply_line _ []) by (apply response_utf8 || apply response_no_lf).
  rewrite trim_lf by apply response_no_lf. by rewrite response_read_back.
Qed.
End Through.

(** ** A concrete printer

    The digits of the response's code as a tuple, as for the requests. *)

Definition state_code (s : LineState) : Z :=
  match s with
  | LClosed => 0 | LAwaitingApproval => 1 | LApprovalExpired => 2 | LOpening => 3 | LOpen => 4
  | LExpired => 5 | LNeedsRevert => 6
  end.
Definition state_of (z : Z) : LineState :=
  nth (Z.to_nat z) [LClosed; LAwaitingApproval; LApprovalExpired; LOpening; LOpen; LExpired] LNeedsRevert.

Definition label_code (l : MissingLabel) : Z * string * Z :=
  match l with
  | LMissing (MissingAuthenticator id) => (0, id, 0)
  | LMissing (MissingGroup id) => (1, id, 0)
  | LMissing (MissingWait d) => (2, "", d)
  | LAnyToken => (3, "", 0)
  end.
Definition label_of (c : Z * string * Z) : MissingLabel :=
  let '(k, id, d) := c in
  if k =? 0 then LMissing (MissingAuthenticator id)
  else if k =? 1 then LMissing (MissingGroup id)
  else if k =? 2 then LMissing (MissingWait d) else LAnyToken.

Definition line_code (g : GrantLine) :=
  (gl_host g, state_code (gl_state g), gl_remaining_secs g, gl_stuck_channels g).
Definition line_of (c : string * Z * option Z * option (list Channel)) : GrantLine :=
  let '(h, s, r, k) := c in
  {| gl_host := h; gl_state := state_of s; gl_remaining_secs := r; gl_stuck_channels := k |}.

Definition pending_code (p : PendingChallenge) :=
  (pc_host p, pc_challenge p, (pc_ttl_secs p, pc_requested_at p, pc_approval_deadline p), pc_profile p,
   (pc_weight p, pc_threshold p), List.map label_code (pc_missing p)).
Definition pending_of (c : string * string * (Z * Z * Z) * string * (Z * Z) * list (Z * string * Z))
    : PendingChallenge :=
  let '(h, ch, (t, r, d), p, (w, th), m) := c in
  {| pc_host := h; pc_challenge := ch; pc_ttl_secs := t; pc_requested_at := r;
     pc_approval_deadline := d; pc_profile := p; pc_weight := w; pc_threshold := th;
     pc_missing := List.map label_of m |}.

Definition answer_code (r : Answer) :=
  (rs_proto _ r, bool_decide (rs_result r = RsOk), (rs_error r, rs_expires_at r, rs_outcome r),
   option_map (List.map line_code) (rs_grants r), (rs_secret r, rs_secret_label _ r),
   option_map pending_code (rs_pending r),
   rs_narrowings _ r).

Definition answer_of (c : Z * bool * (option string * option Z * option string)
    * option (list (string * Z * option Z * option (list Channel))) * (option string * option string)
    * option (string * string * (Z * Z * Z) * string * (Z * Z) * list (Z * string * Z))
    * option (list (Channel * string))) : Answer :=
  let '(p, ok, (e, x, o), g, (s, sl), pd, n) := c in
  {| rs_proto := p; rs_result := if ok then RsOk else RsRefused; rs_error := e; rs_expires_at := x;
     rs_outcome := o; rs_grants := option_map (List.map line_of) g; rs_secret := s; rs_secret_label := sl;
     rs_pending := option_map pending_of pd; rs_narrowings := n |}.

Lemma map_id_on {A B} (f : A -> B) (g : B -> A) (l : list A) :
  (forall a, g (f a) = a) -> List.map g (List.map f l) = l.
Proof. intros Hg. induction l as [|a l IH]; [done|]. cbn. by rewrite Hg, IH. Qed.

Lemma answer_of_code r : answer_of (answer_code r) = r.
Proof.
  assert (Hl : forall g, line_of (line_code g) = g) by (by intros [? [] ? ?]).
  assert (Hm : forall l, label_of (label_code l) = l) by (by intros [[]|]).
  destruct r as [p [] e x o g s sl pd n]; unfold answer_of, answer_code; cbn; f_equal;
    try (by destruct g as [g|]; cbn; [rewrite map_id_on|]);
    destruct pd as [[]|]; cbn; try done; by rewrite map_id_on.
Qed.

#[export] Instance RefResponseJson : ResponseJson := {|
  response_to_string r := pos_print (encode (answer_code r));
  response_from_str s :=
    match pos_parse s ≫= decode with Some c => Ok (answer_of c) | None => Err "not a response" end;
|}.

#[export] Instance RefResponseJsonLaws : ResponseJsonLaws.
Proof.
  split; intros; cbn; [|apply pos_print_digits..|by eexists].
  rewrite pos_parse_print. cbn. rewrite decode_encode. by rewrite answer_of_code.
Qed.
