(* ===== verification/FrontDoor.v ===== *)
(** * FrontDoor: the MCP process at the daemon's socket

    The front door as it runs: the principal's signing key
    (mcp/src/signer.rs), the exchange over the MCP socket
    (mcp/src/transport.rs) and [main] (mcp/src/main.rs), put in front of the
    daemon of [Lifecycle].  Whatever the model on the other side writes, the
    daemon sees requests under the MCP origin, and the principal's signature
    counts as the factor its public key was configured for. *)

From stdpp Require Import relations.
From S2P Require Import Prelude Text Clock Ttl External Reference Approval Authority Inventory TextLines Line Channel ScriptedDrivers Registry Grant GrantProps Snapshot Proto Factors Ledgers Daemon Proofs Lifecycle LifecycleLogic LifecycleSafe LifecycleProps Listener Mcp Exchange.
#[local] Open Scope Z_scope.

(** ** The principal's key *)

(** [ssh_key::PrivateKey], [SshSig::to_pem] and [PublicKey::to_openssh]. *)
Class PrincipalKeys `{FactorCrypto} := {
  PrivateKey : Type;
  private_from_openssh : string -> result string PrivateKey;
  is_encrypted : PrivateKey -> bool;
  private_sign : PrivateKey -> string -> list Z -> result string SshSig;
  sshsig_to_pem : SshSig -> result string string;
  public_key_of : PrivateKey -> SshPublicKey;
  public_to_openssh : SshPublicKey -> result string string;
}.

(** A PEM reads back as the signature it was made of, under its marker; a
    signature carries its namespace and the signer's key data, and verifies
    under every public key with that data; a public key line reads back. *)
Class PrincipalKeysLaws `{PrincipalKeys} : Prop := {
  pem_marked sig pem : sshsig_to_pem sig = Ok pem -> starts_with SSHSIG_BEGIN (trim pem) = true;
  pem_read_back sig pem : sshsig_to_pem sig = Ok pem -> sshsig_parse (trim pem) = Ok sig;
  signed_namespace key ns msg sig : private_sign key ns msg = Ok sig -> sshsig_namespace sig = ns;
  signed_by key ns msg sig : private_sign key ns msg = Ok sig -> sshsig_signer (public_key_of key) sig = true;
  signed_verifies key ns msg sig pk :
    private_sign key ns msg = Ok sig -> sshsig_signer pk sig = true -> sshsig_verify pk ns msg sig = true;
  public_read_back pk line : public_to_openssh pk = Ok line -> ssh_from_openssh (trim line) = Ok pk;
}.

Inductive SignerError :=
| SeReading (path : string)
| SeParsing (e : string)
| SeEncrypted
| SeSigning (e : string)
| SePem (e : string)
| SePublic (e : string).

Inductive DoorError := DoorSigner (e : SignerError) | DoorStdin | DoorStdout.

Module Signer.
Section Signer.
Context `{PrincipalKeys}.

Definition from_openssh (text : string) : result SignerError PrivateKey :=
  let? key := map_err SeParsing (private_from_openssh (trim text)) in
  if is_encrypted key then Err SeEncrypted else Ok key.

Definition from_file (read : string -> option string) (path : string) : result SignerError PrivateKey :=
  let? text := ok_or (read path) (SeReading path) in from_openssh text.

Definition sign_challenge (key : PrivateKey) (challenge : string) : result SignerError string :=
  let? sig := map_err SeSigning (private_sign key APPROVAL_NAMESPACE (as_bytes challenge)) in
  map_err SePem (sshsig_to_pem sig).

Definition public_openssh (key : PrivateKey) : result SignerError string :=
  map_err SePublic (public_to_openssh (public_key_of key)).
End Signer.
End Signer.

(** ** The process *)

Section Door.
Context `{PrincipalKeys, RequestJson, ResponseJson} {T : Type}.
Context (peer : list Z -> T -> T * PeerResult) (show_exchange : ExchangeError -> string).
Context (show_signer : SignerError -> string) (from_str : string -> option Value).

(** [SocketBackend::call]. *)
Definition socket_call (op : Op) (t : T) : T * result string Answer :=
  let '(t', r) := roundtrip peer op t in (t', map_err show_exchange r).

(** What reading standard input brings, until its end: a line, or an error
    (input that is not UTF-8 is one). *)
Inductive Read := Line (text : string) | ReadFailed.

(** What [main] prints, and how it ends. *)
Record Printed := { public_line : option string; replies : list RpcReply; outcome : result DoorError unit }.

Section Stdio.
Context (sign_challenge : string -> result string string) (write_ok : nat -> bool).

(** The loop of [main]; [k] replies have been written. *)
Fixpoint stdio_loop (reads : list Read) (k : nat) (t : T) : T * list RpcReply * result DoorError unit :=
  match reads with
  | [] => (t, [], Ok tt)
  | ReadFailed :: _ => (t, [], Err DoorStdin)
  | Line line :: rest =>
      match handle_line socket_call sign_challenge from_str line t with
      | (t', None) => stdio_loop rest k t'
      | (t', Some response) =>
          if negb (write_ok k) then (t', [], Err DoorStdout)
          else let '(t'', out, r) := stdio_loop rest (S k) t' in (t'', response :: out, r)
      end
  end.
End Stdio.

(** [main], with the key file and [--show-public-key] of its [Cli]. *)
Definition main (read : string -> option string) (write_ok : nat -> bool) (principal_key : string)
    (show_public_key : bool) (reads : list Read) (t : T) : T * Printed :=
  match Signer.from_file read principal_key with
  | Err e => (t, {| public_line := None; replies := []; outcome := Err (DoorSigner e) |})
  | Ok key =>
      if show_public_key then
        (t, match Signer.public_openssh key with
            | Ok line => {| public_line := Some line; replies := []; outcome := Ok tt |}
            | Err e => {| public_line := None; replies := []; outcome := Err (DoorSigner e) |}
            end)
      else
        let '(t', out, r) :=
          stdio_loop (fun ch => map_err show_signer (Signer.sign_challenge key ch)) write_ok reads 0 t in
        (t', {| public_line := None; replies := out; outcome := r |})
  end.
End Door.

(** ** What a session can do to the other side *)

Section Closure.
Context {T : Type} (call : Op -> T -> T * result string Answer).
Context (sign_challenge : string -> result string string) (from_str : string -> option Value).
Context (R : T -> T -> Prop) `{!PreOrder R}.

(** The operations the front door asks for: never a drill, and an approval
    only with a token its own key made. *)
Definition asked (op : Op) : Prop :=
  match op with
  | ODrill _ => False
  | OApprove _ token => exists challenge, sign_challenge challenge = Ok token
  | _ => True
  end.
Context (Hcall : forall op t, asked op -> R t (call op t).1).

Definition stays {A} (m : TM (T := T) A) : Prop := forall t, R t (m t).1.

Lemma stays_ret {A} (a : A) : stays (tret a).
Proof. by intros t. Qed.
Lemma stays_fail {A} f : stays (tfail (A := A) f).
Proof. by intros t. Qed.

Lemma stays_bind {A B} (m : TM A) (k : A -> TM B) :
  stays m -> (forall a, stays (k a)) -> stays (tbind m k).
Proof.
  intros Hm Hk t. specialize (Hm t). unfold tbind. destruct (m t) as [t' [a|e]]; [|done].
  etrans; [exact Hm|apply Hk].
Qed.

Lemma stays_bind_ret {A B} (a : A) (k : A -> TM B) : stays (k a) -> stays (tbind (tret a) k).
Proof. done. Qed.

Lemma stays_backend op : asked op -> stays (backend call op).
Proof. intros Ha t. rewrite backend_state. by apply Hcall. Qed.

Lemma stays_req args key : stays (req_str args key).
Proof. unfold req_str. case_match; [apply stays_ret|apply stays_fail]. Qed.

Ltac stay := repeat first
  [ apply stays_ret | apply stays_fail | apply stays_req
  | apply stays_backend; solve [exact I | by eexists]
  | apply stays_bind_ret | case_match | apply stays_bind; [|intros ?] ].

Lemma call_tool_stays name args : stays (call_tool call sign_challenge name args).
Proof.
  unfold call_tool, open_grant, grant_status, renew_grant, close_grant, access_handle.
  repeat (case_match; [|]); solve [stay | by intros t].
Qed.

Lemma handle_line_stays line t : R t (handle_line call sign_challenge from_str line t).1.
Proof.
  unfold handle_line. case_match; [done|]. destruct (from_str _) as [msg|]; [|done].
  enough (Hd : forall m p, R t (Mcp.dispatch call sign_challenge m p t).1).
  { specialize (Hd (from_option id "" (get msg "method" ≫= as_str)) (get msg "params")).
    by destruct (Mcp.dispatch _ _ _ _ t). }
  intros m p. unfold Mcp.dispatch. repeat (case_match; [done|]). case_match; [|done].
  unfold tools_call. destruct p as [p|]; [|done].
  destruct (get p "name" ≫= as_str) as [name|]; [|done].
  pose proof (call_tool_stays name (from_option id (VObj []) (get p "arguments")) t) as Hc.
  by destruct (call_tool _ _ name _ t).
Qed.
End Closure.

(** ** A closed door opens nothing *)

Section Narrow.
Context `{DataEncoding, ApprovalKeys} {W D V : Type}.
Context `{!ChannelDriver W, !DriverContract W, !DeadmanControl D, !ProofVerifier V}.
Context (env : Env) (cfg : Config) (bound : string -> list Channel).
Local Abbreviation M := (Daemon.M (W := W) (D := D) (V := V)).

Definition within (f : option StateDoc) : Prop := forall h, rec_of f h ⊆ bound h.

(** [m] records no channel outside the bound, whether it succeeds or not. *)
Definition bounded {A} (m : M A) (Q : A -> Prop) : Prop :=
  forall s, within (store s) ->
    within (store (m s).1) /\ match (m s).2 with Ok a => Q a | Err _ => True end.

Definition anything {A} (_ : A) : Prop := True.

Lemma bounded_bind {A B} (m : M A) (k : A -> M B) P Q :
  bounded m P -> (forall a, P a -> bounded (k a) Q) -> bounded (Daemon.bind m k) Q.
Proof.
  intros Hm Hk s Hs. destruct (Hm s Hs) as [Hs' Hp]. unfold Daemon.bind.
  destruct (m s) as [s' [a|e]]; [by apply Hk|done].
Qed.

Lemma bounded_same {A} (m : M A) : (forall s, store (m s).1 = store s) -> bounded m anything.
Proof. intros Hm s Hs. rewrite Hm. split; [done|]. by destruct (m s).2. Qed.

Lemma bounded_seq {A B} (m : M A) (k : A -> M B) :
  bounded m anything -> (forall a, bounded (k a) anything) -> bounded (Daemon.bind m k) anything.
Proof. intros Hm Hk. eapply bounded_bind; [exact Hm|]. auto. Qed.

Lemma bounded_ret {A} (a : A) : bounded (ret a) anything.
Proof. by apply bounded_same. Qed.
Lemma bounded_log now e : bounded (log env now e) anything.
Proof.
  apply bounded_same. intros s. unfold log, record_event, attempt_io, Daemon.bind. by destruct (io_ok env (io s)).
Qed.
Lemma bounded_read : bounded (read_registry env cfg) anything.
Proof.
  apply bounded_same. intros s. unfold Lifecycle.read_registry, Daemon.read_registry, store_read,
    attempt_io, Daemon.bind. destruct (io_ok env (io s)); [|done]. cbn.
  unfold lift. destruct (read_file (store s)) as [doc|]; [|done]. cbn. by destruct (validate cfg doc).
Qed.
Lemma bounded_fault {A} (e : Fault Fatal) : bounded (fun s => (s, Err e) : _ * result _ A) anything.
Proof. by apply bounded_same. Qed.
Lemma bounded_fatal {A} (e : Fatal) : bounded (fatal (A := A) e) anything.
Proof. by apply bounded_same. Qed.
Lemma bounded_expect {E A} (r : result E A) : bounded (expect r) anything.
Proof. apply bounded_same. intros s. by destruct r. Qed.
Lemma bounded_expect_some {A} (o : option A) : bounded (expect_some o) anything.
Proof. apply bounded_same. intros s. by destruct o. Qed.
Lemma bounded_with_deadman {A} (f : D -> D * A) : bounded (with_deadman f) anything.
Proof. apply bounded_same. intros s. unfold with_deadman. by destruct (f (deadman s)). Qed.
Lemma bounded_fuelled {A} (o : option A) : bounded (fuelled o) anything.
Proof. apply bounded_same. intros s. by destruct o. Qed.

Lemma bounded_mutate {A} (F : StateDoc -> result (Fault Fatal) (StateDoc * A)) (Q : A -> Prop) :
  (forall f doc, within f -> read_file f = Ok doc ->
     match F doc with Ok (doc', a) => within (Some doc') /\ Q a | Err _ => True end) ->
  bounded (mutate env F) Q.
Proof.
  intros HF s Hs. unfold mutate, store_lock, store_read, store_write, Daemon.bind, attempt_io.
  destruct (io_ok env (io s)); [|done]. cbn. destruct (io_ok env (S (io s))); [|done]. cbn.
  destruct (read_file (store s)) as [doc|] eqn:Hd; cbn; [|done]. specialize (HF _ _ Hs Hd).
  destruct (F doc) as [[doc' a]|e]; cbn; [|done]. by destruct (io_ok env (S (S (io s)))).
Qed.

Lemma bounded_grant_op {A} host (gop : Grant -> Grant * result GrantError A) Q :
  (forall g, recorded_channels g ⊆ bound host ->
     match gop g with
     | (g', Ok v) => recorded_channels g' ⊆ bound host /\ Q (Ok v)
     | (_, Err e) => Q (Err (EGrant e))
     end) -> Q (Err (UnknownHost host)) ->
  bounded (with_registry env cfg (fun reg => grant_mut reg host gop)) Q.
Proof.
  intros Hop Hun. apply bounded_mutate. intros f doc Hs Hd.
  destruct (validate cfg doc) as [r|] eqn:Hv; [|done].
  assert (Hl : load cfg f = Ok r) by (unfold load; by rewrite Hd).
  assert (Hsd : within (Some doc)).
  { intros h. unfold rec_of. rewrite (read_file_entries _ _ Hd h). apply Hs. }
  destruct (r !! host) as [g|] eqn:Hg; [|by rewrite grant_mut_unknown].
  rewrite (grant_mut_known _ _ _ _ Hg).
  assert (Hrec : recorded_channels g ⊆ bound host).
  { rewrite <-(load_rec _ _ _ _ _ Hl Hg). apply Hs. }
  specialize (Hop g Hrec). destruct (gop g) as [g' [v|e]]; cbn [map_err fst snd]; [|done].
  destruct Hop as [Hg' HQ]. split; [|done]. intros h. unfold rec_of. rewrite entry_snapshot.
  destruct (decide (h = host)) as [->|Hn].
  - rewrite lookup_insert_eq. cbn. by rewrite grant_entry_recorded.
  - rewrite lookup_insert_ne by done. rewrite (proj1 (load_entries _ _ _ Hl h)). apply Hs.
Qed.

(** A commit that keeps the recorded channels. *)
Lemma bounded_keep {A} host (gop : Grant -> Grant * result GrantError A) :
  (forall g, recorded_channels (gop g).1 = recorded_channels g) ->
  bounded (with_registry env cfg (fun reg => grant_mut reg host gop)) anything.
Proof.
  intros Hk. apply bounded_grant_op; [|done]. intros g Hg. specialize (Hk g).
  destruct (gop g) as [g' [v|e]]; [|done]. cbn in Hk. by rewrite Hk.
Qed.

#[local] Existing Instance partially.

Lemma bounded_quiet {A} (m : M A) : quiet m -> bounded m anything.
Proof. intros Hq. apply bounded_same. intros s. by destruct (Hq s). Qed.

#[local] Hint Resolve bounded_ret bounded_log bounded_read bounded_expect bounded_expect_some
  bounded_with_deadman bounded_fault bounded_fatal : narrow.
#[local] Hint Resolve bounded_quiet : narrow.
#[local] Hint Resolve quiet_generate_nonce quiet_choose_profile quiet_progress partial_policy : narrow.

Ltac narrow := repeat first
  [ solve [eauto with narrow]
  | apply bounded_keep; intros; solve [apply keep_begin_pending | apply keep_renew]
  | apply bounded_seq; [|intros ?] 
  | match goal with |- forall _, bounded _ _ => intros ? end | case_goal ].

Lemma bounded_open host ttl prof now : bounded (open env cfg host ttl prof now) anything.
Proof. unfold open. narrow. Qed.

Lemma bounded_with_drivers {A} (f : DriverSet W -> option (DriverSet W * A)) (Q : A -> Prop) :
  (forall ds ds' a, f ds = Some (ds', a) -> Q a) -> bounded (with_drivers f) Q.
Proof.
  intros Hf s Hs. unfold with_drivers. destruct (f _) as [[ds a]|] eqn:E; [|done]. cbn. eauto.
Qed.

Lemma bounded_renew host ttl now : bounded (renew env cfg host ttl now) anything.
Proof.
  unfold renew, renew_tell. narrow; by apply bounded_with_drivers.
Qed.

Lemma bounded_retain host stuck :
  stuck ⊆ bound host ->
  bounded (with_registry env cfg (fun reg => Registry.retain_stuck reg host stuck)) anything.
Proof.
  intros Hst. apply bounded_grant_op; [|done]. intros g Hg; destruct g; try done; (split; [set_solver|done]).
Qed.

Lemma bounded_drive_one_revert host cs now :
  cs ⊆ bound host -> bounded (drive_one_revert env cfg host cs now) anything.
Proof.
  intros Hcs. unfold drive_one_revert. apply bounded_seq; [apply bounded_expect_some|]. intros hc.
  eapply bounded_bind.
  { apply (bounded_with_drivers _ (fun out => match out with Reverted => True
      | Stuck stuck => stuck.*1 ⊆ cs end)). intros ds ds' out [= E].
    destruct (revert_channels_spec ds hc cs) as (s' & out' & E' & _ & Ho).
    rewrite E' in E. simplify_eq. destruct out as [|stuck]; [done|].
    destruct Ho as (_ & Hsub & _). intros c Hc.
    rewrite in_rev_elem. by eapply elem_of_sublist. }
  intros [|stuck] Hout.
  - apply bounded_seq; [narrow|]. intros [fired|e].
    + apply bounded_seq; [|narrow]. apply bounded_grant_op; [|done]. intros g Hg; destruct g; try done; (split; [set_solver|done]).
    + apply bounded_seq; [by apply bounded_retain|narrow].
  - apply bounded_seq; [apply bounded_retain; set_solver|narrow].
Qed.

Lemma bounded_close host now : bounded (close env cfg host now) anything.
Proof.
  unfold close. apply bounded_seq; [apply bounded_read|]. intros r.
  assert (Hcan : bounded
    (let! x := with_registry env cfg (fun reg => Registry.cancel_pending reg host) in
     expect x ;! log env now (EvRequestCancelled host) ;!
     ret (response None (Some "cancelled") None None None None None) : M (Response Refusal)) anything).
  { apply bounded_seq; [|narrow]. apply bounded_grant_op; [|done]. intros g Hg; destruct g; try done; (split; [set_solver|done]). }
  assert (Hrev : forall k : result RegistryError (list Channel) -> M (Response Refusal),
    (forall x, match x with Ok cs => cs ⊆ bound host | Err _ => True end -> bounded (k x) anything) ->
    bounded (Daemon.bind (with_registry env cfg (fun reg => Registry.begin_revert reg host now)) k) anything).
  { intros k Hk. eapply bounded_bind; [|exact Hk]. apply bounded_grant_op; [|done].
    intros g Hg; destruct g; try done; (split; [set_solver|done]). }
  assert (Hk : forall x, match x with Ok cs => cs ⊆ bound host | Err _ => True end -> bounded
      (match x with
       | Err (EGrant NotOpen) => ret (response None (Some "already-closed") None None None None None)
       | Err refusal => ret (refused (RfRegistry refusal))
       | Ok cs =>
           let! outcome := drive_one_revert env cfg host cs now in
           match outcome with
           | PrClosed => ret (response None (Some "closed") None None None None None)
           | PrStuck stuck => ret (refused (RfCloseIncomplete host stuck))
           end
       end : M (Response Refusal)) anything).
  { intros [cs|e] Hx; [|narrow]. apply bounded_seq; [by apply bounded_drive_one_revert|narrow]. }
  destruct (Registry.status r host now) as [[]|]; try exact Hcan; by apply Hrev.
Qed.

(** The gate's view of a request and the handler's are the same. *)
Lemma pending_viewed r host now e :
  Registry.pending_view r host now = Err e -> exists e', Registry.pending r host now = Err e'.
Proof.
  unfold Registry.pending_view, Registry.pending. destruct (r !! host) as [g|]; [|eauto].
  unfold Grant.pending_view, Grant.pending_request.
  destruct (Grant.status g now); [..]; try (cbn; eauto; fail). destruct g; cbn; eauto. done.
Qed.

(** No profile of the policy allows MCP. *)
Definition closed_to_mcp : Prop :=
  forall model p, approval_policy cfg = Some model -> mcp_allowed model p = false.

Lemma read_registry_run (s : Sys W D V) :
  exists s' r, read_registry env cfg s = (s', r) /\ store s' = store s
    /\ forall reg, r = Ok reg -> load cfg (store s) = Ok reg.
Proof.
  unfold Lifecycle.read_registry, Daemon.read_registry, store_read, attempt_io, Daemon.bind, load.
  destruct (io_ok env (io s)); [|by do 2 eexists]. cbn. unfold lift.
  destruct (read_file (store s)) as [doc|]; cbn; [|by do 2 eexists].
  destruct (validate cfg doc); do 2 eexists; (split; [reflexivity|]); split; try done; cbn; congruence.
Qed.

Lemma mcp_approve_refused (Hclosed : closed_to_mcp) host token now (s : Sys W D V) :
  store (dispatch_from env cfg (OApprove host token) now Mcp s).1 = store s.
Proof.
  unfold dispatch_from. rewrite bool_decide_true by done. cbn [mcp_gate].
  assert (Hlog : forall e (s0 : Sys W D V), store (log env now e s0).1 = store s0).
  { intros e s0. unfold log, record_event, attempt_io, Daemon.bind. by destruct (io_ok env (io s0)). }
  assert (Href : forall e (x : Response Refusal) (s0 : Sys W D V),
    store ((log env now e ;! ret x) s0).1 = store s0).
  { intros e x s0. specialize (Hlog e s0). unfold Daemon.bind.
    by destruct (log env now e s0) as [s1 []]. }
  destruct (approval_policy cfg) as [model|] eqn:Hm; cbn [is_some_config negb]; [|apply Href].
  unfold pending_profile. destruct (read_registry_run s) as (s1 & r & E & Hs1 & Hr).
  unfold Daemon.bind at 1 2 3. rewrite E. destruct r as [reg|e]; [|done]. cbn [ret].
  specialize (Hr reg eq_refl).
  destruct (Registry.pending_view reg host now) as [v|e] eqn:Hv; cbn [mcp_profile_gate].
  - rewrite Hm. cbn [expect_some]. unfold Daemon.bind at 1. cbn [ret].
    rewrite (Hclosed _ (pv_profile v) Hm). cbn [ret]. by rewrite Href.
  - cbn [ret]. destruct (pending_viewed _ _ _ _ Hv) as [e' He']. unfold approve.
    destruct (read_registry_run s1) as (s2 & r2 & E2 & Hs2 & Hr2).
    unfold Daemon.bind at 1. rewrite E2. destruct r2 as [reg2|]; cbn [fst]; [|congruence].
    specialize (Hr2 reg2 eq_refl). rewrite Hs1, Hr in Hr2. simplify_eq. rewrite He'. cbn. congruence.
Qed.

Lemma bounded_mcp (Hclosed : closed_to_mcp) op now :
  bounded (dispatch_from env cfg op now Mcp) anything.
Proof.
  assert (Hdrill : forall host, bounded (dispatch_from env cfg (ODrill host) now Mcp) anything).
  { intros host.
    change (bounded (log env now (EvMcpRefused host RfMcpDrill) ;! ret (refused RfMcpDrill)
                     : M (Response Refusal)) anything). narrow. }
  destruct op; try (by apply bounded_same, mcp_approve_refused); try apply Hdrill;
    unfold dispatch_from; rewrite bool_decide_true by done; cbn [mcp_gate];
    unfold mcp_profile_gate, status; (apply bounded_seq; [narrow|]); (intros [reason|]; [narrow|]);
    auto using bounded_open, bounded_renew, bounded_close; narrow.
Qed.
End Narrow.

Section Session.
Context `{!RequestJson, !RequestJsonLaws, !RequestText, !ResponseJson} `{PrincipalKeys}.
Context `{DataEncoding} {W D V : Type}.
Context `{!ChannelDriver W, !DriverContract W, !DeadmanControl D, !ProofVerifier V}.
Context (env : Env) (cfg : Config) (show_refusal : Refusal -> string) (show_proto : ProtoError -> string).

(** A daemon whose clock reads [clock n] at the [n]-th connection. *)
Definition clocked_peer (clock : nat -> SystemTime) (sent : list Z) (t : nat * Sys W D V)
    : (nat * Sys W D V) * PeerResult :=
  let '(s', r) := daemon_peer env cfg show_refusal show_proto (clock t.1) Mcp sent t.2 in
  ((S t.1, s'), r).

Lemma peer_dispatches op now (s : Sys W D V) :
  let s' := (daemon_peer env cfg show_refusal show_proto now Mcp (request_bytes op) s).1 in
  s' = s \/ s' = (dispatch_from env cfg op now Mcp s).1.
Proof.
  cbn zeta. unfold daemon_peer.
  destruct (Z.le_gt_cases (str_len (encode_request op)) MAX_LINE_BYTES) as [Hle|Hgt].
  - right. pose proof (handle_request (W := W) (D := D) (V := V) env cfg Mcp op [] Eof now Hle) as Hh.
    rewrite app_nil_r in Hh. rewrite Hh. unfold Daemon.bind.
    by destruct (dispatch_from env cfg op now Mcp s) as [s' []].
  - left. pose proof line_cap_bytes as Hcap. unfold str_len in Hgt.
    assert (Hlen : (line_cap <= length (as_bytes (encode_request op)))%nat) by (rewrite length_as_bytes; lia).
    assert (Htake : take line_cap (request_bytes op) = take line_cap (as_bytes (encode_request op))).
    { unfold request_bytes. by apply take_app_le. }
    rewrite handle_oversized; cbn [bytes].
    + done.
    + apply Forall_app_2; [apply as_bytes_u8|]. constructor; [|done]. unfold is_u8, u8_max. lia.
    + unfold request_bytes. rewrite length_app. lia.
    + rewrite Htake. intros Hin. apply elem_of_take in Hin as (i & Hi & _).
      apply (as_bytes_without_lf (encode_request op) (print_no_lf _)). by eapply list_elem_of_lookup_2.
Qed.

#[local] Existing Instance partially.

(** What a session keeps: access is recorded, within the bound. *)
Definition kept (regs : gset Channel) (bound : string -> list Channel) (s : Sys W D V) : Prop :=
  Inv regs s /\ within bound (store s).

Lemma call_keeps regs bound (Hclosed : closed_to_mcp cfg) clock show_exchange op t :
  kept regs bound t.2 -> kept regs bound (socket_call (clocked_peer clock) show_exchange op t).1.2.
Proof.
  intros [Hi Hb]. unfold socket_call, roundtrip, clocked_peer.
  pose proof (peer_dispatches op (clock t.1) t.2) as Hp. cbn zeta in Hp.
  destruct (daemon_peer env cfg show_refusal show_proto (clock t.1) Mcp (request_bytes op) t.2)
    as [s' r]. cbn [fst snd] in *. destruct Hp as [->| ->]; [done|]. split.
  - apply (any_dispatch env cfg regs (partial_policy cfg) op (clock t.1) Mcp t.2 Hi I).
  - by apply (bounded_mcp env cfg bound Hclosed op (clock t.1) t.2 Hb).
Qed.

Lemma session_keeps regs bound (Hclosed : closed_to_mcp cfg) clock show_exchange sign from_str write_ok
    reads k t :
  kept regs bound t.2 ->
  kept regs bound (stdio_loop (clocked_peer clock) show_exchange from_str sign write_ok reads k t).1.1.2.
Proof.
  assert (Hline : forall line t, kept regs bound t.2 -> kept regs bound
    (handle_line (socket_call (clocked_peer clock) show_exchange) sign from_str line t).1.2).
  { intros line t0. set (R := fun a b : nat * Sys W D V => kept regs bound a.2 -> kept regs bound b.2).
    assert (PreOrder R) by (split; unfold R; [by intros a|intros a b c Hab Hbc Ha; auto]).
    apply (handle_line_stays _ sign from_str R). intros op t1 _ Hk. by apply call_keeps. }
  revert k t. induction reads as [|[line|] reads IH]; intros k t Hk; cbn [stdio_loop]; [done| |done].
  specialize (Hline line t Hk). destruct (handle_line _ _ _ line t) as [t' [response|]]; [|by apply IH].
  destruct (write_ok k); cbn [negb]; [|done]. specialize (IH (S k) t' Hline).
  by destruct (stdio_loop _ _ _ _ _ reads (S k) t') as [[t'' out] r].
Qed.

End Session.

(** ** The principal's factor *)

(** The principal's signature counts.  A token the MCP server signs for
    a request's challenge is accepted as a proof by the daemon whose policy
    holds, as an [ed25519] authenticator, the line the server prints under
    [--show-public-key]; the ledgers are untouched. *)
Theorem principal_factor_accepted `{DataEncoding, PrincipalKeys, !PrincipalKeysLaws}
    (io_ok : nat -> bool) (sec : Secrets) (model : AuthorityModel) (request : ApprovalRequest)
    (now : SystemTime) (l : Ledgers) (key : PrivateKey) (line token id : string) (pk : SshPublicKey)
    (Hline : Signer.public_openssh key = Ok line) (Hpk : ssh_from_openssh (trim line) = Ok pk)
    (Hauth : authenticators model !! id = Some (Ed25519 pk))
    (Htoken : Signer.sign_challenge key (challenge_string request) = Ok token) :
  exists id', judge_proof io_ok sec model request token now l = (l, Ok (Ok id')).
Proof.
  unfold Signer.public_openssh in Hline. destruct (public_to_openssh (public_key_of key)) as [line'|] eqn:El;
    [|done]. cbn in Hline. simplify_eq. rewrite (public_read_back _ _ El) in Hpk. simplify_eq.
  unfold Signer.sign_challenge in Htoken.
  destruct (private_sign key _ _) as [sig|] eqn:Es; [|done]. cbn in Htoken.
  destruct (sshsig_to_pem sig) as [pem|] eqn:Ep; [|done]. cbn in Htoken. simplify_eq.
  unfold judge_proof. rewrite (pem_marked _ _ Ep). unfold verify_ed25519.
  rewrite (pem_read_back _ _ Ep). cbn [map_err]. rewrite (signed_namespace _ _ _ _ Es).
  rewrite bool_decide_eq_true_2 by done. cbn [negb]. set (cands := of_kind _ model).
  assert (Hin : (id, public_key_of key) ∈ cands).
  { apply elem_of_of_kind. exists (Ed25519 (public_key_of key)). split; [done|].
    by rewrite (signed_by _ _ _ _ Es). }
  destruct cands as [|[id' pk'] rest] eqn:Ec; [by apply not_elem_of_nil in Hin|]. cbn [head ok_or].
  assert (Hp : (id', pk') ∈ cands) by (rewrite Ec; left).
  apply elem_of_of_kind in Hp as (a & _ & Ha). destruct a as [pk0| | | | |]; try done.
  destruct (sshsig_signer pk0 sig) eqn:Esg; [|done]. simplify_eq.
  rewrite (signed_verifies _ _ _ _ _ Es Esg). by exists id'.
Qed.

(** ** Witnesses *)

#[local] Existing Instance RefFactors.

(** Keys that are their own signatures. *)
#[local] Instance RefPrincipal : PrincipalKeys := {|
  PrivateKey := string;
  private_from_openssh s := Ok s;
  is_encrypted _ := false;
  private_sign key ns _ := if String.eqb ns APPROVAL_NAMESPACE then Ok key else Err "namespace";
  sshsig_to_pem sig :=
    if starts_with SSHSIG_BEGIN (trim sig) && String.eqb (trim sig) sig then Ok sig else Err "pem";
  public_key_of key := key;
  public_to_openssh pk := if String.eqb (trim pk) pk then Ok pk else Err "key";
|}.

#[local] Instance RefPrincipalLaws : PrincipalKeysLaws.
Proof.
  split; cbn; intros; repeat case_match; simplify_eq; try done.
  - by apply andb_true_iff in H0 as [? _].
  - apply andb_true_iff in H0 as [_ E%String.eqb_eq]. by rewrite E.
  - by apply String.eqb_eq in H0.
  - by apply bool_decide_eq_true.
  - apply String.eqb_eq in H0. by rewrite H0.
Qed.

Definition principal : string := SSHSIG_BEGIN.
Definition principal_private : PrivateKey := principal.
Definition principal_public : SshPublicKey := principal.
Definition principal_model : AuthorityModel :=
  {| authenticators := {["claude" := Ed25519 principal]}; groups := ∅; profiles := ∅; mcp_profiles := ∅ |}.

Lemma principal_factor_accepted_witness :
  exists id', judge_proof always demo_secrets principal_model demo_request principal demo_now fresh_ledgers
              = (fresh_ledgers, Ok (Ok id')).
Proof.
  apply (principal_factor_accepted always demo_secrets principal_model demo_request demo_now fresh_ledgers
           principal_private principal principal "claude" principal_public); vm_compute; reflexivity.
Defined.

Definition door_run (s : Sys Scripts unit unit) :=
  main (clocked_peer demo_env (demo_cfg (Some closed_door)) (fun _ => "refused") (fun _ => "bad request")
          (fun n => Clock.from_secs (Z.of_nat n)))
    (fun _ => "no daemon") (fun _ => "no key") canned (fun _ => Some principal) (fun _ => true) "key" false
    [Line "open"; Line "note"; ReadFailed] (0%nat, s).

