(* ===== verification/Client.v ===== *)
(** * Client: the operator's command (cli/src/main.rs)

    Every subcommand of [lychgate]: the ones that talk to the daemon, and the
    local utilities for passwords, FIDO2 keys and the TPM.  The features of
    the build, the security key, the TPM and the X.509 parser are what the
    environment and the interfaces answer; a line printed is a constructor
    with what it is formatted from. *)

From stdpp Require Import relations.
From S2P Require Import Prelude Text TextLines Line Clock Ttl External Reference Approval Authority Inventory DriverMonad Channel ScriptedDrivers Registry Proto Mcp Factors Ledgers Daemon Proofs Provers Lifecycle LifecycleProps Listener Exchange.
#[local] Open Scope Z_scope.

#[export] Instance Alg_eq_dec : EqDecision Alg.
Proof. solve_decision. Defined.

(** ** The command line *)

Inductive Command :=
| COpen (host ttl : string) (profile : option string)
| CApprove (host : string) (token token_file : option string)
| CRenew (host ttl : string)
| CClose (host : string)
| CStatus
| CDrill (host : string)
| CHashPassword
| CTpmProbe (tcti : string)
| CTpmRegister (tcti : string)
| CTpmSign (challenge tcti : string)
| CTpmSeal (file tcti : string)
| CFido2Register (alg : string) (software_key pin : option string)
| CFido2Assert (challenge : string) (software_key credential_id pin : option string).

Inductive ExitCode := SUCCESS | FAILURE.

Inductive CliError :=
| CeTtl (e : TtlError)
| CeReadFile (path : string) | CeStdin
| CeExchange (e : ExchangeError)
| CeNoPassword | CeUrandom
| CePassword (e : PasswordError)
| CeUnknownAlg (alg : string)
| CeKeyFileNotBase64 (what : string)
| CeOtherAlg (path : string) (alg : Alg)
| CeFido2 (e : Fido2Error)
| CeWrite (path : string) | CeChmod (path : string)
| CeNoTpmSupport | CeTpm (text : string)
| CeNoHardware | CeNoAuthenticator (text : string) | CeMakeCredential (text : string)
| CeGetAssertion (text : string)
| CeDerTooShort (len : Z) (alg : Alg) | CeKeyDidNotParse (e : Fido2Error)
| CeAttestationFormat (fmt : string) | CeCertificate (text : string) | CeNoKeyBits
| CeAttestation (text : string)
| CeNeedCredentialId | CeCredentialIdNotBase64.

(** What is printed. *)
Inductive Out :=
| OText (s : string)
| OToken (token : string)
| OPhc (phc : string)
| OGrantOpen (host : string) (expires : Z)
| OOutcome (outcome : string)
| OSecret (label secret : string)
| ONarrowing (c : Channel) (host : string)
| OApprovalRequired (host profile ttl : string) (within : Z)
| OWeightSoFar (weight threshold : Z) (missing : list MissingLabel)
| OChallenge (challenge : string)
| OSignIt (challenge : string)
| OThenApprove (host : string)
| OProofAccepted (host : string) (weight threshold : Z)
| OOutstanding (missing : list MissingLabel)
| OSubmitMore
| ORenewed (host : string) (expires : Z)
| OClosed (host : string) | OAlreadyClosed (host : string) | OCloseOutcome (host outcome : string)
| OGrantState (host state : string) (detail : option string)
| ONeedsRevert (host : string) (channels : list Channel)
| OFido2Block (alg credential_id public_key : string)
| OTpmBlock (public_key : string)
| OTpmReport (tcti manufacturer public_key : string)
| OErr (e : CliError)
| ORefused (reason : string).

Definition padded2 (n : Z) : string := if n <? 10 then "0" +:+ dec_u64 n else dec_u64 n.

Definition human (secs : Z) : string :=
  if 3600 <=? secs then dec_u64 (secs / 3600) +:+ "h" +:+ padded2 (secs mod 3600 / 60) +:+ "m"
  else if 60 <=? secs then dec_u64 (secs / 60) +:+ "m" +:+ padded2 (secs mod 60) +:+ "s"
  else dec_u64 secs +:+ "s".

(** ** The machine the command runs on *)

(** How [fs::write] ends; a failure leaves what it leaves. *)
Inductive Written := WrittenOk | WriteFailed (leftover : option string).

(** A created credential and an assertion, as the CTAP crate gives them. *)
Record Attestation := {
  att_fmt : string;
  att_auth_data : list Z;
  att_aaguid : list Z;
  att_alg : Z;
  att_sig : list Z;
  att_x5c : list (list Z);
  att_credential_id : list Z;
  att_public_der : list Z;
}.
Record Assertion := { as_cred_id : list Z; as_auth_data : list Z; as_sig : list Z }.

(** The environment: the [n]-th call of each kind. *)
Record Machine := {
  stdin : option string;
  urandom_bytes : nat -> nat -> option (list Z);
  fs_write : nat -> string -> Written;
  chmod : nat -> string -> bool;
  open_key : nat -> result string unit;
  make_credential : nat -> Alg -> option string -> result string Attestation;
  get_assertion : nat -> list Z -> list Z -> option string -> result string Assertion;
  tpm_probe_answer : nat -> string -> result string (string * string);
  tpm_ctx : nat -> string -> result string unit;
  tpm_public : nat -> result string (list Z);
  tpm_signature : nat -> string -> result string (list Z);
  tpm_sealed : nat -> list Z -> result string string;
}.

(** [x509_cert]: the key bits and the subject of a certificate. *)
Class X509 := { certificate_from_der : list Z -> result string (option (list Z) * string) }.

Record Station (T : Type) := {
  files : gmap string string;
  calls : nat;
  printed : list Out;
  link : T;
}.
Arguments files {T} _.
Arguments calls {T} _.
Arguments printed {T} _.
Arguments link {T} _.

Section Cli.
Context `{DataEncoding, FactorSigners, X509, RequestJson, ResponseJson}.
Context {T : Type} (peer : list Z -> T -> T * PeerResult).
Context (host_env : Machine) (fido2_client tpm_client : bool).

Definition CM (A : Type) : Type := eff (Station T) CliError A.

Definition print (o : Out) : CM unit := fun s =>
  ({| files := files s; calls := calls s; printed := printed s ++ [o]; link := link s |}, Ok tt).

Fixpoint print_all (os : list Out) : CM unit :=
  match os with [] => eret tt | o :: os => print o ;& print_all os end.

(** One call to the environment. *)
Definition ask {A} (answer : nat -> result CliError A) : CM A := fun s =>
  ({| files := files s; calls := S (calls s); printed := printed s; link := link s |},
   map_err Refused (answer (calls s))).

Definition read_to_string (path : string) : CM string := fun s =>
  (s, ok_or (files s !! path) (Refused (CeReadFile path))).

Definition read_stdin : CM string := fun s => (s, ok_or (stdin host_env) (Refused CeStdin)).

Definition read_urandom (n : nat) : CM (list Z) :=
  ask (fun k => ok_or (urandom_bytes host_env k n) CeUrandom).

Definition write_file (path body : string) : CM unit := fun s =>
  let s' f := {| files := f; calls := S (calls s); printed := printed s; link := link s |} in
  match fs_write host_env (calls s) path with
  | WrittenOk => (s' (<[path := body]> (files s)), Ok tt)
  | WriteFailed leftover =>
      (s' (match leftover with
           | Some l => <[path := l]> (files s)
           | None => files s
           end), Err (Refused (CeWrite path)))
  end.

Definition set_mode (path : string) : CM unit :=
  ask (fun k => if chmod host_env k path then Ok tt else Err (CeChmod path)).

(** *** Passwords *)

Definition hash_password_cmd : CM ExitCode :=
  let& input := read_stdin in
  let password := trim input in
  erequire (negb (str_is_empty password)) CeNoPassword ;&
  let& salt := read_urandom 16 in
  let& phc := elift (map_err CePassword (password_hash password salt)) in
  print (OPhc phc) ;&
  eret SUCCESS.

(** *** The software key *)

Definition parse_alg (s : string) : result CliError Alg :=
  if String.eqb s "es256" then Ok Es256
  else if String.eqb s "eddsa" then Ok EdDsa
  else Err (CeUnknownAlg s).

Definition decode_field (s : option string) (what : string) : result CliError (list Z) :=
  ok_or (base64url_decode (trim (default "" s))) (CeKeyFileNotBase64 what).

Definition read_softkey (path : string) : CM (Alg * list Z * list Z) :=
  let& text := read_to_string path in
  let ls := lines text in
  let& alg := elift (parse_alg (trim (default "" (ls !! 0%nat)))) in
  let& cred_id := elift (decode_field (ls !! 1%nat) "credential-id") in
  let& priv_key := elift (decode_field (ls !! 2%nat) "private key") in
  eret (alg, cred_id, priv_key).

(** The retry loop: another candidate until one is a key. *)
Fixpoint draw_key (fuel : nat) (alg : Alg) : CM (list Z) :=
  match fuel with
  | O => fun s => (s, Err OutOfFuel)
  | S fuel =>
      let& candidate := read_urandom 32 in
      match fido2_public_key alg candidate with
      | Ok _ => eret candidate
      | Err _ => draw_key fuel alg
      end
  end.

Definition softkey_body (alg_str : string) (cred_id priv_key : list Z) : string :=
  alg_str +:+ nl +:+ base64url_encode cred_id +:+ nl +:+ base64url_encode priv_key +:+ nl.

Definition create_softkey (fuel : nat) (alg : Alg) (alg_str path : string) : CM (list Z * list Z) :=
  let& priv_key := draw_key fuel alg in
  let& cred_id := read_urandom 16 in
  write_file path (softkey_body alg_str cred_id priv_key) ;&
  set_mode path ;&
  eret (cred_id, priv_key).

Definition software_register (fuel : nat) (alg : Alg) (alg_str path : string) : CM (list Z * list Z) :=
  let& exists_ := (fun s => (s, Ok (bool_decide (is_Some (files s !! path))))) in
  let& key_pair :=
    (if exists_ : bool then
       let& found := read_softkey path in
       let '(existing_alg, cred_id, priv_key) := found in
       erequire (bool_decide (existing_alg = alg)) (CeOtherAlg path existing_alg) ;&
       eret (cred_id, priv_key)
     else
       create_softkey fuel alg alg_str path) in
  let& public := elift (map_err CeFido2 (fido2_public_key alg key_pair.2)) in
  eret (key_pair.1, public).
(** *** The hardware key (the [fido2-client] build) *)

Definition REGISTER_CHALLENGE : string := "lychgate-fido2-register".

Definition open_device : CM unit :=
  ask (fun k => map_err CeNoAuthenticator (open_key host_env k)).

(** The tail of a SubjectPublicKeyInfo. *)
Definition extract_public_key (alg : Alg) (der : list Z) : result CliError (list Z) :=
  let n := match alg with Es256 => 65%nat | EdDsa => 32%nat end in
  if (length der <? n)%nat then Err (CeDerTooShort (Z.of_nat (length der)) alg)
  else Ok (drop (length der - n) der).

(** [hw::verify_sig]: a COSE algorithm over a raw key. *)
Definition verify_sig (alg : Z) (public_key message signature : list Z) : result string unit :=
  if alg =? -7 then
    let? _ := map_err (fun e => "es256 attestation key: " +:+ e) (p256_from_sec1 public_key) in
    let? sig := map_err (fun e => "es256 attestation signature: " +:+ e) (ecdsa_from_der signature) in
    if ecdsa_verify public_key message sig then Ok tt else Err "signature error"
  else if alg =? -8 then
    if negb (Nat.eqb (length public_key) 32) then Err "eddsa attestation key is not 32 bytes"
    else
      let? _ := map_err (fun e => "eddsa attestation key: " +:+ e) (ed25519_from_bytes public_key) in
      let? sig := map_err (fun e => "eddsa attestation signature: " +:+ e) (eddsa_from_slice signature) in
      if eddsa_verify public_key message sig then Ok tt else Err "signature error"
  else Err "unsupported attestation algorithm".

(** A byte as two lower-case digits. *)
Definition hex2 (b : Z) : string :=
  let digit v := ascii_of_byte (if v <? 10 then 48 + v else 87 + v) in
  String (digit (b / 16)) (String (digit (b mod 16)) "").
Definition hex_join (bs : list Z) : string := foldr (fun b s => hex2 b +:+ s) "" bs.

Definition format_aaguid (aaguid : list Z) : string :=
  if negb (Nat.eqb (length aaguid) 16)
  then "(unexpected " +:+ dec_u64 (Z.of_nat (length aaguid)) +:+ " bytes)"
  else
    let part from to_ := hex_join (take (to_ - from) (drop from aaguid)) in
    part 0%nat 4%nat +:+ "-" +:+ part 4%nat 6%nat +:+ "-" +:+ part 6%nat 8%nat +:+ "-"
    +:+ part 8%nat 10%nat +:+ "-" +:+ part 10%nat 16%nat.

Definition verify_attestation (att : Attestation) (credential_public : list Z)
    : result CliError (list string) :=
  let message := att_auth_data att ++ factor_sha256 (as_bytes REGISTER_CHALLENGE) in
  let aaguid := "# aaguid: " +:+ format_aaguid (att_aaguid att) in
  if String.eqb (att_fmt att) "none" then
    Ok [aaguid; "# attestation: none (the authenticator attests nothing)"]
  else if negb (String.eqb (att_fmt att) "packed") then Err (CeAttestationFormat (att_fmt att))
  else
    match att_x5c att with
    | leaf :: _ =>
        let? cert := map_err CeCertificate (certificate_from_der leaf) in
        let? spki := ok_or cert.1 CeNoKeyBits in
        let? _ := map_err CeAttestation (verify_sig (att_alg att) spki message (att_sig att)) in
        Ok [aaguid; "# attestation: packed, verified against the device certificate (subject: "
                      +:+ cert.2 +:+ ")"]
    | [] =>
        let? _ := map_err CeAttestation
                    (verify_sig (att_alg att) credential_public message (att_sig att)) in
        Ok [aaguid; "# attestation: packed self-attestation, verified"]
    end.

(** [hw::register] and [hw::assert], behind the feature. *)
Definition hardware_register (alg : Alg) (pin : option string) : CM (list Z * list Z * list string) :=
  if negb fido2_client then efail CeNoHardware
  else
    open_device ;&
    let& att := ask (fun k => map_err CeMakeCredential (make_credential host_env k alg pin)) in
    let& public := elift (extract_public_key alg (att_public_der att)) in
    elift (map_err (fun e => CeKeyDidNotParse (F2UnsupportedKey e)) (fido2_check_public_key alg public)) ;&
    let& report := elift (verify_attestation att public) in
    eret (att_credential_id att, public, report).

Definition hardware_assert (challenge : string) (credential_id : list Z) (pin : option string) : CM string :=
  if negb fido2_client then efail CeNoHardware
  else
    open_device ;&
    let cdj := client_data_json challenge in
    let& a := ask (fun k => map_err CeGetAssertion (get_assertion host_env k cdj credential_id pin)) in
    eret (fido2_assemble_token (as_cred_id a) (as_auth_data a) cdj (as_sig a)).

(** *** The FIDO2 commands *)

Definition fido2_register (fuel : nat) (alg_str : string) (software_key pin : option string) : CM ExitCode :=
  let& alg := elift (parse_alg alg_str) in
  let& found :=
    match software_key with
    | Some path =>
        let& p := software_register fuel alg alg_str path in
        eret (p.1, p.2, ["# software authenticator (no attestation to verify)"])
    | None => hardware_register alg pin
    end in
  let '(cred_id, public, provenance) := found in
  print_all (OText <$> provenance) ;&
  print (OFido2Block alg_str (base64url_encode cred_id) (base64url_encode public)) ;&
  eret SUCCESS.

Definition fido2_assert (challenge : string) (software_key credential_id pin : option string) : CM ExitCode :=
  let& token :=
    match software_key with
    | Some path =>
        let& key := read_softkey path in
        let '(alg, cred_id, priv_key) := key in
        elift (map_err CeFido2 (build_assertion alg priv_key cred_id challenge))
    | None =>
        let& cred_id_b64 := esome credential_id CeNeedCredentialId in
        let& cred_id := esome (base64url_decode (trim cred_id_b64)) CeCredentialIdNotBase64 in
        hardware_assert challenge cred_id pin
    end in
  print (OToken token) ;&
  eret SUCCESS.

(** *** The TPM commands (the [tpm-client] build) *)

Definition with_tpm (m : CM ExitCode) : CM ExitCode :=
  if tpm_client then m else efail CeNoTpmSupport.

Definition tpm_context (tcti : string) : CM unit := ask (fun k => map_err CeTpm (tpm_ctx host_env k tcti)).

Definition tpm_probe (tcti : string) : CM ExitCode := with_tpm (
  let& report := ask (fun k => map_err CeTpm (tpm_probe_answer host_env k tcti)) in
  print (OTpmReport tcti report.1 report.2) ;& eret SUCCESS).

Definition tpm_register (tcti : string) : CM ExitCode := with_tpm (
  tpm_context tcti ;&
  let& public := ask (fun k => map_err CeTpm (tpm_public host_env k)) in
  print (OTpmBlock (base64url_encode public)) ;& eret SUCCESS).

Definition tpm_sign_cmd (challenge tcti : string) : CM ExitCode := with_tpm (
  tpm_context tcti ;&
  let& der := ask (fun k => map_err CeTpm (tpm_signature host_env k challenge)) in
  print (OToken (tpm_assemble_token der)) ;& eret SUCCESS).

Definition tpm_seal (file tcti : string) : CM ExitCode := with_tpm (
  let& data := read_to_string file in
  tpm_context tcti ;&
  let& blob := ask (fun k => map_err CeTpm (tpm_sealed host_env k (as_bytes data))) in
  print (OText blob) ;& eret SUCCESS).
(** *** The daemon's commands *)

(** The request of a command, its TTL checked before anything is sent;
    [None] for a local one. *)
Definition op_of (cmd : Command) : CM (option Op) :=
  match cmd with
  | COpen host ttl profile =>
      elift (map_err CeTtl (Ttl.parse ttl)) ;& eret (Some (OOpen host ttl profile))
  | CApprove host token token_file =>
      let& tok := match token, token_file with
                  | Some t, _ => eret t
                  | None, Some f => let& text := read_to_string f in eret (trim text)
                  | None, None => let& text := read_stdin in eret (trim text)
                  end in
      eret (Some (OApprove host tok))
  | CRenew host ttl =>
      elift (map_err CeTtl (Ttl.parse ttl)) ;& eret (Some (ORenew host ttl))
  | CClose host => eret (Some (OClose host))
  | CStatus => eret (Some OStatus)
  | CDrill host => eret (Some (ODrill host))
  | _ => eret None
  end.

Definition exchange (op : Op) : CM Answer := fun s =>
  let '(t, r) := roundtrip peer op (link s) in
  ({| files := files s; calls := calls s; printed := printed s; link := t |},
   map_err (fun e => Refused (CeExchange e)) r).

Definition opened_lines (host : string) (r : Answer) : list Out :=
  [OGrantOpen host (default 0 (rs_expires_at r))]
  ++ match rs_outcome r with Some o => [OOutcome o] | None => [] end
  ++ match rs_secret r with
     | Some secret => [OSecret (default "break-glass BMC password" (rs_secret_label _ r)) secret]
     | None => []
     end
  ++ ((fun n => ONarrowing n.1 n.2) <$> default [] (rs_narrowings _ r)).

Definition grant_line (g : GrantLine) : Out :=
  let plain state := OGrantState (gl_host g) state None in
  match gl_state g, gl_remaining_secs g with
  | LOpen, Some secs => OGrantState (gl_host g) "open" (Some (human secs +:+ " remaining"))
  | LOpen, None => plain "open"
  | LAwaitingApproval, Some secs =>
      OGrantState (gl_host g) "awaiting-approval" (Some (human secs +:+ " to approve"))
  | LAwaitingApproval, None => plain "awaiting-approval"
  | LApprovalExpired, _ => plain "approval-expired"
  | LOpening, _ => plain "opening"
  | LClosed, _ => plain "closed"
  | LExpired, _ => OGrantState (gl_host g) "expired" (Some "revert pending")
  | LNeedsRevert, _ => ONeedsRevert (gl_host g) (default [] (gl_stuck_channels g))
  end.

(** What an accepted response prints. *)
Definition report_lines (cmd : Command) (r : Answer) : list Out :=
  match cmd with
  | COpen host _ _ =>
      match rs_pending r with
      | Some p =>
          [OApprovalRequired host (pc_profile p) (human (pc_ttl_secs p))
             (saturating_sub64 (pc_approval_deadline p) (pc_requested_at p));
           OWeightSoFar (pc_weight p) (pc_threshold p) (pc_missing p);
           OChallenge (pc_challenge p); OSignIt (pc_challenge p); OThenApprove host]
      | None => opened_lines host r
      end
  | CApprove host _ _ =>
      match rs_pending r with
      | Some p =>
          [OProofAccepted host (pc_weight p) (pc_threshold p)]
          ++ (if bool_decide (length (pc_missing p) = 0%nat) then [] else [OOutstanding (pc_missing p)])
          ++ [OSubmitMore]
      | None => opened_lines host r
      end
  | CRenew host _ => [ORenewed host (default 0 (rs_expires_at r))]
  | CClose host =>
      match rs_outcome r with
      | Some outcome =>
          if String.eqb outcome "closed" then [OClosed host]
          else if String.eqb outcome "already-closed" then [OAlreadyClosed host]
          else [OCloseOutcome host outcome]
      | None => [OCloseOutcome host "(no outcome)"]
      end
  | CStatus => grant_line <$> default [] (rs_grants r)
  | CDrill _ => [OOutcome (default "drill passed" (rs_outcome r))]
  | _ => []
  end.

Definition local_command (fuel : nat) (cmd : Command) : option (CM ExitCode) :=
  match cmd with
  | CHashPassword => Some hash_password_cmd
  | CTpmProbe tcti => Some (tpm_probe tcti)
  | CTpmRegister tcti => Some (tpm_register tcti)
  | CTpmSign challenge tcti => Some (tpm_sign_cmd challenge tcti)
  | CTpmSeal file tcti => Some (tpm_seal file tcti)
  | CFido2Register alg software_key pin => Some (fido2_register fuel alg software_key pin)
  | CFido2Assert challenge software_key credential_id pin =>
      Some (fido2_assert challenge software_key credential_id pin)
  | _ => None
  end.

Definition run (fuel : nat) (cmd : Command) : CM ExitCode :=
  match local_command fuel cmd with
  | Some m => m
  | None =>
      let& op := op_of cmd in
      let& op := eexpect op in
      let& response := exchange op in
      match rs_result response with
      | RsRefused =>
          print (ORefused (default "(no reason given)" (rs_error response))) ;& eret FAILURE
      | RsOk => print_all (report_lines cmd response) ;& eret SUCCESS
      end
  end.

(** [main]: an error is printed and the exit code tells. *)
Definition main (fuel : nat) (cmd : Command) (s : Station T) : Station T * result (Fault CliError) ExitCode :=
  match run fuel cmd s with
  | (s', Err (Refused e)) => ((print (OErr e) s').1, Ok FAILURE)
  | out => out
  end.
End Cli.

(** ** The software key, from registration to approval *)

Section SoftKey.
Context `{DataEncodingLaws, FactorSigners, !FactorCryptoLaws, !FactorSignersLaws}.
Context {T : Type} (m : Machine).
Context (Hrandom : forall k n bs, urandom_bytes m k n = Some bs -> Forall is_u8 bs).
Implicit Types st : Station T.

Lemma base64url_without c s :
  is_base64url_char c = false -> str_forall is_base64url_char s = true -> without c s = true.
Proof.
  intros Hc. apply str_forall_impl. intros a Ha. apply negb_true_iff, bool_decide_eq_false.
  intros ->. by rewrite Hc in Ha.
Qed.

Lemma base64url_clean bs : Forall is_u8 bs -> clean (base64url_encode bs).
Proof.
  intros Hu. split; [|apply strip_cr_unix]; apply base64url_without;
    try apply base64url_encode_alphabet; done.
Qed.

Lemma parse_alg_clean s alg : parse_alg s = Ok alg -> clean s /\ trim s = s.
Proof.
  unfold parse_alg. destruct (String.eqb_spec s "es256") as [->|_]; [by vm_compute|].
  destruct (String.eqb_spec s "eddsa") as [->|_]; [by vm_compute|done].
Qed.

(** What was written is what is read. *)
Lemma read_written_softkey path alg_str alg cid priv st :
  parse_alg alg_str = Ok alg -> Forall is_u8 cid -> Forall is_u8 priv ->
  files st !! path = Some (softkey_body alg_str cid priv) ->
  read_softkey path st = (st, Ok (alg, cid, priv)).
Proof.
  intros Halg Hcid Hpriv Hf. destruct (parse_alg_clean _ _ Halg) as [Hc Ht].
  assert (Hl : lines (softkey_body alg_str cid priv)
    = [alg_str; base64url_encode cid; base64url_encode priv]).
  { assert (Hall : Forall clean [alg_str; base64url_encode cid; base64url_encode priv])
      by (rewrite !Forall_cons; auto using base64url_clean, Forall_nil_2).
    rewrite <-(lines_unlines _ Hall). unfold softkey_body, nl. cbn [unlines].
    by rewrite ?str_app_assoc. }
  unfold read_softkey, read_to_string, ebind at 1. rewrite Hf. cbn [ok_or]. rewrite Hl.
  unfold ebind, elift, decode_field. cbn [lookup list_lookup default]. cbn -[base64url_encode trim].
  rewrite Ht, Halg. cbn -[base64url_encode trim].
  rewrite !trim_base64url by by apply base64url_encode_alphabet.
  by rewrite !base64url_decode_encode.
Qed.

Lemma draw_key_Ok fuel alg st priv :
  (draw_key m fuel alg st).2 = Ok priv ->
  Forall is_u8 priv /\ exists public, fido2_public_key alg priv = Ok public.
Proof.
  revert st. induction fuel as [|fuel IH]; intros st; [done|]. cbn [draw_key].
  intros (c & Hc & Hk & _)%ebind_Ok. unfold read_urandom, ask in Hc. cbn in Hc.
  destruct (urandom_bytes m (calls st) 32) as [bs|] eqn:Eu; [|done]. cbn in Hc. injection Hc as <-.
  destruct (fido2_public_key alg bs) as [public|] eqn:Ep; [|by eapply IH].
  unfold eret in Hk. cbn in Hk. injection Hk as <-. split; [by eapply Hrandom|eauto].
Qed.
Lemma create_softkey_Ok fuel alg alg_str path st cid priv :
  (create_softkey m fuel alg alg_str path st).2 = Ok (cid, priv) ->
  Forall is_u8 cid /\ Forall is_u8 priv
  /\ files (create_softkey m fuel alg alg_str path st).1 !! path = Some (softkey_body alg_str cid priv).
Proof.
  unfold create_softkey. intros Hnew.
  apply ebind_Ok in Hnew as (priv' & Hd & Hnew & ->). apply ebind_Ok in Hnew as (cid' & Hc & Hnew & ->).
  apply ebind_Ok in Hnew as (? & Hw & Hnew & ->). apply ebind_Ok in Hnew as (? & Hm & Hnew & ->).
  unfold eret in Hnew. cbn in Hnew. simplify_eq. apply draw_key_Ok in Hd as [Hpu _].
  unfold read_urandom, ask in Hc. cbn in Hc.
  destruct (urandom_bytes m _ 16) as [bs|] eqn:Eu; [|done]. cbn in Hc. simplify_eq.
  split; [by eapply Hrandom|]. split; [done|].
  revert Hw. unfold write_file. destruct (fs_write m _ path); [|done]. intros _. cbn.
  apply lookup_insert_eq.
Qed.

Lemma new_softkey_on_disk fuel alg alg_str path st st' cid public :
  files st !! path = None ->
  software_register m fuel alg alg_str path st = (st', Ok (cid, public)) ->
  exists priv, Forall is_u8 cid /\ Forall is_u8 priv /\ fido2_public_key alg priv = Ok public
    /\ files st' !! path = Some (softkey_body alg_str cid priv).
Proof.
  intros Hnone Hrun. assert (Hr := f_equal snd Hrun). apply (f_equal fst) in Hrun. cbn [fst snd] in Hrun, Hr.
  subst st'. unfold software_register in Hr |- *. rewrite (ebind_eq _ _ st _ _ eq_refl) in Hr |- *.
  rewrite bool_decide_eq_false_2 in Hr |- * by (rewrite Hnone; by intros [? ?]).
  apply ebind_Ok in Hr as ([cid' priv] & Hnew & Hr & ->).
  apply ebind_Ok in Hr as (pk & Hp%elift_Ok & Hr & ->). unfold eret in Hr. cbn in Hp, Hr.
  destruct (fido2_public_key alg priv) as [pk'|] eqn:Epk; simplify_eq/=.
  apply create_softkey_Ok in Hnew as (? & ? & ?). by exists priv.
Qed.

(** The drawn keys are tried one after the other: with a good one among the
    first [fuel], the loop ends. *)
Lemma draw_key_ends fuel alg st :
  (exists k, (k < fuel)%nat /\ match urandom_bytes m (calls st + k) 32 with
                              | Some c => exists pk, fido2_public_key alg c = Ok pk
                              | None => True
                              end) ->
  (draw_key m fuel alg st).2 <> Err OutOfFuel.
Proof.
  revert st. induction fuel as [|fuel IH]; intros st (k & Hk & Hgood); [lia|].
  cbn [draw_key]. unfold ebind, read_urandom, ask. cbn.
  destruct (urandom_bytes m (calls st) 32) as [c|] eqn:Eu; [|done]. cbn.
  destruct (fido2_public_key alg c) as [pk|] eqn:Ep; [done|]. apply IH. cbn.
  destruct k as [|k].
  - rewrite Nat.add_0_r, Eu, Ep in Hgood. by destruct Hgood.
  - exists k. split; [lia|]. by replace (S (calls st + k)) with (calls st + S k)%nat by lia.
Qed.
End SoftKey.

(** A software key registered with the command approves with the
    command.  After [fido2-register] created the key file and the printed
    block was configured, [fido2-assert] on a request's challenge reads the
    file back, prints one token and succeeds, and the daemon, with its ledgers
    readable and no counter recorded for the credential, accepts that token
    for the request. *)
Theorem software_key_approves `{DataEncodingLaws, FactorSigners, !FactorCryptoLaws,
      !FactorSignersLaws} `{X509} {T : Type} (m : Machine) (hw : bool) (fuel : nat) (alg : Alg)
    (alg_str path id : string) (st st1 : Station T) (cid public : list Z)
    (io_ok : nat -> bool) (sec : Secrets) (model : AuthorityModel) (request : ApprovalRequest)
    (now : SystemTime) (l : Ledgers)
    (Hrandom : forall k n bs, urandom_bytes m k n = Some bs -> Forall is_u8 bs)
    (Hnew : files st !! path = None) (Halg : parse_alg alg_str = Ok alg)
    (Hregister : software_register m fuel alg alg_str path st = (st1, Ok (cid, public)))
    (Hconfigured : authenticators model !! id
       = Some (Fido2 {| cred_alg := alg; cred_id := cid; cred_public_key := public |}))
    (Hmark : mark_of l cid = 0) (Hio : forall n, io_ok n = true) (Hready : ready l)
    (Hclock : 0 <= now < CLOCK_END) :
  exists token st2,
    fido2_assert m hw (challenge_string request) (Some path) None None st1 = (st2, Ok SUCCESS)
    /\ printed st2 = printed st1 ++ [OToken token]
    /\ exists id', (judge_proof io_ok sec model request token now l).2 = Ok (Ok id').
Proof.
  destruct (new_softkey_on_disk m Hrandom _ _ _ _ _ _ _ _ Hnew Hregister)
    as (priv & Hcid & Hpriv & Hpub & Hfile).
  destruct (build_assertion alg priv cid (challenge_string request)) as [token|e] eqn:Eb.
  - exists token. eexists. unfold fido2_assert, ebind.
    rewrite (read_written_softkey path alg_str alg cid priv st1) by done. unfold elift.
    rewrite Eb. split; [reflexivity|]. split; [done|].
    apply judge_honest; [done|done|done|].
    eapply (honest_fido2 _ _ _ _ _ _ id alg priv cid public 0); try done; by right.
  - exfalso. unfold build_assertion, build_assertion_with_counter, fido2_sign in Eb.
    unfold fido2_public_key in Hpub. destruct alg; [destruct (p256_signing_key priv)|
      destruct (Nat.eqb (length priv) 32)]; done.
Qed.

(** ** What registration prints *)

(** ** Printing *)

Section Printing.
Context {T : Type}.

Definition with_link (st : Station T) (out : list Out) (s : T) : Station T :=
  {| files := files st; calls := calls st; printed := printed st ++ out; link := s |}.

Lemma print_all_run os (st : Station T) : print_all os st = (with_link st os (link st), Ok tt).
Proof.
  revert st. induction os as [|o os IH]; intros st; cbn [print_all].
  - unfold with_link. rewrite app_nil_r. by destruct st.
  - rewrite (ebind_eq _ _ st _ _ eq_refl), IH. unfold with_link. cbn. by rewrite <-app_assoc.
Qed.

End Printing.

Section Registered.
Context `{DataEncodingLaws, FactorSigners, !FactorSignersLaws} `{X509} {T : Type}.
Context (m : Machine) (fido2_client : bool).
Implicit Types st : Station T.

(** The attestation statement is absent, or signed over this registration by
    the certificate's key or by the credential itself. *)
Definition attested (att : Attestation) (public : list Z) : Prop :=
  att_fmt att = "none"
  \/ (att_fmt att = "packed" /\ exists key,
       verify_sig (att_alg att) key
         (att_auth_data att ++ factor_sha256 (as_bytes REGISTER_CHALLENGE)) (att_sig att) = Ok tt
       /\ match att_x5c att with
          | leaf :: _ => exists subject, certificate_from_der leaf = Ok (Some key, subject)
          | [] => key = public
          end).

Lemma verify_attestation_Ok att public report :
  verify_attestation att public = Ok report -> attested att public.
Proof.
  unfold verify_attestation. destruct (String.eqb_spec (att_fmt att) "none") as [E|_]; [by left|].
  destruct (String.eqb_spec (att_fmt att) "packed") as [E|_]; [|done]. cbn [negb]. intros Hr. right.
  split; [done|]. destruct (att_x5c att) as [|leaf rest].
  - exists public. destruct (verify_sig _ public _ _) as [[]|]; done.
  - destruct (certificate_from_der leaf) as [[[key|] subject]|]; try done. cbn in Hr.
    exists key. destruct (verify_sig _ key _ _) as [[]|]; try done. eauto.
Qed.

Lemma public_key_checks alg priv public :
  fido2_public_key alg priv = Ok public -> fido2_check_public_key alg public = Ok tt.
Proof.
  unfold fido2_public_key, fido2_check_public_key. destruct alg.
  - destruct (p256_signing_key priv) as [[]|] eqn:E; [|done]. cbn. intros [= <-].
    by rewrite p256_point_parses.
  - destruct (Nat.eqb_spec (length priv) 32) as [E|]; [|done]. cbn. intros [= <-].
    destruct (ed25519_point_parses priv E) as [-> ->]. done.
Qed.

Lemma hardware_register_Ok alg pin st cid public report :
  (hardware_register m fido2_client alg pin st).2 = Ok (cid, public, report) ->
  fido2_check_public_key alg public = Ok tt
  /\ exists k att, make_credential m k alg pin = Ok att /\ cid = att_credential_id att
       /\ extract_public_key alg (att_public_der att) = Ok public /\ attested att public.
Proof.
  unfold hardware_register. destruct fido2_client; [|done]. cbn [negb].
  intros (? & _ & (att & Ha & (pk & Hp%elift_Ok & (? & Hc%elift_Ok & (rep & Hv%elift_Ok
    & Hr & _)%ebind_Ok & _)%ebind_Ok & _)%ebind_Ok & _)%ebind_Ok & _)%ebind_Ok.
  unfold eret in Hr. cbn in Hr. simplify_eq. split.
  - by destruct (fido2_check_public_key alg public) as [[]|].
  - unfold ask in Ha. cbn [snd] in Ha. destruct (make_credential m _ alg pin) as [att'|] eqn:Em; [|done].
    cbn in Ha. simplify_eq. eexists _, _. split; [exact Em|]. split; [done|]. split; [done|].
    by eapply verify_attestation_Ok.
Qed.

Lemma software_register_checks fuel alg alg_str path st cid public :
  (software_register m fuel alg alg_str path st).2 = Ok (cid, public) ->
  fido2_check_public_key alg public = Ok tt.
Proof.
  unfold software_register. rewrite (ebind_eq _ _ st _ _ eq_refl).
  intros ([cid' priv] & _ & (pk & Hp%elift_Ok & Hr & _)%ebind_Ok & _)%ebind_Ok.
  unfold eret in Hr. cbn in Hp, Hr. simplify_eq.
  destruct (fido2_public_key alg priv) as [pk'|] eqn:E; [|done]. cbn in Hp. simplify_eq.
  by eapply public_key_checks.
Qed.

(** A printed registration loads.  When [fido2-register] succeeds, by
    the software key or by the hardware one, it ends by printing one
    configuration block whose algorithm parses and whose public key, decoded
    from the block, passes the inventory's load-time check; with the hardware
    key the attestation statement was absent or verified. *)
Theorem registration_loads (fuel : nat) (alg_str : string) (software_key pin : option string)
    (st st' : Station T)
    (Hok : fido2_register m fido2_client fuel alg_str software_key pin st = (st', Ok SUCCESS)) :
  exists alg cred public before key,
    printed st' = before ++ [OFido2Block alg_str cred public]
    /\ parse_alg alg_str = Ok alg
    /\ (Forall is_u8 key -> base64url_decode public = Some key)
    /\ fido2_check_public_key alg key = Ok tt
    /\ (software_key = None ->
        exists k att, make_credential m k alg pin = Ok att /\ attested att key).
Proof.
  pose proof (f_equal fst Hok) as Hst. apply (f_equal snd) in Hok. cbn [fst snd] in Hst, Hok.
  unfold fido2_register in Hst. apply ebind_Ok in Hok as (alg & Ha%elift_Ok & Hf & Hs).
  rewrite Hs, elift_state in Hst. rewrite elift_state in Hf. clear Hs.
  apply ebind_Ok in Hf as ([[cid key] prov] & Hf & Hp & Hs). rewrite Hs in Hst. clear Hs.
  rewrite (ebind_eq _ _ _ _ _ (print_all_run _ _)) in Hst.
  cbn in Hst. subst st'. cbn [printed].
  exists alg. eexists _, _, _, key. split; [reflexivity|]. split; [done|].
  split; [apply base64url_decode_encode|]. destruct software_key as [path|].
  - split; [|done]. apply ebind_Ok in Hf as ([c k] & Hr & [= <- <- <-] & _).
    by eapply software_register_checks.
  - apply hardware_register_Ok in Hf as (Hc & k & att & Hm & _ & _ & Hatt). split; [done|]. eauto.
Qed.

End Registered.

(** ** A command against a running daemon *)

Section Served.
Context `{!RequestJson, !RequestJsonLaws, !RequestText, !ResponseJson, !ResponseJsonLaws}.
Context `{DataEncoding, FactorSigners, X509} {W D V : Type}.
Context `{!ChannelDriver W, !DeadmanControl D, !ProofVerifier V}.
Context (env : Env) (cfg : Config) (show_refusal : Refusal -> string) (show_proto : ProtoError -> string).
Context (now : SystemTime) (m : Machine) (fido2_client tpm_client : bool).
Local Abbreviation Link := (Sys W D V).
Local Abbreviation peer := (daemon_peer (W := W) (D := D) (V := V) env cfg show_refusal show_proto now Operator).

Lemma op_of_local fuel cmd (st : Station Link) op :
  (op_of m cmd st).2 = Ok (Some op) ->
  local_command (T := Link) m fido2_client tpm_client fuel cmd = None.
Proof. destruct cmd; cbn; done. Qed.

Lemma op_of_state cmd (st : Station Link) : (op_of m cmd st).1 = st.
Proof.
  destruct cmd as [h t p|h [tok|] [f|]|h t| | | | | | | | | |]; cbn; try done;
    unfold elift, ebind, read_to_string, read_stdin; try (by destruct (Ttl.parse t)).
  - by destruct (files st !! f).
  - by destruct (stdin m).
Qed.

(** How the command ends on the daemon's answer. *)
Definition ends_with (cmd : Command) (st : Station Link) (s : Link)
    (r : result (Fault Fatal) (Response Refusal)) (out : Station Link * result (Fault CliError) ExitCode)
    : Prop :=
  match r with
  | Ok resp =>
      match rs_result resp with
      | RsOk => out = (with_link st (report_lines cmd (with_text show_refusal resp)) s, Ok SUCCESS)
      | RsRefused =>
          out = (with_link st [ORefused (default "(no reason given)" (show_refusal <$> rs_error resp))] s,
                 Ok FAILURE)
      end
  | Err _ => exists e, out = (with_link st [OErr (CeExchange e)] s, Ok FAILURE)
  end.

End Served.

(** ** Witnesses *)

#[local] Existing Instance RefFactors.
#[local] Existing Instance RefFactorsLaws.
#[local] Existing Instance RefSigners.
#[local] Existing Instance RefSignersLaws.
#[local] Instance RefX509 : X509 := {| certificate_from_der _ := Err "not a certificate" |}.

Definition demo_machine : Machine := {|
  stdin := None;
  urandom_bytes k n := Some (replicate n 7);
  fs_write _ _ := WrittenOk;
  chmod _ _ := true;
  open_key _ := Err "no device";
  make_credential _ _ _ := Err "no device";
  get_assertion _ _ _ _ := Err "no device";
  tpm_probe_answer _ _ := Err "no tpm";
  tpm_ctx _ _ := Err "no tpm";
  tpm_public _ := Err "no tpm";
  tpm_signature _ _ := Err "no tpm";
  tpm_sealed _ _ := Err "no tpm";
|}.

Definition station {T} (t : T) : Station T := {| files := ∅; calls := 0; printed := []; link := t |}.

Definition close_cmd : Command := CClose "db-01".


Definition registered_key : list Z := replicate 32 7.
Definition registered_id : list Z := replicate 16 7.
Definition key_model : AuthorityModel :=
  {| authenticators := {["key" := Fido2 {| cred_alg := EdDsa; cred_id := registered_id;
                                           cred_public_key := registered_key |}]};
     groups := ∅; profiles := ∅; mcp_profiles := ∅ |}.

Lemma software_key_approves_witness :
  let st1 := (software_register demo_machine 1 EdDsa "eddsa" "key" (station tt)).1 in
  exists token st2,
    fido2_assert demo_machine false (challenge_string demo_request) (Some "key") None None st1
      = (st2, Ok SUCCESS)
    /\ printed st2 = printed st1 ++ [OToken token]
    /\ exists id', (judge_proof always demo_secrets key_model demo_request token demo_now
                      fresh_ledgers).2 = Ok (Ok id').
Proof.
  cbv zeta.
  apply (software_key_approves demo_machine false 1 EdDsa "eddsa" "key" "key" (station tt) _
    registered_id registered_key).
  - intros k n bs [= <-]. apply Forall_replicate. unfold is_u8, u8_max. lia.
  - reflexivity.
  - reflexivity.
  - vm_compute. reflexivity.
  - reflexivity.
  - reflexivity.
  - reflexivity.
  - done.
  - vm_compute. split; congruence.
Defined.

Definition registered_station : Station unit :=
  (fido2_register demo_machine false 1 "eddsa" (Some "key") None (station tt)).1.

Lemma registration_loads_witness :
  exists alg cred public before key,
    printed registered_station = before ++ [OFido2Block "eddsa" cred public]
    /\ parse_alg "eddsa" = Ok alg
    /\ (Forall is_u8 key -> base64url_decode public = Some key)
    /\ fido2_check_public_key alg key = Ok tt
    /\ (Some "key" = None -> exists k att,
          make_credential demo_machine k alg None = Ok att /\ attested att key).
Proof.
  apply (registration_loads demo_machine false 1 "eddsa" (Some "key") None (station tt) _).
  vm_compute. reflexivity.
Defined.

(** A password of digits is hashed by [hash-password], and is a TOTP code to
    the daemon: without a TOTP authenticator it is never accepted. *)
Lemma digit_password_refused io_ok sec model request now l pw :
  is_totp_code (trim pw) = true -> totp_secrets sec = ∅ ->
  (judge_proof io_ok sec model request pw now l).2
  = Ok (Err (UnknownApprover "no configured TOTP authenticator matches this code")).
Proof.
  intros Hd Ht. rewrite judge_code by done. rewrite Ht. reflexivity.
Qed.
