(* ===== verification/AccessChain.v ===== *)
(** * AccessChain: from a submitted token to an open channel

    The handlers' theorems are proved against the interface [ProofVerifier];
    here it is the daemon's own verifier, and the policy is one [from_spec]
    accepted.  The pieces then compose: a channel driven by an approval goes
    back to a real proof for the pending request and to proofs of enough
    weight for the profile. *)

From stdpp Require Import relations.
From S2P Require Import Prelude Text Clock Ttl External Reference Approval Authority AuthorityEval AuthorityProps Factors Ledgers Inventory Channel ScriptedDrivers Grant Registry Snapshot Daemon Proofs Lifecycle LifecycleLogic LifecycleProps.
#[local] Open Scope Z_scope.

(** The field ranges of the per-host overrides, as the inventory's types
    impose them. *)
Definition overrides_typed (inv : Inventory) : Prop :=
  forall h acc prof body, h ∈ hosts inv -> access h = Some acc ->
    access_overrides acc !! prof = Some body ->
    is_u32 (ab_threshold body) /\ factors_typed (ab_factor body).

Section Chain.
Context `{DataEncodingLaws, FactorCrypto} (io_ok : nat -> bool) (sec : Secrets).
Context {W D : Type} `{!ChannelDriver W, !DeadmanControl D}.
#[local] Existing Instance DaemonProofs.

Lemma host_of_elem cfg host h : host_of cfg host = Some h -> h ∈ hosts (inventory cfg).
Proof. intros [Hin _]%List.find_some. by apply list_elem_of_In. Qed.

Lemma resolve_authority_effective cfg model host h prof a :
  overrides_typed (inventory cfg) -> host_of cfg host = Some h ->
  resolve_authority model h prof = Ok a -> effective model a.
Proof.
  intros Ho Hh. unfold resolve_authority. destruct (negb _); [done|].
  assert (Hp : ok_or (Authority.profile model prof) (RfProfileUndefined prof) = Ok a ->
    effective model a).
  { destruct (Authority.profile model prof) eqn:E; [|done]. intros [= <-]. left. eauto. }
  destruct (access h) as [acc|] eqn:Hacc; [|exact Hp].
  destruct (access_overrides acc !! prof) as [body|] eqn:Hb; [|exact Hp].
  destruct (resolve_override model prof body) eqn:E; [|done]. cbn. intros [= <-].
  right. exists prof, body. destruct (Ho h acc prof body); auto. by eapply host_of_elem.
Qed.

End Chain.

(** ** Witness: the second of two operators types their code *)

#[local] Existing Instance RefFactors.

Definition chain_now : SystemTime := Clock.from_secs 10.
Definition chain_secrets : Secrets :=
  {| totp_secrets := {["bob" := demo_secret]}; password_hashes := ∅; hmac_secrets := ∅ |}.
Definition chain_token : string := code_at demo_secret (counter_at chain_now).
Definition chain_cfg : Config := demo_cfg (Some sample_model).
Definition chain_sys : Sys Scripts unit Ledgers :=
  {| store := store demo_pending; drivers := drivers demo_pending; deadman := tt;
     proofs := fresh_ledgers; journal := []; io := 0; past := [] |}.

