(* ===== verification/Startup.v ===== *)
(** * Startup: from the command line to a daemon (daemon/src/main.rs)

    The flag checks, the inventory, the state file, the sockets, the drivers,
    the policy and every secret file.  The file texts, the TPM and the TOML
    and base32 crates are what the environment and the interfaces answer. *)

From stdpp Require Import relations.
From S2P Require Import Prelude Text TextLines Line Clock External Reference Approval Authority AuthorityEval AuthorityProps Inventory InventoryCheck DriverMonad DeviceState Channel ScriptedDrivers Grant Registry Snapshot Proto Factors Ledgers Daemon Proofs Lifecycle LifecycleLogic LifecycleSafe LifecycleProps Listener.
#[local] Open Scope Z_scope.

(** [toml], [BASE32_NOPAD] and the TPM crate. *)
Class StartCrates := {
  toml_from_str : string -> result string Inventory;
  base32_decode : string -> option (list Z);
  TpmContext : Type;
  SealedBlob : Type;
  (** The n-th answer of the machine's TPM. *)
  tpm_context : nat -> string -> option TpmContext;
  blob_from_str : string -> option SealedBlob;
  tpm_unseal : nat -> TpmContext -> SealedBlob -> option (list Z);
}.

(** A TOML document gives the fields the values of their Rust types. *)
Class StartCratesLaws `{StartCrates} : Prop := {
  toml_typed text inv spec :
    toml_from_str text = Ok inv -> approval inv = Some spec -> spec_typed spec;
}.

(** The struct [Cli]. *)
Record Cli := {
  cli_inventory : string;
  cli_state_dir : string;
  cli_socket : option string;
  cli_mcp_socket : option string;
  cli_interval : Z;
  cli_once : bool;
  cli_dry_run : bool;
  cli_approval_window : Z;
  cli_tpm_unseal : option string;
}.

Inductive StartError :=
| StZeroInterval | StZeroWindow | StWindowTooLong (secs : Z)
| StReading (path : string)
| StToml (text : string) | StInventory (e : InventoryError)
| StFatal (e : Fatal)
| StBind (path : string) (e : BindError)
| StDriver (e : DriverError)
| StNoPolicy
| StNoTpmSupport | StTpm | StNotSealed (path : string) | StUnseal (path : string) | StNotUtf8 (path : string)
| StBadTotpSecret (id : string) | StBadPasswordHash (id : string) | StBadHmacSecret (id : string)
| StKeyLength (path : string) | StKeyNotHex (path : string).

(** [enum SecretReader]. *)
Inductive SecretReader `{StartCrates} := Plain | TpmUnseal (ctx : TpmContext).

(** *** Parsing a secret *)

(** [chars().filter(|c| !c.is_whitespace())] on UTF-8 text. *)
Fixpoint remove_whitespace (fuel : nat) (s : string) : string :=
  match fuel, s with
  | S fuel, String c rest =>
      match strip_any (str_of_bytes <$> WHITE_SPACE) s with
      | Some rest => remove_whitespace fuel rest
      | None => String c (remove_whitespace fuel rest)
      end
  | _, _ => ""
  end.

(** [to_ascii_uppercase]. *)
Definition to_ascii_uppercase (s : string) : string :=
  str_of_bytes ((fun b => if (97 <=? b) && (b <=? 122) then b - 32 else b) <$> as_bytes s).

Inductive TotpError := BadBase32 | TotpEmpty.

Definition from_base32 `{StartCrates} (s : string) : result TotpError (list Z) :=
  let cleaned := to_ascii_uppercase (remove_whitespace (String.length s) s) in
  let unpadded := trim_end_matches (fun c => bool_decide (c = "="%char)) cleaned in
  let? bytes := ok_or (base32_decode unpadded) BadBase32 in
  if bool_decide (bytes = []) then Err TotpEmpty else Ok bytes.

(** The pairs [hex[2 * i..2 * i + 2]]: a slice that cuts a character panics. *)
Fixpoint hex_pairs {E} (bad : E) (s : string) : result (Fault E) (list Z) :=
  match s with
  | String a (String b rest) =>
      if is_continuation a || starts_inside rest then Err Panic
      else
        let? v := ok_or (u8_from_str_radix16 (String a (String b ""))) (Refused bad) in
        let? vs := hex_pairs bad rest in
        Ok (v :: vs)
  | _ => Ok []
  end.

Definition SECRET_LEN : Z := 32.
Inductive HmacSecretError := BadSecret.

Definition check_secret (text : string) : result (Fault HmacSecretError) (list Z) :=
  let hex := trim text in
  if negb (str_len hex =? SECRET_LEN * 2) then Err (Refused BadSecret)
  else hex_pairs BadSecret hex.

(** *** The start *)

Section Start.
Context `{StartCrates} `{DataEncoding, FactorCrypto} {W D : Type}.
Context `{!ChannelDriver W, !DeadmanControl D}.
(** What the n-th read of a path answers; what binding a path meets; whether
    the build has the [tpm-seal] feature. *)
Context (env : Env) (texts : nat -> string -> option string) (bind_env : string -> BindEnv).
Context (tpm_seal : bool).

Local Abbreviation SysW := (Sys W D Ledgers).
Definition SM (A : Type) : Type := eff SysW StartError A.

(** A step of the daemon: what is fatal to it refuses the start. *)
Definition step {A} (m : Daemon.M (W := W) (D := D) (V := Ledgers) A) : SM A := emap_err StFatal m.

(** One call to the environment. *)
Definition ask {A} (answer : nat -> option A) (e : StartError) : SM A := fun s =>
  (with_io s (S (io s)), ok_or (answer (io s)) (Refused e)).

Definition read_text (path : string) : SM string := ask (fun n => texts n path) (StReading path).

(** [Inventory::parse]. *)
Definition parse (text : string) : result (Fault StartError) Inventory :=
  let? inv := map_err (fun e => Refused (StToml e)) (toml_from_str text) in
  match InventoryCheck.validate inv with
  | Ok _ => Ok inv
  | Err (Refused e) => Err (Refused (StInventory e))
  | Err Panic => Err Panic
  | Err OutOfFuel => Err OutOfFuel
  end.

Definition fault {A} (r : result (Fault StartError) A) : SM A := fun s => (s, r).

Definition bind_socket (path : string) : SM unit :=
  elift (map_err (StBind path) (Listener.bind (bind_env path))).

Definition register_driver (c : Channel) : SM unit := fun s =>
  let '(ds, r) := Channel.register (drivers s) c in
  ({| store := store s; drivers := ds; deadman := deadman s; proofs := proofs s;
      journal := journal s; io := io s; past := past s |}, map_err (fun e => Refused (StDriver e)) r).

(** The drivers [main] registers before the secrets are read, in order. *)
Definition LIVE : list Channel := [Ssh; AuthorizedKeys; Bmc; Http; Mqtt; Serial; Vnc].

Fixpoint register_each (cs : list Channel) : SM unit :=
  match cs with
  | [] => eret tt
  | c :: cs => register_driver c ;& register_each cs
  end.

Definition new_reader (tcti : option string) : SM SecretReader :=
  match tcti with
  | None => eret Plain
  | Some tcti =>
      if tpm_seal then
        let& ctx := ask (fun n => tpm_context n tcti) StTpm in eret (TpmUnseal ctx)
      else efail StNoTpmSupport
  end.

Definition read_secret (r : SecretReader) (path : string) : SM string :=
  let& text := read_text path in
  match r with
  | Plain => eret text
  | TpmUnseal ctx =>
      let& blob := esome (blob_from_str text) (StNotSealed path) in
      let& bytes := ask (fun n => tpm_unseal n ctx blob) (StUnseal path) in
      if utf8_valid bytes then eret (str_of_bytes bytes) else efail (StNotUtf8 path)
  end.

(** [for (id, file) in model.…() { …; map.insert(id, value); }]. *)
Fixpoint load_each {B} (load : string -> string -> SM B) (l : list (string * string))
    (acc : gmap string B) : SM (gmap string B) :=
  match l with
  | [] => eret acc
  | (id, file) :: l => let& v := load id file in load_each load l (<[id := v]> acc)
  end.

Definition load_totp (r : SecretReader) (id file : string) : SM (list Z) :=
  let& text := read_secret r file in
  elift (map_err (fun _ => StBadTotpSecret id) (from_base32 text)).

Definition load_password (r : SecretReader) (id file : string) : SM string :=
  let& text := read_secret r file in
  let phc := trim text in
  elift (map_err (fun _ => StBadPasswordHash id) (password_parse phc)) ;& eret phc.

Definition load_hmac (r : SecretReader) (id file : string) : SM (list Z) :=
  let& text := read_secret r file in
  fault (match check_secret text with
         | Ok v => Ok v
         | Err (Refused _) => Err (Refused (StBadHmacSecret id))
         | Err Panic => Err Panic
         | Err OutOfFuel => Err OutOfFuel
         end).

Definition totp_authenticators : AuthorityModel -> list (string * string) :=
  of_kind (fun a => match a with Totp f => Some f | _ => None end).
Definition password_authenticators : AuthorityModel -> list (string * string) :=
  of_kind (fun a => match a with Password f => Some f | _ => None end).
Definition hmac_authenticators : AuthorityModel -> list (string * string) :=
  of_kind (fun a => match a with Hmac f => Some f | _ => None end).

(** [if let Some(model) = &approval { .. }]. *)
Definition for_policy {B} (approval : option AuthorityModel)
    (of_model : AuthorityModel -> list (string * string)) (load : string -> string -> SM B)
    : SM (gmap string B) :=
  match approval with
  | Some model => load_each load (of_model model) ∅
  | None => eret ∅
  end.

Definition read_key (r : SecretReader) (path : string) : SM (list Z) :=
  let& text := read_secret r path in
  let hex := trim text in
  erequire (str_len hex =? 64) (StKeyLength path) ;&
  fault (hex_pairs (StKeyNotHex path) hex).

(** [key_file.map(read_key).transpose()?]. *)
Definition read_key_opt (r : SecretReader) (path : option string) : SM (option (list Z)) :=
  match path with
  | None => eret None
  | Some p => let& k := read_key r p in eret (Some k)
  end.

(** The policy: none in a dry run, required otherwise. *)
Definition load_policy (dry_run : bool) (inv : Inventory) : SM (option AuthorityModel) :=
  if dry_run then eret None
  else
    let& model := fault (match approval_model inv with
                         | Ok m => Ok m
                         | Err (Refused e) => Err (Refused (StInventory e))
                         | Err Panic => Err Panic
                         | Err OutOfFuel => Err OutOfFuel
                         end) in
    match model with Some m => eret (Some m) | None => efail StNoPolicy end.

(** What [main] has built when it calls [boot_recover]. *)
Record Started := {
  st_cfg : Config;
  st_secrets : Secrets;
  st_device_keys : option (option (list Z) * option (list Z));
  st_listening : bool;
  st_mcp_listening : bool;
}.

(** The flags, the inventory and the state file: before the first line of
    the journal. *)
Definition preflight (cli : Cli) : SM Inventory :=
  erequire (negb (cli_interval cli =? 0)) StZeroInterval ;&
  erequire (negb (cli_approval_window cli =? 0)) StZeroWindow ;&
  erequire (cli_approval_window cli <=? MAX_APPROVAL_WINDOW_SECS)
    (StWindowTooLong (cli_approval_window cli)) ;&
  let& text := read_text (cli_inventory cli) in
  let& inv := fault (parse text) in
  step (attempt_io env) ;&
  let& doc := step (store_read env) in
  elift (map_err (fun e => StFatal (FInvalid e)) (from_parts inv doc)) ;&
  eret inv.

(** [Path::join] with a relative name. *)
Definition path_join (dir file : string) : string :=
  if str_is_empty dir then file
  else match strip_suffix_char "/"%char dir with
       | Some _ => dir +:+ file
       | None => dir +:+ "/" +:+ file
       end.

Definition bind_sockets (cli : Cli) : SM (bool * bool) :=
  let path := match cli_socket cli with
              | Some p => p
              | None => path_join (cli_state_dir cli) "lychgated.sock"
              end in
  (if cli_once cli then eret tt else bind_socket path) ;&
  match cli_mcp_socket cli with
  | Some p =>
      if cli_once cli then eret (negb (cli_once cli), false)
      else bind_socket p ;& eret (negb (cli_once cli), true)
  | None => eret (negb (cli_once cli), false)
  end.

Definition load_secrets (r : SecretReader) (policy : option AuthorityModel) : SM Secrets :=
  let& totp := for_policy policy totp_authenticators (load_totp r) in
  let& passwords := for_policy policy password_authenticators (load_password r) in
  let& hmac := for_policy policy hmac_authenticators (load_hmac r) in
  eret {| totp_secrets := totp; password_hashes := passwords; hmac_secrets := hmac |}.

(** The device channel's signing keys and its driver. *)
Definition load_device (r : SecretReader) (dry_run : bool) (inv : Inventory)
    : SM (option (option (list Z) * option (list Z))) :=
  if dry_run then eret None
  else
    match signing inv with
    | None => eret None
    | Some s =>
        let& seed := read_key_opt r (key_file s) in
        let& scalar := read_key_opt r (p256_key_file s) in
        register_driver Device ;&
        eret (Some (seed, scalar))
    end.

Definition start (cli : Cli) (now : SystemTime) : SM Started :=
  let& inv := preflight cli in
  let& socks := bind_sockets cli in
  step (attempt_io env) ;&
  step (record_event env now (EvDaemonStart (cli_inventory cli) (Z.of_nat (length (hosts inv))))) ;&
  (if cli_dry_run cli then eret tt else register_each LIVE) ;&
  let& policy := load_policy (cli_dry_run cli) inv in
  let& r := new_reader (cli_tpm_unseal cli) in
  let& sec := load_secrets r policy in
  let& keys := load_device r (cli_dry_run cli) inv in
  eret {| st_cfg := {| inventory := inv;
                       approval_window := Clock.from_secs (cli_approval_window cli);
                       approval_policy := policy |};
          st_secrets := sec; st_device_keys := keys;
          st_listening := socks.1; st_mcp_listening := socks.2 |}.
End Start.

(** ** What a start leaves as it was *)

Section StartFrame.
Context `{StartCrates} `{DataEncoding, FactorCrypto} {W D : Type}.
Context `{!ChannelDriver W, !DeadmanControl D}.
Context (env : Env) (texts : nat -> string -> option string) (bind_env : string -> BindEnv).
Context (tpm_seal : bool).

(** The state file, the targets, the ledgers and the journal are untouched;
    drivers are only added. *)
Definition boots (s s' : Sys W D Ledgers) : Prop :=
  store s' = store s /\ world (drivers s') = world (drivers s) /\ past s' = past s
  /\ proofs s' = proofs s /\ journal s' = journal s
  /\ registered (drivers s) ⊆ registered (drivers s').

#[local] Instance boots_refl : Reflexive boots.
Proof. intros s. by repeat split. Qed.
#[local] Instance boots_trans : Transitive boots.
Proof.
  intros s1 s2 s3 (E1 & E2 & E3 & E4 & E5 & E6) (F1 & F2 & F3 & F4 & F5 & F6).
  repeat split; [congruence..|set_solver].
Qed.

Lemma keeps_ask {A} (answer : nat -> option A) e : keeps boots (ask (W := W) (D := D) answer e).
Proof. by intros s. Qed.
Lemma keeps_fault {A} (r : result (Fault StartError) A) : keeps boots (fault r).
Proof. by intros s. Qed.
Lemma keeps_attempt : keeps boots (step (attempt_io env)).
Proof. by intros s. Qed.
Lemma keeps_store_read : keeps boots (step (store_read env)).
Proof.
  unfold step. apply keeps_map_err. intros s. unfold store_read, attempt_io, Daemon.bind.
  destruct (io_ok env (io s)); [|done]. cbn. by destruct (read_file _).
Qed.
Lemma keeps_register c : keeps boots (register_driver (W := W) (D := D) c).
Proof.
  intros s. unfold register_driver, Channel.register. case_bool_decide; [done|].
  repeat split. cbn. set_solver.
Qed.
#[local] Hint Resolve @keeps_ask @keeps_fault keeps_register : keeps.

Lemma keeps_register_each cs : keeps boots (register_each (W := W) (D := D) cs).
Proof. induction cs as [|c cs IH]; cbn [register_each]; keeps. Qed.

Lemma keeps_read_secret r path : keeps boots (read_secret texts r path).
Proof. unfold read_secret, read_text. keeps. Qed.
#[local] Hint Resolve keeps_register_each keeps_read_secret : keeps.

Lemma keeps_load_each {B} (load : string -> string -> SM B) l acc :
  (forall id f, keeps boots (load id f)) -> keeps boots (load_each load l acc).
Proof. intros Hl. revert acc. induction l as [|[id f] l IH]; intros acc; cbn [load_each]; keeps. Qed.

Lemma keeps_preflight cli : keeps boots (preflight env texts cli).
Proof. unfold preflight, read_text. keeps; [apply keeps_attempt|apply keeps_store_read]. Qed.
Lemma keeps_bind_sockets cli : keeps boots (bind_sockets (W := W) (D := D) bind_env cli).
Proof. unfold bind_sockets, bind_socket. keeps. Qed.
Lemma keeps_new_reader tcti : keeps boots (new_reader (W := W) (D := D) tpm_seal tcti).
Proof. unfold new_reader. keeps. Qed.
Lemma keeps_load_policy dry inv : keeps boots (load_policy (W := W) (D := D) dry inv).
Proof. unfold load_policy. keeps. Qed.
Lemma keeps_load_secrets r policy : keeps boots (load_secrets texts r policy).
Proof.
  unfold load_secrets, for_policy. destruct policy as [m|]; keeps; apply keeps_load_each; intros id f;
    unfold load_totp, load_password, load_hmac; keeps.
Qed.
Lemma keeps_load_device r dry inv : keeps boots (load_device texts r dry inv).
Proof. unfold load_device, read_key_opt, read_key. keeps. Qed.
End StartFrame.

(** ** What a start establishes *)

(** Every authenticator with a secret file has its secret, well formed. *)
Record secrets_complete `{DataEncoding, FactorCrypto} (m : AuthorityModel) (sec : Secrets) : Prop := {
  sc_totp id f : authenticators m !! id = Some (Totp f) ->
    exists v, totp_secrets sec !! id = Some v /\ v <> [];
  sc_password id f : authenticators m !! id = Some (Password f) ->
    exists phc parsed, password_hashes sec !! id = Some phc /\ password_parse phc = Ok parsed;
  sc_hmac id f : authenticators m !! id = Some (Hmac f) ->
    exists v, hmac_secrets sec !! id = Some v /\ length v = 32%nat /\ Forall is_u8 v;
}.

Lemma hex_value_u8 s acc v : 0 <= acc <= u8_max -> hex_value s acc = Some v -> is_u8 v.
Proof.
  revert acc. induction s as [|c s IH]; intros acc Hacc; cbn.
  - intros [= <-]. done.
  - destruct (to_digit16 c) as [d|] eqn:Ed; [|done]. cbn.
    destruct (Z.leb_spec (16 * acc + d) u8_max) as [Hle|]; [|done]. apply IH. split; [|done].
    unfold to_digit16 in Ed. repeat case_match; simplify_eq; bool_prop; lia.
Qed.

Lemma u8_radix_u8 s v : u8_from_str_radix16 s = Some v -> is_u8 v.
Proof.
  unfold u8_from_str_radix16. destruct s as [|c s]; [done|].
  case_bool_decide; [destruct (str_is_empty s); [done|]|]; apply hex_value_u8; unfold u8_max; lia.
Qed.

Lemma hex_pairs_Ok {E} (bad : E) n s vs :
  String.length s = (2 * n)%nat -> hex_pairs bad s = Ok vs -> length vs = n /\ Forall is_u8 vs.
Proof.
  revert s vs. induction n as [|n IH]; intros [|a [|b s]] vs Hl; cbn in Hl; try lia.
  - cbn. intros [= <-]. done.
  - cbn [hex_pairs]. destruct (_ || _); [done|].
    destruct (u8_from_str_radix16 _) as [v|] eqn:Ev; [|done]. cbn.
    destruct (hex_pairs bad s) as [vs'|] eqn:Es; [|done]. cbn. intros [= <-].
    apply IH in Es as [? ?]; [|lia]. cbn. split; [lia|]. constructor; [|done]. by eapply u8_radix_u8.
Qed.

Lemma check_secret_Ok text v :
  check_secret text = Ok v -> length v = 32%nat /\ Forall is_u8 v.
Proof.
  unfold check_secret. destruct (Z.eqb_spec (str_len (trim text)) (SECRET_LEN * 2)) as [E|]; [|done].
  cbn [negb]. apply hex_pairs_Ok. unfold str_len, SECRET_LEN in E. lia.
Qed.

Lemma from_base32_Ok `{StartCrates} text v : from_base32 text = Ok v -> v <> [].
Proof.
  unfold from_base32. destruct (base32_decode _) as [bs|]; [|done]. cbn.
  case_bool_decide; [done|]. by intros [= <-].
Qed.

Section StartPost.
Context `{StartCrates} `{DataEncoding, FactorCrypto} {W D : Type}.
Context `{!ChannelDriver W, !DeadmanControl D}.
Context (env : Env) (texts : nat -> string -> option string) (bind_env : string -> BindEnv).
Context (tpm_seal : bool).
Implicit Types s : Sys W D Ledgers.

Lemma fault_Ok {A} (r : result (Fault StartError) A) s a : (fault r s).2 = Ok a -> r = Ok a.
Proof. done. Qed.

Lemma load_each_Ok {B} (load : string -> string -> SM B) (P : B -> Prop) l acc s m :
  (forall id f s v, (load id f s).2 = Ok v -> P v) -> map_Forall (fun _ => P) acc ->
  (load_each load l acc s).2 = Ok m ->
  (forall id, id ∈ l.*1 \/ is_Some (acc !! id) -> is_Some (m !! id)) /\ map_Forall (fun _ => P) m.
Proof.
  intros Hload. revert acc s. induction l as [|[id f] l IH]; intros acc s Hacc; cbn [load_each].
  - unfold eret. cbn. intros [= <-]. split; [|done]. intros id [?%elem_of_nil|]; done.
  - intros (v & Hv & Hm & _)%ebind_Ok. apply Hload in Hv.
    apply IH in Hm as [Hin Hall]; [|by apply map_Forall_insert_2]. split; [|done].
    intros id' Hid. apply Hin. cbn in Hid. rewrite elem_of_cons in Hid.
    destruct (decide (id' = id)) as [->|]; [right; rewrite lookup_insert_eq; by eexists|].
    rewrite lookup_insert_ne by done. naive_solver.
Qed.

Lemma for_policy_Ok {B} m of_model (load : string -> string -> SM B) (P : B -> Prop) s r :
  (forall id f s v, (load id f s).2 = Ok v -> P v) ->
  (for_policy (Some m) of_model load s).2 = Ok r ->
  forall id f, (id, f) ∈ of_model m -> exists v, r !! id = Some v /\ P v.
Proof.
  intros Hload Hr id f Hin. cbn [for_policy] in Hr.
  destruct (load_each_Ok load P _ ∅ _ _ Hload (map_Forall_empty _) Hr) as [Hdom Hall].
  destruct (Hdom id) as [v Hv]; [left; apply list_elem_of_fmap; by exists (id, f)|].
  exists v. split; [done|]. by apply (Hall id).
Qed.

Lemma load_secrets_Ok r m s sec :
  (load_secrets texts r (Some m) s).2 = Ok sec -> secrets_complete m sec.
Proof.
  unfold load_secrets.
  intros (totp & Ht & (pws & Hp & (hm & Hh & Hsec & _)%ebind_Ok & _)%ebind_Ok & _)%ebind_Ok.
  unfold eret in Hsec. cbn in Hsec. injection Hsec as <-. split; cbn; intros id f Ha.
  - eapply (for_policy_Ok _ _ _ (fun v => v <> [])) in Ht; [exact Ht| |apply elem_of_of_kind; eauto].
    intros id' f' s' v (text & _ & Hv%elift_Ok & _)%ebind_Ok.
    destruct (from_base32 text) eqn:E; [|done]. cbn in Hv. simplify_eq. by eapply from_base32_Ok.
  - eapply (for_policy_Ok _ _ _ (fun phc => exists parsed, password_parse phc = Ok parsed)) in Hp;
      [|intros id' f' s' v (text & _ & (u & Hv%elift_Ok & Hr & _)%ebind_Ok & _)%ebind_Ok
       |apply elem_of_of_kind; eauto].
    { destruct Hp as (phc & ? & parsed & ?). eauto. }
    unfold eret in Hr. cbn in Hr. simplify_eq. destruct (password_parse _) eqn:E; [eauto|done].
  - eapply (for_policy_Ok _ _ _ (fun v => length v = 32%nat /\ Forall is_u8 v)) in Hh;
      [exact Hh| |apply elem_of_of_kind; eauto].
    intros id' f' s' v (text & _ & Hv%fault_Ok & _)%ebind_Ok.
    destruct (check_secret text) as [w|[]] eqn:E; simplify_eq. by apply check_secret_Ok in E.
Qed.

Lemma register_each_Ok cs s :
  (register_each (W := W) (D := D) cs s).2 = Ok tt ->
  forall c, c ∈ cs -> c ∈ registered (drivers (register_each cs s).1).
Proof.
  revert s. induction cs as [|c cs IH]; intros s; cbn [register_each]; [by intros _ c ?%elem_of_nil|].
  intros ([] & Hc & Hcs & ->)%ebind_Ok c' [->|Hin]%elem_of_cons; [|by apply IH].
  apply (keeps_register_each cs (register_driver c s).1).
  unfold register_driver, Channel.register in Hc |- *. case_bool_decide; [done|]. cbn. set_solver.
Qed.

Lemma parse_Ok text inv :
  parse text = Ok inv -> toml_from_str text = Ok inv /\ valid_inventory inv.
Proof.
  unfold parse. destruct (toml_from_str text) as [inv'|]; [|done]. cbn.
  destruct (InventoryCheck.validate inv') as [[]|[]] eqn:E; try done. intros [= <-].
  split; [done|]. by apply validate_accepts.
Qed.

Lemma store_read_Ok s doc : (step (store_read env) s).2 = Ok doc -> read_file (store s) = Ok doc.
Proof.
  intros Hd%emap_err_Ok. unfold store_read, Daemon.bind, attempt_io in Hd.
  destruct (io_ok env (io s)); [|done]. cbn in Hd. by destruct (read_file (store s)); simplify_eq/=.
Qed.

Lemma preflight_Ok cli s inv :
  (preflight env texts cli s).2 = Ok inv ->
  cli_approval_window cli <> 0 /\ cli_approval_window cli <= MAX_APPROVAL_WINDOW_SECS
  /\ (exists text, toml_from_str text = Ok inv) /\ valid_inventory inv
  /\ exists doc r, read_file (store s) = Ok doc /\ from_parts inv doc = Ok r.
Proof.
  unfold preflight.
  intros (? & _ & (? & Hw%erequire_Ok & (? & Hm%erequire_Ok & (text & _ & (inv' & Hp%fault_Ok
    & (? & _ & (doc & Hd & (r & Hr%elift_Ok & Hi & _)%ebind_Ok & _)%ebind_Ok & _)%ebind_Ok
    & _)%ebind_Ok & _)%ebind_Ok & _)%ebind_Ok & _)%ebind_Ok & _)%ebind_Ok.
  unfold eret in Hi. cbn in Hi. simplify_eq. apply parse_Ok in Hp as [Ht Hv].
  apply negb_true_iff, Z.eqb_neq in Hw. apply Z.leb_le in Hm.
  split; [done|]. split; [done|]. split; [eauto|]. split; [done|].
  destruct (from_parts inv doc) as [reg|] eqn:Ef; [|done]. exists doc, reg. split; [|done].
  apply store_read_Ok in Hd. rewrite !erequire_state in Hd. exact Hd.
Qed.

Lemma load_policy_Ok dry inv s p :
  (load_policy (W := W) (D := D) dry inv s).2 = Ok p ->
  if dry then p = None else exists m, p = Some m /\ approval_model inv = Ok (Some m).
Proof.
  unfold load_policy. destruct dry; [by intros [= <-]|].
  intros (model & Hm%fault_Ok & Hp & _)%ebind_Ok.
  destruct (approval_model inv) as [model'|[]] eqn:E; simplify_eq.
  destruct model as [m|]; [|done]. unfold eret in Hp. cbn in Hp. simplify_eq. eauto.
Qed.

Lemma load_device_Ok r inv s keys :
  (load_device texts r false inv s).2 = Ok keys -> is_Some (signing inv) ->
  Device ∈ registered (drivers (load_device texts r false inv s).1).
Proof.
  unfold load_device. intros Hk [sg Hsg]. rewrite Hsg in Hk |- *.
  apply ebind_Ok in Hk as (seed & _ & Hk & ->). apply ebind_Ok in Hk as (scalar & _ & Hk & ->).
  apply ebind_Ok in Hk as ([] & Hreg & Hk & ->). unfold eret. cbn [fst].
  unfold register_driver, Channel.register in Hreg |- *. case_bool_decide; [done|]. cbn. set_solver.
Qed.

(** A validated host declares only channels with a driver. *)
Lemma channel_driven inv h c (regs : gset Channel) :
  valid_inventory inv -> h ∈ hosts inv -> c ∈ channels h ->
  (forall c, c ∈ LIVE -> c ∈ regs) -> (is_Some (signing inv) -> Device ∈ regs) -> c ∈ regs.
Proof.
  intros Hv Hh Hc Hlive Hdev. destruct (decide (c = Device)) as [->|Hne].
  - apply Hdev. pose proof (ok_device inv h (vi_hosts inv Hv h Hh)) as Hd.
    unfold paired_ok in Hd. destruct (device h) as [d|]; [|by destruct Hd].
    destruct Hd as [_ (_ & _ & Hs)]. unfold signing_key in Hs. destruct (signing inv); [eauto|].
    destruct (device_alg d), Hs as [? Hs]; done.
  - apply Hlive. unfold LIVE. destruct c; try done; set_solver.
Qed.
End StartPost.

(** What holds of a daemon whose start succeeded. *)
Record well_started `{DataEncoding, FactorCrypto} {W D : Type} (cli : Cli) (now : SystemTime)
    (s s' : Sys W D Ledgers) (st : Started) : Prop := {
  ws_inventory : valid_inventory (inventory (st_cfg st));
  ws_window : cli_approval_window cli <> 0
    /\ cli_approval_window cli <= MAX_APPROVAL_WINDOW_SECS
    /\ approval_window (st_cfg st) = Clock.from_secs (cli_approval_window cli);
  ws_loads : exists doc r, read_file (store s) = Ok doc
    /\ from_parts (inventory (st_cfg st)) doc = Ok r;
  ws_kept : store s' = store s /\ world (drivers s') = world (drivers s) /\ past s' = past s;
  ws_journal : journal s' = journal s
    ++ [(epoch_secs now, EvDaemonStart (cli_inventory cli)
           (Z.of_nat (length (hosts (inventory (st_cfg st))))))];
  ws_dry : cli_dry_run cli = true -> approval_policy (st_cfg st) = None;
  ws_live : cli_dry_run cli = false ->
    exists m, approval_policy (st_cfg st) = Some m
      /\ approval_model (inventory (st_cfg st)) = Ok (Some m)
      /\ secrets_complete m (st_secrets st)
      /\ forall h c, h ∈ hosts (inventory (st_cfg st)) -> c ∈ channels h ->
           c ∈ registered (drivers s');
}.

Section StartSpec.
Context `{StartCrates} `{DataEncoding, FactorCrypto} {W D : Type}.
Context `{!ChannelDriver W, !DeadmanControl D}.
Context (env : Env) (texts : nat -> string -> option string) (bind_env : string -> BindEnv).
Context (tpm_seal : bool).
Implicit Types s : Sys W D Ledgers.

Lemma record_Ok now e s :
  (step (record_event env now e) s).2 = Ok tt ->
  let s' := (step (record_event env now e) s).1 in
  store s' = store s /\ drivers s' = drivers s /\ past s' = past s
  /\ journal s' = journal s ++ [(epoch_secs now, e)].
Proof.
  unfold step, emap_err, record_event, attempt_io, Daemon.bind.
  destruct (io_ok env (io s)); cbn; [|done]. done.
Qed.

Lemma boots_after {A} (m : SM (W := W) (D := D) A) s0 s1 s :
  keeps boots m -> boots s0 s1 -> s = (m s1).1 -> boots s0 s.
Proof. intros Hm H01 ->. eapply boots_trans; [exact H01|apply Hm]. Qed.

Lemma start_Ok cli now s st :
  (start env texts bind_env tpm_seal cli now s).2 = Ok st ->
  well_started cli now s (start env texts bind_env tpm_seal cli now s).1 st
  /\ exists text, toml_from_str text = Ok (inventory (st_cfg st)).
Proof.
  unfold start. intros Hs.
  apply ebind_Ok in Hs as (inv & Hpre & Hs & ->).
  apply ebind_Ok in Hs as (socks & _ & Hs & ->).
  apply ebind_Ok in Hs as (? & _ & Hs & ->).
  apply ebind_Ok in Hs as ([] & Hrec & Hs & ->).
  apply ebind_Ok in Hs as (? & Hregs & Hs & ->).
  apply ebind_Ok in Hs as (policy & Hpol & Hs & ->).
  apply ebind_Ok in Hs as (r & _ & Hs & ->).
  apply ebind_Ok in Hs as (sec & Hsec & Hs & ->).
  apply ebind_Ok in Hs as (keys & Hkeys & Hs & ->).
  unfold eret in Hs. cbn [snd] in Hs. injection Hs as <-. cbn [eret fst].
  apply preflight_Ok in Hpre as (Hw0 & Hwm & Htoml & Hv & Hdoc).
  apply load_policy_Ok in Hpol.
  (* before the journal line *)
  set (s1 := (step (attempt_io env) _).1) in *.
  assert (B1 : boots s s1).
  { eapply boots_after; [apply keeps_attempt| |reflexivity].
    eapply boots_after; [apply keeps_bind_sockets| |reflexivity]. apply keeps_preflight. }
  apply record_Ok in Hrec. set (s2 := (step (record_event _ _ _) s1).1) in *.
  destruct Hrec as (R1 & R2 & R3 & R4).
  (* after it *)
  set (s3 := ((if cli_dry_run cli then eret tt else register_each LIVE) s2).1) in *.
  set (s5 := (new_reader tpm_seal (cli_tpm_unseal cli) (load_policy (cli_dry_run cli) inv s3).1).1) in *.
  set (s6 := (load_secrets texts r policy s5).1) in *.
  set (s7 := (load_device texts r (cli_dry_run cli) inv s6).1) in *.
  assert (B3 : boots s2 s3).
  { unfold s3. destruct (cli_dry_run cli); [apply boots_refl|]. by apply keeps_register_each. }
  assert (B6 : boots s3 s6).
  { eapply boots_after; [apply keeps_load_secrets| |reflexivity].
    eapply boots_after; [apply keeps_new_reader| |reflexivity]. by apply keeps_load_policy. }
  assert (B7 : boots s6 s7) by by apply keeps_load_device.
  destruct (boots_trans _ _ _ B3 (boots_trans _ _ _ B6 B7)) as (E1 & E2 & E3 & E4 & E5 & E6).
  destruct B1 as (F1 & F2 & F3 & F4 & F5 & _).
  split; [|done]. split; cbn.
  - done.
  - done.
  - done.
  - split; [congruence|]. split; [|congruence]. rewrite E2, R2. exact F2.
  - by rewrite E5, R4, F5.
  - intros Hdry. by rewrite Hdry in Hpol.
  - intros Hdry. rewrite Hdry in Hpol. destruct Hpol as (m & -> & Hm). exists m.
    split; [done|]. split; [done|]. split; [by eapply load_secrets_Ok|].
    intros h c Hh Hc. eapply channel_driven; [done|done|done| |].
    + intros c' Hc'. apply B7, B6. unfold s3. rewrite Hdry in Hregs |- *.
      destruct x0. by apply register_each_Ok.
    + intros Hsg. unfold s7. rewrite Hdry in Hkeys |- *. by eapply load_device_Ok.
Qed.
End StartSpec.

(** ** Properties *)


(** *** A board behind a serial line, and the sample policy *)

Definition board_host : Host :=
  {| name := "dev"; address := "10.0.0.9"; os := Embedded; channels := [Device]; ssh := None;
     bmc := None; vnc := None; http := None; mqtt := None; serial := None;
     device := Some {| device_id := "000102030405060708090a0b0c0d0e0f"; device_alg := AlgEd25519;
                       device_capability := 1; device_transport := TransportSerial;
                       device_http := None; device_mqtt := None;
                       device_serial := Some {| ds_device := "/dev/ttyUSB0"; ds_baud := None;
                                                ds_timeout_secs := 5 |};
                       device_actuator := None |};
     access := None; Inventory.drill := false |}.

Definition board_inventory (policy : option ApprovalSpec) : Inventory :=
  {| hosts := [board_host]; signing := Some {| key_file := Some "k"; p256_key_file := None |};
     approval := policy |}.

(** An inventory text is a word naming one of the two. *)
#[export] Instance RefStartCrates : StartCrates := {|
  toml_from_str t :=
    if String.eqb t "policy" then Ok (board_inventory (Some sample_spec))
    else if String.eqb t "bare" then Ok (board_inventory None) else Err "expected a table";
  base32_decode s := Some (as_bytes s);
  TpmContext := unit;
  SealedBlob := unit;
  tpm_context _ _ := None;
  blob_from_str _ := None;
  tpm_unseal _ _ _ := None;
|}.

#[export] Instance RefStartCratesLaws : StartCratesLaws.
Proof.
  split. intros text inv spec. cbn. repeat case_match; intros [= <-]; cbn; intros E; simplify_eq.
  exact sample_typed.
Qed.

#[local] Existing Instance RefFactors.

Fixpoint repeat_str (n : nat) (s : string) : string :=
  match n with O => "" | S n => s +:+ repeat_str n s end.

(** The files by path: the inventory, a TOTP secret, a signing key. *)
Definition demo_texts (inventory key : string) (_ : nat) (path : string) : option string :=
  if String.eqb path "inv" then Some inventory
  else if String.eqb path "s" then Some "GEZD GNBV"
  else if String.eqb path "k" then Some key else None.

Definition demo_cli : Cli :=
  {| cli_inventory := "inv"; cli_state_dir := "/var/lib/lychgate"; cli_socket := None;
     cli_mcp_socket := None; cli_interval := 10; cli_once := false; cli_dry_run := false;
     cli_approval_window := 300; cli_tpm_unseal := None |}.

Definition free_path (_ : string) : BindEnv :=
  {| at_path := Nothing; remove_outcome := Removed; bind_ok := true; chmod_ok := true;
     nonblocking_ok := true |}.

Definition cold : Sys Scripts unit Ledgers :=
  {| store := None; drivers := Channel.new (world (scripted_set [] [] [])); deadman := tt;
     proofs := fresh_ledgers; journal := []; io := 0; past := [] |}.

Definition demo_start (inventory key : string) : Sys Scripts unit Ledgers * result (Fault StartError) Started :=
  start demo_env (demo_texts inventory key) free_path false demo_cli 7 cold.

Definition good_key : string := repeat_str 32 "a7".


(** A run refused for want of a policy has already journaled its start. *)
Example refused_run_journals :
  (demo_start "bare" good_key).2 = Err (Refused StNoPolicy)
  /\ journal (demo_start "bare" good_key).1 = [(0, EvDaemonStart "inv" 1)].
Proof. split; vm_compute; reflexivity. Qed.

(** A key file of 64 bytes whose characters are wider than the slices makes
    the start panic instead of being refused. *)
Definition accented_key : string := "a" +:+ repeat_str 31 (str_of_bytes [195; 169]) +:+ "a".

Example accented_key_panics :
  str_len accented_key = 64 /\ utf8_valid (as_bytes accented_key) = true
  /\ (demo_start "policy" accented_key).2 = Err Panic.
Proof. repeat split; vm_compute; reflexivity. Qed.
