(* ===== verification/Messages.v ===== *)
(** * Messages: what the errors say

    The [Display] of every error type of core and wire, of the daemon's
    refusals and of the outstanding factors, as the pieces [format_args!]
    makes of them: literal text, a [{:?}] argument, a [{}] argument, a
    number.  A name that a request or a configuration chose is always a
    [{:?}] argument: the theorems say that it cannot bring a control
    character into a message, whatever it holds. *)

From S2P Require Import Prelude Text TextLines Clock Ttl External Approval Cbor Authority Inventory Fence Templates InventoryCheck Channel Grant Registry Snapshot Proto Factors Provers DriverBmc Mcp Daemon Startup.
#[local] Open Scope Z_scope.

(** ** [Debug] of a string *)

(** The tables of [char]: whether a character outside ASCII is written as it
    is, given by its UTF-8 bytes (printable and not a grapheme extension). *)
Class CharTables := { char_as_is : list Z -> bool }.

Definition is_control (c : ascii) : bool := let b := byte_of_ascii c in (b <? 0x20) || (b =? 0x7f).

(** No ASCII control character: no line break, no terminal escape. *)
Definition printable (s : string) : bool := str_forall (fun c => negb (is_control c)) s.

Definition QUOTE : string := String "034"%char "".
Definition BACKSLASH : string := "\".

(** Lower-case hexadecimal without leading zeros; six digits are enough for a
    character. *)
Fixpoint hex_digits (fuel : nat) (n : Z) (acc : string) : string :=
  match fuel with
  | O => acc
  | S fuel =>
      let d := n mod 16 in
      let acc := String (ascii_of_byte (if d <? 10 then 48 + d else 87 + d)) acc in
      if n / 16 =? 0 then acc else hex_digits fuel (n / 16) acc
  end.
Definition escape_unicode (n : Z) : string := BACKSLASH +:+ "u{" +:+ hex_digits 6 n "}".

Section Debug.
Context `{CharTables}.

Definition ascii_debug (c : ascii) : string :=
  let b := byte_of_ascii c in
  if b =? 0 then BACKSLASH +:+ "0"
  else if b =? 9 then BACKSLASH +:+ "t"
  else if b =? 10 then BACKSLASH +:+ "n"
  else if b =? 13 then BACKSLASH +:+ "r"
  else if b =? 34 then BACKSLASH +:+ QUOTE
  else if b =? 92 then BACKSLASH +:+ BACKSLASH
  else if is_control c then escape_unicode b
  else String c "".

(** A character of several bytes and its code point. *)
Definition wide_debug (bytes : list Z) (code : Z) : string :=
  if char_as_is bytes then str_of_bytes bytes else escape_unicode code.

(** The characters of a text; a Rust string is well-formed UTF-8, so the
    empty arms are not reached. *)
Fixpoint chars_debug (bs : list Z) : string :=
  let cont b := (0x80 <=? b) && (b <=? 0xbf) in
  match bs with
  | [] => ""
  | b0 :: rest =>
      if b0 <=? 0x7f then ascii_debug (ascii_of_byte b0) +:+ chars_debug rest
      else if b0 <=? 0xdf then
        match rest with
        | b1 :: rest =>
            if cont b1 then wide_debug [b0; b1] (b0 mod 32 * 64 + b1 mod 64) +:+ chars_debug rest else ""
        | _ => ""
        end
      else if b0 <=? 0xef then
        match rest with
        | b1 :: b2 :: rest =>
            if cont b1 && cont b2
            then wide_debug [b0; b1; b2] (b0 mod 16 * 4096 + b1 mod 64 * 64 + b2 mod 64) +:+ chars_debug rest
            else ""
        | _ => ""
        end
      else
        match rest with
        | b1 :: b2 :: b3 :: rest =>
            if cont b1 && cont b2 && cont b3
            then wide_debug [b0; b1; b2; b3]
                   (b0 mod 8 * 262144 + b1 mod 64 * 4096 + b2 mod 64 * 64 + b3 mod 64) +:+ chars_debug rest
            else ""
        | _ => ""
        end
  end.

(** [{:?}] of a [str]. *)
Definition str_debug (s : string) : string := QUOTE +:+ chars_debug (as_bytes s) +:+ QUOTE.
End Debug.

(** ** Formats *)

Inductive Piece :=
| L (text : string)
| D (text : string)
| P (text : string)
| N (n : Z).

Definition render_piece `{CharTables} (p : Piece) : string :=
  match p with
  | L text | P text => text
  | D text => str_debug text
  | N n => dec_u64 n
  end.
Fixpoint render `{CharTables} (ps : list Piece) : string :=
  match ps with [] => "" | p :: ps => render_piece p +:+ render ps end.

Class Message (A : Type) := { pieces : A -> list Piece }.

(** [to_string]. *)
Definition display `{CharTables} {A} `{!Message A} (a : A) : string := render (pieces a).

(** [{:?}] of a list of strings. *)
Fixpoint separated (sep : Piece) (ps : list Piece) : list Piece :=
  match ps with
  | [] => []
  | [p] => [p]
  | p :: ps => p :: sep :: separated sep ps
  end.
Definition list_debug (l : list string) : list Piece := [L "["] ++ separated (L ", ") (D <$> l) ++ [L "]"].

(** ** The error types *)

(** *** core/src/ttl.rs *)

Definition TtlError_fmt (e : TtlError) : list Piece :=
  match e with
  | Zero => [L "ttl must be greater than zero"]
  | ExceedsCap secs => [L "ttl of "; N secs; L "s exceeds the "; N MAX_TTL_SECS;
      L "s cap; break-glass access is never open-ended"]
  | Ttl.Unparseable s => [L "unparseable ttl "; D s; L "; expected forms like 90s, 15m, 2h"]
  | Overflow => [L "ttl does not fit in seconds"]
  end.
#[export] Instance TtlError_message : Message TtlError := {| pieces := TtlError_fmt |}.

(** *** core/src/grant.rs, registry.rs, snapshot.rs *)

Definition GrantError_fmt (e : GrantError) : list Piece :=
  match e with
  | AlreadyOpen => [L "grant is already open"]
  | NotOpen => [L "grant is not open"]
  | MidOpen => [L "grant is mid-open; retry shortly"]
  | AlreadyPending => [L "a request is already awaiting approval for this host"]
  | NotPending => [L "grant is not awaiting approval"]
  | ApprovalWindowElapsed => [L "the approval window elapsed before the token arrived; reopen to try again"]
  | TooEarly remaining => [L "renewal refused with "; N (as_secs remaining); L "s remaining; renewal opens ";
      N RENEWAL_WINDOW_SECS; L "s before expiry"]
  | ClockOverflow => [L "expiry does not fit in the clock"]
  end.
#[export] Instance GrantError_message : Message GrantError := {| pieces := GrantError_fmt |}.

Definition RegistryError_fmt (e : RegistryError) : list Piece :=
  match e with
  | UnknownHost host => [L "host "; D host; L " is not in the inventory"]
  | EGrant e => pieces e
  end.
#[export] Instance RegistryError_message : Message RegistryError := {| pieces := RegistryError_fmt |}.

(** The texts [from_parts] gives a malformed record. *)
Definition Message_fmt (m : Snapshot.Message) : list Piece :=
  match m with
  | Msg text => [P text]
  | UnknownState other => [L "unknown state "; D other]
  end.
#[export] Instance Message_message : Message Snapshot.Message := {| pieces := Message_fmt |}.

Definition SnapshotError_fmt (e : SnapshotError) : list Piece :=
  match e with
  | UnknownHosts hosts => [L "state records grants for hosts not in the inventory: "] ++ list_debug hosts ++ [L "; a host cannot leave the inventory while its grant is live"]
  | ExpiryNotAfterOpening host => [L "state for host "; D host; L " expires at or before it opened"]
  | SpanExceedsCap host secs => [L "state for host "; D host; L " spans "; N secs; L "s, over the ";
      N MAX_TTL_SECS; L "s cap"]
  | ApprovalDeadlineNotAfterRequest host => [L "pending state for host "; D host;
      L " has an approval deadline at or before its request"]
  | ApprovalWindowExceedsCap host secs => [L "pending state for host "; D host; L " has a "; N secs;
      L "s approval window, over the "; N MAX_APPROVAL_WINDOW_SECS; L "s cap"]
  | Malformed host message => [L "state for host "; D host; L " is malformed: "] ++ pieces message
  end.
#[export] Instance SnapshotError_message : Message SnapshotError := {| pieces := SnapshotError_fmt |}.

(** *** core/src/proto.rs *)

Definition ProtoError_fmt (e : ProtoError) : list Piece :=
  match e with
  | Proto.TooLarge bytes => [L "request of "; N bytes; L " bytes exceeds the "; N MAX_LINE_BYTES; L "-byte cap"]
  | PMalformed m => [L "malformed request: "; P m]
  | VersionMismatch theirs => [L "request speaks protocol "; N theirs; L "; this daemon speaks "; N PROTO_VERSION]
  | MissingField op field => [P op; L " requires the "; D field; L " field"]
  | UnknownOp op => [L "unknown op "; D op]
  end.
#[export] Instance ProtoError_message : Message ProtoError := {| pieces := ProtoError_fmt |}.

(** *** core/src/approval.rs, fido2.rs, tpm.rs, hmac_factor.rs, password.rs, totp.rs *)

Definition ApprovalError_fmt (e : ApprovalError) : list Piece :=
  match e with
  | TokenMalformed m => [L "malformed approval token: "; P m]
  | WrongNamespace ns => [L "approval signed under namespace "; D ns; L ", not "; D APPROVAL_NAMESPACE]
  | UnknownApprover m => [L "approval from an unrecognized signer: "; P m]
  | BadSignature => [L "approval signature did not verify over the challenge"]
  | AlreadyUsed => [L "this one-time approval code was already used"]
  | CloneSuspected => [L "FIDO2 signature counter went backwards — the credential may be cloned; refusing, and this credential should be rotated"]
  end.
#[export] Instance ApprovalError_message : Message ApprovalError := {| pieces := ApprovalError_fmt |}.

Definition Fido2Error_fmt (e : Fido2Error) : list Piece :=
  match e with
  | F2Malformed m => [L "malformed FIDO2 assertion: "; P m]
  | F2WrongCredential => [L "assertion is for a different credential than configured"]
  | F2ChallengeMismatch => [L "assertion's challenge does not match the request"]
  | F2WrongRelyingParty => [L "assertion is for a different relying party"]
  | F2UserNotPresent => [L "assertion has no user-present flag"]
  | F2BadSignature => [L "assertion signature did not verify"]
  | F2UnsupportedKey m => [L "unusable credential key: "; P m]
  end.
#[export] Instance Fido2Error_message : Message Fido2Error := {| pieces := Fido2Error_fmt |}.

Definition TpmError_fmt (e : TpmError) : list Piece :=
  match e with
  | TpmMalformed m => [L "malformed TPM token: "; P m]
  | TpmBadSignature => [L "TPM signature did not verify over the challenge"]
  | TpmUnsupportedKey m => [L "unusable TPM public key: "; P m]
  end.
#[export] Instance TpmError_message : Message TpmError := {| pieces := TpmError_fmt |}.

(** The third is what a bad secret file gets. *)
Definition HmacError_fmt (e : HmacError + unit) : list Piece :=
  match e with
  | inl HmMalformed => [L "not an lghmac token (expected "; L HMAC_PREFIX; L "<base64url of a 32-byte MAC>)"]
  | inl HmMismatch => [L "hmac verification failed"]
  | inr tt => [L "hmac secret must be exactly "; N 32; L " bytes as hex ("; N (32 * 2); L " characters)"]
  end.
#[export] Instance HmacError_message : Message (HmacError + unit) := {| pieces := HmacError_fmt |}.

Definition PasswordError_fmt (e : PasswordError) : list Piece :=
  match e with
  | BadHash m => [L "invalid password hash: "; P m]
  | Hashing m => [L "password hashing failed: "; P m]
  end.
#[export] Instance PasswordError_message : Message PasswordError := {| pieces := PasswordError_fmt |}.

Definition TotpError_fmt (e : TotpError) : list Piece :=
  match e with
  | BadBase32 => [L "totp secret is not valid base32"]
  | TotpEmpty => [L "totp secret is empty"]
  end.
#[export] Instance TotpError_message : Message TotpError := {| pieces := TotpError_fmt |}.

(** *** core/src/ssh.rs, vnc.rs, generic.rs, bmc.rs *)

Definition FenceError_fmt (e : FenceError) : list Piece :=
  match e with
  | FMalformed m => [L "authorized_keys fence is malformed: "; P m; L "; refusing to touch the file"]
  | FBadKey key message => [L "refusing emergency key "; D key; L ": "; P message]
  end.
#[export] Instance FenceError_message : Message FenceError := {| pieces := FenceError_fmt |}.

Definition VncTemplateError_fmt (e : VncTemplateError) : list Piece :=
  match e with
  | Templates.Quoted => [L "contains a single quote; lychgate owns the shell quoting, so a template that quotes its own arguments is refused"]
  | Templates.MissingPasswordFile => [L "never references {password_file}, so the generated password would never reach the target"]
  | Templates.ClearHasPasswordFile => [L "references {password_file}, but the clear command is never handed a password"]
  | Templates.UnknownPlaceholder p => [L "references unknown placeholder {"; P p;
      L "}; lychgate would leave it in the command literally"]
  end.
#[export] Instance VncTemplateError_message : Message VncTemplateError := {| pieces := VncTemplateError_fmt |}.

Definition GenericTemplateError_fmt (e : GenericTemplateError) : list Piece :=
  match e with
  | Templates.Placeholder p => [L "references placeholder {"; P p;
      L "}, but this channel substitutes nothing — lychgate would send it literally"]
  end.
#[export] Instance GenericTemplateError_message : Message GenericTemplateError := {| pieces := GenericTemplateError_fmt |}.

Definition MatchError_fmt (e : MatchError) : list Piece :=
  match e with
  | Templates.Neither => [L "response matches neither the open nor the closed marker; the channel state is unverifiable"]
  | Templates.Both => [L "response matches both the open and the closed marker; the marker pair cannot distinguish the states"]
  end.
#[export] Instance MatchError_message : Message MatchError := {| pieces := MatchError_fmt |}.

Definition BmcParseError_fmt (e : BmcParseError) : list Piece :=
  match e with
  | DriverBmc.Unparseable m => [L "unparseable AccountService response: "; P m]
  | WrongAccount expected found => [L "account slot holds user "; D found;
      L ", not the expected break-glass user "; D expected]
  end.
#[export] Instance BmcParseError_message : Message BmcParseError := {| pieces := BmcParseError_fmt |}.

(** *** wire/src/lib.rs *)

Definition WireError_fmt (e : WireError) : list Piece :=
  match e with
  | BadPrefix => [L "not a lychgate token (bad prefix)"]
  | BadBase64 => [L "base64url segment failed to decode"]
  | WMalformed why => [L "malformed payload: "; P why]
  | UnknownVersion => [L "unknown token version"]
  | VersionKeyMismatch => [L "token version does not match the supplied key kind"]
  | BadKey => [L "invalid public key for the token's scheme"]
  | WBadSignature => [L "signature verification failed"]
  | BufferTooSmall => [L "output buffer too small"]
  end.
#[export] Instance WireError_message : Message WireError := {| pieces := WireError_fmt |}.

(** *** core/src/authority.rs *)

(** The referrer of a dangling reference is a kind and a quoted name. *)
Definition AuthorityError_fmt (e : AuthorityError) : list Piece :=
  match e with
  | NoProfiles => [L "[approval] defines no profile; opening a grant could never be authorized (fail-closed)"]
  | EmptyId kind => [L "an [approval] "; P kind; L " has an empty id"]
  | DuplicateAuthenticator id => [L "authenticator id "; D id; L " appears more than once"]
  | DuplicateGroup id => [L "group id "; D id; L " appears more than once"]
  | DuplicateProfile id => [L "profile id "; D id; L " appears more than once"]
  | MissingMaterial id kind field => [L "authenticator "; D id; L " (kind "; D kind;
      L ") is missing its required "; P field]
  | BadPublicKey id message => [L "authenticator "; D id; L ": public-key does not parse: "; P message]
  | Fido2UnknownAlg id alg => [L "fido2 authenticator "; D id; L " has alg "; D alg; L "; expected "; L QUOTE;
      L "es256"; L QUOTE; L " or "; L QUOTE; L "eddsa"; L QUOTE]
  | Fido2BadKey id message => [L "fido2 authenticator "; D id; L ": "; P message]
  | ZeroThreshold kind id => [P kind; L " "; D id; L " has a threshold of 0, which would open with no proof at all"]
  | ZeroWeight kind id => [P kind; L " "; D id;
      L " has a factor of weight 0, which could never contribute; dead config is a typo"]
  | NoFactors kind id => [P kind; L " "; D id; L " lists no factors, so it could never be satisfied"]
  | BadFactor kind id message => [P kind; L " "; D id; L " has a factor that "; P message]
  | BadWait kind id e => [P kind; L " "; D id; L " has a wait that does not parse: "] ++ pieces e
  | Unsatisfiable kind id threshold available => [P kind; L " "; D id; L " has threshold "; N threshold;
      L " but its factors sum to only "; N available; L "; it could never be opened"]
  | DanglingAuthenticator referrer_kind referrer id => [P referrer_kind; L " "; D referrer;
      L " references authenticator "; D id; L ", which is not defined"]
  | DanglingGroup referrer_kind referrer id => [P referrer_kind; L " "; D referrer; L " references group "; D id;
      L ", which is not defined"]
  | GroupCycle id => [L "group "; D id;
      L " is part of a reference cycle; a gate that references itself could never be evaluated"]
  end.
#[export] Instance AuthorityError_message : Message AuthorityError := {| pieces := AuthorityError_fmt |}.

(** *** core/src/inventory.rs *)

(** The derived [Debug] of the enum. *)
Definition bmc_method_debug (m : BmcMethod) : string :=
  match m with Redfish => "Redfish" | Racadm => "Racadm" | Ipmitool => "Ipmitool" end.

Definition InventoryError_fmt (e : InventoryError) : list Piece :=
  match e with
  | EmptyHostName => [L "a host has an empty name"]
  | DuplicateHostName name => [L "host name "; D name; L " appears more than once"]
  | EmptyAddress host => [L "host "; D host; L " has an empty address"]
  | InventoryCheck.NoChannels host => [L "host "; D host;
      L " declares no channels; a host lychgate may not touch does not belong in the inventory"]
  | DuplicateChannel host => [L "host "; D host; L " lists the same channel more than once"]
  | SshConfigMissing host => [L "host "; D host;
      L " declares an ssh or authorized-keys channel but has no [hosts.ssh] config"]
  | SshConfigUnused host => [L "host "; D host;
      L " has [hosts.ssh] config but declares neither the ssh nor the authorized-keys channel; dead config is a typo"]
  | NoEmergencyKeys host => [L "host "; D host;
      L " declares the authorized-keys channel but [hosts.ssh] lists no emergency_keys"]
  | PostureUnchanged host => [L "host "; D host;
      L ": root_posture_emergency equals root_posture_default, so the ssh channel would change nothing; drop the ssh channel or change a posture"]
  | BadEmergencyKey host message => [L "host "; D host; L ": "] ++ pieces message
  | BmcConfigMissing host => [L "host "; D host; L " declares a bmc channel but has no [hosts.bmc] config"]
  | BmcConfigUnused host => [L "host "; D host;
      L " has [hosts.bmc] config but declares no bmc channel; dead config is a typo"]
  | BmcMethodUnimplemented host method => [L "host "; D host; L ": bmc method "; L (bmc_method_debug method);
      L " is not implemented yet; only redfish is"]
  | VncConfigMissing host => [L "host "; D host; L " declares a vnc channel but has no [hosts.vnc] config"]
  | VncConfigUnused host => [L "host "; D host;
      L " has [hosts.vnc] config but declares no vnc channel; dead config is a typo"]
  | VncCommandQuoted host which => [L "host "; D host; L ": "; P which;
      L " contains a single quote; lychgate must own the shell quoting, so a template that quotes its own arguments is refused"]
  | VncMissingPasswordFile host => [L "host "; D host;
      L ": set_password_cmd never references {password_file}, so the generated password would never reach the target"]
  | VncClearHasPasswordFile host => [L "host "; D host;
      L ": clear_password_cmd references {password_file}, but the clear command is never handed a password"]
  | VncUnknownPlaceholder host which placeholder => [L "host "; D host; L ": "; P which;
      L " references unknown placeholder {"; P placeholder; L "}; lychgate would leave it in the command literally"]
  | VncBadPort host field => [L "host "; D host; L ": vnc "; P field; L " is zero"]
  | VncBadPasswordLen host => [L "host "; D host; L ": vnc password_len is zero, which is no password at all"]
  | VncLocalPortConflict host other port => [L "host "; D host; L ": local_port "; N port;
      L " is also forwarded by host "; D other; L "; two hosts cannot share one daemon-local forward port"]
  | GenericConfigMissing host channel => [L "host "; D host; L " declares a "; P channel;
      L " channel but has no [hosts."; P channel; L "] config"]
  | GenericConfigUnused host channel => [L "host "; D host; L " has [hosts."; P channel;
      L "] config but declares no "; P channel; L " channel; dead config is a typo"]
  | GenericVerifyNotNone host channel got => [L "host "; D host; L ": [hosts."; P channel; L "] verify = "; D got;
      L "; only the literal "; L QUOTE; L "none"; L QUOTE;
      L " (an explicit narrowing) or a verify table is meaningful"]
  | GenericPlaceholder host channel field message => [L "host "; D host; L ": [hosts."; P channel; L "] "; P field;
      L " "] ++ pieces message
  | GenericBadStatus host which => [L "host "; D host; L ": "; P which;
      L " expect_status is not an HTTP status (100..=599)"]
  | GenericZeroTimeout host channel => [L "host "; D host; L ": [hosts."; P channel;
      L "] timeout_secs is zero, so every transaction would fail instantly"]
  | MqttPasswordAuth host => [L "host "; D host;
      L ": mqtt password auth is refused — mosquitto clients take the password on argv, where every process on the daemon host can read it; use TLS client certificates or an anonymous listener"]
  | DeviceBadId host => [L "host "; D host; L ": device_id must be exactly 32 hex characters (16 bytes)"]
  | DeviceTransportMismatch host => [L "host "; D host;
      L ": [hosts.device] must carry exactly the sub-table matching its transport (e.g. transport = "; L QUOTE;
      L "serial"; L QUOTE; L " with [hosts.device.serial]); a mismatched or extra sub-table is dead config"]
  | SigningKeyMissing host which => [L "host "; D host; L " declares a device channel whose alg needs [signing] ";
      P which; L ", which is not configured; the daemon could never issue its tokens (fail-closed)"]
  | SigningUnused => [L "[signing] is configured but no host declares a device channel; dead config is a typo"]
  | DeviceMqttUnimplemented host => [L "host "; D host;
      L ": the device-mqtt transport is not implemented yet; use serial or http"]
  | EmbeddedChannelUnsupported host channel => [L "host "; D host; L " is os = "; L QUOTE; L "embedded"; L QUOTE;
      L " but declares the "; P channel;
      L " channel, which needs a shell on the target; embedded hosts may declare only http, mqtt, serial, and bmc"]
  | BadApproval e => [L "[approval] policy is invalid: "] ++ pieces e
  | AccessWithoutApproval host => [L "host "; D host;
      L " declares [hosts.access] but the inventory has no [approval] policy; access profiles are meaningless without one"]
  | AccessNoProfiles host => [L "host "; D host;
      L " declares [hosts.access] permitting no profiles; it could never be opened (fail-closed)"]
  | UnknownProfile host profile => [L "host "; D host; L " references approval profile "; D profile;
      L ", which is not defined in [approval]"]
  | OverrideForUnpermittedProfile host profile => [L "host "; D host; L " overrides profile "; D profile;
      L " but does not permit it; dead config is a typo"]
  end.
#[export] Instance InventoryError_message : Message InventoryError := {| pieces := InventoryError_fmt |}.

(** *** daemon/src/lifecycle.rs *)

#[export] Instance DriverError_message : Message DriverError :=
  {| pieces e := let '(MkDriverError text) := e in [P text] |}.

(** [{:?}] of channels, [join] of names. *)
Definition channels_debug (cs : list Channel) : list Piece :=
  [L "["] ++ separated (L ", ") ((fun c => L (channel_debug c)) <$> cs) ++ [L "]"].
Definition joined (names : list string) : list Piece := separated (L ", ") (P <$> names).

(** The text of every [Response::refused]. *)
Fixpoint Refusal_fmt (r : Refusal) : list Piece :=
  match r with
  | RfTtl e => pieces e
  | RfRegistry e => pieces e
  | RfNoProfiles host => [L "host "; D host; L " permits no approval profiles"]
  | RfManyProfiles host permitted =>
      [L "host "; D host; L " permits "; N (Z.of_nat (length permitted)); L " profiles ("] ++ joined permitted
      ++ [L "); specify --as <profile>"]
  | RfNotPermitted host profile =>
      [L "host "; D host; L " does not permit approval profile "; D profile]
  | RfProfileUndefined profile => [L "approval profile "; D profile; L " is not defined"]
  | RfOverride e => pieces e
  | RfWaitTooLong profile wait_secs window_secs =>
      [L "profile "; D profile; L " needs a wait of "; N wait_secs; L "s, but the approval window is only ";
       N window_secs; L "s; raise --approval-window"]
  | RfWindowOverflow => [L "the approval window overflows the clock"]
  | RfApproval e => [L "approval refused: "] ++ pieces e
  | RfNoLongerAwaiting => [L "the request is no longer awaiting approval"]
  | RfDeadmanInstall e =>
      [L "open refused: the dead-man backstop could not be installed ("] ++ pieces e
      ++ [L "); a grant without its backstop must not exist"]
  | RfOpenFailed failed e stuck =>
      [L "open failed on "; L (channel_debug failed); L ": "] ++ pieces e ++ [L "; "]
      ++ match stuck with
         | [] => [L "all channels reverted"]
         | _ => [L "channels awaiting revert: "] ++ channels_debug stuck
         end
  | RfDeadmanReschedule e =>
      [L "renewal refused: the dead-man backstop could not be rescheduled ("] ++ pieces e ++ [L ")"]
  | RfChannelNotTold c e =>
      [L "renewal refused: channel "; L (channel_debug c); L " could not be told the new deadline ("]
      ++ pieces e ++ [L ")"]
  | RfNotCanary host =>
      [L "host "; D host; L " is not a drill canary (set `drill = true` on it to allow drills)"]
  | RfCanaryNotIdle host => [L "canary "; D host; L " is not idle (a drill needs it closed first)"]
  | RfDrillBegin e => [L "could not begin the drill: "] ++ pieces e
  | RfCanaryDidNotOpen => [L "the canary did not open (channel apply failed)"]
  | RfRevertDidNotComplete => [L "the revert did not complete"]
  | RfDrillFailed host reason => [L "drill FAILED on "; D host; L ": "] ++ Refusal_fmt reason
  | RfCloseIncomplete host stuck =>
      [L "close of "; D host; L " incomplete; channels awaiting revert: "] ++ channels_debug stuck
      ++ [L " (retried on every pass)"]
  | RfMcpNeedsPolicy =>
      [L "the MCP front door requires an approval policy; this daemon runs --dry-run (no policy)"]
  | RfMcpDrill => [L "drill is an operator action, not available over the MCP front door"]
  | RfMcpProfile profile host =>
      [L "profile "; D profile; L " on host "; D host;
       L " is not reachable via the MCP front door (set `mcp = true` on the profile to allow it)"]
  end.
#[export] Instance Refusal_message : Message Refusal := {| pieces := Refusal_fmt |}.

(** [describe_missing], one line per outstanding factor. *)
Definition Missing_fmt (m : Missing) : list Piece :=
  match m with
  | MissingAuthenticator id => [L "a proof from "; D id]
  | MissingGroup id => [L "a grant from "; D id]
  | MissingWait remaining => [L "+"; N (as_secs remaining); L "s wait"]
  end.
#[export] Instance Missing_message : Message Missing := {| pieces := Missing_fmt |}.
Definition describe_missing `{CharTables} (missing : list Missing) : list string := display <$> missing.

(** The sentence of a narrowing. *)
Definition narrowing_fmt (channel : Channel) (host : string) : list Piece :=
  [L "channel "; L (channel_debug channel); L " on "; D host; L " opened with verify = "; L QUOTE; L "none"; L QUOTE;
   L ": the request's own expectation was the only oracle; actual device state was not read back"].

(** *** mcp/src/tools.rs *)

Definition ToolFailure_fmt (f : ToolFailure) : list Piece :=
  match f with
  | MissingArgument key => [L "missing required argument "; D key]
  | BackendFailed error => [P error]
  | OpenRefused error => [L "open refused: "; P error]
  | SigningFailed error => [L "signing the challenge failed: "; P error]
  | RenewRefused error => [L "renew refused: "; P error]
  | CloseRefused error => [L "close refused: "; P error]
  end.
#[export] Instance ToolFailure_message : Message ToolFailure := {| pieces := ToolFailure_fmt |}.

Definition expiry_suffix (expires_at : option Z) : list Piece :=
  match expires_at with Some e => [L " until epoch "; N e] | None => [] end.

Definition render_state (s : LineState) : string :=
  match s with
  | LClosed => "closed"
  | LAwaitingApproval => "awaiting approval"
  | LApprovalExpired => "approval-expired"
  | LOpening => "opening"
  | LOpen => "open"
  | LExpired => "expired"
  | LNeedsRevert => "needs-revert"
  end.

Definition grant_line_fmt (g : string * LineState * option Z) : list Piece :=
  let '(host, state, remaining_secs) := g in
  match remaining_secs with
  | Some s => [P host; L ": "; L (render_state state); L " ("; N s; L "s remaining)"]
  | None => [P host; L ": "; L (render_state state)]
  end.

Definition describe_open_response (host : string) (expires_at : option Z) : list Piece :=
  match expires_at with
  | Some _ => [D host; L " is OPEN"] ++ expiry_suffix expires_at ++ [L "."]
  | None => [L "Requested "; D host; L "."]
  end.

(** [describe_missing] on a label, then [render_missing]. *)
Definition label_fmt (l : MissingLabel) : list Piece :=
  match l with LMissing m => pieces m | LAnyToken => [L "any approval token (dry-run)"] end.
Definition render_missing (missing : list MissingLabel) : list Piece :=
  match missing with
  | [] => [L "nothing (threshold met)"]
  | l :: ls => label_fmt l ++ mjoin ((fun l => L ", " :: label_fmt l) <$> ls)
  end.

Definition newline : string := String LF "".
Definition challenge_line (challenge : string) : list Piece :=
  [L newline; L "To add a human factor, sign this challenge and approve it on the operator socket:"; L newline;
   P challenge].

Definition ToolText_fmt (t : ToolText) : list Piece :=
  match t with
  | Described host expires_at => describe_open_response host expires_at
  | StillAwaiting host profile weight threshold missing challenge =>
      [L "Requested "; D host; L " under profile "; D profile; L ". The AI factor was accepted (weight "; N weight;
       L "/"; N threshold; L "). Still awaiting out-of-band approval: "]
      ++ render_missing missing ++ [L "."] ++ challenge_line challenge
  | NowOpen host profile expires_at =>
      [L "Requested "; D host; L " under profile "; D profile;
       L ". The AI factor met the threshold — the grant is OPEN"] ++ expiry_suffix expires_at ++ [L "."]
  | FactorNotAccepted host profile weight threshold error missing challenge =>
      [L "Requested "; D host; L " under profile "; D profile; L " (weight "; N weight; L "/"; N threshold;
       L "). The AI factor was not accepted for this profile ("; P error; L "). Awaiting out-of-band approval: "]
      ++ render_missing missing ++ [L "."] ++ challenge_line challenge
  | NoGrantFor host => [L "No grant for host "; D host; L "."]
  | NoGrants => [L "No grants."]
  | GrantLines lines =>
      match lines with
      | [] => []
      | g :: gs => grant_line_fmt g ++ mjoin ((fun g => L newline :: grant_line_fmt g) <$> gs)
      end
  | Renewed host expires_at => [L "Renewed "; D host] ++ expiry_suffix expires_at ++ [L "."]
  | ClosedWith host outcome => [L "Closed "; D host; L " ("; P outcome; L ")."]
  | HandleOpen host remaining_secs =>
      [D host; L " is OPEN"]
      ++ match remaining_secs with Some s => [L ", "; N s; L "s remaining"] | None => [] end
      ++ [L ". Use your configured access (e.g. SSH with your own key); one-time secrets are not delivered over MCP."]
  | HandleUnusable host state =>
      [D host; L " is "; L (render_state state); L " — no usable access handle yet."]
  end.
#[export] Instance ToolText_message : Message ToolText := {| pieces := ToolText_fmt |}.

(** ** No control characters *)

Definition all_printable (texts : list string) : Prop := Forall (fun s => printable s = true) texts.

Section Printable.
Context `{CharTables}.

Lemma printable_app s t : printable (s +:+ t) = printable s && printable t.
Proof. apply str_forall_app. Qed.

Lemma byte_printable b : 0x20 <= b <= 0xff -> b <> 0x7f -> is_control (ascii_of_byte b) = false.
Proof.
  intros Hb Hne. unfold is_control. rewrite byte_of_ascii_of_byte by lia.
  apply orb_false_iff. split; [apply Z.ltb_ge; lia|by apply Z.eqb_neq].
Qed.

Lemma hex_digits_printable fuel n acc : printable acc = true -> printable (hex_digits fuel n acc) = true.
Proof.
  revert n acc. induction fuel as [|fuel IH]; intros n acc Ha; [done|]. cbn [hex_digits].
  pose proof (Z.mod_pos_bound n 16 ltac:(lia)).
  assert (Hd : printable (String (ascii_of_byte (if n mod 16 <? 10 then 48 + n mod 16 else 87 + n mod 16)) acc) = true).
  { cbn. rewrite byte_printable; [exact Ha|..]; destruct (Z.ltb_spec (n mod 16) 10); lia. }
  destruct (n / 16 =? 0); [exact Hd|by apply IH].
Qed.

Lemma escape_unicode_printable n : printable (escape_unicode n) = true.
Proof. unfold escape_unicode. rewrite !printable_app. by rewrite hex_digits_printable. Qed.

Lemma ascii_debug_printable c : printable (ascii_debug c) = true.
Proof.
  unfold ascii_debug. repeat (case_match; [try done; apply escape_unicode_printable|]). cbn.
  by match goal with H : is_control c = false |- _ => rewrite H end.
Qed.

Lemma wide_debug_printable bytes code :
  Forall (fun b => 0x80 <= b <= 0xff) bytes -> printable (wide_debug bytes code) = true.
Proof.
  intros Hb. unfold wide_debug. case_match; [|apply escape_unicode_printable].
  clear -Hb. induction Hb as [|b bytes Hb _ IH]; [done|]. cbn. by rewrite byte_printable by lia.
Qed.

Lemma chars_debug_printable n bs : (length bs <= n)%nat -> Forall is_u8 bs -> printable (chars_debug bs) = true.
Proof.
  revert bs. induction n as [|n IH]; intros bs Hn Hu; [by destruct bs; [|cbn in Hn; lia]|].
  destruct bs as [|b0 rest]; [done|]. cbn [chars_debug]. apply Forall_cons in Hu as [Hb0 Hu]. cbn in Hn.
  unfold is_u8, u8_max in *.
  destruct (Z.leb_spec b0 0x7f); [rewrite printable_app, ascii_debug_printable; apply IH; [lia|done]|].
  assert (Hwide : forall l code tl, Forall (fun b => 0x80 <= b <= 0xff) l -> (length tl <= n)%nat -> Forall is_u8 tl ->
    printable (wide_debug l code +:+ chars_debug tl) = true).
  { intros l code tl Hl Htl Hutl. rewrite printable_app, wide_debug_printable by done. by apply IH. }
  repeat match goal with
  | |- context [if ?c then _ else _] => destruct c eqn:?
  | |- context [match ?l with [] => _ | _ :: _ => _ end] => destruct l as [|? ?]
  end; try done; bool_prop; repeat match goal with H : Forall _ (_ :: _) |- _ => apply Forall_cons in H as [? ?] end;
    cbn in Hn; apply Hwide; [|lia|done| |lia|done| |lia|done]; repeat constructor; lia.
Qed.

(** A name, whatever it holds, is written without a control character. *)
Lemma str_debug_printable s : printable (str_debug s) = true.
Proof.
  unfold str_debug. rewrite !printable_app. by rewrite (chars_debug_printable (length (as_bytes s)));
    [|done|apply as_bytes_u8].
Qed.

Lemma dec_digits_printable fuel n acc : printable acc = true -> printable (dec_digits fuel n acc) = true.
Proof.
  revert n acc. induction fuel as [|fuel IH]; intros n acc Ha; [done|]. cbn [dec_digits].
  pose proof (Z.mod_pos_bound n 10 ltac:(lia)).
  assert (Hd : printable (String (digit_char (n mod 10)) acc) = true).
  { unfold digit_char. cbn. by rewrite byte_printable by lia. }
  destruct (n / 10 =? 0); [exact Hd|by apply IH].
Qed.

Lemma dec_u64_printable n : printable (dec_u64 n) = true.
Proof. by apply dec_digits_printable. Qed.

Definition piece_printable (p : Piece) : bool :=
  match p with L text | P text => printable text | _ => true end.

Lemma render_printable ps : printable (render ps) = forallb piece_printable ps.
Proof.
  induction ps as [|p ps IH]; [done|]. cbn. rewrite printable_app, IH. f_equal.
  destruct p; cbn; done || apply str_debug_printable || apply dec_u64_printable.
Qed.
End Printable.

(** ** What a message takes from outside *)

(** The text in a message that is written as it is and is not the code's own:
    the words of a driver, of a parser or of another library, and the names
    of the policy in the list of profiles. *)
Definition authority_outside (e : AuthorityError) : list string :=
  match e with
  | EmptyId kind | ZeroThreshold kind _ | ZeroWeight kind _ | NoFactors kind _ | BadWait kind _ _
  | Unsatisfiable kind _ _ _ => [kind]
  | MissingMaterial _ _ field => [field]
  | BadPublicKey _ message | Fido2BadKey _ message => [message]
  | BadFactor kind _ message => [kind; message]
  | DanglingAuthenticator kind _ _ | DanglingGroup kind _ _ => [kind]
  | _ => []
  end.

Definition driver_outside (e : DriverError) : list string := let '(MkDriverError text) := e in [text].

Fixpoint refusal_outside (r : Refusal) : list string :=
  match r with
  | RfManyProfiles _ permitted => permitted
  | RfOverride e => authority_outside e
  | RfApproval (TokenMalformed text) | RfApproval (UnknownApprover text) => [text]
  | RfDeadmanInstall e | RfOpenFailed _ e _ | RfDeadmanReschedule e | RfChannelNotTold _ e => driver_outside e
  | RfDrillFailed _ reason => refusal_outside reason
  | _ => []
  end.

Definition proto_outside (e : ProtoError) : list string :=
  match e with PMalformed text => [text] | MissingField op _ => [op] | _ => [] end.

Definition inventory_outside (e : InventoryError) : list string :=
  match e with
  | BadEmergencyKey _ (FMalformed m) | BadEmergencyKey _ (FBadKey _ m) => [m]
  | VncCommandQuoted _ which | GenericBadStatus _ which | SigningKeyMissing _ which => [which]
  | VncUnknownPlaceholder _ which placeholder => [which; placeholder]
  | VncBadPort _ field => [field]
  | GenericConfigMissing _ channel | GenericConfigUnused _ channel | GenericVerifyNotNone _ channel _
  | GenericZeroTimeout _ channel | EmbeddedChannelUnsupported _ channel => [channel]
  | GenericPlaceholder _ channel field (Templates.Placeholder p) => [channel; field; p]
  | BadApproval e => authority_outside e
  | _ => []
  end.

Section OneLine.
Context `{CharTables}.

Lemma forallb_separated (f : Piece -> bool) sep ps :
  f sep = true -> forallb f (separated sep ps) = forallb f ps.
Proof.
  intros Hs. induction ps as [|p [|q ps] IH]; [done|done|].
  change (separated sep (p :: q :: ps)) with (p :: sep :: separated sep (q :: ps)).
  cbn [forallb]. rewrite Hs. cbn [andb]. f_equal. exact IH.
Qed.

Lemma channels_debug_ok cs : forallb piece_printable (channels_debug cs) = true.
Proof.
  unfold channels_debug. rewrite !forallb_app, forallb_separated by done. cbn.
  rewrite andb_true_r. induction cs as [|c cs IH]; [done|]. cbn. by destruct c.
Qed.

Lemma joined_ok names : all_printable names -> forallb piece_printable (joined names) = true.
Proof.
  intros Hn. unfold joined. rewrite forallb_separated by done. induction Hn as [|n names Hp _ IH]; [done|].
  cbn. by rewrite Hp.
Qed.

Lemma channel_debug_ok c : printable (channel_debug c) = true.
Proof. by destruct c. Qed.

Lemma GrantError_ok e : forallb piece_printable (GrantError_fmt e) = true.
Proof. by destruct e. Qed.
Lemma TtlError_ok e : forallb piece_printable (TtlError_fmt e) = true.
Proof. by destruct e. Qed.
Lemma RegistryError_ok e : forallb piece_printable (RegistryError_fmt e) = true.
Proof. destruct e; [done|apply GrantError_ok]. Qed.
Lemma AuthorityError_ok e :
  all_printable (authority_outside e) -> forallb piece_printable (AuthorityError_fmt e) = true.
Proof.
  unfold all_printable. destruct e; cbn -[printable TtlError_fmt]; rewrite ?Forall_cons; intros;
    destruct_and?; repeat match goal with H : printable _ = true |- _ => rewrite H; clear H end; try done.
  by rewrite TtlError_ok.
Qed.
Lemma DriverError_ok e :
  all_printable (driver_outside e) -> forallb piece_printable (pieces e) = true.
Proof. destruct e as [text]. unfold all_printable. cbn. rewrite Forall_cons. intros [-> _]. done. Qed.
Lemma ApprovalError_ok e :
  all_printable (refusal_outside (RfApproval e)) -> forallb piece_printable (ApprovalError_fmt e) = true.
Proof.
  unfold all_printable. destruct e; cbn -[printable]; rewrite ?Forall_cons; try done; by intros [-> _].
Qed.

#[local] Hint Rewrite @forallb_app channels_debug_ok channel_debug_ok GrantError_ok TtlError_ok RegistryError_ok : message.

Lemma Refusal_ok r : all_printable (refusal_outside r) -> forallb piece_printable (Refusal_fmt r) = true.
Proof.
  induction r as [| | | | | | | | | | | |failed e stuck| | | | | | | | | | | |]; intros Ho;
    cbn -[printable channels_debug pieces]; autorewrite with message;
    try first [done | by rewrite RegistryError_ok | by rewrite TtlError_ok
              | by rewrite joined_ok by exact Ho | by apply AuthorityError_ok
              | by apply ApprovalError_ok | by rewrite DriverError_ok by exact Ho | by rewrite IHr by exact Ho].
  rewrite DriverError_ok by exact Ho. destruct stuck; [done|].
  cbn -[printable channels_debug]. by rewrite channels_debug_ok.
Qed.
End OneLine.

(** C35. No request can forge output: whatever host, profile, TTL or operation
    it names, the refusal it gets is free of control characters (no line
    break, no terminal escape), since such a name is always written through
    the escaping [{:?}]; only the words of drivers and libraries and the
    policy's own profile names are written as they are. *)
Theorem refusal_cannot_inject `{CharTables} (r : Refusal) (e : ProtoError)
    (Hr : all_printable (refusal_outside r)) (He : all_printable (proto_outside e)) :
  printable (display r) = true /\ printable (display e) = true.
Proof.
  unfold display. rewrite !render_printable. split; [by apply Refusal_ok|].
  unfold all_printable in He. destruct e; cbn -[printable] in *; rewrite ?Forall_cons in He; try done;
    by destruct He as [-> _].
Qed.

(** What a refused request of an MCP session is told. *)
Theorem tool_failure_printable `{CharTables} (r : Refusal) (key : string) :
  all_printable (refusal_outside r) ->
  printable (display (OpenRefused (display r))) = true /\ printable (display (RenewRefused (display r))) = true
  /\ printable (display (CloseRefused (display r))) = true /\ printable (display (MissingArgument key)) = true.
Proof.
  intros Hr. assert (Hd : printable (display r) = true) by (unfold display; rewrite render_printable; by apply Refusal_ok).
  unfold display at 1 3 5 7. rewrite !render_printable. cbn -[printable display]. by rewrite Hd.
Qed.

(** The messages of a refused inventory. *)
Theorem inventory_message_printable `{CharTables} (e : InventoryError) :
  all_printable (inventory_outside e) -> printable (display e) = true.
Proof.
  unfold display. rewrite render_printable. unfold all_printable. intros Ho.
  destruct e as [| | | | | | | | |h m| | |h m| | | | | | | | | | | | |h c f m| | | | | | | | | |e| | | |];
    try (by apply AuthorityError_ok); try destruct m; cbn -[printable] in Ho |- *;
    rewrite ?Forall_cons in Ho; destruct_and?;
    repeat match goal with H : printable _ = true |- _ => rewrite H; clear H end; done.
Qed.

(** *** Witness *)

#[local] Instance AsIs : CharTables := {| char_as_is _ := true |}.

Definition forged : string := "db" +:+ String LF ("ok" +:+ String "027"%char "[2J").

Example forged_host_escaped :
  display (RfRegistry (UnknownHost forged))
  = "host " +:+ QUOTE +:+ "db\nok\u{1b}[2J" +:+ QUOTE +:+ " is not in the inventory".
Proof. by vm_compute. Qed.

Lemma refusal_cannot_inject_witness :
  printable (display (RfNotPermitted forged forged)) = true /\ printable (display (UnknownOp forged)) = true.
Proof. apply (refusal_cannot_inject (RfNotPermitted forged forged) (UnknownOp forged)); constructor. Defined.

(** The list of permitted profiles is joined as it is: a policy whose profile
    name has a line break breaks the line. *)
Example joined_profiles_are_raw : printable (display (RfManyProfiles "db" ["a"; forged])) = false.
Proof. by vm_compute. Qed.
