(* ===== verification/StateDir.v ===== *)
(** * StateDir: the files of the state directory

    Four components keep a document in the state directory, each with its own
    lock, temporary and stolen-lock files beside it (daemon/src/store.rs,
    totp_ledger.rs, fido2_counters.rs, device_state.rs, lockfile.rs).  Their
    models treat those files as their own; here the names are computed as the
    code computes them, and no two of them are the same file.  The lock calls
    are composed with the lock of Lockfile, under the limits the code sets. *)

From S2P Require Import Prelude Text Clock Lockfile StoreFile Messages.
#[local] Open Scope Z_scope.

(** The record the four components share; times in milliseconds. *)
Record Store := { path : string; lock_timeout : Z; stale_lock_after : Z }.
Definition at_ (path : string) : Store := {| path := path; lock_timeout := 10 * 1000; stale_lock_after := 120 * 1000 |}.

(** The documents [main] opens, by their names in the directory. *)
Definition TOTP_FILE : string := "totp-ledger.json".
Definition DEVICE_FILE : string := "device-state.json".
Definition FIDO2_FILE : string := "fido2-counters.json".
Definition DOCUMENTS : list string := [STATE_FILE; TOTP_FILE; DEVICE_FILE; FIDO2_FILE].
(** The other names [main] uses there. *)
Definition SOCKET_FILE : string := "lychgated.sock".

Definition lock_path (s : Store) : string := with_extension (path s) "lock".
(** Where [acquire] moves a lock it steals. *)
Definition stale_path (lock : string) (pid : Z) : string := with_extension lock ("lock.stale." +:+ dec_u64 pid).

(** The files a component touches, for the processes that write them. *)
Inductive Role := Document | Lock | Temporary (pid : Z) | Stolen (pid : Z).
Definition role_ok (r : Role) : Prop :=
  match r with Document | Lock => True | Temporary pid | Stolen pid => 0 <= pid <= u64_max end.

Definition file_of (s : Store) (r : Role) : string :=
  match r with
  | Document => path s
  | Lock => lock_path s
  | Temporary pid => tmp (path s) pid
  | Stolen pid => stale_path (lock_path s) pid
  end.

(** ** [Store::lock] and the ledgers' *)

Inductive StoreError :=
| Io (path source : string)
| Corrupt (path message : string)
| Locked (path : string) (held_for : Z).

Definition StoreError_fmt (e : StoreError) : list Piece :=
  match e with
  | Io path source => [P path; L ": "; P source]
  | Corrupt path message => [P path; L ": unreadable grant store: "; P message]
  | Locked path held_for =>
      [P path; L ": another lychgated has held the grant lock for "; N (held_for / 1000);
       L "s; if nothing else is running, remove it"]
  end.

(** [LockError], and where [acquire] stands when it has answered; [source] is
    the words of an I/O failure. *)
Inductive LockError := Held (held_for : Z) | LockIo (source : string).

Definition acquired (source : string) (pc : Pc) : option (result LockError unit) :=
  match pc with
  | Holding => Some (Ok tt)
  | Refusing (Some held_for) => Some (Err (Held held_for))
  | Refusing None => Some (Err (LockIo source))
  | _ => None
  end.

(** [Store::lock]. *)
Definition lock (s : Store) (r : result LockError unit) : result StoreError unit :=
  map_err (fun e => match e with
                    | Held held_for => Locked (lock_path s) held_for
                    | LockIo source => Io (lock_path s) source
                    end) r.

(** The [lock] of the three ledgers, by the name in its message. *)
Definition ledger_lock (what : string) (s : Store) (r : result LockError unit) : result string unit :=
  map_err (fun e => match e with
                    | Held _ => lock_path s +:+ ": " +:+ what +:+ " lock held too long"
                    | LockIo source => source
                    end) r.

(** ** No two files are one *)

Lemma dec_u64_inj n m : 0 <= n <= u64_max -> 0 <= m <= u64_max -> dec_u64 n = dec_u64 m -> n = m.
Proof. intros Hn Hm E. apply u64_from_str_dec in Hn, Hm. rewrite E in Hn. by simplify_eq. Qed.

(** A document's name split at its extension. *)
Lemma file_of_stem f r :
  f ∈ DOCUMENTS ->
  exists stem, (stem, f) ∈ [("grants", STATE_FILE); ("totp-ledger", TOTP_FILE); ("device-state", DEVICE_FILE);
                            ("fido2-counters", FIDO2_FILE)]
  /\ file_of (at_ f) r = stem +:+ "." +:+ match r with
                                        | Document => "json"
                                        | Lock => "lock"
                                        | Temporary pid => "tmp." +:+ dec_u64 pid
                                        | Stolen pid => "lock.stale." +:+ dec_u64 pid
                                        end.
Proof.
  unfold DOCUMENTS. rewrite !elem_of_cons, elem_of_nil.
  intros [->|[->|[->|[->|[]]]]];
    [exists "grants"|exists "totp-ledger"|exists "device-state"|exists "fido2-counters"];
    (split; [rewrite !elem_of_cons; tauto|by destruct r]).
Qed.

(** The files of the state directory are distinct: whatever the process ids
    of the processes at work, a document, a lock, a temporary file or a
    stolen lock of one component is no file of another and no other file of
    its own, and none of them is the journal or the socket. *)
Theorem state_files_distinct (f g : string) (r r' : Role)
    (Hf : f ∈ DOCUMENTS) (Hg : g ∈ DOCUMENTS) (Hr : role_ok r) (Hr' : role_ok r') :
  (file_of (at_ f) r = file_of (at_ g) r' -> f = g /\ r = r')
  /\ file_of (at_ f) r ∉ [JOURNAL_FILE; SOCKET_FILE].
Proof.
  destruct (file_of_stem f r Hf) as (stem & Hs & ->). destruct (file_of_stem g r' Hg) as (stem' & Hs' & ->).
  rewrite !elem_of_cons, elem_of_nil in Hs, Hs'. split.
  - intros E. assert (f = g /\ stem = stem') as [-> ->].
    { destruct Hs as [[= -> ->]|[[= -> ->]|[[= -> ->]|[[= -> ->]|[]]]]];
      destruct Hs' as [[= -> ->]|[[= -> ->]|[[= -> ->]|[[= -> ->]|[]]]]]; try done; discriminate E. }
    split; [done|]. apply (inj (String.append _)) in E. injection E as E.
    destruct r, r'; try done; try discriminate E; injection E as E; f_equal; by apply dec_u64_inj.
  - destruct Hs as [[= -> ->]|[[= -> ->]|[[= -> ->]|[[= -> ->]|[]]]]]; set_solver.
Qed.

(** ** The locks answer in time *)

Section InTime.
Context (timeout stale : Z).

(** A process that called [acquire] stays past the call until it drops the
    lock. *)
Lemma stays_entered s ev p :
  ev <> Drop p -> pc_of s p <> Outside -> pc_of (exec timeout stale s ev) p <> Outside.
Proof.
  intros Hd Hs. destruct ev as [q|q|q|q|q|q|ms]; cbn [exec]; try done;
    unfold begin, advance, drop_guard; repeat case_match; try done;
    try (rewrite pc_goto; case_decide; [subst; try done|done]);
    try (unfold judge; by case_match).
  - unfold pc_of. cbn. rewrite lookup_insert. by case_decide.
Qed.

Lemma stays_entered_all evs s p :
  ~ In (Drop p) evs -> pc_of s p <> Outside -> pc_of (exec_all timeout stale evs s) p <> Outside.
Proof.
  revert s. induction evs as [|ev evs IH]; intros s Hd Hs; [done|]. cbn in Hd |- *.
  apply IH; [tauto|]. apply stays_entered; [naive_solver|done].
Qed.
End InTime.

(** Under the limits every component sets, a lock call ends: a process that
    calls it, is run for more than 1406 system calls and then for one more has
    its answer, the lock or an error, unless the process died. *)
Theorem store_lock_answers (f source : string) (s : System) (p : Z) (evs : list Event)
    (Hout : pc_of s p = Outside) (Honce : ~ In (Begin p) evs) (Hdrop : ~ In (Drop p) evs)
    (Hrun : 1406 < Z.of_nat (length (List.filter (fun ev => bool_decide (ev = Run p)) evs))) :
  let run := exec_all (lock_timeout (at_ f)) (stale_lock_after (at_ f)) in
  let s' := run [Run p] (run (Begin p :: evs) s) in
  pc_of s' p = Dead \/ is_Some (lock (at_ f) <$> acquired source (pc_of s' p)).
Proof.
  intros run s'.
  assert (Hw : waiting (pc_of (run (Begin p :: evs) s) p) = false).
  { apply acquire_ends; [done..|]. by vm_compute in Hrun |- *. }
  assert (Hin : pc_of (run (Begin p :: evs) s) p <> Outside).
  { apply (stays_entered_all _ _ evs); [done|]. unfold exec, begin. rewrite Hout, pc_goto. by case_decide. }
  unfold s'. generalize dependent (run (Begin p :: evs) s). intros t Hw Hin.
  unfold run, exec_all, fold_left, exec, advance.
  destruct (pc_of t p) as [| | | | | | | | | |[h|]|] eqn:E; try done;
    rewrite ?pc_goto, ?decide_True, ?E by done; first [by left | right; by eexists].
Qed.

(** Process 2 waits ten seconds for a live holder and is told so. *)
Example held_lock_reported :
  lock (at_ STATE_FILE) <$> acquired "" (pc_of (exec_all 10000 120000 (Begin 2 :: repeat (Run 2) 1410)
                                           (exec_all 10000 120000 [Begin 1; Run 1; Run 1] init)) 2)
  = Some (Err (Locked "grants.lock" 10000)).
Proof. by vm_compute. Qed.
