(* ===== verification/McpSchemas.v ===== *)
(** * McpSchemas: the catalogue of the MCP server (mcp/src/tools.rs, rpc.rs)

    The JSON of [tools/list] and of the server's other fixed answers, and that
    the catalogue is true: the tools it lists are the tools the server runs,
    and the arguments it calls required are the ones a tool refuses to do
    without. *)

From S2P Require Import Prelude Text Approval Authority Factors Inventory Registry Snapshot Proto Mcp Messages.
#[local] Open Scope Z_scope.

Definition string_field (description : string) : Value :=
  VObj [("type", VStr "string"); ("description", VStr description)].
Definition host_field : Value := string_field "The inventory host name.".
Definition ttl_field : Value := string_field "Time to live, e.g. 90s, 15m, 2h (capped at 24h).".
Definition tool (name description : string) (input : Value) : Value :=
  VObj [("name", VStr name); ("description", VStr description); ("inputSchema", input)].
Definition required (keys : list string) : string * Value := ("required", VArr (VStr <$> keys)).

Definition schemas : list Value :=
  [tool "open_grant"
     "Request a break-glass grant on a host and contribute the AI factor. Returns a pending challenge that human factors must still satisfy out of band (unless the profile is satisfied by the AI alone). The profile must be reachable over MCP (mcp = true) or the daemon refuses."
     (VObj [("type", VStr "object");
            ("properties", VObj [("host", host_field); ("ttl", ttl_field);
               ("profile", string_field "Approval profile to open under (omit if the host permits exactly one).")]);
            required ["host"; "ttl"]]);
   tool "grant_status" "Report the state of every grant, or one host's."
     (VObj [("type", VStr "object");
            ("properties", VObj [("host", string_field "Limit to this host (optional).")])]);
   tool "renew_grant" "Extend an open grant's TTL (accepted only near expiry)."
     (VObj [("type", VStr "object"); ("properties", VObj [("host", host_field); ("ttl", ttl_field)]);
            required ["host"; "ttl"]]);
   tool "close_grant" "Close a host's grant and revert everything it opened."
     (VObj [("type", VStr "object"); ("properties", VObj [("host", string_field "The inventory host name.")]);
            required ["host"]]);
   tool "access_handle"
     "The current, non-secret access handle for a host: whether the grant is open and how long it has left. One-time secrets (VNC/BMC passwords) are not delivered over MCP."
     (VObj [("type", VStr "object"); ("properties", VObj [("host", string_field "The inventory host name.")]);
            required ["host"]])].

(** The fixed answers of [dispatch]; the version is the package's. *)
Definition PROTOCOL_VERSION : string := "2024-11-05".
Definition initialize_result (version : string) : Value :=
  VObj [("protocolVersion", VStr PROTOCOL_VERSION);
        ("serverInfo", VObj [("name", VStr "lychgate-mcp"); ("version", VStr version)]);
        ("capabilities", VObj [("tools", VObj [])])].
Definition tools_list_result : Value := VObj [("tools", VArr schemas)].

(** [ok_line] and [error_line], before they are printed. *)
Definition ok_line (id result : Value) : Value :=
  VObj [("jsonrpc", VStr "2.0"); ("id", id); ("result", result)].
Definition error_line (id : Value) (code : Z) (message : string) : Value :=
  VObj [("jsonrpc", VStr "2.0"); ("id", id); ("error", VObj [("code", VNum code); ("message", VStr message)])].

(** What [dispatch] and [tools_call] build their answers from.  [version] is
    the package's, [parse_error] the words of the JSON parser's complaint. *)
Section Replies.
Context `{CharTables} (version parse_error : string).

Definition text_content (text : string) : string * Value :=
  ("content", VArr [VObj [("type", VStr "text"); ("text", VStr text)]]).

Definition result_value (r : RpcResult) : Value :=
  match r with
  | Initialized => initialize_result version
  | Pong => VObj []
  | ToolSchemas => tools_list_result
  | ToolResult text => VObj [text_content (display text)]
  | ToolIsError failure => VObj [text_content (display failure); ("isError", VBool true)]
  end.

Definition rpc_error_message (e : RpcError) : string :=
  match e with
  | ParseError => "parse error: " +:+ parse_error
  | MethodNotFound name => "method not found: " +:+ name
  | MissingParams => "missing params"
  | MissingToolName => "missing tool name"
  | UnknownTool name => "unknown tool: " +:+ name
  end.

Definition reply_value (r : RpcReply) : Value :=
  match r with
  | OkLine id result => ok_line id (result_value result)
  | ErrorLine id e => error_line id (code_of e) (rpc_error_message e)
  end.
End Replies.

(** ** Reading the catalogue *)

Definition strings (v : Value) : list string := match v with VArr l => omap as_str l | _ => [] end.
Definition name_of (s : Value) : option string := get s "name" ≫= as_str.
Definition required_of (s : Value) : list string :=
  match get s "inputSchema" ≫= (fun i => get i "required") with Some v => strings v | None => [] end.

(** The first required argument that is not there as a string. *)
Definition first_missing (args : Value) (keys : list string) : option string :=
  head (List.filter (fun k => negb (bool_decide (is_Some (get args k ≫= as_str)))) keys).

Section Catalogue.
Context {T : Type}.
Context (call : Op -> T -> T * result string Answer).
Context (sign_challenge : string -> result string string).
Notation run := (call_tool call sign_challenge).

(** A step that can fail only with what the daemon or the signer said. *)
Definition heeded {A} (r : result ToolError A) : Prop :=
  match r with Err NotFound | Err (Failed (MissingArgument _)) => False | _ => True end.
Definition heeds {A} (m : TM (T := T) A) : Prop := forall t, heeded (m t).2.

Lemma heeds_ret {A} (a : A) : heeds (tret a).
Proof. by intros t. Qed.
Lemma heeds_bind {A B} (m : TM A) (k : A -> TM B) : heeds m -> (forall a, heeds (k a)) -> heeds (tbind m k).
Proof.
  intros Hm Hk t. unfold tbind. specialize (Hm t). destruct (m t) as [t' [a|e]]; [apply Hk|done].
Qed.
Lemma heeds_backend op : heeds (backend call op).
Proof. intros t. unfold backend. by destruct (call op t) as [t' [r|e]]. Qed.

Lemma open_grant_exact args t :
  match first_missing args ["host"; "ttl"] with
  | Some key => open_grant call sign_challenge args t = (t, Err (Failed (MissingArgument key)))
  | None => heeds (open_grant call sign_challenge args)
  end.
Proof.
  unfold first_missing, open_grant, req_str. cbn [List.filter].
  destruct (get args "host" ≫= as_str) as [host|]; [|done].
  destruct (get args "ttl" ≫= as_str) as [ttl|]; [|done]. cbn [head].
  repeat (apply heeds_bind; [apply heeds_ret || apply heeds_backend|intros ?]).
  case_bool_decide; [by intros ?|]. case_match; [|by intros ?].
  apply heeds_bind; [by case_match; intros ?|intros token].
  apply heeds_bind; [apply heeds_backend|by intros ? ?].
Qed.

Lemma renew_grant_exact args t :
  match first_missing args ["host"; "ttl"] with
  | Some key => renew_grant call args t = (t, Err (Failed (MissingArgument key)))
  | None => heeds (renew_grant call args)
  end.
Proof.
  unfold first_missing, renew_grant, req_str. cbn [List.filter].
  destruct (get args "host" ≫= as_str) as [host|]; [|done].
  destruct (get args "ttl" ≫= as_str) as [ttl|]; [|done]. cbn [head].
  repeat (apply heeds_bind; [apply heeds_ret || apply heeds_backend|intros ?]).
  by case_match; intros ?.
Qed.

(** The two tools that take a host and ask once. *)
Lemma ask_of_exact (k : string -> TM ToolText) args t :
  (forall host, heeds (k host)) ->
  match first_missing args ["host"] with
  | Some key => tbind (req_str args "host") k t = (t, Err (Failed (MissingArgument key)))
  | None => heeds (tbind (req_str args "host") k)
  end.
Proof.
  intros Hk. unfold first_missing, req_str. cbn [List.filter].
  destruct (get args "host" ≫= as_str) as [host|]; [|done]. cbn [head].
  apply heeds_bind; [apply heeds_ret|done].
Qed.

(** The catalogue, read as names and required arguments. *)
Lemma schemas_read :
  (fun s => (name_of s, required_of s)) <$> schemas
  = [(Some "open_grant", ["host"; "ttl"]); (Some "grant_status", []); (Some "renew_grant", ["host"; "ttl"]);
     (Some "close_grant", ["host"]); (Some "access_handle", ["host"])].
Proof. reflexivity. Qed.

Lemma listed_exact name args t s :
  s ∈ schemas -> name_of s = Some name ->
  match first_missing args (required_of s) with
  | Some key => run name args t = (t, Err (Failed (MissingArgument key)))
  | None => heeds (run name args)
  end.
Proof.
  intros Hs Hn. apply (list_elem_of_fmap_2 (fun s => (name_of s, required_of s))) in Hs.
  rewrite schemas_read, Hn in Hs. set (keys := required_of s) in *. clearbody keys. clear s Hn.
  rewrite !elem_of_cons, elem_of_nil in Hs.
  destruct Hs as [[= -> ->]|[[= -> ->]|[[= -> ->]|[[= -> ->]|[[= -> ->]|[]]]]]].
  - apply open_grant_exact.
  - apply heeds_bind; [apply heeds_backend|by intros ? ?].
  - apply renew_grant_exact.
  - apply ask_of_exact. intros host. apply heeds_bind; [apply heeds_backend|].
    intros r. by case_match; intros ?.
  - apply ask_of_exact. intros host. apply heeds_bind; [apply heeds_backend|by intros ? ?].
Qed.

Lemma unlisted_not_found name args t :
  (run name args t).2 <> Err NotFound -> exists s, s ∈ schemas /\ name_of s = Some name.
Proof.
  intros Hf. assert (Hn : Some name ∈ name_of <$> schemas).
  { change (name_of <$> schemas) with (fst <$> ((fun s => (name_of s, required_of s)) <$> schemas)).
    rewrite schemas_read. cbn. unfold call_tool in Hf.
    repeat match type of Hf with context [String.eqb name ?n] =>
      destruct (String.eqb_spec name n) as [->|]; [set_solver|] end.
    done. }
  apply list_elem_of_fmap in Hn as (s & -> & Hs). by exists s.
Qed.

(** The catalogue is exact: a tool is run exactly when it is listed; called
    without an argument its entry requires, it refuses with the first such
    one and nothing is asked of the daemon; called with all of them, it never
    refuses for want of an argument. *)
Theorem catalogue_exact (name : string) (args : Value) (t : T) :
  ((exists s, s ∈ schemas /\ name_of s = Some name) <-> (run name args t).2 <> Err NotFound)
  /\ (forall s, s ∈ schemas -> name_of s = Some name ->
        match first_missing args (required_of s) with
        | Some key => run name args t = (t, Err (Failed (MissingArgument key)))
        | None => forall key, (run name args t).2 <> Err (Failed (MissingArgument key))
        end).
Proof.
  split; [split|].
  - intros (s & Hs & Hn) Hr. pose proof (listed_exact name args t s Hs Hn) as Hx. case_match.
    + by rewrite Hx in Hr.
    + specialize (Hx t). by rewrite Hr in Hx.
  - apply unlisted_not_found.
  - intros s Hs Hn. pose proof (listed_exact name args t s Hs Hn) as Hx. case_match; [done|].
    intros key Hr. specialize (Hx t). by rewrite Hr in Hx.
Qed.
End Catalogue.

(** ** Every request is answered, once and by its id *)

Section Answers.
Context {T : Type} `{CharTables} (version parse_error : string).
Context (call : Op -> T -> T * result string Answer).
Context (sign_challenge : string -> result string string) (from_str : string -> option Value).

(** What the client reads for a line. *)
Definition answer_to (line : string) (t : T) : option Value :=
  reply_value version parse_error <$> (handle_line call sign_challenge from_str line t).2.

(** An answer carries an id, and either a result or an error with a code. *)
Definition well_formed_answer (id v : Value) : Prop :=
  get v "jsonrpc" = Some (VStr "2.0") /\ get v "id" = Some id
  /\ ((is_Some (get v "result") /\ get v "error" = None)
      \/ (get v "result" = None /\ exists code, code ∈ [-32700; -32601; -32602]
            /\ (get v "error" ≫= fun e => get e "code") = Some (VNum code))).

Lemma reply_well_formed r :
  well_formed_answer (match r with OkLine id _ | ErrorLine id _ => id end) (reply_value version parse_error r).
Proof.
  destruct r as [id r|id e]; (split; [reflexivity|]; split; [reflexivity|]); [left; by split|right].
  split; [reflexivity|]. exists (code_of e). split; [|reflexivity]. destruct e; cbn; set_solver.
Qed.

(** The server's side of JSON-RPC: a blank line and a notification get no
    answer; a line that is not JSON gets an error under a null id; and a
    request gets one answer that carries its own id and either a result or
    one of the three error codes, whatever its method, its parameters, the
    tool it names and the daemon's reply. *)
Theorem every_request_answered (line : string) (t : T) :
  if str_is_empty (trim line) then answer_to line t = None
  else match from_str (trim line) with
       | None => exists v, answer_to line t = Some v /\ well_formed_answer VNull v
       | Some msg =>
           match get msg "id" with
           | None => answer_to line t = None
           | Some id => exists v, answer_to line t = Some v /\ well_formed_answer id v
           end
       end.
Proof.
  unfold answer_to, handle_line. destruct (str_is_empty (trim line)); [done|].
  destruct (from_str (trim line)) as [msg|];
    [|eexists; split; [done|apply (reply_well_formed (ErrorLine VNull ParseError))]].
  destruct (dispatch _ _ _ _ t) as [t' outcome]. destruct (get msg "id") as [id|]; [|done].
  destruct outcome as [r|e]; eexists; (split; [done|]).
  - apply (reply_well_formed (OkLine id r)).
  - apply (reply_well_formed (ErrorLine id e)).
Qed.
End Answers.
