(* ===== verification/LgcapSign.v ===== *)
(** * LgcapSign: the bench signer (wire/examples/lgcap-sign.rs)

    The standalone tool the hardware tier mints its tokens with: its argument
    parser, the four modes and what each prints.  A [die] is a refusal, a
    slice that cuts a character a panic. *)

From S2P Require Import Prelude Text TextLines Ttl External Reference Cbor Token Inventory InventoryCheck DriverMonad DeviceState Startup Messages.
#[local] Open Scope Z_scope.

(** What [die] is called with. *)
Inductive Death :=
| Usage | UnknownMode (other : string)
| OddHex (what : string) | NotHex (what : string) | WrongLength (what : string) (n : nat)
| NeedsValue (name : string) | MissingOption (name : string) | NotANumber (name : string)
| SeedAndScalar | NoKey | BadScalar | NoToken
| SignFailed (e : WireError) | VerifyRefused (e : WireError).

Definition Run (A : Type) : Type := result (Fault Death) A.
Definition die {A} (d : Death) : Run A := Err (Refused d).

Definition unhex (s what : string) : Run (list Z) :=
  if negb (str_len s mod 2 =? 0) then die (OddHex what) else hex_pairs (NotHex what) s.

Definition fixed (n : nat) (s what : string) : Run (list Z) :=
  let? bs := unhex s what in
  if Nat.eqb (length bs) n then Ok bs else die (WrongLength what n).

Record Args := { options : gmap string string; positional : list string }.

(** [Args::parse]: a later value of an option replaces an earlier one. *)
Fixpoint parse_args (rest : list string) (acc : Args) : Run Args :=
  match rest with
  | [] => Ok acc
  | a :: rest =>
      match strip_prefix "--" a with
      | Some name =>
          match rest with
          | [] => die (NeedsValue name)
          | v :: rest =>
              parse_args rest {| options := <[name := v]> (options acc); positional := positional acc |}
          end
      | None => parse_args rest {| options := options acc; positional := positional acc ++ [a] |}
      end
  end.
Definition Args_parse (rest : list string) : Run Args := parse_args rest {| options := ∅; positional := [] |}.

Definition need (args : Args) (name : string) : Run string :=
  match options args !! name with Some v => Ok v | None => die (MissingOption name) end.

(** [parse::<u32>] and [parse::<u64>]. *)
Definition u32_from_str (s : string) : option Z :=
  n ← u64_from_str s; if n <=? u32_max then Some n else None.

Definition num (parse : string -> option Z) (args : Args) (name : string) (dflt : option Z) : Run Z :=
  match options args !! name with
  | Some v => match parse v with Some n => Ok n | None => die (NotANumber name) end
  | None => match dflt with Some n => Ok n | None => die (MissingOption name) end
  end.

Definition key (args : Args) : Run (SigningKey * Z) :=
  match options args !! "seed", options args !! "scalar" with
  | Some _, Some _ => die SeedAndScalar
  | Some s, None => let? seed := fixed 32 s "--seed" in Ok (SkEd25519Seed seed, VER_ED25519)
  | None, Some s => let? scalar := fixed 32 s "--scalar" in Ok (SkP256Scalar scalar, VER_P256)
  | None, None => die NoKey
  end.

(** [{b:02x}] of every byte. *)
Definition hex_nibble (v : Z) : ascii := ascii_of_byte (if v <? 10 then 48 + v else 87 + v).
Definition hex_byte (b : Z) : string := String (hex_nibble (b / 16)) (String (hex_nibble (b mod 16)) "").
Fixpoint hex (bytes : list Z) : string :=
  match bytes with [] => "" | b :: bytes => hex_byte b +:+ hex bytes end.

Section Tool.
Context `{DataEncoding, WireCrypto}.

Definition cap_of (args : Args) (ver : Z) : Run Capability :=
  let? s := need args "device-id" in
  let? device_id := fixed 16 s "--device-id" in
  let? s := need args "nonce" in
  let? grant_nonce := fixed 16 s "--nonce" in
  let? capability := num u32_from_str args "capability" (Some 1) in
  let? ttl_secs := num u32_from_str args "ttl-secs" None in
  let? issued_seq := num u64_from_str args "seq" None in
  Ok {| cap_ver := ver; cap_device_id := device_id; cap_grant_nonce := grant_nonce; cap_capability := capability;
        cap_ttl_secs := ttl_secs; cap_issued_seq := issued_seq |}.

Definition rvk_of (args : Args) (ver : Z) : Run Revocation :=
  let? s := need args "device-id" in
  let? device_id := fixed 16 s "--device-id" in
  let? s := need args "nonce" in
  let? grant_nonce := fixed 16 s "--nonce" in
  let? issued_seq := num u64_from_str args "seq" None in
  Ok {| rvk_ver := ver; rvk_device_id := device_id; rvk_grant_nonce := grant_nonce; rvk_issued_seq := issued_seq |}.

(** The line of a verified capability. *)
Definition report (c : Capability) : string :=
  "ok ver=" +:+ dec_u64 (cap_ver c) +:+ " device_id=" +:+ hex (cap_device_id c)
  +:+ " nonce=" +:+ hex (cap_grant_nonce c) +:+ " capability=" +:+ dec_u64 (cap_capability c)
  +:+ " ttl_secs=" +:+ dec_u64 (cap_ttl_secs c) +:+ " seq=" +:+ dec_u64 (cap_issued_seq c).

Definition public_line (k : SigningKey) : Run string :=
  match k with
  | SkEd25519Seed seed => Ok (hex (ed25519_public seed))
  | SkP256Scalar scalar => if p256_scalar_ok scalar then Ok (hex (p256_public scalar)) else die BadScalar
  end.

(** The key a verifier's bytes are taken for. *)
Definition public_key_of (public : list Z) : PublicKey :=
  if Nat.eqb (length public) 32 then PkEd25519 public else PkP256Sec1 public.

(** [main] on the arguments after the program's name: the line printed. *)
Definition main (argv : list string) : Run string :=
  match argv with
  | [] => die Usage
  | mode :: rest =>
      let? args := Args_parse rest in
      if bool_decide (mode = "cap") then
        let? kv := key args in
        let? cap := cap_of args kv.2 in
        map_err (fun e => Refused (SignFailed e)) (sign_capability_into kv.1 cap)
      else if bool_decide (mode = "rvk") then
        let? kv := key args in
        let? rvk := rvk_of args kv.2 in
        map_err (fun e => Refused (SignFailed e)) (sign_revocation_into kv.1 rvk)
      else if bool_decide (mode = "public") then
        let? kv := key args in
        public_line kv.1
      else if bool_decide (mode = "verify-cap") then
        let? s := need args "public" in
        let? public := unhex s "--public" in
        match positional args with
        | [] => die NoToken
        | token :: _ =>
            let? c := map_err (fun e => Refused (VerifyRefused e)) (verify_capability (public_key_of public) token) in
            Ok (report c)
        end
      else die (UnknownMode mode)
  end.
End Tool.

(** ** The bench round trip *)

Lemma hex_byte_ok b :
  is_u8 b ->
  is_continuation (hex_nibble (b / 16)) = false /\ u8_from_str_radix16 (hex_byte b) = Some b.
Proof.
  intros Hb. assert (Hall : negb (is_continuation (hex_nibble (b / 16)))
    && bool_decide (u8_from_str_radix16 (hex_byte b) = Some b) = true).
  { revert b Hb. apply u8_all. by vm_compute. }
  apply andb_true_iff in Hall as [Hc Hv]. split; [by apply negb_true_iff|by apply bool_decide_eq_true in Hv].
Qed.

Lemma hex_starts bs : Forall is_u8 bs -> starts_inside (hex bs) = false.
Proof. intros [|b bs' Hb _]; [done|]. by destruct (hex_byte_ok b Hb). Qed.

Lemma hex_pairs_hex {E} (bad : E) bs : Forall is_u8 bs -> hex_pairs bad (hex bs) = Ok bs.
Proof.
  intros Hu. induction Hu as [|b bs Hb Hu IH]; [done|].
  change (hex (b :: bs)) with (String (hex_nibble (b / 16)) (String (hex_nibble (b mod 16)) (hex bs))).
  cbn [hex_pairs]. destruct (hex_byte_ok b Hb) as [-> Hv]. rewrite hex_starts by done. cbn [orb].
  unfold hex_byte in Hv. rewrite Hv. cbn. by rewrite IH.
Qed.

Lemma hex_length bs : str_len (hex bs) = 2 * Z.of_nat (length bs).
Proof. unfold str_len. induction bs as [|b bs IH]; [done|]. cbn -[Z.of_nat Z.mul]. lia. Qed.

Lemma unhex_hex bs what : Forall is_u8 bs -> unhex (hex bs) what = Ok bs.
Proof.
  intros Hu. unfold unhex. rewrite hex_length, (Z.mul_comm 2), Z_mod_mult. by apply hex_pairs_hex.
Qed.

Lemma unhex_Ok s what bs : unhex s what = Ok bs -> Forall is_u8 bs.
Proof.
  unfold unhex. destruct (Z.eqb_spec (str_len s mod 2) 0) as [E|]; [|done]. cbn [negb]. intros Hp.
  apply (hex_pairs_Ok _ (Z.to_nat (str_len s / 2))) in Hp; [by destruct Hp|].
  pose proof (Z_div_mod_eq_full (str_len s) 2). unfold str_len in *. lia.
Qed.

Lemma fixed_Ok n s what bs : fixed n s what = Ok bs -> length bs = n /\ Forall is_u8 bs.
Proof.
  unfold fixed. destruct (unhex s what) as [l|] eqn:E; [|done]. cbn.
  destruct (Nat.eqb_spec (length l) n) as [Hl|]; [|done]. intros [= <-]. split; [done|by eapply unhex_Ok].
Qed.

Lemma num_Ok parse lo hi args name dflt n :
  (forall s k, parse s = Some k -> lo <= k <= hi) -> (forall k, dflt = Some k -> lo <= k <= hi) ->
  num parse args name dflt = Ok n -> lo <= n <= hi.
Proof.
  intros Hp Hd. unfold num. destruct (options args !! name) as [v|].
  - destruct (parse v) as [k|] eqn:E; [|done]. intros [= <-]. by eapply Hp.
  - destruct dflt as [k|]; [|done]. intros [= <-]. by apply Hd.
Qed.

Section Bench.
Context `{DataEncodingLaws, WireCryptoLaws}.

(** The lengths of the two kinds of public key. *)
Class BenchKeys : Prop := {
  ed25519_public_bytes seed : length seed = 32%nat -> Forall is_u8 seed ->
    length (ed25519_public seed) = 32%nat /\ Forall is_u8 (ed25519_public seed);
  p256_public_bytes d : p256_scalar_ok d = true -> Forall is_u8 d ->
    length (p256_public d) = 65%nat /\ Forall is_u8 (p256_public d);
}.

Lemma key_Ok args k v :
  key args = Ok (k, v) -> v = sk_ver k /\
  match k with SkEd25519Seed l | SkP256Scalar l => length l = 32%nat /\ Forall is_u8 l end.
Proof.
  unfold key. destruct (options args !! "seed") as [s|], (options args !! "scalar") as [t|]; try done;
    destruct (fixed 32 _ _) as [l|] eqn:E; try done; cbn; intros [= <- <-]; split; try done; by eapply fixed_Ok.
Qed.

Lemma cap_of_typed args k c : cap_of args (sk_ver k) = Ok c -> cap_typed c /\ cap_ver c = sk_ver k.
Proof.
  unfold cap_of. destruct (need args "device-id") as [s1|]; [|done].
  destruct (fixed 16 s1 _) as [id|] eqn:E1; [|done]. destruct (need args "nonce") as [s2|]; [|done].
  destruct (fixed 16 s2 _) as [nonce|] eqn:E2; [|done].
  destruct (num u32_from_str args "capability" _) as [n1|] eqn:N1; [|done].
  destruct (num u32_from_str args "ttl-secs" _) as [n2|] eqn:N2; [|done].
  destruct (num u64_from_str args "seq" _) as [n3|] eqn:N3; [|done]. cbn. intros [= <-].
  apply fixed_Ok in E1 as [? ?], E2 as [? ?].
  assert (Hu64 : forall s k, u64_from_str s = Some k -> 0 <= k <= u64_max) by (intros; by eapply u64_from_str_range).
  assert (Hu32 : forall s k, u32_from_str s = Some k -> 0 <= k <= u32_max).
  { intros s m. unfold u32_from_str. destruct (u64_from_str s) as [j|] eqn:E; [|done]. cbn.
    destruct (Z.leb_spec j u32_max); [|done]. intros [= <-]. apply Hu64 in E. lia. }
  apply (num_Ok _ 0 u32_max) in N1; [|done|intros ? [= <-]; unfold u32_max; lia].
  apply (num_Ok _ 0 u32_max) in N2; [|done|done]. apply (num_Ok _ 0 u64_max) in N3; [|done|done].
  split; [|done]. unfold cap_typed. cbn. split_and!; try done. destruct k; [by left|by right].
Qed.

Lemma public_line_Ok `{!BenchKeys} args k v :
  key args = Ok (k, v) -> Token.key_ok k ->
  exists public, public_line k = Ok (hex public) /\ Forall is_u8 public /\ public_key_of public = public_of k.
Proof.
  intros Hk Hok. apply key_Ok in Hk as [_ Hl]. unfold public_key_of. destruct k as [seed|d]; cbn in *.
  - destruct (ed25519_public_bytes seed) as [Hlen Hu]; [by destruct Hl..|]. exists (ed25519_public seed).
    split_and!; [done|done|]. by rewrite Hlen.
  - destruct (p256_public_bytes d) as [Hlen Hu]; [done|by destruct Hl|]. rewrite Hok. exists (p256_public d).
    split_and!; [done|done|]. by rewrite Hlen.
Qed.

Lemma assemble_Ok prefix k payload token :
  assemble prefix k payload = Ok token -> Token.key_ok k /\ exists rest, token = prefix +:+ rest.
Proof.
  unfold assemble. destruct k as [seed|d]; cbn.
  - destruct (_ <? _); [done|]. intros [= <-]. eauto.
  - destruct (p256_scalar_ok d); [|done]. cbn. destruct (_ <? _); [done|]. intros [= <-]. eauto.
Qed.
End Bench.

(** The bench tool agrees with itself and with the device: when [cap]
    prints a token, [public] with the same arguments prints a key under which
    [verify-cap] accepts that token and reports exactly the capability the
    arguments described, for both schemes. *)
Theorem lgcap_round_trip `{DataEncodingLaws, WireCryptoLaws, !BenchKeys} (rest : list string) (token : string)
    (Hcap : main ("cap" :: rest) = Ok token) :
  exists args k v c public,
    Args_parse rest = Ok args /\ key args = Ok (k, v) /\ cap_of args v = Ok c
    /\ main ("public" :: rest) = Ok public
    /\ main ["verify-cap"; "--public"; public; token] = Ok (report c)
    /\ verify_capability (public_of k) token = Ok c.
Proof.
  cbn in Hcap. destruct (Args_parse rest) as [args|] eqn:Ea; [|done].
  destruct (key args) as [[k v]|] eqn:Ek; [|done]. cbn in Hcap. destruct (key_Ok _ _ _ Ek) as [-> _].
  destruct (cap_of args (sk_ver k)) as [c|] eqn:Ec; [|done].
  destruct (cap_of_typed _ _ _ Ec) as [Hty Hver].
  destruct (sign_capability_into k c) as [t|] eqn:Es; [|done]. cbn in Hcap. injection Hcap as ->.
  assert (Hkey : Token.key_ok k /\ exists r, token = CAP_PREFIX +:+ r).
  { unfold sign_capability_into in Es. destruct (negb _); [done|].
    destruct (encode_capability c MAX_PAYLOAD_LEN) as [p|]; [|done]. by apply assemble_Ok in Es. }
  destruct Hkey as [Hkey [r ->]].
  destruct (public_line_Ok _ _ _ Ek Hkey) as (public & Hline & Hu & Hpub).
  destruct (signed_capability_opens k c Hkey Hty Hver) as (t & Ht & _ & Hv). rewrite Es in Ht. injection Ht as <-.
  exists args, k, (sk_ver k), c, (hex public). split_and!; try done.
  - cbn. by rewrite Ea, Ek.
  - assert (Hargs : Args_parse ["--public"; hex public; CAP_PREFIX +:+ r]
      = Ok {| options := <["public" := hex public]> ∅; positional := [CAP_PREFIX +:+ r] |}) by done.
    unfold main. rewrite Hargs. cbn -[verify_capability hex report need unhex]. unfold need.
    cbn [options]. rewrite lookup_insert_eq. cbn -[verify_capability hex report unhex].
    rewrite unhex_hex by done. rewrite Hpub. cbn in Hv. cbn. by rewrite Hv.
Qed.

(** *** Witness *)

(** The public half of a scalar in the length of an uncompressed point. *)
Definition bench_point (d : list Z) : list Z := [4] ++ take 32 (d ++ replicate 32 0) ++ replicate 32 0.

#[local] Instance BenchCrypto : WireCrypto := {|
  ed25519_key_ok _ := true;
  ed25519_verify pk m sig := bool_decide (sig = ref_sign pk m);
  ed25519_sign := ref_sign;
  p256_key_ok _ := true;
  p256_sig_ok _ := true;
  p256_verify_prehash pk d sig := bool_decide (sig = ref_sign pk d);
  p256_scalar_ok _ := true;
  p256_sign d m := ref_sign (bench_point d) m;
  sha256 m := m;
  ed25519_public k := k;
  p256_public := bench_point;
|}.

#[local] Instance BenchCryptoLaws : WireCryptoLaws.
Proof.
  split; intros; cbn -[ref_sign bench_point];
    solve [done | apply checksum_u8 | by apply bool_decide_eq_true].
Qed.

Lemma zeros_u8 n : Forall is_u8 (replicate n 0).
Proof. apply Forall_replicate. unfold is_u8, u8_max. lia. Qed.

#[local] Instance BenchKeysRef : BenchKeys.
Proof.
  split; [done|]. intros d _ Hu. cbn -[bench_point]. unfold bench_point. split.
  - rewrite !length_app, length_take, length_app, !length_replicate. cbn [length]. lia.
  - repeat (apply Forall_app; split); [repeat constructor; unfold is_u8, u8_max; lia| |apply zeros_u8].
    apply Forall_take, Forall_app. split; [done|apply zeros_u8].
Qed.

Definition bench_args : list string :=
  ["--scalar"; hex (replicate 32 7); "--device-id"; hex (replicate 16 1); "--nonce"; hex (replicate 16 9);
   "--ttl-secs"; "600"; "--seq"; "+41"].
Definition bench_token : string := match main ("cap" :: bench_args) with Ok t => t | Err _ => "" end.

Lemma lgcap_round_trip_witness :
  exists args k v c public,
    Args_parse bench_args = Ok args /\ key args = Ok (k, v) /\ cap_of args v = Ok c
    /\ main ("public" :: bench_args) = Ok public
    /\ main ["verify-cap"; "--public"; public; bench_token] = Ok (report c)
    /\ verify_capability (public_of k) bench_token = Ok c.
Proof. apply (lgcap_round_trip bench_args bench_token). by vm_compute. Defined.

(** A value of even length that cuts a character is not refused as hex: the
    slice panics. *)
Example accented_hex_panics : main ["public"; "--seed"; str_of_bytes [48; 195; 169; 48]] = Err Panic.
Proof. by vm_compute. Qed.
