(* ===== verification/Process.v ===== *)
(** * Process: the life of the daemon's process (daemon/src/main.rs)

    After the start: recovery, the loop of passes beside the listener
    threads, the stop.  The threads take turns; what they meet is a list of
    moments. *)

From stdpp Require Import relations.
From S2P Require Import Prelude Text TextLines Line Clock External Reference Approval Authority AuthorityEval AuthorityProps Inventory InventoryCheck DriverMonad DeviceState Channel ScriptedDrivers Grant Registry Snapshot Proto Factors Ledgers Daemon Proofs Lifecycle LifecycleLogic LifecycleSafe LifecycleProps Listener Startup.
#[local] Open Scope Z_scope.

(** ** The run *)

(** What the process meets, in order: a signal, a turn of the sleep loop's
    check, the deadline of the sleep, a connection on one of the sockets. *)
Inductive Moment :=
| Signal
| Slice
| PassDue (now : SystemTime)
| Connection (c : Incoming) (now : SystemTime) (origin : Origin).

(** The threads as the main thread sees them: the shutdown flag, and how a
    listener that has returned ended. *)
Record Threads := {
  shutdown : bool;
  operator_ended : option Fatal;
  mcp_ended : option Fatal;
}.

Definition ended (t : Threads) (origin : Origin) : option Fatal :=
  match origin with Operator => operator_ended t | Mcp => mcp_ended t end.
Definition some_ended (t : Threads) : bool :=
  match operator_ended t, mcp_ended t with None, None => false | _, _ => true end.
Definition set_shutdown (t : Threads) : Threads :=
  {| shutdown := true; operator_ended := operator_ended t; mcp_ended := mcp_ended t |}.
Definition set_ended (t : Threads) (origin : Origin) (e : Fatal) : Threads :=
  match origin with
  | Operator => {| shutdown := shutdown t; operator_ended := Some e; mcp_ended := mcp_ended t |}
  | Mcp => {| shutdown := shutdown t; operator_ended := operator_ended t; mcp_ended := Some e |}
  end.

Section Run.
Context `{RequestJson} `{DataEncoding, ApprovalKeys} {W D V : Type}.
Context `{!ChannelDriver W, !DeadmanControl D, !ProofVerifier V}.
Context (env : Env) (cfg : Config) (listening mcp_listening : bool).
Local Abbreviation M := (Daemon.M (W := W) (D := D) (V := V)).

(** A listener's turn: what is fatal to it ends its thread, not the process. *)
Definition serve_one (c : Incoming) (now : SystemTime) (origin : Origin) (t : Threads) : M Threads :=
  fun s =>
    match handle env cfg c now origin s with
    | (s', Ok _) => (s', Ok t)
    | (s', Err (Refused e)) => (s', Ok (set_ended t origin e))
    | (s', Err f) => (s', Err f)
    end.

Definition accepts (t : Threads) (origin : Origin) : bool :=
  match origin with Operator => listening | Mcp => mcp_listening end
  && negb (shutdown t) && match ended t origin with None => true | Some _ => false end.

(** The loop after a pass: sleep until the deadline unless the flag is set or
    a listener has ended; what ends it is the [fatal] of the joined threads.
    The end of the list is a last signal. *)
Fixpoint loop (moments : list Moment) (t : Threads) : M (option Fatal) :=
  let stopped := match operator_ended t with Some e => Some e | None => mcp_ended t end in
  match moments with
  | [] => ret stopped
  | Signal :: rest => loop rest (set_shutdown t)
  | Slice :: rest =>
      if shutdown t || some_ended t then ret stopped else loop rest t
  | PassDue now :: rest =>
      if shutdown t then ret stopped else pass env cfg now ;! loop rest t
  | Connection c now origin :: rest =>
      if accepts t origin then let! t := serve_one c now origin t in loop rest t
      else loop rest t
  end.

(** Tear down what the daemon holds, without reverting; the last line. *)
Definition stop (now : SystemTime) : M unit :=
  with_drivers (fun ds => Some (suspend_all ds, tt)) ;!
  record_event env now EvDaemonStop.

(** From [boot_recover] to the end of [main]; [Some e] is the error returned
    after a clean stop. *)
Definition run (once : bool) (boot_at pass_at : SystemTime) (moments : list Moment)
    (stop_at : SystemTime) : M (option Fatal) :=
  boot_recover env cfg boot_at ;!
  pass env cfg pass_at ;!
  let! fatal :=
    (if once then ret None
     else loop moments {| shutdown := false; operator_ended := None; mcp_ended := None |}) in
  stop stop_at ;!
  ret fatal.
End Run.

Section Main.
Context `{RequestJson} `{StartCrates} `{DataEncoding, FactorCrypto} {W D : Type}.
Context `{!ChannelDriver W, !DeadmanControl D}.
Context (env : Env) (texts : nat -> string -> option string) (bind_env : string -> BindEnv).
Context (tpm_seal : bool).

(** [main]: the start, then the run with the proofs judged by what was
    loaded.  The times are the readings of the clock, in order. *)
Definition main (cli : Cli) (now boot_at pass_at : SystemTime) (moments : list Moment)
    (stop_at : SystemTime) : eff (Sys W D Ledgers) StartError (option Fatal) :=
  let& st := start env texts bind_env tpm_seal cli now in
  step (run (ProofVerifier0 := DaemonProofs (io_ok env) (st_secrets st)) env (st_cfg st)
          (st_listening st) (st_mcp_listening st) (cli_once cli) boot_at pass_at moments stop_at).
End Main.

(** ** The run keeps access recorded and does not unwind *)

Section RunSafe.
Context `{!Expectation} `{RequestJson} `{DataEncoding, ApprovalKeys} {W D V : Type}.
Context `{!ChannelDriver W, !DriverContract W, !DeadmanControl D, !ProofVerifier V}.
Context (env : Env) (cfg : Config) (listening mcp_listening : bool) (regs : gset Channel).
Context (Hpolicy : policy_valid cfg).
Local Abbreviation triple := (LifecycleLogic.triple (D := D) (V := V) regs).

Lemma suspend_safe f (ds : DriverSet W) cs :
  Forall (fun w => Safe (f, w)) (world ds :: seen ds) ->
  let ds' := fold_left (fun s c => set_world s (drv_suspend c (world s))) cs ds in
  registered ds' = registered ds /\ Forall (fun w => Safe (f, w)) (world ds' :: seen ds').
Proof.
  revert ds. induction cs as [|c cs IH]; intros ds Hs; [done|]. cbn [fold_left].
  apply (IH (set_world ds (drv_suspend c (world ds)))). apply Forall_cons in Hs as [Hw Hseen]. cbn.
  assert (Hw' : Safe (f, drv_suspend c (world ds))).
  { intros h c' Hx%suspend_opens_nothing. by apply Hw. }
  by repeat constructor.
Qed.

Lemma any_stop now : triple anyP (stop env now) anyQ.
Proof.
  unfold stop. apply any_bind; [|intros _; apply triple_quiet, quiet_log].
  apply triple_drivers. intros f w _ Hs. eexists _, tt. split; [done|]. unfold suspend_all.
  destruct (suspend_safe f (LifecycleSafe.start regs w)
    (List.filter (fun c => bool_decide (c ∈ registered (LifecycleSafe.start regs w))) all_channels))
    as [Hr Hsafe]; [by repeat constructor|]. done.
Qed.

Lemma any_handle c now origin : triple anyP (handle env cfg c now origin) anyQ.
Proof.
  unfold handle. destruct (read_line _ _); [|apply any_ret].
  destruct (decode_request _); [|apply any_ret].
  apply any_bind; [|intros; apply any_ret]. destruct origin; by apply any_dispatch.
Qed.

Lemma any_serve_one c now origin t : triple anyP (serve_one env cfg c now origin t) anyQ.
Proof.
  intros s Hi Hp. destruct (any_handle c now origin s Hi Hp) as [Hi' Hr]. unfold serve_one.
  destruct (handle env cfg c now origin s) as [s' [a|[]]]; done.
Qed.

Lemma any_loop moments t : triple anyP (loop env cfg listening mcp_listening moments t) anyQ.
Proof.
  revert t. induction moments as [|[| |now|c now origin] moments IH]; intros t; cbn [loop].
  - apply any_ret.
  - apply IH.
  - case_goal; [apply any_ret|apply IH].
  - case_goal; [apply any_ret|]. apply any_bind; [by apply any_pass|]. intros _. apply IH.
  - case_goal; [|apply IH]. apply any_bind; [apply any_serve_one|]. intros t'. apply IH.
Qed.

Lemma any_run once boot_at pass_at moments stop_at :
  triple anyP (run env cfg listening mcp_listening once boot_at pass_at moments stop_at) anyQ.
Proof.
  unfold run. apply any_bind; [apply any_boot|]. intros _.
  apply any_bind; [by apply any_pass|]. intros _.
  apply any_bind; [destruct once; [apply any_ret|apply any_loop]|]. intros fatal.
  apply any_bind; [apply any_stop|]. intros _. apply any_ret.
Qed.
End RunSafe.

(** ** A start does not unwind on ASCII secrets *)

Definition is_ascii (c : ascii) : bool := byte_of_ascii c <? 128.

Lemma strip_any_forall p ps s r :
  strip_any ps s = Some r -> str_forall p s = true -> str_forall p r = true.
Proof.
  induction ps as [|q ps IH]; cbn; [done|].
  destruct (strip_prefix q s) as [r'|] eqn:E; [|done]. intros [= ->].
  apply strip_prefix_Some in E as ->. rewrite str_forall_app. by intros [_ ?]%andb_true_iff.
Qed.

Lemma trim_go_forall p fuel ps s : str_forall p s = true -> str_forall p (trim_go fuel ps s) = true.
Proof.
  revert s. induction fuel as [|fuel IH]; intros s Hs; [done|]. cbn [trim_go].
  destruct (strip_any ps s) eqn:E; [|done]. apply IH. by eapply strip_any_forall.
Qed.

Lemma trim_forall p s : str_forall p s = true -> str_forall p (trim s) = true.
Proof.
  intros Hs. unfold trim, trim_end, trim_start. rewrite str_forall_rev.
  apply trim_go_forall. rewrite str_forall_rev. by apply trim_go_forall.
Qed.

Lemma hex_pairs_ascii {E} (bad : E) n s :
  (String.length s <= n)%nat -> str_forall is_ascii s = true ->
  match hex_pairs bad s with Err Panic | Err OutOfFuel => False | _ => True end.
Proof.
  revert s. induction n as [|n IH]; intros [|a [|b s]] Hl Hs; try done; [cbn in Hl; lia..|].
  cbn [hex_pairs String.length str_forall] in *. rewrite !andb_true_iff in Hs. destruct Hs as (Ha & Hb & Hs).
  assert (Hc : forall c, is_ascii c = true -> is_continuation c = false).
  { intros c Hc%Z.ltb_lt. unfold is_continuation. by rewrite (proj2 (Z.leb_gt _ _)). }
  assert (starts_inside s = false) as -> by
    (destruct s; [done|]; cbn in *; apply andb_true_iff in Hs as [? _]; by apply Hc).
  rewrite (Hc a) by done. cbn [orb].
  destruct (u8_from_str_radix16 (String a (String b ""))); [|done]. cbn.
  specialize (IH s). destruct (hex_pairs bad s) as [|[]]; try done; cbn; apply IH; done || lia.
Qed.

Section StartReturns.
Context `{StartCratesLaws} `{DataEncoding, FactorCrypto} {W D : Type}.
Context `{!ChannelDriver W, !DeadmanControl D}.
Context (env : Env) (texts : nat -> string -> option string) (bind_env : string -> BindEnv).
Context (tpm_seal : bool).
Context (Htexts : forall n path t, texts n path = Some t -> str_forall is_ascii t = true).
Context (Hsealed : forall n ctx blob bs, tpm_unseal n ctx blob = Some bs ->
  str_forall is_ascii (str_of_bytes bs) = true).
Local Abbreviation SM := (Startup.SM (W := W) (D := D)).

(** A run that does not unwind and whose value satisfies [Q]. *)
Definition yields {A} (Q : A -> Prop) (m : SM A) : Prop :=
  forall s, match (m s).2 with Ok a => Q a | Err (Refused _) => True | _ => False end.

Lemma yields_no_panic {A} (Q : A -> Prop) (m : SM A) : yields Q m -> no_panic m.
Proof. intros Hm s. specialize (Hm s). by destruct (m s).2 as [|[]]. Qed.

Lemma no_panic_yields {A} (m : SM A) : no_panic m -> yields (fun _ => True) m.
Proof. intros Hm s. specialize (Hm s). by destruct (m s).2 as [|[]]. Qed.

Lemma yields_bind {A B} (Q : A -> Prop) (R : B -> Prop) (m : SM A) (k : A -> SM B) :
  yields Q m -> (forall a, Q a -> yields R (k a)) -> yields R (ebind m k).
Proof.
  intros Hm Hk s. unfold ebind. specialize (Hm s). destruct (m s) as [s' [a|e]]; [by apply Hk|done].
Qed.

Lemma yields_ask {A} (answer : nat -> option A) e (Q : A -> Prop) :
  (forall n a, answer n = Some a -> Q a) -> yields Q (ask answer e).
Proof. intros Ha s. cbn. destruct (answer (io s)) eqn:E; cbn; [by eapply Ha|done]. Qed.

Lemma yields_read_secret r path :
  yields (fun t => str_forall is_ascii t = true) (read_secret texts r path).
Proof.
  unfold read_secret, read_text. eapply yields_bind.
  { apply (yields_ask _ _ (fun t => str_forall is_ascii t = true)). intros. by eapply Htexts. }
  intros text Ht. destruct r as [|ctx]; [by intros s|].
  apply yields_bind with (Q := fun _ => True); [intros s; by destruct (blob_from_str text)|].
  intros blob _. eapply yields_bind.
  { apply (yields_ask _ _ (fun bs => str_forall is_ascii (str_of_bytes bs) = true)).
    intros n bs. apply Hsealed. }
  intros bs Hbs. destruct (utf8_valid bs); by intros s.
Qed.

Lemma no_panic_secret {B} r path (k : string -> SM B) :
  (forall t, str_forall is_ascii t = true -> no_panic (k t)) ->
  no_panic (ebind (read_secret texts r path) k).
Proof.
  intros Hk. apply (yields_no_panic (fun _ => True)).
  eapply yields_bind; [apply yields_read_secret|]. intros t Ht. by apply no_panic_yields, Hk.
Qed.

Lemma no_panic_load_each {B} (load : string -> string -> SM B) l acc :
  (forall id f, no_panic (load id f)) -> no_panic (load_each load l acc).
Proof.
  intros Hl. revert acc. induction l as [|[id f] l IH]; intros acc; cbn [load_each]; no_panic; auto.
Qed.

Lemma no_panic_load_totp r id f : no_panic (load_totp texts r id f : SM _).
Proof. unfold load_totp. apply no_panic_secret. intros t Ht. no_panic. Qed.
Lemma no_panic_load_password r id f : no_panic (load_password texts r id f : SM _).
Proof. unfold load_password. apply no_panic_secret. intros t Ht. no_panic. Qed.

Lemma no_panic_load_hmac r id f : no_panic (load_hmac texts r id f : SM _).
Proof.
  unfold load_hmac. apply no_panic_secret. intros t Ht s. cbn. unfold check_secret.
  destruct (_ =? _); [|done]. cbn [negb].
  pose proof (hex_pairs_ascii BadSecret _ (trim t) (le_n _) (trim_forall _ _ Ht)) as Hh.
  by destruct (hex_pairs BadSecret (trim t)) as [|[]].
Qed.

Lemma no_panic_read_key r path : no_panic (read_key texts r path : SM _).
Proof.
  unfold read_key. apply no_panic_secret. intros t Ht. apply no_panic_bind; [no_panic|].
  intros _ s. cbn.
  pose proof (hex_pairs_ascii (StKeyNotHex path) _ (trim t) (le_n _) (trim_forall _ _ Ht)) as Hh.
  by destruct (hex_pairs (StKeyNotHex path) (trim t)) as [|[]].
Qed.

Lemma no_panic_ask {A} (answer : nat -> option A) e : no_panic (ask answer e : SM A).
Proof. intros s. cbn. by destruct (answer (io s)). Qed.
Lemma no_panic_attempt : no_panic (step (attempt_io env) : SM unit).
Proof. intros s. cbn. by destruct (io_ok env (io s)). Qed.
Lemma no_panic_store_read : no_panic (step (store_read env) : SM _).
Proof.
  unfold step. apply no_panic_map_err. intros s. unfold store_read, attempt_io, Daemon.bind.
  destruct (io_ok env (io s)); [|done]. cbn. by destruct (read_file _).
Qed.
Lemma no_panic_record now e : no_panic (step (record_event env now e) : SM unit).
Proof.
  unfold step. apply no_panic_map_err. intros s. unfold record_event, attempt_io, Daemon.bind.
  by destruct (io_ok env (io s)).
Qed.
Lemma no_panic_register c : no_panic (register_driver c : SM unit).
Proof. intros s. unfold register_driver, Channel.register. by case_bool_decide. Qed.
#[local] Hint Resolve @no_panic_ask no_panic_attempt no_panic_store_read no_panic_record
  no_panic_register no_panic_load_totp no_panic_load_password no_panic_load_hmac
  no_panic_read_key : no_panic.

Lemma no_panic_register_each cs : no_panic (register_each cs : SM unit).
Proof. induction cs as [|c cs IH]; cbn [register_each]; no_panic; auto. Qed.
#[local] Hint Resolve no_panic_register_each no_panic_load_each : no_panic.

(** The policy of a parsed inventory is built or refused. *)
Lemma approval_model_outcome text inv :
  toml_from_str text = Ok inv ->
  match approval_model inv with Err Panic | Err OutOfFuel => False | _ => True end.
Proof.
  intros Ht. unfold approval_model. destruct (approval inv) as [spec|] eqn:Ea; [|done].
  pose proof (from_spec_outcome spec (toml_typed _ _ _ Ht Ea)) as Ho.
  by destruct (from_spec spec) as [|[]].
Qed.

Lemma parse_outcome text :
  match parse text with Err Panic | Err OutOfFuel => False | _ => True end.
Proof.
  unfold parse. destruct (toml_from_str text) as [inv|] eqn:Et; [|done]. cbn.
  pose proof (approval_model_outcome _ _ Et) as Ha. unfold InventoryCheck.validate.
  destruct (validate_hosts inv ∅ ∅ (hosts inv)); [|done]. cbn.
  destruct (refuse_if _ _); [|done]. cbn.
  destruct (approval_model inv) as [model|[]]; try done. cbn.
  by destruct (check_each _ _).
Qed.

Lemma yields_preflight cli :
  yields (fun inv => exists text, toml_from_str text = Ok inv) (preflight env texts cli).
Proof.
  intros s. pose proof (preflight_Ok env texts cli s) as Hpost.
  assert (Hn : no_panic (preflight env texts cli : SM Inventory)).
  { unfold preflight, read_text. no_panic. intros s'. cbn. pose proof (parse_outcome x2) as Hp.
    by destruct (parse x2) as [|[]]. }
  specialize (Hn s). destruct (preflight env texts cli s).2 as [inv|[]]; try done.
  by destruct (Hpost inv eq_refl) as (_ & _ & ? & _).
Qed.

Lemma no_panic_start cli now : no_panic (start env texts bind_env tpm_seal cli now : SM Started).
Proof.
  apply (yields_no_panic (fun _ => True)). unfold start.
  eapply yields_bind; [apply yields_preflight|]. intros inv [text Ht].
  pose proof (approval_model_outcome _ _ Ht) as Ha. apply no_panic_yields.
  unfold bind_sockets, bind_socket, new_reader, load_secrets, for_policy, load_device,
    read_key_opt, load_policy.
  no_panic. intros s. cbn. by destruct (approval_model inv) as [|[]].
Qed.
End StartReturns.

(** ** The process *)

Section ProcessProps.
Context `{RequestJson} `{StartCratesLaws} `{DataEncoding, FactorCrypto} {W D : Type}.
Context `{!ChannelDriver W, !DriverContract W, !DeadmanControl D}.
Context (env : Env) (texts : nat -> string -> option string) (bind_env : string -> BindEnv).
Context (tpm_seal : bool).

(** The file, the targets and the points passed are as they were. *)
Definition still (s s' : Sys W D Ledgers) : Prop :=
  store s' = store s /\ world (drivers s') = world (drivers s) /\ past s' = past s.

#[local] Instance still_refl : Reflexive still.
Proof. by intros s. Qed.
#[local] Instance still_trans : Transitive still.
Proof. intros s1 s2 s3 (E1 & E2 & E3) (F1 & F2 & F3). repeat split; congruence. Qed.

Lemma boots_still {A} (m : SM (W := W) (D := D) A) : keeps boots m -> keeps still m.
Proof. intros Hm s. destruct (Hm s) as (? & ? & ? & _). done. Qed.

Lemma keeps_start cli now : keeps still (start env texts bind_env tpm_seal cli now).
Proof.
  unfold start. keeps; [apply boots_still, keeps_preflight|apply boots_still, keeps_bind_sockets
    |apply boots_still, keeps_attempt| |..].
  - intros s. unfold step. rewrite emap_err_state. unfold record_event, attempt_io, Daemon.bind.
    by destruct (io_ok env (io s)).
  - apply boots_still, keeps_register_each.
  - apply boots_still, keeps_load_policy.
  - apply boots_still, keeps_new_reader.
  - apply boots_still, keeps_load_secrets.
  - apply boots_still, keeps_load_device.
Qed.

(** The loaded policy is one that the daemon's own check accepted. *)
Lemma started_policy cli now (s : Sys W D Ledgers) st :
  (start env texts bind_env tpm_seal cli now s).2 = Ok st ->
  policy_valid (H := LifecycleProps.totally) (st_cfg st).
Proof.
  intros Hst _ m Hm. destruct (start_Ok env texts bind_env tpm_seal cli now s st Hst) as [Hw [text Ht]].
  destruct (cli_dry_run cli) eqn:Ed; [by rewrite (ws_dry _ _ _ _ _ Hw Ed) in Hm|].
  destruct (ws_live _ _ _ _ _ Hw Ed) as (m' & Hm' & Ha & _). rewrite Hm in Hm'. injection Hm' as <-.
  unfold approval_model in Ha. destruct (approval (inventory (st_cfg st))) as [spec|] eqn:Es; [|done].
  destruct (from_spec spec) as [m'|[]] eqn:Ef; simplify_eq.
  eapply from_spec_Ok_valid; [|exact Ef]. by eapply toml_typed.
Qed.

End ProcessProps.

(** ** A day in the life *)

#[local] Existing Instance RefFactors.

(** A client asks for the status, a pass comes due, a signal arrives. *)
Definition demo_moments : list Moment :=
  [Connection {| bytes := request_bytes OStatus; ending := Eof |} 20 Operator; PassDue 30; Signal; Slice].


(** The run above ends in the stop, after the start line. *)
Example demo_life :
  let '(s', r) := main demo_env (demo_texts "policy" good_key) free_path false demo_cli 7 8 9
                    demo_moments 40 cold in
  r = Ok None /\ journal s' = [(0, EvDaemonStart "inv" 1); (0, EvDaemonStop)].
Proof. vm_compute. done. Qed.
