(* ===== verification/Devsim.v ===== *)
(** * Devsim: the pty-backed device (devsim/src/main.rs)

    The simulator the acceptance battery runs against: the device engine over
    a scaled clock, a sequence file and a gate with a modelled relay, driven
    by the daemon's lines on one side and by the nemesis on the other.  The
    cells shared between the engine's gate and the simulator ([Rc<Cell>]) are
    the fields of that gate: there is one engine at a time, and a new one
    takes them over. *)

From stdpp Require Import relations.
From S2P Require Import Prelude Text Ttl TextLines External Reference Cbor Token Line Embed EmbedProps Factors Startup.
#[local] Open Scope Z_scope.

(** ** The simulated hardware *)

(** What the machine does: the readings of the monotonic clock in
    milliseconds (the engine's, and the simulator's own at each report), and how the writes of the sequence file and of the state
    file go. *)
Inductive Written := WrittenOk | WriteFailed (leftover : option string).

Record World := {
  instant : nat -> Z;
  sim_elapsed : nat -> Z;
  seq_write : nat -> Written;
  publish_ok : nat -> bool;
}.

(** [ScaledClock]: the reading its epoch was taken at, and the next one. *)
Record ScaledClock := { epoch : nat; reads : nat }.

Inductive SeqFile := FileAbsent | FileText (text : string) | FileUnreadable.
Record FileSeq := { seq_file : SeqFile; seq_writes : nat }.

Record ActuatorSim := { sim_fail_state : FailState; sim_load : bool; stuck : bool }.
Record FlagGate := { commanded : bool; actuator : option ActuatorSim }.

Section Hardware.
Context (w : World) (scale : Z).

Definition scaled_uptime (at_ e : nat) : Z :=
  (Z.max 0 (instant w at_ - instant w e) * scale) mod 2 ^ 64.

Definition scaled_clock : UptimeClock ScaledClock := {|
  uptime_ms c := ({| epoch := epoch c; reads := S (reads c) |}, scaled_uptime (reads c) (epoch c))
|}.

Definition file_load (f : FileSeq) : FileSeq * result StoreError Z :=
  (f, match seq_file f with
      | FileText text => ok_or (u64_from_str (trim text)) StoreFailed
      | FileAbsent => Ok 0
      | FileUnreadable => Err StoreFailed
      end).

Definition file_store (f : FileSeq) (seq : Z) : FileSeq * result StoreError unit :=
  let f' c := {| seq_file := c; seq_writes := S (seq_writes f) |} in
  match seq_write w (seq_writes f) with
  | WrittenOk => (f' (FileText (dec_u64 seq)), Ok tt)
  | WriteFailed leftover =>
      (f' (match leftover with Some l => FileText l | None => seq_file f end), Err StoreFailed)
  end.

Definition file_seq : SeqStore FileSeq := {| load := file_load; store := file_store |}.
End Hardware.

Definition gate_set_open (g : FlagGate) (open : bool) : FlagGate :=
  {| commanded := open;
     actuator := (fun a => if stuck a then a
                           else {| sim_fail_state := sim_fail_state a; sim_load := open; stuck := false |})
                   <$> actuator g |}.

#[export] Instance flag_gate : Gate FlagGate := {|
  set_open := gate_set_open;
  gate_load g := sim_load <$> actuator g;
  fail_state g := sim_fail_state <$> actuator g;
|}.

(** ** The arguments *)

Inductive Death :=
| OddHex (what : string)
| NotHex (what : string)
| NeedsValue (name : string)
| BadDeviceId
| NotANumber
| UnknownFailState (s : string)
| UnknownArgument (s : string)
| Missing (name : string)
| BadPubkeyLength (n : Z)
| PtyRead
| CtlRead.

Record Args := {
  pubkey : list Z; arg_device_id : list Z; workdir : string; arg_scale : Z;
  arg_actuator : option FailState;
}.

Definition unhex (s what : string) : result (Fault Death) (list Z) :=
  if negb (str_len s mod 2 =? 0) then Err (Refused (OddHex what)) else hex_pairs (NotHex what) s.

Record Partial := {
  p_pubkey : option (list Z); p_device_id : option (list Z); p_workdir : option string; p_scale : Z;
  p_actuator : option FailState;
}.

(** One flag with its value. *)
Definition take_flag (p : Partial) (a v : string) : result (Fault Death) Partial :=
  if String.eqb a "--pubkey" then
    let? k := unhex v "--pubkey" in
    Ok {| p_pubkey := Some k; p_device_id := p_device_id p; p_workdir := p_workdir p;
          p_scale := p_scale p; p_actuator := p_actuator p |}
  else if String.eqb a "--device-id" then
    let? bytes := unhex v "--device-id" in
    if negb (Nat.eqb (length bytes) 16) then Err (Refused BadDeviceId)
    else Ok {| p_pubkey := p_pubkey p; p_device_id := Some bytes; p_workdir := p_workdir p;
               p_scale := p_scale p; p_actuator := p_actuator p |}
  else if String.eqb a "--workdir" then
    Ok {| p_pubkey := p_pubkey p; p_device_id := p_device_id p; p_workdir := Some v;
          p_scale := p_scale p; p_actuator := p_actuator p |}
  else if String.eqb a "--time-scale" then
    let? n := ok_or (u64_from_str v) (Refused NotANumber) in
    Ok {| p_pubkey := p_pubkey p; p_device_id := p_device_id p; p_workdir := p_workdir p;
          p_scale := n; p_actuator := p_actuator p |}
  else
    let? f := (if String.eqb v "energized" then Ok Energized
               else if String.eqb v "de-energized" then Ok DeEnergized
               else Err (Refused (UnknownFailState v))) in
    Ok {| p_pubkey := p_pubkey p; p_device_id := p_device_id p; p_workdir := p_workdir p;
          p_scale := p_scale p; p_actuator := Some f |}.

Definition FLAGS : list string := ["--pubkey"; "--device-id"; "--workdir"; "--time-scale"; "--actuator"].

Fixpoint take_flags (p : Partial) (args : list string) : result (Fault Death) Partial :=
  match args with
  | [] => Ok p
  | a :: rest =>
      if negb (bool_decide (a ∈ FLAGS)) then Err (Refused (UnknownArgument a))
      else
        match rest with
        | [] => Err (Refused (NeedsValue a))
        | v :: rest => let? p := take_flag p a v in take_flags p rest
        end
  end.

Definition parse_args (args : list string) : result (Fault Death) Args :=
  let? p := take_flags {| p_pubkey := None; p_device_id := None; p_workdir := None; p_scale := 1;
                          p_actuator := None |} args in
  let? k := ok_or (p_pubkey p) (Refused (Missing "--pubkey")) in
  let? d := ok_or (p_device_id p) (Refused (Missing "--device-id")) in
  let? dir := ok_or (p_workdir p) (Refused (Missing "--workdir")) in
  Ok {| pubkey := k; arg_device_id := d; workdir := dir; arg_scale := Z.max (p_scale p) 1;
        arg_actuator := p_actuator p |}.

Definition trust_root (pubkey : list Z) : result (Fault Death) TrustRoot :=
  if Nat.eqb (length pubkey) 32 then Ok (TrEd25519 pubkey)
  else if Nat.eqb (length pubkey) 65 then Ok (TrP256 pubkey)
  else Err (Refused (BadPubkeyLength (Z.of_nat (length pubkey)))).

(** ** The simulator *)

Inductive LastResult :=
| LrBoot
| LrRebooted
| LrReplay (reply : string)
| LrReplayNothing
| LrRelayStuck
| LrNotAnActuator
| LrRelayFreed
| LrCorruptReplay (reply : string)
| LrCorruptNothing
| LrUnknown (cmd : string).

(** [state.json]. *)
Record StateFile := {
  sf_open : option (list Z * Z); sf_uptime_ms : Z; sf_stored_seq : Z; sf_load : option bool;
  sf_last_result : LastResult; sf_closed_reason : option CloseReason;
}.

Local Abbreviation Engine := (DeviceEngine ScaledClock FileSeq FlagGate).

Record Sim := {
  engine : Engine;
  last_token_line : option string;
  last_result : LastResult;
  pty_buf : string;
  ctl_buf : string;
  pty_out : string;
  turns : nat;
  state_json : option StateFile;
}.

Section Simulator.
Context `{DataEncoding, WireCrypto} (w : World) (args : Args) (trust_of : TrustRoot).
#[local] Instance sim_clock : UptimeClock ScaledClock := scaled_clock w (arg_scale args).
#[local] Instance sim_seq : SeqStore FileSeq := file_seq w.

Definition set_engine (s : Sim) (e : Engine) : Sim :=
  {| engine := e; last_token_line := last_token_line s;
     last_result := last_result s; pty_buf := pty_buf s; ctl_buf := ctl_buf s;
     pty_out := pty_out s; turns := turns s; state_json := state_json s |}.

Definition set_result (s : Sim) (r : LastResult) : Sim :=
  {| engine := engine s; last_token_line := last_token_line s;
     last_result := r; pty_buf := pty_buf s; ctl_buf := ctl_buf s;
     pty_out := pty_out s; turns := turns s; state_json := state_json s |}.

(** The cells of the relay. *)
Definition set_relay (g : FlagGate) (load stk : bool) : FlagGate :=
  {| commanded := commanded g;
     actuator := (fun a => {| sim_fail_state := sim_fail_state a; sim_load := load; stuck := stk |})
                   <$> actuator g |}.

Definition energized (g : FlagGate) : bool :=
  match actuator g with Some a => bool_decide (sim_fail_state a = Energized) | None => false end.

(** [Sim::fresh_engine]: the load drops to its fail state and is held there
    through the constructor. *)
Definition fresh_engine (reads_so_far : nat) (f : FileSeq) (g : FlagGate) : Engine :=
  let held := set_relay g (energized g) true in
  let e := new (arg_device_id args) trust_of {| epoch := reads_so_far; reads := S reads_so_far |} f held in
  let freed := set_relay (gate e) (energized g) false in
  {| clock := clock e; seq := seq e; gate := freed; device_id := device_id e; trust := trust e;
     grant := grant e; last_close := last_close e |}.

Definition handle (s : Sim) (input : string) : result (Fault Death) (Sim * string) :=
  if str_is_empty (trim input) then Ok (s, "")
  else
    let '(e, reply) := handle_line (engine s) input in
    match reply with
    | Some reply => Ok (set_engine s e, reply)
    | None => Err Panic
    end.

Definition handle_delivery (s : Sim) (input : string) : result (Fault Death) (Sim * string) :=
  let s :=
    match strip_prefix "TOK " (trim_end input) with
    | Some rest =>
        {| engine := engine s; last_token_line := Some ("TOK " +:+ rest);
           last_result := last_result s; pty_buf := pty_buf s; ctl_buf := ctl_buf s;
           pty_out := pty_out s; turns := turns s; state_json := state_json s |}
    | None => s
    end in
  handle s input.

(** [line.pop()] and the replacement of what it gave. *)
Definition flip_last (line : string) : string :=
  match String.rev line with
  | "" => "B"
  | String last rest => String.rev rest +:+ (if bool_decide (last = "A"%char) then "B" else "A")
  end.

Definition relay_gate (s : Sim) (load stk : bool) : Sim :=
  let e := engine s in
  set_engine s {| clock := clock e; seq := seq e; gate := set_relay (gate e) load stk;
                  device_id := device_id e; trust := trust e; grant := grant e;
                  last_close := last_close e |}.

Definition control (s : Sim) (cmd : string) : result (Fault Death) Sim :=
  let cmd := trim cmd in
  if String.eqb cmd "" then Ok s
  else if String.eqb cmd "reboot" then
    let n := reads (clock (engine s)) in
    let e := fresh_engine n (seq (engine s)) (gate (engine s)) in
    Ok {| engine := e; last_token_line := last_token_line s;
          last_result := LrRebooted; pty_buf := pty_buf s; ctl_buf := ctl_buf s;
          pty_out := pty_out s; turns := turns s; state_json := state_json s |}
  else if String.eqb cmd "replay" then
    match last_token_line s with
    | Some line => let? r := handle s line in Ok (set_result r.1 (LrReplay r.2))
    | None => Ok (set_result s LrReplayNothing)
    end
  else if String.eqb cmd "stick-relay on" then
    match actuator (gate (engine s)) with
    | Some a => Ok (set_result (relay_gate s (sim_load a) true) LrRelayStuck)
    | None => Ok (set_result s LrNotAnActuator)
    end
  else if String.eqb cmd "stick-relay off" then
    match actuator (gate (engine s)) with
    | Some a => Ok (set_result (relay_gate s (commanded (gate (engine s))) false) LrRelayFreed)
    | None => Ok s
    end
  else if String.eqb cmd "corrupt-replay" then
    match last_token_line s with
    | Some line => let? r := handle s (flip_last line) in Ok (set_result r.1 (LrCorruptReplay r.2))
    | None => Ok (set_result s LrCorruptNothing)
    end
  else Ok (set_result s (LrUnknown cmd)).

(** [Sim::write_state]: the engine's own answer to [STAT]. *)
Definition write_state (s : Sim) : result (Fault Death) Sim :=
  let '(e, stat) := handle_line (engine s) "STAT" in
  match stat with
  | None => Err Panic
  | Some stat =>
      let s := set_engine s e in
      Ok (match parse_reply stat with
          | Ok (State r) =>
              let doc := {| sf_open := rp_open r;
                            sf_uptime_ms := (sim_elapsed w (turns s) * arg_scale args) mod 2 ^ 64;
                            sf_stored_seq := rp_seq r; sf_load := rp_load r;
                            sf_last_result := last_result s; sf_closed_reason := rp_reason r |} in
              {| engine := engine s; last_token_line := last_token_line s;
                 last_result := last_result s; pty_buf := pty_buf s; ctl_buf := ctl_buf s;
                 pty_out := pty_out s; turns := turns s;
                 state_json := if publish_ok w (turns s) then Some doc else state_json s |}
          | _ => s
          end)
  end.

(** *** The main loop *)

(** What a nonblocking read gave (nothing covers an empty read, [WouldBlock]
    and a closed pts); the text is the lossy decoding of the chunk. *)
Inductive ReadResult := NoData | Chunk (text : string) | ReadError.

(** The complete lines of a buffer, each with its line feed, and the rest. *)
Fixpoint drain (s : string) : list string * string :=
  match s with
  | "" => ([], "")
  | String a s' =>
      let '(ls, rest) := drain s' in
      if bool_decide (a = LF) then (String a "" :: ls, rest)
      else match ls with [] => ([], String a rest) | l :: ls => (String a l :: ls, rest) end
  end.

Fixpoint deliver (s : Sim) (lines : list string) : result (Fault Death) Sim :=
  match lines with
  | [] => Ok s
  | line :: rest =>
      let? r := handle_delivery s line in
      let s := r.1 in
      deliver (if str_is_empty r.2 then s
               else {| engine := engine s; last_token_line := last_token_line s;
                       last_result := last_result s; pty_buf := pty_buf s; ctl_buf := ctl_buf s;
                       pty_out := pty_out s +:+ r.2 +:+ nl; turns := turns s;
                       state_json := state_json s |}) rest
  end.

Fixpoint controls (s : Sim) (cmds : list string) : result (Fault Death) Sim :=
  match cmds with
  | [] => Ok s
  | cmd :: rest => let? s := control s cmd in controls s rest
  end.

Definition with_bufs (s : Sim) (p c : string) : Sim :=
  {| engine := engine s; last_token_line := last_token_line s;
     last_result := last_result s; pty_buf := p; ctl_buf := c; pty_out := pty_out s;
     turns := turns s; state_json := state_json s |}.

(** One turn: tick, the daemon's lines, the nemesis' commands, the report. *)
Definition turn (s : Sim) (pty ctl : ReadResult) : result (Fault Death) Sim :=
  let s := set_engine s (tick (engine s)) in
  let? text := match pty with NoData => Ok "" | Chunk t => Ok t | ReadError => Err (Refused PtyRead) end in
  let '(lines, rest) := drain (pty_buf s +:+ text) in
  let? s := deliver (with_bufs s rest (ctl_buf s)) lines in
  let? text := match ctl with NoData => Ok "" | Chunk t => Ok t | ReadError => Err (Refused CtlRead) end in
  let '(cmds, rest) := drain (ctl_buf s +:+ text) in
  let? s := controls (with_bufs s (pty_buf s) rest) cmds in
  let? s := write_state s in
  Ok {| engine := engine s; last_token_line := last_token_line s;
        last_result := last_result s; pty_buf := pty_buf s; ctl_buf := ctl_buf s;
        pty_out := pty_out s; turns := S (turns s); state_json := state_json s |}.

Fixpoint run (s : Sim) (inputs : list (ReadResult * ReadResult)) : result (Fault Death) Sim :=
  match inputs with
  | [] => Ok s
  | (pty, ctl) :: rest => let? s := turn s pty ctl in run s rest
  end.
End Simulator.

(** [main]: the arguments, the first engine, its first report, and the loop. *)
Definition main `{DataEncoding, WireCrypto} (w : World) (argv : list string) (f : FileSeq)
    (inputs : list (ReadResult * ReadResult)) : result (Fault Death) Sim :=
  let? args := parse_args argv in
  let? t := trust_root (pubkey args) in
  let g := {| commanded := false;
              actuator := (fun fs => {| sim_fail_state := fs; sim_load := false; stuck := false |})
                            <$> arg_actuator args |} in
  let s := {| engine := fresh_engine args t 0 f g; last_token_line := None;
              last_result := LrBoot; pty_buf := ""; ctl_buf := ""; pty_out := ""; turns := 0;
              state_json := None |} in
  let? s := write_state w args s in
  run w args t s inputs.

(** ** The hardware keeps the engine's contracts *)

Section Contracts.
Context (w : World) (scale limit : Z).
Context (Hmono : forall n m, (n <= m)%nat -> instant w n <= instant w m).
Context (Hrange : forall n, 0 <= instant w n <= limit) (Hscale : 0 <= scale) (Hfit : limit * scale <= u64_max).
(** A write that fails leaves the file as it was. *)
Context (Hatomic : forall n l, seq_write w n <> WriteFailed (Some l)).

Lemma scaled_uptime_eq a e :
  scaled_uptime w scale a e = Z.max 0 (instant w a - instant w e) * scale
  /\ is_u64 (scaled_uptime w scale a e).
Proof using Hrange Hscale Hfit.
  pose proof (Hrange a). pose proof (Hrange e). unfold scaled_uptime, is_u64, u64_max in *.
  rewrite Z.mod_small by nia. nia.
Qed.

Definition scaled_clock_laws : @UptimeClockLaws ScaledClock (scaled_clock w scale).
Proof using Hmono Hrange Hscale Hfit.
  refine {| now c := scaled_uptime w scale (pred (reads c)) (epoch c) |}; intros; cbn.
  - done.
  - rewrite !(proj1 (scaled_uptime_eq _ _)).
    pose proof (Hmono (pred (reads c)) (reads c) ltac:(lia)). nia.
  - apply scaled_uptime_eq.
Defined.

Definition file_mark (f : FileSeq) : Z :=
  match (file_load f).2 with Ok v => v | Err _ => 0 end.

Definition file_seq_laws : @SeqStoreLaws FileSeq (file_seq w).
Proof using Hatomic.
  refine {| mark := file_mark |}; intros; cbn.
  - unfold file_mark, file_load. destruct (seq_file s) as [|text|]; cbn; try done.
    destruct (u64_from_str (trim text)) eqn:E; cbn; [by apply Ttl.u64_from_str_range in E|done].
  - done.
  - cbn in H. unfold file_mark, file_load. cbn. by rewrite H.
  - cbn in H1. unfold file_store in *. destruct (seq_write w (seq_writes s)); [|done].
    unfold file_mark, file_load. cbn [fst snd seq_file]. rewrite trim_digits by (apply dec_u64_digits; unfold is_u64 in *; lia).
    by rewrite u64_from_str_dec.
  - cbn in H1. unfold file_store in *.
    pose proof (Hatomic (seq_writes s)) as Ha. destruct (seq_write w (seq_writes s)) as [|[l|]]; [done| |].
    + by destruct (Ha l).
    + unfold file_mark. cbn. done.
Defined.
End Contracts.

#[export] Instance flag_gate_laws : GateLaws FlagGate.
Proof. by refine {| is_open := commanded |}. Defined.

(** ** What the simulator keeps *)

Section Keeps.
Context `{DataEncodingLaws, WireCryptoLaws} (w : World) (args : Args) (t : TrustRoot) (limit : Z).
Context (Hmono : forall n m, (n <= m)%nat -> instant w n <= instant w m).
Context (Hrange : forall n, 0 <= instant w n <= limit).
Context (Hscale : 0 <= arg_scale args) (Hfit : limit * arg_scale args <= u64_max).
Context (Hatomic : forall n l, seq_write w n <> WriteFailed (Some l)).
#[local] Instance the_clock : UptimeClock ScaledClock := sim_clock w args.
#[local] Instance the_seq : SeqStore FileSeq := sim_seq w.
#[local] Instance the_clock_laws : UptimeClockLaws ScaledClock :=
  scaled_clock_laws w (arg_scale args) limit Hmono Hrange Hscale Hfit.
#[local] Instance the_seq_laws : SeqStoreLaws FileSeq := file_seq_laws w Hatomic.
Implicit Types (e : Engine) (g : FlagGate).

(** A free relay shows what was commanded, but for the boot: until the first
    command after it, the load stands at its fail state. *)
Definition relay_ok e : Prop :=
  forall a, actuator (gate e) = Some a -> stuck a = false ->
    sim_load a = commanded (gate e)
    \/ (last_close e = Some Boot /\ grant e = None /\ sim_load a = bool_decide (sim_fail_state a = Energized)).

(** A command settles it. *)
Lemma relay_set e g b : gate e = gate_set_open g b -> relay_ok e.
Proof.
  intros Hg a Ha Hs. left. rewrite Hg in *. cbn in *. destruct (actuator g) as [a0|]; [|done].
  cbn in Ha. destruct (stuck a0) eqn:Es; simplify_eq; [congruence|done].
Qed.

Lemma relay_same e e' :
  gate e' = gate e -> last_close e' = last_close e -> grant e' = grant e -> relay_ok e -> relay_ok e'.
Proof. unfold relay_ok. by intros -> -> ->. Qed.

Lemma relay_tick e : relay_ok e -> relay_ok (tick e).
Proof.
  intros Hr. unfold tick. destruct (grant e) as [g|] eqn:Hg; [|done].
  destruct (uptime_ms (clock e)) as [c n]. destruct (_ <=? n); [by eapply relay_set|].
  by eapply relay_same; [..|exact Hr].
Qed.

Lemma relay_fresh e cap m : relay_ok e -> relay_ok (accept_fresh e cap m).1.
Proof.
  intros Hr. unfold accept_fresh, remaining_secs. destruct (_ <=? _); [done|]. destruct (_ <? _); [done|].
  destruct (store _ _) as [f [[]|]]; [|by eapply relay_same; [..|exact Hr]].
  destruct (uptime_ms _) as [c n]. destruct (uptime_ms _) as [c' n']. by eapply relay_set.
Qed.

Lemma relay_reply_to e input : relay_ok e -> relay_ok (reply_to e input).1.
Proof.
  intros Hr%relay_tick. unfold reply_to. set (e0 := tick e) in *. clearbody e0.
  assert (Hseq : forall f, relay_ok (set_seq e0 f)) by (intros f; by eapply relay_same; [..|exact Hr]).
  destruct (parse_command input) as [[token|token| | |c]|]; try done.
  - unfold accept_token. destruct (verify_capability _ token) as [cap|[]]; try done.
    destruct (negb _); [done|]. destruct (load (seq e0)) as [f [m|]]; [|by apply Hseq].
    cbn [grant set_seq]. destruct (grant e0) as [g|]; [|by apply relay_fresh].
    destruct (_ && _).
    { unfold remaining_secs. destruct (uptime_ms _) as [c n]. by eapply relay_same; [..|exact (Hseq f)]. }
    destruct (negb _); [apply Hseq|by apply relay_fresh].
  - unfold accept_revocation. destruct (verify_revocation _ token) as [rvk|[]]; try done.
    destruct (negb _); [done|]. destruct (load (seq e0)) as [f [m|]]; [|by apply Hseq].
    destruct (_ <=? m); [apply Hseq|]. destruct (store _ _) as [f' [[]|]]; [|apply Hseq].
    cbn [grant set_seq]. destruct (grant e0) as [g|]; [|apply Hseq].
    case_bool_decide; [by eapply relay_set|apply Hseq].
  - unfold report, remaining_secs. destruct (load (seq e0)) as [f r].
    cbn [grant set_seq]. destruct (grant e0) as [g|] eqn:Hg; [|apply Hseq].
    destruct (uptime_ms _) as [c n]. by eapply relay_same; [..|exact (Hseq f)].
Qed.

Definition sim_inv (s : Sim) : Prop :=
  inv (engine s) /\ relay_ok (engine s)
  /\ device_id (engine s) = arg_device_id args /\ trust (engine s) = t.

(** The invariant holds after, and the mark did not fall. *)
Definition advances (s s' : Sim) : Prop :=
  sim_inv s' /\ file_mark (seq (engine s)) <= file_mark (seq (engine s')).

Lemma advances_refl s : sim_inv s -> advances s s.
Proof. by split. Qed.
Lemma advances_trans s1 s2 s3 : advances s1 s2 -> advances s2 s3 -> advances s1 s3.
Proof. intros [_ ?] [? ?]. split; [done|]. lia. Qed.
(** Only the engine counts. *)
Lemma advances_engine s s1 s2 : engine s1 = engine s2 -> advances s s1 -> advances s s2.
Proof. unfold advances, sim_inv. by intros ->. Qed.

Lemma engine_line e input : inv e -> relay_ok e ->
  exists reply, (handle_line e input).2 = Some reply /\ parse_reply reply = Ok (reply_to e input).2
    /\ inv (handle_line e input).1 /\ relay_ok (handle_line e input).1
    /\ device_id (handle_line e input).1 = device_id e /\ trust (handle_line e input).1 = trust e
    /\ mark (seq e) <= mark (seq (handle_line e input).1).
Proof.
  intros Hi Hr. destruct (handle_line_answer e input Hi) as (reply & Ha & Hp). exists reply.
  split; [done|]. split; [done|]. pose proof (st_line e input) as Hst.
  split; [by eapply inv_step|]. split; [rewrite handle_line_reply; by apply relay_reply_to|].
  destruct (step_mark _ _ Hst) as (? & ? & ?). done.
Qed.

Lemma handle_keeps s input : sim_inv s ->
  exists r, handle w args s input = Ok r /\ advances s r.1.
Proof.
  intros Hs. unfold handle. destruct (str_is_empty _); [eauto using advances_refl|].
  pose proof Hs as (Hi & Hr & Hd & Ht). destruct (engine_line (engine s) input Hi Hr)
    as (reply & Ha & _ & Hi' & Hr' & Hd' & Ht' & Hm).
  destruct (handle_line (engine s) input) as [e' o]. cbn [fst snd] in *. subst o. eexists. split; [done|].
  split; [|done]. unfold sim_inv. cbn [engine set_engine fst]. split_and!; congruence || done.
Qed.

Lemma fresh_keeps s n :
  sim_inv s -> let e := fresh_engine args t n (seq (engine s)) (gate (engine s)) in
  inv e /\ relay_ok e /\ device_id e = arg_device_id args /\ trust e = t /\ seq e = seq (engine s).
Proof.
  intros _. cbn zeta. split_and!; try done.
  intros a Ha _. right. split; [done|]. split; [done|].
  cbn in Ha. unfold energized in Ha. destruct (actuator (gate (engine s))) as [a0|]; cbn in Ha; [|done].
  by simplify_eq.
Qed.

Lemma relay_keeps s load stk : sim_inv s -> stk = true \/ load = commanded (gate (engine s)) ->
  advances s (relay_gate s load stk).
Proof.
  intros (Hi & Hr & Hd & Ht) Hst. split; [|done]. split_and!; try done.
  intros a Ha Hs. cbn in Ha. destruct (actuator (gate (engine s))); cbn in Ha; [|done]. simplify_eq.
  cbn in Hs. destruct Hst as [->| ->]; [done|]. by left.
Qed.

Lemma control_keeps s cmd : sim_inv s -> exists s', control w args t s cmd = Ok s' /\ advances s s'.
Proof.
  intros Hs. unfold control. set (c := trim cmd).
  destruct (String.eqb c ""); [eauto using advances_refl|].
  destruct (String.eqb c "reboot").
  { eexists. split; [done|]. destruct (fresh_keeps s (reads (clock (engine s))) Hs) as (? & ? & ? & ? & Hq).
    split; [by split_and!|]. cbn [engine]. by rewrite Hq. }
  assert (Hsay : forall r s', advances s s' -> advances s (set_result s' r)).
  { intros r s'. by apply advances_engine. }
  destruct (String.eqb c "replay").
  { destruct (last_token_line s) as [line|]; [|eauto using advances_refl].
    destruct (handle_keeps s line Hs) as (r & -> & Hr). eauto. }
  destruct (String.eqb c "stick-relay on").
  { destruct (actuator _); [|eauto using advances_refl]. eexists. split; [done|].
    apply Hsay, relay_keeps; [done|by left]. }
  destruct (String.eqb c "stick-relay off").
  { destruct (actuator _); [|eauto using advances_refl]. eexists. split; [done|].
    apply Hsay, relay_keeps; [done|by right]. }
  destruct (String.eqb c "corrupt-replay"); [|eauto using advances_refl].
  destruct (last_token_line s) as [line|]; [|eauto using advances_refl].
  destruct (handle_keeps s (flip_last line) Hs) as (r & -> & Hr). eauto.
Qed.

Lemma controls_keep s cmds : sim_inv s -> exists s', controls w args t s cmds = Ok s' /\ advances s s'.
Proof.
  revert s. induction cmds as [|cmd cmds IH]; intros s Hs; cbn [controls]; [eauto using advances_refl|].
  destruct (control_keeps s cmd Hs) as (s1 & -> & Hs1). destruct (IH s1 (proj1 Hs1)) as (s2 & E & Hs2).
  exists s2. split; [done|]. by eapply advances_trans.
Qed.

Lemma deliver_keeps s lines : sim_inv s -> exists s', deliver w args s lines = Ok s' /\ advances s s'.
Proof.
  revert s. induction lines as [|line lines IH]; intros s Hs; cbn [deliver]; [eauto using advances_refl|].
  assert (exists r, handle_delivery w args s line = Ok r /\ advances s r.1) as (r & -> & Hr).
  { unfold handle_delivery. destruct (strip_prefix _ _); [|by apply handle_keeps].
    apply (handle_keeps (Build_Sim _ _ _ _ _ _ _ _) line Hs). }
  match goal with |- context [deliver w args ?x lines] => assert (Hx : advances s x) end.
  { destruct (str_is_empty r.2); [done|]. by eapply advances_engine; [|exact Hr]. }
  destruct (IH _ (proj1 Hx)) as (s2 & E & Hs2). exists s2. split; [done|]. by eapply advances_trans.
Qed.

(** What the state file says of a simulator. *)
Definition tells_truth (doc : StateFile) (s : Sim) : Prop :=
  (is_Some (sf_open doc) <-> commanded (gate (engine s)) = true)
  /\ sf_load doc = sim_load <$> actuator (gate (engine s))
  /\ sf_last_result doc = last_result s.

Lemma report_tells e : inv e ->
  (is_Some (rp_open (report e).2) <-> commanded (gate (report e).1) = true)
  /\ rp_load (report e).2 = sim_load <$> actuator (gate (report e).1).
Proof.
  intros [Ho _]. change (commanded (gate e) = bool_decide (is_Some (grant e))) in Ho.
  unfold report, remaining_secs. destruct (load (seq e)) as [f r]. cbn [grant set_seq].
  destruct (grant e) as [g|]; [destruct (uptime_ms _) as [c n]|]; cbn; rewrite Ho; (split; [|done]).
  - split; [done|by eexists].
  - by split; [intros [? ?]|].
Qed.

Lemma write_state_keeps s : sim_inv s ->
  exists s', write_state w args s = Ok s' /\ advances s s' /\ last_result s' = last_result s
    /\ turns s' = turns s
    /\ (publish_ok w (turns s) = true -> exists doc, state_json s' = Some doc /\ tells_truth doc s').
Proof.
  intros (Hi & Hr & Hd & Ht). unfold write_state.
  destruct (engine_line (engine s) "STAT" Hi Hr) as (reply & Ha & Hp & Hi' & Hr' & Hd' & Ht' & Hm).
  assert (Hrep : reply_to (engine s) "STAT" = ((report (tick (engine s))).1, State (report (tick (engine s))).2)).
  { unfold reply_to. replace (parse_command "STAT") with (Ok (E := WireError) CStatus) by reflexivity.
    by destruct (report (tick (engine s))). }
  pose proof (handle_line_reply (engine s) "STAT") as He. rewrite Hrep in He, Hp. cbn [fst snd] in He, Hp.
  destruct (report_tells (tick (engine s))) as [Hopen Hload]; [by apply inv_tick|].
  destruct (handle_line (engine s) "STAT") as [e' o]. cbn [fst snd] in *. subst o e'.
  rewrite Hp. eexists. split; [done|].
  assert (Hadv : forall s', engine s' = (report (tick (engine s))).1 -> advances s s').
  { intros s' E. unfold advances, sim_inv. rewrite E. split_and!; congruence || done. }
  split; [by apply Hadv|]. split; [done|]. split; [done|]. cbn [turns state_json set_engine]. intros ->.
  eexists. split; [done|]. by split.
Qed.

Lemma turn_keeps s pty ctl : sim_inv s -> pty <> ReadError -> ctl <> ReadError ->
  exists s', turn w args t s pty ctl = Ok s' /\ advances s s'
    /\ ((forall n, publish_ok w n = true) -> exists doc, state_json s' = Some doc /\ tells_truth doc s').
Proof.
  intros Hs Hp Hc. unfold turn. set (s0 := set_engine s (tick (engine s))).
  assert (Hs0 : advances s s0).
  { destruct Hs as (Hi & Hr & Hd & Ht). pose proof (st_tick (engine s)) as Hst.
    destruct (step_mark _ _ Hst) as (Ed & Et & Hm). subst s0. split; [|exact Hm]. unfold sim_inv.
    cbn [engine set_engine].
    split; [by apply inv_tick|]. split; [by apply relay_tick|]. exact (conj (eq_trans Ed Hd) (eq_trans Et Ht)). }
  assert (exists ptext, match pty with NoData => Ok "" | Chunk x => Ok x | ReadError => Err (Refused PtyRead) end
    = Ok (E := Fault Death) ptext) as [ptext ->] by (destruct pty; eauto; done).
  destruct (drain (pty_buf s0 +:+ ptext)) as [lines rest].
  destruct (deliver_keeps (with_bufs s0 rest (ctl_buf s0)) lines) as (s1 & -> & Hs1); [apply Hs0|].
  assert (exists ctext, match ctl with NoData => Ok "" | Chunk x => Ok x | ReadError => Err (Refused CtlRead) end
    = Ok (E := Fault Death) ctext) as [ctext ->] by (destruct ctl; eauto; done).
  destruct (drain (ctl_buf s1 +:+ ctext)) as [cmds rest'].
  destruct (controls_keep (with_bufs s1 (pty_buf s1) rest') cmds) as (s2 & -> & Hs2); [apply Hs1|].
  destruct (write_state_keeps s2) as (s3 & -> & Hs3 & _ & _ & Hdoc); [apply Hs2|].
  eexists. split; [done|]. split; [|intros Hpub; by apply Hdoc].
  apply (advances_engine s s3); [done|].
  eapply advances_trans; [exact Hs0|]. eapply advances_trans; [exact Hs1|].
  by eapply advances_trans; [exact Hs2|].
Qed.

Lemma fresh_sim_inv (f : FileSeq) (g : FlagGate) s :
  engine s = fresh_engine args t 0 f g -> sim_inv s.
Proof.
  intros E. unfold sim_inv. rewrite E. split_and!; try done.
  intros a Ha _. right. split; [done|]. split; [done|].
  cbn in Ha. unfold energized in Ha. destruct (actuator g); cbn in Ha; [|done]. by simplify_eq.
Qed.

End Keeps.

(** ** Witness *)

Definition bench_world : World :=
  {| instant n := Z.min (Z.of_nat n) 1000; sim_elapsed _ := 5; seq_write _ := WrittenOk; publish_ok _ := true |}.
Definition bench_args : Args :=
  {| pubkey := replicate 32 1; arg_device_id := replicate 16 7; workdir := "/tmp/dev"; arg_scale := 30;
     arg_actuator := Some Energized |}.
Definition bench_trust : TrustRoot := TrEd25519 (ed25519_public (replicate 32 1)).
Definition bench_relay : FlagGate :=
  {| commanded := false;
     actuator := Some {| sim_fail_state := Energized; sim_load := false; stuck := false |} |}.
Definition bench_sim : Sim :=
  {| engine := fresh_engine bench_args bench_trust 0 {| seq_file := FileAbsent; seq_writes := 0 |} bench_relay;
     last_token_line := None; last_result := LrBoot; pty_buf := ""; ctl_buf := ""; pty_out := "";
     turns := 0; state_json := None |}.

(** A token, a power cycle, and the same token again. *)
Definition bench_inputs : list (ReadResult * ReadResult) :=
  [(Chunk (tok_line +:+ nl), NoData); (NoData, Chunk ("reboot" +:+ nl)); (NoData, Chunk ("replay" +:+ nl))].

Lemma bench_mono n m : (n <= m)%nat -> instant bench_world n <= instant bench_world m.
Proof. cbn. lia. Qed.
Lemma bench_range n : 0 <= instant bench_world n <= 1000.
Proof. cbn. lia. Qed.
Lemma bench_scale : 0 <= arg_scale bench_args.
Proof. cbn. lia. Qed.
Lemma bench_fit : 1000 * arg_scale bench_args <= u64_max.
Proof. unfold u64_max. cbn. lia. Qed.
Local Abbreviation bench_inv :=
  (sim_inv bench_world bench_args bench_trust 1000 bench_mono bench_range bench_scale bench_fit).


(** The replay is refused after the power cycle, and the load stands at its
    fail state. *)
Example replay_after_reboot :
  match run bench_world bench_args bench_trust bench_sim bench_inputs with
  | Ok s => last_result s = LrReplay "NAK replay" /\ grant (engine s) = None
            /\ sim_load <$> actuator (gate (engine s)) = Some true
  | Err _ => False
  end.
Proof. vm_compute. done. Qed.
