(* ===== verification/Shadow.v ===== *)
(** * Shadow: the simulated users and their shadow model (daemon/src/sim.rs)

    The pure model the repository's own simulation predicts the daemon with
    (states, weighted evaluation, boundary rules, all rewritten from the
    specification there), its actors and actions, the checker, the live
    harness that drives a daemon action by action, the seeded generator and
    the shrinker. *)

From stdpp Require Import relations.
From S2P Require Import Prelude Text Clock Ttl External Approval Authority AuthorityProps Inventory Channel ScriptedDrivers Grant Registry Proto Factors Ledgers Daemon Proofs Lifecycle Mcp Exchange FrontDoor.
#[local] Open Scope Z_scope.

(** ** The cast and the policy *)

Definition HOST : string := "db-01".
Definition WAIT_SECS : Z := 30.
Definition APPROVAL_WINDOW_SECS : Z := 300.
Definition RENEWAL_WINDOW_SECS : Z := 2 * 60 * 60.

Definition TTLS : list (string * Z) := [("90s", 90); ("15m", 900); ("1h", 3600); ("4h", 14400)].

Inductive Actor := Alice | Bob | Charlie.
#[export] Instance Actor_eq_dec : EqDecision Actor.
Proof. solve_decision. Defined.
#[export] Instance Actor_countable : Countable Actor.
Proof.
  refine (inj_countable' (fun a => match a with Alice => 0 | Bob => 1 | Charlie => 2 end)
    (fun n => if n =? 0 then Alice else if n =? 1 then Bob else Charlie) _). by intros [].
Defined.

Inductive Profile := Solo | Duo | Timed.
#[export] Instance Profile_eq_dec : EqDecision Profile.
Proof. solve_decision. Defined.

Definition profile_id (p : Profile) : string :=
  match p with Solo => "solo" | Duo => "duo" | Timed => "timed" end.

(** [inventory()]. *)
Definition sim_ssh : SshConfig :=
  {| ssh_agent_user := "root"; ssh_port := 22; root_posture_default := PNo; root_posture_emergency := PYes;
     authorized_keys_path := "/root/.ssh/authorized_keys"; emergency_keys := []; ssh_identity_file := None;
     ssh_become_cmd := None; reload_cmd := None; dropin_path := None |}.
Definition sim_host : Host :=
  {| name := HOST; address := "10.0.4.11"; os := Linux; channels := [Ssh]; ssh := Some sim_ssh;
     bmc := None; vnc := None; http := None; mqtt := None; serial := None; device := None;
     access := None; Inventory.drill := false |}.
Definition sim_key (id key : string) : AuthenticatorSpec :=
  {| as_id := id; as_kind := KEd25519; as_public_key := Some key; as_secret_file := None;
     as_hash_file := None; as_alg := None; as_credential_id := None |}.
Definition sim_profile (id : string) (t : Z) (fs : list FactorSpec) : ProfileSpec :=
  {| ps_id := id; ps_threshold := t; ps_factor := fs; ps_mcp := false |}.
Definition sim_spec (alice_pub bob_pub : string) : ApprovalSpec := {|
  spec_authenticator := [sim_key "alice" alice_pub; sim_key "bob" bob_pub];
  spec_group := [];
  spec_profile := [sim_profile "solo" 1 [auth_factor 1 "alice"];
                   sim_profile "duo" 2 [auth_factor 1 "alice"; auth_factor 1 "bob"];
                   sim_profile "timed" 2 [auth_factor 1 "alice"; wait_factor 1 "30s"]];
|}.
Definition sim_inventory (spec : ApprovalSpec) : Inventory :=
  {| hosts := [sim_host]; signing := None; approval := Some spec |}.

(** ** The shadow *)

Inductive Shadow :=
| ShClosed
| ShPending (profile : Profile) (satisfied : gset Actor) (requested_at deadline ttl_secs : Z)
| ShOpen (expires : Z).

(** [Shadow::met]. *)
Definition met (p : Profile) (satisfied : gset Actor) (elapsed : Z) : bool :=
  match p with
  | Solo => bool_decide (Alice ∈ satisfied)
  | Duo => bool_decide (Alice ∈ satisfied) && bool_decide (Bob ∈ satisfied)
  | Timed => bool_decide (Alice ∈ satisfied) && (WAIT_SECS <=? elapsed)
  end.

Definition observed (sh : Shadow) (now : Z) : LineState * option Z :=
  match sh with
  | ShClosed => (LClosed, None)
  | ShPending _ _ _ deadline _ =>
      if deadline <=? now then (LApprovalExpired, None) else (LAwaitingApproval, Some (deadline - now))
  | ShOpen expires => if expires <=? now then (LExpired, None) else (LOpen, Some (expires - now))
  end.

(** ** Actions *)

Inductive ProofKind := Fresh | Stale.

Inductive Action :=
| AOpen (profile : Profile) (ttl_ix : nat)
| AApprove (actor : Actor) (proof : ProofKind)
| ARenew (ttl_ix : nat)
| AClose
| AAdvance (secs : Z)
| APass.

(** A configured signer over the live challenge. *)
Definition valid (actor : Actor) (proof : ProofKind) : bool :=
  match actor, proof with Alice, Fresh | Bob, Fresh => true | _, _ => false end.

Definition expected_result (action : Action) (sh : Shadow) (now : Z) : ResponseResult :=
  match action with
  | AOpen _ _ => match (observed sh now).1 with LClosed => RsOk | _ => RsRefused end
  | AApprove actor proof =>
      match sh with
      | ShPending _ _ _ deadline _ =>
          if (now <? deadline) && valid actor proof then RsOk else RsRefused
      | _ => RsRefused
      end
  | ARenew _ =>
      match sh with
      | ShOpen expires =>
          if (now <? expires) && (expires - now <=? RENEWAL_WINDOW_SECS) then RsOk else RsRefused
      | _ => RsRefused
      end
  | AClose | AAdvance _ | APass => RsOk
  end.

(** [TTLS[ttl_ix].1], where the index is in range. *)
Definition ttl_secs_at (ix : nat) : Z := match TTLS !! ix with Some t => t.2 | None => 0 end.
Definition ttl_text_at (ix : nat) : string := match TTLS !! ix with Some t => t.1 | None => "" end.

Definition advance_shadow (sh : Shadow) (action : Action) (now : Z) : Shadow :=
  match action with
  | AOpen profile ttl_ix =>
      match (observed sh now).1 with
      | LClosed => ShPending profile ∅ now (now + APPROVAL_WINDOW_SECS) (ttl_secs_at ttl_ix)
      | _ => sh
      end
  | AApprove actor proof =>
      match sh with
      | ShPending profile satisfied requested_at deadline ttl_secs =>
          if (now <? deadline) && valid actor proof then
            let satisfied := {[actor]} ∪ satisfied in
            if met profile satisfied (now - requested_at) then ShOpen (now + ttl_secs)
            else ShPending profile satisfied requested_at deadline ttl_secs
          else sh
      | _ => sh
      end
  | ARenew ttl_ix =>
      match sh with
      | ShOpen expires =>
          if (now <? expires) && (expires - now <=? RENEWAL_WINDOW_SECS)
          then ShOpen (now + ttl_secs_at ttl_ix) else sh
      | _ => sh
      end
  | AClose => ShClosed
  | AAdvance _ => sh
  | APass =>
      match sh with
      | ShPending profile satisfied requested_at deadline ttl_secs =>
          if deadline <=? now then ShClosed
          else if met profile satisfied (now - requested_at) && negb (met profile satisfied 0)
          then ShOpen (now + ttl_secs) else sh
      | ShOpen expires => if expires <=? now then ShClosed else sh
      | ShClosed => ShClosed
      end
  end.

(** ** The checker *)

Inductive Complaint :=
| MissingHost
| WrongState (seen want : LineState)
| WrongRemaining (seen want : option Z)
| WrongResult (seen want : ResponseResult)
| DaemonFatal (e : Fatal).

#[export] Instance LineState_eq_dec : EqDecision LineState.
Proof. solve_decision. Defined.

Definition check_observation (lines : list GrantLine) (sh : Shadow) (now : Z) : result Complaint unit :=
  let? line := ok_or (List.find (fun l => String.eqb (gl_host l) HOST) lines) MissingHost in
  let '(want_state, want_remaining) := observed sh now in
  if negb (bool_decide (gl_state line = want_state)) then Err (WrongState (gl_state line) want_state)
  else if negb (bool_decide (gl_remaining_secs line = want_remaining))
  then Err (WrongRemaining (gl_remaining_secs line) want_remaining)
  else Ok tt.

Definition check_result {R} (action : Action) (response : Response R) (before : Shadow) (now : Z)
    : result Complaint unit :=
  let want := expected_result action before now in
  if negb (bool_decide (rs_result response = want)) then Err (WrongResult (rs_result response) want)
  else Ok tt.

(** ** The live harness *)

#[export] Instance NoopDeadman : DeadmanControl unit := {|
  dm_install _ _ d := (d, Ok tt);
  dm_reschedule _ _ d := (d, Ok tt);
  dm_remove _ d := (d, Ok false);
|}.

Record Sim (S : Type) := {
  daemon : S;
  shadow : Shadow;
  sim_now : Z;
  live : option string;
  stale : list string;
}.
Arguments daemon {S}.
Arguments shadow {S}.
Arguments sim_now {S}.
Arguments live {S}.
Arguments stale {S}.

Definition NEVER_ISSUED : string := "lg1.req.NEVER-ISSUED".

Section Harness.
Context `{DataEncoding, PrincipalKeys} {W D V : Type}.
Context `{!ChannelDriver W, !DeadmanControl D, !ProofVerifier V}.
Context (env : Env) (cfg : Config).
(** The private key of each of the cast. *)
Context (key_text : Actor -> string).
Local Abbreviation Sys' := (Sys W D V).

(** [sign]; [None] is one of its [expect]s. *)
Definition sign (actor : Actor) (challenge : string) : option string :=
  match private_from_openssh (key_text actor) with
  | Err _ => None
  | Ok key =>
      match private_sign key APPROVAL_NAMESPACE (as_bytes challenge) with
      | Err _ => None
      | Ok sig => match sshsig_to_pem sig with Ok pem => Some pem | Err _ => None end
      end
  end.

(** A request to the daemon; its failure is the complaint. *)
Definition ask (op : Op) (now : Z) (d : Sys') : Sys' * result (Fault Complaint) (Response Refusal) :=
  let '(d', r) := Lifecycle.dispatch env cfg op (Clock.from_secs now) d in
  (d', match r with
       | Ok r => Ok r
       | Err (Refused e) => Err (Refused (DaemonFatal e))
       | Err Panic => Err Panic
       | Err OutOfFuel => Err OutOfFuel
       end).

Definition last_stale (l : list string) : option string := last l.

(** The action against the daemon: what it becomes, what it answered, the
    live challenge and the superseded ones, and the time after. *)
Definition act (s : Sim Sys') (action : Action)
    : result (Fault Complaint) (Sys' * option (Response Refusal) * (option string * list string) * Z) :=
  let same d r := Ok (d, r, (live s, stale s), sim_now s) in
  match action with
  | AOpen profile ttl_ix =>
      match TTLS !! ttl_ix with
      | None => Err Panic
      | Some (text, _) =>
          let '(d, r) := ask (OOpen HOST text (Some (profile_id profile))) (sim_now s) (daemon s) in
          let? r := r in
          match rs_result r, rs_pending r with
          | RsOk, Some p =>
              Ok (d, Some r,
                  (Some (pc_challenge p),
                   match live s with Some old => stale s ++ [old] | None => stale s end), sim_now s)
          | _, _ => same d (Some r)
          end
      end
  | AApprove actor proof =>
      let challenge := match proof with
                       | Fresh => default NEVER_ISSUED (live s)
                       | Stale => default NEVER_ISSUED (last_stale (stale s))
                       end in
      match sign actor challenge with
      | None => Err Panic
      | Some token =>
          let '(d, r) := ask (OApprove HOST token) (sim_now s) (daemon s) in
          let? r := r in same d (Some r)
      end
  | ARenew ttl_ix =>
      match TTLS !! ttl_ix with
      | None => Err Panic
      | Some (text, _) =>
          let '(d, r) := ask (ORenew HOST text) (sim_now s) (daemon s) in
          let? r := r in same d (Some r)
      end
  | AClose =>
      let '(d, r) := ask (OClose HOST) (sim_now s) (daemon s) in
      let? r := r in same d (Some r)
  | AAdvance secs => Ok (daemon s, None, (live s, stale s), sim_now s + secs)
  | APass =>
      match pass env cfg (Clock.from_secs (sim_now s)) (daemon s) with
      | (d, Ok _) => same d None
      | (_, Err (Refused e)) => Err (Refused (DaemonFatal e))
      | (_, Err Panic) => Err Panic
      | (_, Err OutOfFuel) => Err OutOfFuel
      end
  end.

(** [Sim::step]: the action, the check of its answer, the shadow's move, and
    the check of what [status] then shows. *)
Definition step (s : Sim Sys') (action : Action) : result (Fault Complaint) (Sim Sys') :=
  let? out := act s action in
  let '(d, response, chals, now) := out in
  let? _ := match response with
            | Some r => map_err Refused (check_result action r (shadow s) now)
            | None => Ok tt
            end in
  let sh := advance_shadow (shadow s) action now in
  let '(d, r) := ask OStatus now d in
  let? r := r in
  let? _ := map_err Refused (check_observation (default [] (rs_grants r)) sh now) in
  Ok {| daemon := d; shadow := sh; sim_now := now; live := chals.1; stale := chals.2 |}.

(** [replay]: the first complaint with its index. *)
Fixpoint replay_from (i : nat) (s : Sim Sys') (actions : list Action)
    : result (nat * Fault Complaint) (Sim Sys') :=
  match actions with
  | [] => Ok s
  | action :: rest =>
      match step s action with
      | Ok s => replay_from (S i) s rest
      | Err e => Err (i, e)
      end
  end.
End Harness.

(** [Sim::new]: the configuration, with the policy its [expect]s build, and
    the first state of the harness. *)
Section New.
Context `{DataEncoding, FactorCrypto}.

Definition sim_config (alice_pub bob_pub : string) : Config :=
  let spec := sim_spec alice_pub bob_pub in
  {| inventory := sim_inventory spec;
     approval_window := Clock.from_secs APPROVAL_WINDOW_SECS;
     approval_policy := match from_spec spec with Ok model => Some model | Err _ => None end |}.

Definition sim_secrets : Secrets :=
  {| totp_secrets := ∅; password_hashes := ∅; hmac_secrets := ∅ |}.

Definition sim_new : Sim (Sys Scripts unit Ledgers) := {|
  daemon := {|
    store := None;
    drivers := {| registered := {[Ssh]};
                  world := {| fail_apply := ∅; fail_revert := ∅; opened := ∅ |}; seen := [] |};
    deadman := tt;
    proofs := {| totp_file := Absent; counters_file := Absent; attempts := 0 |};
    journal := []; io := 0; past := [];
  |};
  shadow := ShClosed; sim_now := 1000000; live := None; stale := [];
|}.
End New.

(** [replay] on a fresh daemon and shadow. *)
Definition replay `{DataEncoding, PrincipalKeys} (env : Env) (ledger_ok : nat -> bool)
    (key_text : Actor -> string) (alice_pub bob_pub : string) (actions : list Action)
    : result (nat * Fault Complaint) (Sim (Sys Scripts unit Ledgers)) :=
  replay_from (ProofVerifier0 := DaemonProofs ledger_ok sim_secrets) env (sim_config alice_pub bob_pub) key_text
    0 sim_new actions.

(** ** Seeded generation *)

Definition wrap64 (z : Z) : Z := z mod 2 ^ 64.

(** [Rng::next] (SplitMix64) and [Rng::below]. *)
Definition rng_next (r : Z) : Z * Z :=
  let r := wrap64 (r + 0x9E3779B97F4A7C15) in
  let z := r in
  let z := wrap64 (Z.lxor z (Z.shiftr z 30) * 0xBF58476D1CE4E5B9) in
  let z := wrap64 (Z.lxor z (Z.shiftr z 27) * 0x94D049BB133111EB) in
  (r, Z.lxor z (Z.shiftr z 31)).
Definition below (r n : Z) : Z * Z := let '(r, z) := rng_next r in (r, z mod n).

Definition ADVANCES : list Z :=
  [1; 5; 29; 30; 31; 89; 90; 91; 299; 300; 301; 899; 3600; 7200; 14400].

Definition gen_action (r : Z) : Z * Action :=
  let '(r, k) := below r 100 in
  if k <=? 17 then
    let '(r, p) := below r 3 in
    let '(r, t) := below r 4 in
    (r, AOpen (if p =? 0 then Solo else if p =? 1 then Duo else Timed) (Z.to_nat t))
  else if k <=? 52 then
    let '(r, a) := below r 10 in
    let '(r, q) := below r 5 in
    (r, AApprove (if a <=? 4 then Alice else if a <=? 7 then Bob else Charlie)
          (if q =? 0 then Stale else Fresh))
  else if k <=? 62 then let '(r, t) := below r 4 in (r, ARenew (Z.to_nat t))
  else if k <=? 72 then (r, AClose)
  else if k <=? 89 then
    let '(r, i) := below r 15 in (r, AAdvance (nth (Z.to_nat i) ADVANCES 0))
  else (r, APass).

Fixpoint gen_actions (n : nat) (r : Z) : list Action :=
  match n with
  | O => []
  | S n => let '(r, a) := gen_action r in a :: gen_actions n r
  end.

Definition FIXED_SEEDS : list Z :=
  [0x0FA11B0C5EED0001; 0x0FA11B0C5EED0002; 0xDEADBEEF00000003; 0x5EED5EED5EED0004].

(** ** The shrinker *)

Section Shrink.
(** [replay]: the complaint of a sequence, if it has one. *)
Context {A C : Type} (complains : list A -> option C).

(** [candidate.drain(i..end)]. *)
Definition without_chunk (actions : list A) (i chunk : nat) : list A :=
  take i actions ++ drop (Nat.min (i + chunk) (length actions)) actions.

(** The loop over the chunks of one round; [attempts] counts the replays. *)
Fixpoint shrink_round (fuel : nat) (chunk i attempts : nat) (shrunk : bool) (actions : list A) (c : C)
    : list A * C * nat * bool :=
  match fuel with
  | O => (actions, c, attempts, shrunk)
  | S fuel =>
      if negb (i <? length actions)%nat then (actions, c, attempts, shrunk)
      else
        let candidate := without_chunk actions i chunk in
        let attempts := S attempts in
        let '(actions, c, i, shrunk) :=
          match complains candidate with
          | Some c' => (candidate, c', i, true)
          | None => (actions, c, (i + chunk)%nat, shrunk)
          end in
        if (500 <=? attempts)%nat then (actions, c, attempts, shrunk)
        else shrink_round fuel chunk i attempts shrunk actions c
  end.

(** The outer loop: the same size again after a round that shrank, half of it
    after one that did not. *)
Fixpoint shrink_rounds (fuel : nat) (chunk attempts : nat) (actions : list A) (c : C) : list A * C :=
  match fuel with
  | O => (actions, c)
  | S fuel =>
      if negb ((1 <=? chunk)%nat && (attempts <? 500)%nat) then (actions, c)
      else
        let '(actions, c, attempts, shrunk) := shrink_round 500 chunk 0 attempts false actions c in
        if shrunk then shrink_rounds fuel chunk attempts actions c
        else if Nat.eqb chunk 1 then (actions, c)
        else shrink_rounds fuel (Nat.max (chunk / 2) 1) attempts actions c
  end.

(** [None] is the [unreachable!] on a sequence that does not fail. *)
Definition shrink (actions : list A) : option (list A * C) :=
  match complains actions with
  | None => None
  | Some c =>
      Some (shrink_rounds (501 + length actions) (Nat.max ((length actions + 1) / 2) 1) 0 actions c)
  end.

Lemma without_chunk_sublist l i chunk : without_chunk l i chunk `sublist_of` l.
Proof.
  unfold without_chunk. transitivity (take i l ++ drop i l); [|by rewrite take_drop]. apply sublist_app; [done|].
  destruct (decide (i <= Nat.min (i + chunk) (length l))%nat) as [Hle|Hgt].
  - replace (Nat.min (i + chunk) (length l)) with (i + (Nat.min (i + chunk) (length l) - i))%nat by lia.
    rewrite <-drop_drop. apply sublist_drop.
  - rewrite drop_ge by lia. apply sublist_nil_l.
Qed.

Lemma shrink_round_reproduces fuel chunk : forall i attempts shrunk l c l' c' attempts' shrunk',
  complains l = Some c -> shrink_round fuel chunk i attempts shrunk l c = (l', c', attempts', shrunk') ->
  complains l' = Some c' /\ l' `sublist_of` l.
Proof.
  induction fuel as [|fuel IH]; intros i attempts shrunk l c l' c' attempts' shrunk' Hc E; cbn in E;
    [by simplify_eq|].
  destruct (negb _); [by simplify_eq|].
  destruct (complains (without_chunk l i chunk)) as [c1|] eqn:E1; cbn in E.
  - assert (Hs := without_chunk_sublist l i chunk). case_match; [by simplify_eq|].
    destruct (IH _ _ _ _ _ _ _ _ _ E1 E) as [? ?]. split; [done|]. by etrans.
  - case_match; [by simplify_eq|]. by eapply IH.
Qed.

Lemma shrink_rounds_reproduces fuel : forall chunk attempts l c l' c',
  complains l = Some c -> shrink_rounds fuel chunk attempts l c = (l', c') ->
  complains l' = Some c' /\ l' `sublist_of` l.
Proof.
  induction fuel as [|fuel IH]; intros chunk attempts l c l' c' Hc E;
    cbn [shrink_rounds] in E; [by simplify_eq|].
  destruct (negb _); [by simplify_eq|].
  destruct (shrink_round _ _ _ _ _ _ _) as [[[l1 c1] attempts1] shrunk] eqn:E1.
  destruct (shrink_round_reproduces _ _ _ _ _ _ _ _ _ _ _ Hc E1) as [Hc1 Hs1].
  assert (Hrec : forall ch, shrink_rounds fuel ch attempts1 l1 c1 = (l', c') ->
            complains l' = Some c' /\ l' `sublist_of` l).
  { intros ch E'. destruct (IH _ _ _ _ _ _ Hc1 E'). split; [done|]. by etrans. }
  destruct shrunk; [by eapply Hrec|]. destruct (Nat.eqb chunk 1); [by simplify_eq|by eapply Hrec].
Qed.

(** What the shrinker prints is a subsequence of the failing sequence that
    fails itself, with the complaint it fails with. *)
Lemma shrink_reproduces actions l c :
  shrink actions = Some (l, c) -> complains l = Some c /\ l `sublist_of` actions.
Proof.
  unfold shrink. destruct (complains actions) as [c0|] eqn:E; [|done]. intros E'%(inj Some).
  exact (shrink_rounds_reproduces _ _ _ _ _ _ _ E E').
Qed.
End Shrink.
