(* ===== verification/SteadyDaemon.v ===== *)
(** * SteadyDaemon: the handlers of a daemon whose I/O and drivers work

    The daemon of the simulated users (daemon/src/sim.rs): one host, a driver
    that succeeds, a dead-man that succeeds, a disk that answers.  On such a
    daemon a handler is a function of the host's grant: a small logic of runs
    from grant to grant, and what every handler answers and leaves in it. *)

From stdpp Require Import relations.
From S2P Require Import Prelude Text Clock Ttl External Approval Authority Inventory Channel ScriptedDrivers Grant GrantProps Registry Snapshot Proto Factors Ledgers Daemon Proofs Lifecycle Shadow.
#[local] Open Scope Z_scope.

(** The registry of the one host. *)
Definition only (g : Grant) : GrantRegistry := {[HOST := g]}.

Lemma btree_iter_only g : btree_iter (only g) = [(HOST, g)].
Proof.
  apply Permutation_singleton_r. rewrite btree_iter_Permutation. unfold only. by rewrite map_to_list_singleton.
Qed.

Lemma only_fmap (f : string -> Grant -> Grant) g (r : GrantRegistry) :
  (forall k, r !! k = f k <$> only g !! k) -> r = only (f HOST g).
Proof.
  intros Hl. apply map_eq. intros k. rewrite Hl. unfold only. destruct (decide (HOST = k)) as [<-|Hk].
  - by rewrite !lookup_singleton_eq.
  - by rewrite !lookup_singleton_ne by exact Hk.
Qed.

(** A grant that the state file keeps as it is. *)
Definition good (g : Grant) : Prop :=
  typed g /\ storable g /\ on_clock g /\ trunc_grant g = g.

Lemma good_finished o e cs : good (Opening o e cs) -> good (Open o e cs).
Proof. intros (? & ? & ? & Ht). cbn in Ht. split_and!; try done. cbn. congruence. Qed.

Lemma good_reverting cs now :
  0 <= now < CLOCK_END -> trunc now = now -> good (NeedsRevert cs now).
Proof. intros ? Ht. split_and!; try done. cbn. congruence. Qed.

Lemma good_closed : good Closed.
Proof. done. Qed.

Section Steady.
Context `{DataEncodingLaws, ApprovalKeys} {V : Type} `{!ProofVerifier V}.
Context (env : Env) (cfg : Config).
Context (Hio : forall n, io_ok env n = true).
Context (Hhosts : hosts (inventory cfg) = [sim_host]).

Local Abbreviation Sys' := (Sys Scripts unit V).
Local Abbreviation M' := (Daemon.M (W := Scripts) (D := unit) (V := V)).

(** The daemon stands with the grant [g] on disk. *)
Record stands (g : Grant) (s : Sys') : Prop := {
  stands_file : read_file (store s) = Ok (snapshot (only g));
  stands_good : good g;
  stands_driver : registered (drivers s) = {[Ssh]};
  stands_apply : fail_apply (world (drivers s)) = ∅;
  stands_revert : fail_revert (world (drivers s)) = ∅;
}.

(** From a daemon standing with [g], [m] returns, with [Q] of its value, the
    grant left and the attempts made. *)
Definition runs {A} (g : Grant) (m : M' A) (Q : A -> Grant -> Prop) : Prop :=
  forall s, stands g s -> exists s' a g', m s = (s', Ok a) /\ stands g' s' /\ Q a g'.

(** [m] answers [a] and leaves the grant [g']. *)
Definition gives {A} (g : Grant) (m : M' A) (a : A) (g' : Grant) : Prop :=
  runs g m (fun a1 g1 => a1 = a /\ g1 = g').

Lemma runs_ret {A} g (a : A) (Q : A -> Grant -> Prop) : Q a g -> runs g (ret a) Q.
Proof. intros HQ s Hs. exists s, a, g. eauto. Qed.

Lemma gives_ret {A} g (a : A) : gives g (ret a) a g.
Proof. by apply runs_ret. Qed.

Lemma runs_bind {A B} g (m : M' A) (k : A -> M' B) Q R :
  runs g m Q -> (forall a g', Q a g' -> runs g' (k a) R) -> runs g (bind m k) R.
Proof.
  intros Hm Hk s Hs. destruct (Hm s Hs) as (s1 & a & g1 & E & Hs1 & HQ).
  destruct (Hk a g1 HQ s1 Hs1) as (s2 & b & g2 & E' & Hs2 & HR).
  exists s2, b, g2. unfold bind. by rewrite E.
Qed.

Lemma runs_gives {A B} g (m : M' A) (k : A -> M' B) a g' R :
  gives g m a g' -> runs g' (k a) R -> runs g (bind m k) R.
Proof. intros Hm Hk. eapply runs_bind; [apply Hm|]. by intros ?? [-> ->]. Qed.

Lemma gives_bind {A B} g (m : M' A) (k : A -> M' B) a g' b g'' :
  gives g m a g' -> gives g' (k a) b g'' -> gives g (bind m k) b g''.
Proof. intros Hm Hk. by eapply runs_gives. Qed.

(** ** The store *)

Lemma reg_of_inventory g : of_inventory (inventory cfg) (only g).
Proof.
  intros h. rewrite Hhosts. unfold only. rewrite lookup_singleton_is_Some. cbn [fmap list_fmap].
  rewrite list_elem_of_singleton. done.
Qed.

Lemma only_all (P : Grant -> Prop) g : P g -> forall h g', only g !! h = Some g' -> P g'.
Proof. unfold only. by intros HP h g' [_ <-]%lookup_singleton_Some. Qed.

Lemma validate_only g : good g -> validate cfg (snapshot (only g)) = Ok (only g).
Proof.
  intros (Ht & Hs & _). unfold validate. rewrite from_parts_snapshot; [done|apply reg_of_inventory|].
  by apply only_all.
Qed.

Lemma read_file_only g : good g -> read_file (Some (snapshot (only g))) = Ok (snapshot (only g)).
Proof.
  intros (_ & _ & Hc & Ht). unfold read_file. rewrite reread_snapshot by (by apply only_all).
  unfold only. rewrite map_fmap_singleton, Ht.
  by rewrite bool_decide_eq_true_2 by (unfold READABLE; cbn [version snapshot]; set_solver).
Qed.

Lemma gives_io g : gives g (attempt_io env) tt g.
Proof.
  intros s []. eexists _, _, g. unfold attempt_io. rewrite Hio. split; [done|].
  split; [|done]. by split.
Qed.

Lemma gives_log g now event : gives g (log env now event) tt g.
Proof.
  eapply gives_bind; [apply gives_io|]. intros s []. eexists _, _, g. split; [done|].
  split; [|done]. by split.
Qed.

Lemma gives_read g : gives g (store_read env) (snapshot (only g)) g.
Proof.
  eapply gives_bind; [apply gives_io|]. intros s Hs. exists s, (snapshot (only g)), g.
  rewrite (stands_file _ _ Hs). split; [done|]. by split_and!.
Qed.

Lemma gives_write g g' : good g' -> gives g (store_write env (snapshot (only g'))) tt g'.
Proof.
  intros Hg. eapply gives_bind; [apply gives_io|]. intros s []. eexists _, _, g'.
  split; [done|]. split; [|done]. split; try done. by apply read_file_only.
Qed.

Lemma gives_mutate {A} g (f : StateDoc -> result (Fault Fatal) (StateDoc * A)) a g' :
  good g' -> f (snapshot (only g)) = Ok (snapshot (only g'), a) -> gives g (mutate env f) a g'.
Proof.
  intros Hg Hf. eapply gives_bind; [apply gives_io|]. eapply gives_bind; [apply gives_read|].
  rewrite Hf. eapply gives_bind; [by apply gives_write|]. apply gives_ret.
Qed.

Lemma good_stands g s : stands g s -> good g.
Proof. by intros []. Qed.

Lemma runs_good {A} g (m : M' A) Q : (good g -> runs g m Q) -> runs g m Q.
Proof. intros Hm s Hs. apply Hm; [|done]. by eapply good_stands. Qed.

Lemma gives_good {A} g (m : M' A) a g' : (good g -> gives g m a g') -> gives g m a g'.
Proof. intros Hm. by apply runs_good. Qed.

Lemma gives_registry g : gives g (Lifecycle.read_registry env cfg) (only g) g.
Proof.
  apply gives_good. intros Hg. eapply gives_bind; [apply gives_read|].
  rewrite validate_only by done. apply gives_ret.
Qed.

Lemma grant_mut_only {A} g (op : Grant -> Grant * result GrantError A) :
  grant_mut (only g) HOST op = (only (op g).1, map_err EGrant (op g).2).
Proof.
  unfold grant_mut, only. rewrite lookup_singleton_eq. by rewrite insert_singleton_eq.
Qed.

(** A committed operation of the registry is the grant's operation. *)
Lemma gives_with {A} g (op : Grant -> Grant * result GrantError A) g' a :
  op g = (g', Ok a) -> good g' ->
  gives g (Lifecycle.with_registry env cfg (fun r => grant_mut r HOST op)) (Ok a) g'.
Proof.
  intros Hop Hg. apply gives_good. intros Hg0. apply gives_mutate; [done|].
  rewrite validate_only by done. rewrite grant_mut_only, Hop. done.
Qed.

Lemma gives_with_err {A} g (op : Grant -> Grant * result GrantError A) g' e :
  op g = (g', Err e) ->
  gives g (Lifecycle.with_registry env cfg (fun r => grant_mut r HOST op)) (Err (EGrant e)) g.
Proof.
  intros Hop. apply gives_good. intros Hg0. apply gives_mutate; [done|].
  rewrite validate_only by done. rewrite grant_mut_only, Hop. done.
Qed.

Lemma gives_with_read {A} g (op : GrantRegistry -> result RegistryError A) :
  gives g (Lifecycle.with_read_registry env cfg op) (op (only g)) g.
Proof. eapply gives_bind; [apply gives_registry|]. apply gives_ret. Qed.

(** ** The drivers *)

Lemma gives_drivers {A} g (f : DriverSet Scripts -> option (DriverSet Scripts * A)) a :
  (forall ds, registered ds = {[Ssh]} -> fail_apply (world ds) = ∅ -> fail_revert (world ds) = ∅ ->
     exists ds', f ds = Some (ds', a) /\ registered ds' = {[Ssh]} /\ fail_apply (world ds') = ∅
       /\ fail_revert (world ds') = ∅) ->
  gives g (with_drivers f) a g.
Proof.
  intros Hf s []. unfold with_drivers.
  destruct (Hf {| registered := registered (drivers s); world := world (drivers s); seen := [] |})
    as (ds & E & Hr & Ha & Hv); [done..|].
  rewrite E. eexists _, _, g. split; [done|]. split; [|done]. by split.
Qed.

Lemma gives_deadman {A} g (f : unit -> unit * A) a : f tt = (tt, a) -> gives g (with_deadman f) a g.
Proof.
  intros Hf s []. unfold with_deadman. destruct (deadman s). rewrite Hf.
  eexists _, _, g. split; [done|]. split; [|done]. by split.
Qed.

Ltac drive := apply gives_drivers; intros ds Hr Ha Hv;
  repeat (cbn; try unfold revert_channels; try unfold take_secret; rewrite ?Hr, ?Ha, ?Hv;
          rewrite ?(bool_decide_eq_true_2 (Ssh ∈ {[Ssh]})), ?(bool_decide_eq_false_2 (Ssh ∈ ∅)) by set_solver).

Lemma gives_drivable g : gives g (with_drivers (fun ds => Some (ds, drivable ds [Ssh]))) [Ssh] g.
Proof. drive. eauto. Qed.

Lemma gives_apply g ctx :
  gives g (with_drivers (fun ds => apply_channels ds sim_host [Ssh] ctx)) (Applied [Ssh]) g.
Proof. drive. eexists. split; [done|]. done. Qed.

Lemma gives_revert g :
  gives g (with_drivers (fun ds => Some (revert_channels ds sim_host [Ssh]))) Reverted g.
Proof. drive. eexists. split; [done|]. done. Qed.

Lemma gives_renew_channels g ctx :
  gives g (with_drivers (fun ds => Some (renew_channels ds sim_host [Ssh] ctx))) (Ok tt) g.
Proof. drive. eexists. split; [done|]. done. Qed.

Lemma gives_secret g : gives g (with_drivers (fun ds => Some (first_secret ds [Ssh]))) None g.
Proof. drive. eexists. split; [done|]. done. Qed.

(** ** The handlers *)

Definition answers (g : Grant) (m : M' (Response Refusal)) (g' : Grant) : Prop :=
  runs g m (fun r g1 => rs_result r = RsOk /\ g1 = g').

Definition refuses (g : Grant) (m : M' (Response Refusal)) : Prop :=
  runs g m (fun r g1 => rs_result r = RsRefused /\ g1 = g).

Lemma answers_bind {A} g (m : M' A) k a g' g'' :
  gives g m a g' -> answers g' (k a) g'' -> answers g (bind m k) g''.
Proof. intros Hm Hk. by eapply runs_gives. Qed.

Lemma refuses_bind {A} g (m : M' A) k a :
  gives g m a g -> refuses g (k a) -> refuses g (bind m k).
Proof. intros Hm Hk. by eapply runs_gives. Qed.

Lemma answers_ret g (r : Response Refusal) : rs_result r = RsOk -> answers g (ret r) g.
Proof. intros Hr. by apply runs_ret. Qed.

Lemma refuses_ret g e : refuses g (ret (refused e)).
Proof. by apply runs_ret. Qed.

Lemma host_of_only : host_of cfg HOST = Some sim_host.
Proof. unfold host_of. by rewrite Hhosts. Qed.

Lemma declared_only : declared cfg HOST = [Ssh].
Proof. unfold declared. by rewrite host_of_only. Qed.

(** *** The pending to open tail *)

Lemma finish_drive_answers o e cs ttl_secs expires now :
  good (Opening o e cs) ->
  answers (Opening o e cs) (finish_drive env cfg HOST sim_host [Ssh] [Ssh] ttl_secs expires now)
    (Open o e cs).
Proof.
  intros Hg. eapply answers_bind; [apply (gives_with _ Grant.finish_open (Open o e cs)); auto using good_finished|].
  eapply answers_bind; [apply gives_ret|]. eapply answers_bind; [apply gives_log|].
  eapply answers_bind; [apply gives_secret|]. by apply answers_ret.
Qed.

Lemma drive_open_answers o e cs ttl_secs expires now :
  good (Opening o e cs) ->
  answers (Opening o e cs) (drive_open env cfg HOST sim_host [Ssh] [Ssh] ttl_secs expires now)
    (Open o e cs).
Proof.
  intros Hg. eapply answers_bind; [apply gives_apply|]. cbn iota.
  eapply answers_bind; [by apply gives_deadman|]. by apply finish_drive_answers.
Qed.

Lemma open_pending_answers r d ttl nonce p sat requested now :
  Grant.status (Pending r d ttl nonce p sat) now = StAwaitingApproval (d - now) ->
  now + duration ttl < CLOCK_END -> good (Opening now (now + duration ttl) [Ssh]) ->
  answers (Pending r d ttl nonce p sat) (open_pending_now env cfg HOST sim_host requested now)
    (Open now (now + duration ttl) [Ssh]).
Proof.
  intros Hs Hend Hg. unfold open_pending_now. rewrite declared_only.
  eapply answers_bind; [apply gives_drivable|].
  eapply answers_bind.
  { apply (gives_with _ (fun g => Grant.approve_to_opening g now [Ssh])); [|exact Hg].
    unfold Grant.approve_to_opening. rewrite Hs.
    by rewrite (proj2 (checked_add_Some _ _ (now + duration ttl))). }
  eapply answers_bind; [apply gives_log|]. by apply drive_open_answers.
Qed.

(** *** close *)

Lemma drive_revert_gives since now :
  gives (NeedsRevert [Ssh] since) (drive_one_revert env cfg HOST [Ssh] now) PrClosed Closed.
Proof.
  unfold drive_one_revert. rewrite host_of_only. eapply gives_bind; [apply gives_ret|].
  eapply gives_bind; [apply gives_revert|]. cbn iota.
  eapply gives_bind; [by apply gives_deadman|]. cbn iota.
  eapply gives_bind; [by apply (gives_with _ Grant.finish_revert Closed)|]. cbn iota.
  eapply gives_bind; [apply gives_log|]. apply gives_ret.
Qed.

Lemma close_pending_answers r d ttl nonce p sat now :
  answers (Pending r d ttl nonce p sat) (close env cfg HOST now) Closed.
Proof.
  eapply answers_bind; [apply gives_registry|].
  assert (Hs : Registry.status (only (Pending r d ttl nonce p sat)) HOST now
               = Ok (Grant.status (Pending r d ttl nonce p sat) now)).
  { unfold Registry.status, only. by rewrite lookup_singleton_eq. }
  rewrite Hs. destruct (Grant.status _ now) eqn:E; try (cbn in E; repeat case_hyp E; done);
    (eapply answers_bind; [by apply (gives_with _ Grant.cancel_pending Closed)|];
     eapply answers_bind; [apply gives_ret|]; eapply answers_bind; [apply gives_log|];
     by apply answers_ret).
Qed.

Lemma close_open_answers o e now :
  0 <= now < CLOCK_END -> trunc now = now ->
  answers (Open o e [Ssh]) (close env cfg HOST now) Closed.
Proof.
  intros Hn Ht. eapply answers_bind; [apply gives_registry|].
  assert (Hs : Registry.status (only (Open o e [Ssh])) HOST now = Ok (Grant.status (Open o e [Ssh]) now)).
  { unfold Registry.status, only. by rewrite lookup_singleton_eq. }
  rewrite Hs. destruct (Grant.status _ now) eqn:E; try (cbn in E; repeat case_hyp E; done);
    (eapply answers_bind;
       [apply (gives_with _ (fun g => Grant.begin_revert g now) (NeedsRevert [Ssh] now)); auto using good_reverting|];
     eapply answers_bind; [apply drive_revert_gives|]; by apply answers_ret).
Qed.

Lemma close_closed_answers now : answers Closed (close env cfg HOST now) Closed.
Proof.
  eapply answers_bind; [apply gives_registry|]. unfold Registry.status, only.
  rewrite lookup_singleton_eq. cbn [Grant.status]. cbn iota.
  eapply answers_bind; [by eapply (gives_with_err _ (fun g => Grant.begin_revert g now))|].
  by apply answers_ret.
Qed.

(** *** renew *)

Lemma renew_refuses g text now :
  (forall ttl, exists e, Grant.renew g now ttl = (g, Err e)) -> refuses g (renew env cfg HOST text now).
Proof.
  intros Hr. unfold renew. destruct (Ttl.parse text) as [ttl|e]; [|apply refuses_ret].
  eapply refuses_bind; [apply gives_registry|]. unfold Registry.renew. rewrite grant_mut_only.
  destruct (Hr ttl) as [e He]. rewrite He. apply refuses_ret.
Qed.

Lemma renew_answers o e text ttl now :
  Ttl.parse text = Ok ttl -> Grant.renew (Open o e [Ssh]) now ttl
    = (Open o (now + duration ttl) [Ssh], Ok (now + duration ttl)) ->
  Grant.status (Open o e [Ssh]) now = StOpen (e - now) ->
  good (Open o (now + duration ttl) [Ssh]) ->
  answers (Open o e [Ssh]) (renew env cfg HOST text now) (Open o (now + duration ttl) [Ssh]).
Proof.
  intros Hp Hr Hs Hg. unfold renew. rewrite Hp. eapply answers_bind; [apply gives_registry|].
  unfold Registry.renew at 1. rewrite grant_mut_only, Hr. cbn [snd map_err]. cbn iota.
  rewrite host_of_only. eapply answers_bind.
  - unfold renew_tell. cbn [is_some_config ssh sim_host]. eapply gives_bind; [by apply gives_deadman|].
    cbn iota. eapply gives_bind; [apply gives_registry|].
    replace (open_channels_of (only (Open o e [Ssh])) HOST now) with [Ssh].
    + eapply gives_bind; [apply gives_renew_channels|]. apply gives_ret.
    + unfold open_channels_of, Registry.open_channels, filter_hosts. rewrite btree_iter_only.
      cbn [omap list_omap fst snd]. by rewrite Hs.
  - cbn iota. eapply answers_bind; [by apply (gives_with _ (fun g => Grant.renew g now ttl) _ _ Hr)|].
    cbn iota. eapply answers_bind; [apply gives_log|]. by apply answers_ret.
Qed.

(** *** status *)

Lemma status_gives g now :
  gives g (dispatch env cfg OStatus now)
    (response None None (Some [status_line (HOST, Grant.status g now)]) None None None None) g.
Proof.
  unfold dispatch, dispatch_from. rewrite bool_decide_eq_false_2 by done.
  eapply gives_bind; [apply gives_ret|]. cbn iota. eapply gives_bind; [|apply gives_ret].
  eapply gives_bind; [apply gives_registry|]. unfold status_lines, statuses. rewrite btree_iter_only.
  apply gives_ret.
Qed.

(** *** open *)

Context (model : AuthorityModel) (Hpolicy : approval_policy cfg = Some model).

(** The profile is the host's, its gate is [a] and its longest wait fits the
    window. *)
Definition profile_offered (p : string) (a : Authority) : Prop :=
  resolve_authority model sim_host p = Ok a
  /\ exists w, max_wait model a = Some w /\ w < approval_window cfg.

Lemma choose_profile_gives g p a :
  profile_offered p a -> gives g (choose_profile cfg HOST sim_host (Some p)) (Ok (p, Some a)) g.
Proof.
  intros (Hr & w & Hw & Hlt). unfold choose_profile. rewrite Hpolicy. cbn iota. rewrite Hr, Hw.
  eapply gives_bind; [apply gives_ret|]. rewrite (proj2 (Z.leb_gt _ _) Hlt). apply gives_ret.
Qed.

Lemma runs_nonce g :
  runs g (generate_nonce env) (fun a g' => g' = g /\ exists k, a = urandom env k).
Proof.
  intros s []. eexists _, _, g. split; [done|]. split; [by split|]. split; [done|]. by exists (io s).
Qed.

Lemma progress_gives g a sat elapsed o :
  evaluate model a sat elapsed = Some o ->
  gives g (progress cfg (Some a) sat elapsed) (out_weight o, out_threshold o, LMissing <$> missing o) g.
Proof.
  intros He. unfold progress. rewrite Hpolicy, He. eapply gives_bind; [apply gives_ret|]. apply gives_ret.
Qed.

Lemma open_refuses g text ttl p a now :
  Ttl.parse text = Ok ttl -> profile_offered p a -> now + approval_window cfg < CLOCK_END ->
  Grant.status g now <> StClosed -> refuses g (open env cfg HOST text (Some p) now).
Proof.
  intros Hp Ha Hend Hs. unfold open. rewrite Hp, host_of_only.
  eapply runs_gives; [by apply choose_profile_gives|]. cbn iota.
  rewrite (proj2 (checked_add_Some _ _ (now + approval_window cfg))) by done.
  eapply runs_bind; [apply runs_nonce|]. intros nonce ? (-> & _).
  assert (He : exists e, Grant.begin_pending g now (now + approval_window cfg) ttl nonce p = (g, Err e)).
  { unfold Grant.begin_pending. destruct (Grant.status g now); eauto. done. }
  destruct He as [e He].
  eapply runs_gives; [by eapply (gives_with_err _
    (fun g => Grant.begin_pending g now (now + approval_window cfg) ttl nonce p))|].
  by apply runs_ret.
Qed.

Lemma open_runs text ttl p a now o :
  Ttl.parse text = Ok ttl -> profile_offered p a -> now + approval_window cfg < CLOCK_END ->
  (forall k, good (Pending now (now + approval_window cfg) ttl (urandom env k) p ∅)) ->
  evaluate model a ∅ 0 = Some o ->
  runs Closed (open env cfg HOST text (Some p) now) (fun r g' =>
    exists k, g' = Pending now (now + approval_window cfg) ttl (urandom env k) p ∅
      /\ rs_result r = RsOk
      /\ pc_challenge <$> rs_pending r
         = Some (challenge_string (Approval.new (urandom env k) HOST (as_secs (duration ttl)) now))).
Proof.
  intros Hp Ha Hend Hg Ho. unfold open. rewrite Hp, host_of_only.
  eapply runs_gives; [by apply choose_profile_gives|]. cbn iota.
  rewrite (proj2 (checked_add_Some _ _ (now + approval_window cfg))) by done.
  eapply runs_bind; [apply runs_nonce|]. intros nonce ? (-> & k & ->).
  eapply runs_gives; [by apply (gives_with _
    (fun g => Grant.begin_pending g now (now + approval_window cfg) ttl (urandom env k) p)
    (Pending now (now + approval_window cfg) ttl (urandom env k) p ∅) tt)|].
  cbn iota. eapply runs_gives; [apply gives_log|].
  eapply runs_gives; [by apply progress_gives|]. apply runs_ret. by exists k.
Qed.

(** *** approve *)

Lemma approve_refuses_idle g token now :
  (exists e, Grant.pending_request g HOST now = Err e) -> refuses g (approve env cfg HOST token now).
Proof.
  intros [e He]. eapply refuses_bind; [apply gives_registry|]. unfold Registry.pending, only.
  rewrite lookup_singleton_eq, He. apply refuses_ret.
Qed.

Lemma gives_proofs {A} g (f : V -> V * result Fatal A) a :
  (forall v, exists v', f v = (v', Ok a)) -> gives g (with_proofs f) a g.
Proof.
  intros Hf s []. unfold with_proofs. destruct (Hf (proofs s)) as [v' E]. rewrite E.
  eexists _, _, g. split; [done|]. split; [|done]. by split.
Qed.

Lemma pending_only g req now :
  Grant.pending_request g HOST now = Ok req -> Registry.pending (only g) HOST now = Ok req.
Proof. intros Hq. unfold Registry.pending, only. by rewrite lookup_singleton_eq, Hq. Qed.

Lemma approve_refuses_proof g req token now e :
  Grant.pending_request g HOST now = Ok req ->
  (forall v, exists v', verify_proof model req token now v = (v', Ok (Err e))) ->
  refuses g (approve env cfg HOST token now).
Proof.
  intros Hq Hv. eapply refuses_bind; [apply gives_registry|]. rewrite (pending_only _ _ _ Hq).
  rewrite host_of_only. eapply refuses_bind; [apply gives_ret|]. rewrite Hpolicy.
  eapply refuses_bind; [by apply gives_proofs|]. cbn iota.
  eapply refuses_bind; [apply gives_log|]. apply refuses_ret.
Qed.

(** The gate of a pending grant, and the grant after the evaluation at [now]. *)
Definition evaluated (g : Grant) (o : Outcome) (ttl : Ttl) (now : SystemTime) : Grant :=
  if Authority.met o then Open now (now + duration ttl) [Ssh] else g.

Lemma view_pending r d ttl nonce p sat now :
  r <= now -> Grant.status (Pending r d ttl nonce p sat) now = StAwaitingApproval (d - now) ->
  Registry.pending_view (only (Pending r d ttl nonce p sat)) HOST now
  = Ok {| pv_profile := p; pv_satisfied := sat; pv_requested_at := r; pv_elapsed := now - r |}.
Proof.
  intros Hr Hs. unfold Registry.pending_view, only. rewrite lookup_singleton_eq.
  unfold Grant.pending_view. rewrite Hs. by rewrite duration_since_ge.
Qed.

Lemma approve_evaluate_answers r d ttl nonce p sat now a o :
  let g := Pending r d ttl nonce p sat in
  r <= now -> Grant.status g now = StAwaitingApproval (d - now) ->
  resolve_authority model sim_host p = Ok a -> evaluate model a sat (now - r) = Some o ->
  now + duration ttl < CLOCK_END -> good (Opening now (now + duration ttl) [Ssh]) ->
  answers g (approve_evaluate env cfg model HOST sim_host now) (evaluated g o ttl now).
Proof.
  cbn zeta. intros Hr Hs Ha Ho Hend Hg. unfold approve_evaluate.
  eapply answers_bind; [apply gives_with_read|]. rewrite view_pending by done. cbn [pv_profile].
  rewrite Ha. cbn [pv_satisfied pv_elapsed pv_requested_at]. rewrite Ho.
  eapply answers_bind; [apply gives_ret|]. unfold evaluated. destruct (Authority.met o).
  - by apply open_pending_answers.
  - eapply answers_bind; [|by apply answers_ret]. eapply gives_bind; [by apply progress_gives|].
    apply gives_ret.
Qed.

Lemma approve_answers r d ttl nonce p sat token id now a o :
  let g := Pending r d ttl nonce p sat in
  let g' := Pending r d ttl nonce p ({[id]} ∪ sat) in
  r <= now -> Grant.status g now = StAwaitingApproval (d - now) ->
  (forall v, exists v', verify_proof model (Approval.new nonce HOST (as_secs (duration ttl)) r) token now v
                        = (v', Ok (Ok id))) ->
  resolve_authority model sim_host p = Ok a -> evaluate model a ({[id]} ∪ sat) (now - r) = Some o ->
  now + duration ttl < CLOCK_END -> good (Opening now (now + duration ttl) [Ssh]) -> good g' ->
  answers g (approve env cfg HOST token now) (evaluated g' o ttl now).
Proof.
  cbn zeta. intros Hr Hs Hv Ha Ho Hend Hg Hg'. eapply answers_bind; [apply gives_registry|].
  erewrite pending_only by (unfold Grant.pending_request; rewrite Hs; done).
  rewrite host_of_only. eapply answers_bind; [apply gives_ret|]. rewrite Hpolicy.
  eapply answers_bind; [by apply gives_proofs|]. cbn iota.
  eapply answers_bind.
  { eapply (gives_with _ (fun g => Grant.add_satisfied g now id)); [|exact Hg'].
    unfold Grant.add_satisfied. by rewrite Hs. }
  cbn iota. eapply answers_bind; [|by eapply approve_evaluate_answers].
  destruct (negb _); [apply gives_log|apply gives_ret].
Qed.

(** *** The pass *)

Lemma reap_only g now :
  reap_to_revert (only g) now = Some (only (reaped now HOST g).1, (reaped now HOST g).2).
Proof.
  destruct (reap_to_revert_spec (only g) now) as (r' & E & Hl). rewrite E, btree_iter_only. cbn [fmap list_fmap concat].
  rewrite app_nil_r. by rewrite (only_fmap _ _ _ Hl).
Qed.

Lemma reap_pending_only g now :
  reap_expired_pending (only g) now
  = Some (only (reaped_pending now HOST g).1, (reaped_pending now HOST g).2).
Proof.
  destruct (reap_expired_pending_spec (only g) now) as (r' & E & Hl). rewrite E, btree_iter_only. cbn [fmap list_fmap concat].
  rewrite app_nil_r. by rewrite (only_fmap _ _ _ Hl).
Qed.

Lemma gives_for_each_log {A} g now (f : A -> Event) l :
  gives g (for_each (fun e => log env now (f e)) l) tt g.
Proof.
  induction l as [|x l IH]; [apply gives_ret|]. cbn [for_each].
  eapply gives_bind; [apply gives_log|]. exact IH.
Qed.

(** The grant after the two sweeps of a pass. *)
Definition swept (now : SystemTime) (g : Grant) : Grant :=
  (reaped_pending now HOST (reaped now HOST g).1).1.

Lemma pass_gives g g2 g3 now :
  good (swept now g) ->
  gives (swept now g) (for_each (fun p => drive_one_revert env cfg p.1 p.2 now ;! ret tt)
                         (needing_revert (only (swept now g)) now)) tt g2 ->
  gives g2 (for_each (mature_wait env cfg model now) (awaiting_approval (only g2) now)) tt g3 ->
  gives g (pass env cfg now) tt g3.
Proof.
  intros Hg Hrev Hwait. apply gives_good. intros Hg0. unfold pass.
  eapply gives_bind.
  { apply gives_mutate; [exact Hg|]. unfold reap_all. rewrite validate_only by done.
    rewrite reap_only, reap_pending_only. reflexivity. }
  eapply gives_bind; [apply gives_for_each_log|]. eapply gives_bind; [apply gives_for_each_log|].
  eapply gives_bind; [apply gives_registry|]. eapply gives_bind; [exact Hrev|]. rewrite Hpolicy.
  eapply gives_bind; [eapply gives_bind; [apply gives_registry|exact Hwait]|].
  eapply gives_bind; [|apply gives_ret]. eapply gives_bind; [apply gives_registry|]. apply gives_ret.
Qed.

Lemma hosts_only {B} (f : string -> Grant -> option B) g :
  filter_hosts f (only g) = match f HOST g with Some b => [b] | None => [] end.
Proof. unfold filter_hosts. rewrite btree_iter_only. cbn. by destruct (f HOST g). Qed.

Lemma gives_answers {A} g (m : M' (Response Refusal)) (a : A) g' :
  answers g m g' -> gives g (bind m (fun _ => ret a)) a g'.
Proof. intros Hm. eapply runs_bind; [apply Hm|]. intros ?? [_ ->]. by apply runs_ret. Qed.

Lemma mature_wait_gives r d ttl nonce p sat now a o1 o2 :
  let g := Pending r d ttl nonce p sat in
  r <= now -> Grant.status g now = StAwaitingApproval (d - now) ->
  resolve_authority model sim_host p = Ok a ->
  evaluate model a sat (now - r) = Some o1 -> evaluate model a sat 0 = Some o2 ->
  now + duration ttl < CLOCK_END -> good (Opening now (now + duration ttl) [Ssh]) ->
  gives g (mature_wait env cfg model now HOST) tt
    (if Authority.met o1 && negb (Authority.met o2) then Open now (now + duration ttl) [Ssh] else g).
Proof.
  cbn zeta. intros Hr Hs Ha Ho1 Ho2 Hend Hg. unfold mature_wait. rewrite host_of_only.
  eapply gives_bind; [apply gives_ret|]. eapply gives_bind; [apply gives_with_read|].
  rewrite view_pending by done. cbn [pv_profile]. rewrite Ha.
  cbn [pv_satisfied pv_elapsed pv_requested_at]. rewrite Ho1, Ho2.
  eapply gives_bind; [apply gives_ret|]. eapply gives_bind; [apply gives_ret|].
  destruct (_ && _); [|apply gives_ret]. apply gives_answers. by apply open_pending_answers.
Qed.
End Steady.
