(* ===== verification/ShadowRefines.v ===== *)
(** * ShadowRefines: the daemon never disagrees with its shadow

    The repository checks the daemon by running simulated users against it and
    a shadow model (daemon/src/sim.rs) on a few seeds.  Here the daemon of
    [Lifecycle] is shown to agree with the shadow of [Shadow] on every
    sequence of the users' actions that keeps a renewed grant within 24 hours
    of its opening: the shadow is an abstract specification, and the daemon
    implements it. *)

From stdpp Require Import relations.
From S2P Require Import Prelude Text Clock Ttl External Reference Approval Authority AuthorityProps Inventory Channel ScriptedDrivers Grant GrantProps Registry Snapshot Proto Factors Ledgers Daemon Proofs Lifecycle FrontDoor Shadow SteadyDaemon.
#[local] Open Scope Z_scope.

(** ** The policy of the cast *)

Definition actor_id (a : Actor) : string :=
  match a with Alice => "alice" | Bob => "bob" | Charlie => "charlie" end.
#[export] Instance actor_id_inj : Inj (=) (=) actor_id.
Proof. by intros [] []. Qed.

Definition same_actor (a b : Actor) : bool :=
  match a, b with Alice, Alice | Bob, Bob | Charlie, Charlie => true | _, _ => false end.

Definition one (f : Factor) : WeightedFactor := {| weight := 1; factor := f |}.

Definition gate_of (p : Profile) : Authority :=
  match p with
  | Solo => {| threshold := 1; factors := [one (Authenticator_ "alice")] |}
  | Duo => {| threshold := 2; factors := [one (Authenticator_ "alice"); one (Authenticator_ "bob")] |}
  | Timed => {| threshold := 2; factors := [one (Authenticator_ "alice"); one (Wait (Clock.from_secs 30))] |}
  end.

Section Policy.
Context `{DataEncoding, ApprovalKeys}.

Definition sim_model (alice bob : SshPublicKey) : AuthorityModel := {|
  authenticators := {["alice" := Ed25519 alice; "bob" := Ed25519 bob]};
  groups := ∅;
  profiles := {["solo" := gate_of Solo; "duo" := gate_of Duo; "timed" := gate_of Timed]};
  mcp_profiles := ∅;
|}.

Context (alice bob : SshPublicKey).

(** The policy of the sim inventory builds, as its [expect]s say. *)
Lemma sim_policy_builds alice_pub bob_pub :
  ssh_from_openssh (trim alice_pub) = Ok alice -> ssh_from_openssh (trim bob_pub) = Ok bob ->
  from_spec (sim_spec alice_pub bob_pub) = Ok (sim_model alice bob).
Proof.
  intros Ha Hb. unfold from_spec, sim_spec, sim_key. cbn [spec_authenticator spec_group spec_profile].
  assert (E : build_authenticators
     [sim_key "alice" alice_pub; sim_key "bob" bob_pub] ∅ = Ok (authenticators (sim_model alice bob))).
  { unfold sim_key. cbn [build_authenticators as_id str_is_empty]. unfold build_authenticator.
    cbn [as_kind as_public_key ok_or as_id]. rewrite Ha. cbn. rewrite Hb. by vm_compute. }
  unfold sim_key in E. rewrite E. by vm_compute.
Qed.

Lemma resolve_gate p : resolve_authority (sim_model alice bob) sim_host (profile_id p) = Ok (gate_of p).
Proof. destruct p; by vm_compute. Qed.

Lemma gate_wait p : exists w, max_wait (sim_model alice bob) (gate_of p) = Some w /\ w < Clock.from_secs 300.
Proof. destruct p; eexists; (split; [by vm_compute|by vm_compute]). Qed.

(** The daemon's weighted evaluation is the shadow's. *)
Lemma evaluate_met p (sat : gset Actor) elapsed :
  exists o, evaluate (sim_model alice bob) (gate_of p) (set_map actor_id sat) (Clock.from_secs elapsed) = Some o
    /\ Authority.met o = Shadow.met p sat elapsed.
Proof.
  assert (Hid : forall a, bool_decide (actor_id a ∈ (set_map actor_id sat : gset string)) = bool_decide (a ∈ sat)).
  { intros a. apply bool_decide_ext. rewrite elem_of_map. split.
    - by intros (b & ->%(inj actor_id) & ?).
    - eauto. }
  pose proof (Hid Alice) as Ha. pose proof (Hid Bob) as Hb. cbn [actor_id] in Ha, Hb.
  unfold evaluate. cbn [groups sim_model]. rewrite map_size_empty. cbn [evaluate_fuel].
  destruct p; cbn [gate_of factors threshold eval_factors one factor weight Shadow.met];
    rewrite ?Ha, ?Hb; unfold mbind, option_bind.
  - destruct (bool_decide (Alice ∈ sat)); by eexists.
  - destruct (bool_decide (Alice ∈ sat)), (bool_decide (Bob ∈ sat)); by eexists.
  - assert (Hw : (Clock.from_secs 30 <=? Clock.from_secs elapsed) = (WAIT_SECS <=? elapsed)).
    { unfold Clock.from_secs, NANOS_PER_SEC, WAIT_SECS. apply eq_true_iff_eq. rewrite !Z.leb_le. lia. }
    rewrite Hw. destruct (bool_decide (Alice ∈ sat)), (WAIT_SECS <=? elapsed); by eexists.
Qed.
End Policy.

(** ** The cast's signatures *)

(** What the simulation takes for granted of its keys: they parse and sign,
    the two configured lines are Alice's and Bob's, and a signature names its
    signer and is good for its message only. *)
Record cast_ok `{PrincipalKeys} (key_text : Actor -> string) (alice_pub bob_pub : string)
    (key : Actor -> PrivateKey) : Prop := {
  cast_parses a : private_from_openssh (key_text a) = Ok (key a);
  cast_signs a msg : Forall is_u8 msg -> exists sig pem, private_sign (key a) APPROVAL_NAMESPACE msg = Ok sig
                                     /\ sshsig_to_pem sig = Ok pem;
  cast_alice : ssh_from_openssh (trim alice_pub) = Ok (public_key_of (key Alice));
  cast_bob : ssh_from_openssh (trim bob_pub) = Ok (public_key_of (key Bob));
  cast_distinct a b msg sig :
    private_sign (key a) APPROVAL_NAMESPACE msg = Ok sig ->
    sshsig_signer (public_key_of (key b)) sig = true -> a = b;
  cast_binds a msg msg' sig :
    Forall is_u8 msg -> Forall is_u8 msg' -> private_sign (key a) APPROVAL_NAMESPACE msg = Ok sig ->
    sshsig_verify (public_key_of (key a)) APPROVAL_NAMESPACE msg' sig = true -> msg' = msg;
}.

Section Cast.
Context `{DataEncoding, PrincipalKeys, !PrincipalKeysLaws}.
Context (key_text : Actor -> string) (alice_pub bob_pub : string) (key : Actor -> PrivateKey).
Context (Hcast : cast_ok key_text alice_pub bob_pub key).
Context (ledger_ok : nat -> bool) (sec : Secrets).

Definition cast_model : AuthorityModel := sim_model (public_key_of (key Alice)) (public_key_of (key Bob)).

Lemma sign_total a challenge : exists token, sign key_text a challenge = Some token.
Proof.
  destruct (cast_signs _ _ _ _ Hcast a (as_bytes challenge) (as_bytes_u8 _)) as (sig & pem & Es & Ep).
  exists pem. unfold sign. by rewrite (cast_parses _ _ _ _ Hcast), Es, Ep.
Qed.

Lemma cast_candidates (f : Authenticator -> option SshPublicKey) :
  of_kind f cast_model
  = omap (fun p => pair p.1 <$> f p.2)
      [("alice", Ed25519 (public_key_of (key Alice))); ("bob", Ed25519 (public_key_of (key Bob)))].
Proof.
  unfold of_kind.
  replace (btree_iter (authenticators cast_model))
    with [("alice", Ed25519 (public_key_of (key Alice))); ("bob", Ed25519 (public_key_of (key Bob)))]
    by by vm_compute. done.
Qed.

(** A token of the cast is judged by its signer and its challenge. *)
Lemma judge_cast a challenge token request now :
  sign key_text a challenge = Some token ->
  exists verdict,
    (forall l, judge_proof ledger_ok sec cast_model request token now l = (l, Ok verdict))
    /\ if decide (a <> Charlie /\ challenge = challenge_string request)
       then verdict = Ok (actor_id a) else exists e, verdict = Err e.
Proof.
  unfold sign. rewrite (cast_parses _ _ _ _ Hcast). intros Ht.
  destruct (private_sign _ _ _) as [sig|] eqn:Es; [|done].
  destruct (sshsig_to_pem sig) as [pem|] eqn:Ep; [|done]. simplify_eq.
  unfold judge_proof. rewrite (pem_marked _ _ Ep). eexists. split; [done|]. unfold verify_ed25519.
  rewrite (pem_read_back _ _ Ep). cbn [map_err]. rewrite (signed_namespace _ _ _ _ Es).
  rewrite bool_decide_eq_true_2 by done. cbn [negb]. rewrite cast_candidates.
  assert (Hsig : forall b, sshsig_signer (public_key_of (key b)) sig = same_actor a b).
  { intros b. destruct (decide (a = b)) as [<-|Hb].
    - rewrite (signed_by _ _ _ _ Es). by destruct a.
    - transitivity false; [|by destruct a, b]. apply not_true_is_false. intros E.
      by apply Hb, (cast_distinct _ _ _ _ Hcast _ _ _ _ Es). }
  assert (Hver : forall ch, sshsig_verify (public_key_of (key a)) APPROVAL_NAMESPACE (as_bytes ch) sig
                            = bool_decide (ch = challenge)).
  { intros ch. case_bool_decide as Hc; [subst ch|].
    - apply (signed_verifies _ _ _ _ _ Es). rewrite Hsig. by destruct a.
    - apply not_true_is_false. intros E. apply Hc, as_bytes_inj.
      by apply (cast_binds _ _ _ _ Hcast _ _ _ _ (as_bytes_u8 _) (as_bytes_u8 _) Es). }
  cbn [omap list_omap fst snd]. rewrite !Hsig. case_decide as Hd.
  - destruct Hd as [Ha ->]. specialize (Hver (challenge_string request)).
    rewrite bool_decide_eq_true_2 in Hver by done. destruct a; [..|done]; cbn -[as_bytes challenge_string]; by rewrite Hver.
  - destruct a; cbn -[as_bytes challenge_string]; [rewrite Hver, bool_decide_eq_false_2 by naive_solver; eauto..|].
    eauto.
Qed.
End Cast.

(** ** Sequences the state file can hold *)

(** The clock of the simulated users stays below this many seconds. *)
Definition HORIZON : Z := 2 ^ 40.

(** When a grant moves from pending to open it was opened now. *)
Definition opened_after (before after : Shadow) (opened now : Z) : Z :=
  match before, after with ShPending _ _ _ _ _, ShOpen _ => now | _, _ => opened end.

(** The index of a TTL is in range, the clock does not pass the horizon, and a
    renewal the shadow accepts ends within 24 hours of the opening. *)
Definition capped_action (sh : Shadow) (opened now : Z) (action : Action) : bool :=
  match action with
  | AOpen _ ix => (ix <? length TTLS)%nat
  | ARenew ix =>
      (ix <? length TTLS)%nat
      && match sh, expected_result (ARenew ix) sh now with
         | ShOpen _, RsOk => now + ttl_secs_at ix - opened <=? MAX_TTL_SECS
         | _, _ => true
         end
  | AAdvance secs => (0 <=? secs) && (now + secs <=? HORIZON)
  | _ => true
  end.

(** The clock after an action. *)
Definition time_after (now : Z) (action : Action) : Z :=
  match action with AAdvance secs => now + secs | _ => now end.

Fixpoint capped (sh : Shadow) (opened now : Z) (actions : list Action) : bool :=
  match actions with
  | [] => true
  | action :: rest =>
      let now' := time_after now action in
      let sh' := advance_shadow sh action now' in
      capped_action sh opened now action
      && capped sh' (opened_after sh sh' opened now') now' rest
  end.

(** The live challenge is none of the superseded ones. *)
Definition unrepeated {S} (s : Sim S) : bool :=
  match live s with Some c => negb (bool_decide (c ∈ stale s)) | None => true end.

(** No request of the run draws a nonce that makes an earlier challenge again. *)
Fixpoint unrepeated_run `{DataEncoding, PrincipalKeys, !ProofVerifier Ledgers} (env : Env) (cfg : Config)
    (key_text : Actor -> string) (s : Sim (Sys Scripts unit Ledgers)) (actions : list Action) : bool :=
  match actions with
  | [] => true
  | action :: rest =>
      match step env cfg key_text s action with
      | Ok s' => unrepeated s' && unrepeated_run env cfg key_text s' rest
      | Err _ => true
      end
  end.

(** The shadow's own run. *)
Fixpoint shadow_run (sh : Shadow) (now : Z) (actions : list Action) : Shadow :=
  match actions with
  | [] => sh
  | action :: rest =>
      let now' := time_after now action in shadow_run (advance_shadow sh action now') now' rest
  end.

(** ** The relation *)

Definition names (sat : gset Actor) : gset string := set_map actor_id sat.

Lemma names_empty : names ∅ = ∅.
Proof. unfold names. set_solver. Qed.

Lemma names_add a sat : names ({[a]} ∪ sat) = {[actor_id a]} ∪ names sat.
Proof. unfold names. set_solver. Qed.

(** The grant on disk is what the shadow says; [k] is the attempt that drew
    the nonce. *)
Definition refines (env : Env) (sh : Shadow) (opened now : Z) (k : nat) (g : Grant) : Prop :=
  match sh with
  | ShClosed => g = Closed
  | ShPending p sat r d t =>
      d = r + APPROVAL_WINDOW_SECS /\ 0 <= r <= now /\ 0 < t <= MAX_TTL_SECS
      /\ g = Pending (Clock.from_secs r) (Clock.from_secs d) (MkTtl (Clock.from_secs t)) (urandom env k)
               (profile_id p) (names sat)
  | ShOpen e =>
      0 <= opened <= now /\ opened < e <= opened + MAX_TTL_SECS
      /\ g = Open (Clock.from_secs opened) (Clock.from_secs e) [Ssh]
  end.

Lemma from_secs_lt a b : Clock.from_secs a < Clock.from_secs b <-> a < b.
Proof. unfold Clock.from_secs, NANOS_PER_SEC. lia. Qed.

Lemma from_secs_le a b : Clock.from_secs a <= Clock.from_secs b <-> a <= b.
Proof. unfold Clock.from_secs, NANOS_PER_SEC. lia. Qed.

Lemma from_secs_add a b : Clock.from_secs a + Clock.from_secs b = Clock.from_secs (a + b).
Proof. unfold Clock.from_secs. lia. Qed.

Lemma from_secs_sub a b : Clock.from_secs a - Clock.from_secs b = Clock.from_secs (a - b).
Proof. unfold Clock.from_secs. lia. Qed.

Lemma from_secs_clock a : 0 <= a <= HORIZON + 2 ^ 30 -> 0 <= Clock.from_secs a < CLOCK_END.
Proof. unfold CLOCK_END, Clock.from_secs, NANOS_PER_SEC, HORIZON. lia. Qed.

Lemma trunc_from_secs a : trunc (Clock.from_secs a) = Clock.from_secs a.
Proof. unfold trunc. by rewrite as_secs_from_secs. Qed.

Lemma span_from_secs a b : a < b <= a + MAX_TTL_SECS -> span_ok (Clock.from_secs a) (Clock.from_secs b).
Proof. intros Hab. split; [apply from_secs_lt; lia|]. rewrite from_secs_sub, as_secs_from_secs. lia. Qed.

Lemma good_opening o e cs :
  0 <= o <= HORIZON -> o < e <= o + MAX_TTL_SECS -> good (Opening (Clock.from_secs o) (Clock.from_secs e) cs).
Proof.
  intros Ho He. split_and!; [done|by apply span_from_secs|..].
  - split; apply from_secs_clock; unfold HORIZON, MAX_TTL_SECS in *; lia.
  - cbn. by rewrite !trunc_from_secs.
Qed.

Lemma good_open o e cs :
  0 <= o <= HORIZON -> o < e <= o + MAX_TTL_SECS -> good (Open (Clock.from_secs o) (Clock.from_secs e) cs).
Proof. intros. by apply good_finished, good_opening. Qed.

Lemma good_pending r d t nonce p sat :
  0 <= r <= HORIZON -> d = r + APPROVAL_WINDOW_SECS -> 0 < t <= MAX_TTL_SECS ->
  length nonce = 32%nat -> Forall is_u8 nonce ->
  good (Pending (Clock.from_secs r) (Clock.from_secs d) (MkTtl (Clock.from_secs t)) nonce p sat).
Proof.
  intros Hr -> Ht Hl Hu. unfold APPROVAL_WINDOW_SECS. split_and!.
  - split_and!; [by exists t|done..].
  - apply span_from_secs. unfold MAX_TTL_SECS. lia.
  - split; apply from_secs_clock; unfold HORIZON in *; lia.
  - cbn. by rewrite !trunc_from_secs.
Qed.

Lemma status_pending r d t nonce p sat now :
  Grant.status (Pending r (Clock.from_secs d) t nonce p sat) (Clock.from_secs now)
  = if d <=? now then StApprovalExpired else StAwaitingApproval (Clock.from_secs d - Clock.from_secs now).
Proof.
  cbn. unfold duration_since, is_zero. repeat case_goal; bool_prop; try done; exfalso;
    rewrite ?from_secs_le, ?from_secs_lt, ?from_secs_sub in *;
    unfold Clock.from_secs, NANOS_PER_SEC in *; lia.
Qed.

Lemma status_open o e cs now :
  Grant.status (Open o (Clock.from_secs e) cs) (Clock.from_secs now)
  = if e <=? now then StExpired else StOpen (Clock.from_secs e - Clock.from_secs now).
Proof.
  cbn. unfold duration_since, is_zero. repeat case_goal; bool_prop; try done; exfalso;
    rewrite ?from_secs_le, ?from_secs_lt, ?from_secs_sub in *;
    unfold Clock.from_secs, NANOS_PER_SEC in *; lia.
Qed.

(** What [status] shows is what the shadow observes. *)
Lemma refines_observed env sh opened now k g :
  refines env sh opened now k g ->
  check_observation [status_line (HOST, Grant.status g (Clock.from_secs now))] sh now = Ok tt.
Proof.
  unfold check_observation, refines. destruct sh as [|p sat r d t|e].
  - intros ->. done.
  - intros (_ & _ & _ & ->). rewrite status_pending. cbn [observed]. destruct (d <=? now); [done|].
    rewrite from_secs_sub. cbn -[as_secs]. rewrite as_secs_from_secs, bool_decide_eq_true_2 by done.
    cbn. by rewrite bool_decide_eq_true_2.
  - intros (_ & _ & ->). rewrite status_open. cbn [observed]. destruct (e <=? now); [done|].
    rewrite from_secs_sub. cbn -[as_secs]. rewrite as_secs_from_secs, bool_decide_eq_true_2 by done.
    cbn. by rewrite bool_decide_eq_true_2.
Qed.

Section Refinement.
Context `{DataEncodingLaws, PrincipalKeys, !PrincipalKeysLaws}.
Context (key_text : Actor -> string) (alice_pub bob_pub : string) (key : Actor -> PrivateKey).
Context (Hcast : cast_ok key_text alice_pub bob_pub key) (ledger_ok : nat -> bool).
Context (env : Env) (Hio : forall n, io_ok env n = true).
Context (Hnonce : forall n, length (urandom env n) = 32%nat /\ Forall is_u8 (urandom env n)).

Local Abbreviation Sys' := (Sys Scripts unit Ledgers).
Local Abbreviation M' := (Daemon.M (W := Scripts) (D := unit) (V := Ledgers)).
Local Abbreviation cfg := (sim_config alice_pub bob_pub).
#[local] Instance SimProofs : ProofVerifier Ledgers := DaemonProofs ledger_ok sim_secrets.

Lemma sim_policy : approval_policy cfg = Some (cast_model key).
Proof.
  unfold sim_config. cbn [approval_policy].
  by rewrite (sim_policy_builds _ _ _ _ (cast_alice _ _ _ _ Hcast) (cast_bob _ _ _ _ Hcast)).
Qed.

Lemma sim_hosts : hosts (inventory cfg) = [sim_host].
Proof. done. Qed.

(** ** Challenges *)

Definition request_of (k : nat) (t r : Z) : ApprovalRequest :=
  Approval.new (urandom env k) HOST t (Clock.from_secs r).

(** A challenge made from the [k]-th nonce. *)
Definition issued (c : string) (k : nat) : Prop :=
  exists t r, 0 < t <= MAX_TTL_SECS /\ 0 <= r <= HORIZON /\ c = challenge_string (request_of k t r).

Lemma request_typed k t r : 0 < t <= MAX_TTL_SECS -> 0 <= r <= HORIZON -> well_typed (request_of k t r).
Proof.
  intros Ht Hr. destruct (Hnonce k). split_and!; try done.
  - unfold is_u64, u64_max, MAX_TTL_SECS in *. cbn. lia.
  - apply from_secs_clock. lia.
  - apply from_secs_clock. lia.
Qed.

Lemma never_issued k : ~ issued NEVER_ISSUED k.
Proof.
  intros (t & r & Ht & Hr & E). apply (f_equal str_len) in E. unfold challenge_string in E.
  rewrite str_len_app, base64url_encode_length, base64url_encode_len_eq in E by lia.
  assert (Hl : length (canonical_bytes (request_of k t r)) = 82%nat).
  { unfold canonical_bytes. rewrite !length_app, !length_be_bytes. cbn [Approval.nonce request_of Approval.new].
    by rewrite (proj1 (Hnonce k)). }
  rewrite Hl in E. by vm_compute in E.
Qed.

(** The live challenge was made from the [k]-th nonce, and repeats none of the
    superseded ones. *)
Definition book (s : Sim Sys') (k : nat) : Prop :=
  forall c, live s = Some c -> issued c k /\ c ∉ stale s.

(** A replayed challenge is never the live one. *)
Lemma stale_is_not_live s c k : book s k -> live s = Some c -> from_option id NEVER_ISSUED (last (stale s)) <> c.
Proof.
  intros Hb Hc E. destruct (Hb c Hc) as [Hi Hst]. destruct (last (stale s)) as [c'|] eqn:El; cbn in E.
  - apply last_Some_elem_of in El. by subst c'.
  - subst c. by apply never_issued in Hi.
Qed.

(** ** The invariant of the harness *)

Record inv (opened : Z) (s : Sim Sys') (k : nat) (g : Grant) : Prop := {
  inv_stands : stands g (daemon s);
  inv_refines : refines env (shadow s) opened (sim_now s) k g;
  inv_now : 0 <= sim_now s <= HORIZON;
  inv_book : book s k;
  inv_live p sat r d t :
    shadow s = ShPending p sat r d t -> live s = Some (challenge_string (request_of k t r));
}.

Lemma ask_runs op now d g Q :
  runs g (dispatch env cfg op (Clock.from_secs now)) Q -> stands g d ->
  exists d' r g', ask env cfg op now d = (d', Ok r) /\ stands g' d' /\ Q r g'.
Proof.
  intros Hr Hs. destruct (Hr d Hs) as (d' & r & g' & E & ? & ?).
  exists d', r, g'. unfold ask. by rewrite E.
Qed.

(** The action runs, is answered as the shadow expects, and the daemon is
    where the shadow is. *)
Definition acts (opened : Z) (s : Sim Sys') (a : Action) : Prop :=
  let now := time_after (sim_now s) a in
  let sh := advance_shadow (shadow s) a now in
  exists d resp lv st k g,
    act env cfg key_text s a = Ok (d, resp, (lv, st), now)
    /\ match resp with Some r => rs_result r = expected_result a (shadow s) now | None => True end
    /\ let s' := {| daemon := d; shadow := sh; sim_now := now; live := lv; stale := st |} in
       let opened' := opened_after (shadow s) sh opened now in
       stands g d /\ refines env sh opened' now k g /\ (unrepeated s' = true -> inv opened' s' k g).

Lemma inv_conclude opened s d sh now lv st k g :
  inv opened {| daemon := d; shadow := sh; sim_now := now; live := lv; stale := st |} k g ->
  let s' := {| daemon := d; shadow := sh; sim_now := now; live := lv; stale := st |} in
  stands g d /\ refines env sh opened now k g /\ (unrepeated s' = s -> inv opened s' k g).
Proof. intros Hi. pose proof Hi as []. done. Qed.

Lemma inv_moved opened opened' s sh d k g g' :
  inv opened s k g -> stands g' d -> refines env sh opened' (sim_now s) k g' ->
  (forall p sat r dl t, sh = ShPending p sat r dl t ->
     exists p0 sat0 dl0, shadow s = ShPending p0 sat0 r dl0 t) ->
  inv opened' {| daemon := d; shadow := sh; sim_now := sim_now s; live := live s; stale := stale s |} k g'.
Proof.
  intros [] Hs Hr Hp. split; cbn; try done.
  intros p sat r dl t E. destruct (Hp _ _ _ _ _ E) as (? & ? & ? & E'). by eapply inv_live0.
Qed.

(** An operation that changes neither the challenges nor the time. *)
Lemma acts_same opened s a op k g g' :
  inv opened s k g -> time_after (sim_now s) a = sim_now s ->
  (forall d r, ask env cfg op (sim_now s) (daemon s) = (d, Ok r) ->
     act env cfg key_text s a = Ok (d, Some r, (live s, stale s), sim_now s)) ->
  runs g (dispatch env cfg op (Clock.from_secs (sim_now s)))
     (fun r g1 => rs_result r = expected_result a (shadow s) (sim_now s) /\ g1 = g') ->
  let sh := advance_shadow (shadow s) a (sim_now s) in
  refines env sh (opened_after (shadow s) sh opened (sim_now s)) (sim_now s) k g' ->
  (forall p sat r dl t, sh = ShPending p sat r dl t ->
     exists p0 sat0 dl0, shadow s = ShPending p0 sat0 r dl0 t) ->
  acts opened s a.
Proof.
  intros Hi Ht Hact Hruns sh Hr Hp.
  destruct (ask_runs op (sim_now s) (daemon s) g _ Hruns (inv_stands _ _ _ _ Hi))
    as (d & r & g1 & Ea & Hs & Hres & ->).
  unfold acts. rewrite Ht. exists d, (Some r), (live s), (stale s), k, g'.
  split; [by apply Hact|]. split; [done|]. apply inv_conclude. by eapply inv_moved.
Qed.

Lemma answers_expected g (m : M' (Response Refusal)) g' e :
  e = RsOk -> answers g m g' -> runs g m (fun r g1 => rs_result r = e /\ g1 = g').
Proof. intros -> Hm. exact Hm. Qed.

Lemma refuses_expected g (m : M' (Response Refusal)) e :
  e = RsRefused -> refuses g m -> runs g m (fun r g1 => rs_result r = e /\ g1 = g).
Proof. intros -> Hm. exact Hm. Qed.

Lemma now_clock s opened k g :
  inv opened s k g -> 0 <= Clock.from_secs (sim_now s) < CLOCK_END.
Proof. intros []. apply from_secs_clock. lia. Qed.

Lemma close_acts opened s k g : inv opened s k g -> acts opened s AClose.
Proof.
  intros Hi. eapply (acts_same _ _ _ (OClose HOST) _ _ Closed Hi); try done.
  - intros d r Ea. cbn. by rewrite Ea.
  - apply answers_expected; [done|]. change (answers g (close env cfg HOST (Clock.from_secs (sim_now s)) : M' _) Closed).
    pose proof (now_clock _ _ _ _ Hi). destruct Hi as [_ Hr _ _ _]. unfold refines in Hr.
    destruct (shadow s).
    + subst g. by apply close_closed_answers.
    + destruct Hr as (_ & _ & _ & ->). by apply close_pending_answers.
    + destruct Hr as (_ & _ & ->). apply close_open_answers; auto using trunc_from_secs.
Qed.

Lemma ttl_parses ix : (ix < length TTLS)%nat ->
  exists text, TTLS !! ix = Some (text, ttl_secs_at ix)
    /\ Ttl.parse text = Ok (MkTtl (Clock.from_secs (ttl_secs_at ix))) /\ 0 < ttl_secs_at ix <= 14400.
Proof.
  intros Hix. do 4 (destruct ix as [|ix]; [eexists; split; [done|]; split; [by vm_compute|by vm_compute]|]).
  cbn in Hix. lia.
Qed.

Lemma advance_acts opened s k g secs :
  inv opened s k g -> capped_action (shadow s) opened (sim_now s) (AAdvance secs) = true ->
  acts opened s (AAdvance secs).
Proof.
  intros [Hs Hr Hn Hb Hl] Hc. cbn in Hc. apply andb_true_iff in Hc as [Hc Hh]. bool_prop.
  exists (daemon s), None, (live s), (stale s), k, g. split; [done|]. split; [done|]. apply inv_conclude.
  cbn [time_after advance_shadow]. replace (opened_after _ _ _ _) with opened by by destruct (shadow s).
  split; cbn; try done; [|lia]. unfold refines in *. destruct (shadow s); [done|..].
  - destruct Hr as (? & ? & ? & ?). split_and!; try done; lia.
  - destruct Hr as (? & ? & ?). split_and!; try done; lia.
Qed.

Lemma renew_live o e now ttl :
  now < e -> e - now <= RENEWAL_WINDOW_SECS -> 0 <= now <= HORIZON -> 0 < ttl <= 14400 ->
  Grant.renew (Open o (Clock.from_secs e) [Ssh]) (Clock.from_secs now) (MkTtl (Clock.from_secs ttl))
  = (Open o (Clock.from_secs (now + ttl)) [Ssh], Ok (Clock.from_secs (now + ttl))).
Proof.
  intros Hlt Hw Hn Ht. unfold Grant.renew. rewrite status_open, (proj2 (Z.leb_gt _ _) Hlt).
  rewrite from_secs_sub, (proj2 (Z.ltb_ge _ _)) by by apply from_secs_le.
  cbn [duration]. rewrite (proj2 (checked_add_Some _ _ (Clock.from_secs (now + ttl)))); [done|].
  rewrite from_secs_add. split; [done|]. apply from_secs_clock. unfold HORIZON in *. lia.
Qed.

Lemma renew_idle g now : (forall rem, Grant.status g now <> StOpen rem) ->
  forall ttl, exists e, Grant.renew g now ttl = (g, Err e).
Proof. intros Hs ttl. unfold Grant.renew. destruct (Grant.status g now) eqn:E; eauto. by destruct (Hs remaining). Qed.

Lemma renew_early o e now ttl :
  now < e -> RENEWAL_WINDOW_SECS < e - now ->
  exists err, Grant.renew (Open o (Clock.from_secs e) [Ssh]) (Clock.from_secs now) ttl
              = (Open o (Clock.from_secs e) [Ssh], Err err).
Proof.
  intros Hlt Hw. unfold Grant.renew. rewrite status_open, (proj2 (Z.leb_gt _ _) Hlt).
  rewrite from_secs_sub, (proj2 (Z.ltb_lt _ _)) by by apply from_secs_lt. eauto.
Qed.

(** A refused operation changes nothing. *)
Lemma acts_refused opened s a op k g :
  inv opened s k g -> time_after (sim_now s) a = sim_now s ->
  (forall d r, ask env cfg op (sim_now s) (daemon s) = (d, Ok r) -> rs_result r = RsRefused ->
     act env cfg key_text s a = Ok (d, Some r, (live s, stale s), sim_now s)) ->
  expected_result a (shadow s) (sim_now s) = RsRefused ->
  advance_shadow (shadow s) a (sim_now s) = shadow s ->
  refuses g (dispatch env cfg op (Clock.from_secs (sim_now s)) : M' _) -> acts opened s a.
Proof.
  intros Hi Ht Hact He Hsh Href.
  destruct (ask_runs op (sim_now s) (daemon s) g _ Href (inv_stands _ _ _ _ Hi))
    as (d & r & g1 & Ea & Hs & Hres & ->).
  unfold acts. rewrite Ht. exists d, (Some r), (live s), (stale s), k, g.
  split; [by apply Hact|]. split; [congruence|]. apply inv_conclude. rewrite Hsh.
  replace (opened_after _ _ _ _) with opened by by destruct (shadow s).
  eapply inv_moved; try done; [apply Hi|eauto].
Qed.

Lemma act_renew ix text s d r :
  TTLS !! ix = Some (text, ttl_secs_at ix) ->
  ask env cfg (ORenew HOST text) (sim_now s) (daemon s) = (d, Ok r) ->
  act env cfg key_text s (ARenew ix) = Ok (d, Some r, (live s, stale s), sim_now s).
Proof. intros El Ea. unfold act. by rewrite El, Ea. Qed.

Lemma renew_refused_acts opened s k g ix text :
  inv opened s k g -> TTLS !! ix = Some (text, ttl_secs_at ix) ->
  expected_result (ARenew ix) (shadow s) (sim_now s) = RsRefused ->
  (forall ttl, exists e, Grant.renew g (Clock.from_secs (sim_now s)) ttl = (g, Err e)) ->
  acts opened s (ARenew ix).
Proof.
  intros Hi El He Hren. eapply (acts_refused _ _ _ (ORenew HOST text) _ _ Hi); try done.
  - intros. by eapply act_renew.
  - cbn in He |- *. destruct (shadow s); try done. by destruct (_ && _).
  - change (refuses g (renew env cfg HOST text (Clock.from_secs (sim_now s)) : M' _)).
    by apply renew_refuses.
Qed.

Lemma renew_accepted_acts opened s k g ix text e :
  inv opened s k g -> TTLS !! ix = Some (text, ttl_secs_at ix) ->
  Ttl.parse text = Ok (MkTtl (Clock.from_secs (ttl_secs_at ix))) -> 0 < ttl_secs_at ix <= 14400 ->
  shadow s = ShOpen e -> sim_now s < e -> e - sim_now s <= RENEWAL_WINDOW_SECS ->
  sim_now s + ttl_secs_at ix - opened <= MAX_TTL_SECS ->
  acts opened s (ARenew ix).
Proof.
  intros Hi El Ep Hrange Esh Hlt Hw Hcap. pose proof Hi as [_ Hr Hn _ _]. rewrite Esh in Hr.
  destruct Hr as (Ho & He & ->).
  assert (Ee : (sim_now s <? e) && (e - sim_now s <=? RENEWAL_WINDOW_SECS) = true)
    by (apply andb_true_iff; split; apply Z.ltb_lt || apply Z.leb_le; lia).
  pose proof (from_secs_add (sim_now s) (ttl_secs_at ix)) as Ha.
  eapply (acts_same _ _ _ (ORenew HOST text) _ _
            (Open (Clock.from_secs opened) (Clock.from_secs (sim_now s + ttl_secs_at ix)) [Ssh]) Hi);
    try done; rewrite ?Esh.
  - intros. by eapply act_renew.
  - apply answers_expected; [cbn [expected_result]; by rewrite Ee|]. rewrite <-Ha.
    change (answers (Open (Clock.from_secs opened) (Clock.from_secs e) [Ssh])
      (renew env cfg HOST text (Clock.from_secs (sim_now s)) : M' _)
      (Open (Clock.from_secs opened)
         (Clock.from_secs (sim_now s) + duration (MkTtl (Clock.from_secs (ttl_secs_at ix)))) [Ssh])).
    apply renew_answers; try done; cbn [duration]; rewrite ?Ha.
    + apply renew_live; lia.
    + rewrite status_open, (proj2 (Z.leb_gt _ _)) by lia. done.
    + apply good_open; lia.
  - cbn [advance_shadow]. rewrite Ee. split_and!; try done; cbn [opened_after]; lia.
  - cbn [advance_shadow]. by rewrite Ee.
Qed.

Lemma renew_acts opened s k g ix :
  inv opened s k g -> capped_action (shadow s) opened (sim_now s) (ARenew ix) = true ->
  acts opened s (ARenew ix).
Proof.
  intros Hi Hc. pose proof Hi as [_ Hr Hn _ _]. unfold capped_action in Hc.
  apply andb_true_iff in Hc as [Hix%Nat.ltb_lt Hc]. destruct (ttl_parses ix Hix) as (text & El & Ep & Hrange).
  destruct (shadow s) as [|p sat r d t|e] eqn:Esh; cbn [refines expected_result] in Hr, Hc.
  - subst g. eapply renew_refused_acts; [done|done|by rewrite Esh|]. by apply renew_idle.
  - destruct Hr as (_ & _ & _ & ->). eapply renew_refused_acts; [done|done|by rewrite Esh|].
    apply renew_idle. intros rem. rewrite status_pending. by destruct (_ <=? _).
  - destruct Hr as (Ho & He & ->). destruct (sim_now s <? e) eqn:Elt; cbn [andb] in Hc.
    + destruct (e - sim_now s <=? RENEWAL_WINDOW_SECS) eqn:Ew; bool_prop.
      * eapply renew_accepted_acts; try done; lia.
      * eapply renew_refused_acts; [done|done|..].
        -- rewrite Esh. cbn [expected_result]. rewrite (proj2 (Z.leb_gt _ _) Ew). by rewrite andb_false_r.
        -- intros ttl. apply renew_early; lia.
    + eapply renew_refused_acts; [done|done|rewrite Esh; cbn [expected_result]; by rewrite Elt|].
      apply renew_idle. intros rem. rewrite status_open. bool_prop. by rewrite (proj2 (Z.leb_le _ _)) by lia.
Qed.

(** *** open *)

Lemma gate_offered p : profile_offered cfg (cast_model key) (profile_id p) (gate_of p).
Proof. split; [apply resolve_gate|]. apply gate_wait. Qed.

Lemma window_add now :
  Clock.from_secs now + approval_window cfg = Clock.from_secs (now + APPROVAL_WINDOW_SECS).
Proof. apply from_secs_add. Qed.

Lemma open_refused_acts opened s k g p ix :
  inv opened s k g -> (ix < length TTLS)%nat -> shadow s <> ShClosed -> acts opened s (AOpen p ix).
Proof.
  intros Hi Hix Hsh. destruct (ttl_parses ix Hix) as (text & El & Ep & Hrange).
  pose proof Hi as [_ Hr Hn _ _].
  assert (Hobs : (observed (shadow s) (sim_now s)).1 <> LClosed).
  { destruct (shadow s); cbn; [done|destruct (_ <=? _)..]; done. }
  eapply (acts_refused _ _ _ (OOpen HOST text (Some (profile_id p))) _ _ Hi); try done.
  - intros d r Ea Eres. unfold act. rewrite El, Ea. cbn. by rewrite Eres.
  - cbn [expected_result]. by destruct (observed _ _).1.
  - cbn [advance_shadow]. by destruct (observed _ _).1.
  - change (refuses g (open env cfg HOST text (Some (profile_id p)) (Clock.from_secs (sim_now s)) : M' _)).
    eapply open_refuses; [done|done|apply sim_policy|done|apply gate_offered|..].
    + rewrite window_add. apply from_secs_clock. unfold HORIZON, APPROVAL_WINDOW_SECS in *. lia.
    + unfold refines in Hr. destruct (shadow s); [done|..].
      * destruct Hr as (_ & _ & _ & ->). rewrite status_pending. by destruct (_ <=? _).
      * destruct Hr as (_ & _ & ->). rewrite status_open. by destruct (_ <=? _).
Qed.

Lemma open_accepted_acts opened s k g p ix :
  inv opened s k g -> (ix < length TTLS)%nat -> shadow s = ShClosed -> acts opened s (AOpen p ix).
Proof.
  intros Hi Hix Esh. destruct (ttl_parses ix Hix) as (text & El & Ep & Hrange).
  pose proof Hi as [Hst Hr Hn Hb _]. rewrite Esh in Hr. cbn in Hr. subst g.
  set (ttl := ttl_secs_at ix) in *. set (now := sim_now s) in *.
  destruct (evaluate_met (public_key_of (key Alice)) (public_key_of (key Bob)) p ∅ 0) as (o & Ho & _).
  change (set_map actor_id ∅) with (names ∅) in Ho. rewrite names_empty in Ho.
  assert (Hgood : forall j, good (Pending (Clock.from_secs now) (Clock.from_secs now + approval_window cfg)
            (MkTtl (Clock.from_secs ttl)) (urandom env j) (profile_id p) ∅)).
  { intros j. destruct (Hnonce j). rewrite window_add.
    apply good_pending; try done; unfold MAX_TTL_SECS; lia. }
  assert (Hend : Clock.from_secs now + approval_window cfg < CLOCK_END).
  { rewrite window_add. apply from_secs_clock. unfold HORIZON, APPROVAL_WINDOW_SECS in *. lia. }
  pose proof (open_runs (V := Ledgers) env cfg Hio sim_hosts (cast_model key) sim_policy text _ _ _ (Clock.from_secs now) o
    Ep (gate_offered p) Hend Hgood Ho) as Hopen.
  destruct (ask_runs (OOpen HOST text (Some (profile_id p))) now (daemon s) Closed _ Hopen Hst)
    as (d & r & g' & Ea & Hs & j & -> & Eres & Epend).
  destruct (rs_pending r) as [pc|] eqn:Epc; [|done]. cbn in Epend.
  replace (as_secs (Clock.from_secs ttl)) with ttl in Epend by by rewrite as_secs_from_secs.
  apply (inj Some) in Epend.
  eexists d, (Some r), _, _, j, _. split; [unfold act; rewrite El; fold now; rewrite Ea; cbn; by rewrite Eres, Epc|].
  split; [by rewrite Esh|]. rewrite Esh. cbn [advance_shadow observed fst opened_after time_after].
  fold now. rewrite window_add in Hs.
  assert (Href : refines env (ShPending p ∅ now (now + APPROVAL_WINDOW_SECS) ttl) opened now j
    (Pending (Clock.from_secs now) (Clock.from_secs (now + APPROVAL_WINDOW_SECS)) (MkTtl (Clock.from_secs ttl))
       (urandom env j) (profile_id p) ∅)).
  { unfold refines. rewrite names_empty. split_and!; try done; unfold MAX_TTL_SECS; lia. }
  split; [exact Hs|]. split; [exact Href|]. intros Hun.
  split; cbn [daemon shadow sim_now live stale]; try done.
  - intros c [= <-]. split; [|by apply negb_true_iff, bool_decide_eq_false in Hun].
    exists ttl, now. split_and!; try done; unfold MAX_TTL_SECS; lia.
  - intros p' sat r' dl t E. injection E as <- <- <- <- <-. by rewrite Epend.
Qed.

(** *** approve *)

(** The challenge a proof of the kind signs. *)
Definition signed_challenge (s : Sim Sys') (proof : ProofKind) : string :=
  match proof with
  | Fresh => from_option id NEVER_ISSUED (live s)
  | Stale => from_option id NEVER_ISSUED (last (stale s))
  end.

Lemma act_approve s actor proof token d r :
  sign key_text actor (signed_challenge s proof) = Some token ->
  ask env cfg (OApprove HOST token) (sim_now s) (daemon s) = (d, Ok r) ->
  act env cfg key_text s (AApprove actor proof) = Ok (d, Some r, (live s, stale s), sim_now s).
Proof.
  intros Et Ea. unfold act, signed_challenge, last_stale in *. destruct proof; by rewrite Et, Ea.
Qed.

Lemma approve_refused_acts opened s k g actor proof :
  inv opened s k g -> expected_result (AApprove actor proof) (shadow s) (sim_now s) = RsRefused ->
  (forall token, sign key_text actor (signed_challenge s proof) = Some token ->
     refuses g (approve env cfg HOST token (Clock.from_secs (sim_now s)) : M' _)) ->
  acts opened s (AApprove actor proof).
Proof.
  intros Hi He Href.
  destruct (sign_total key_text alice_pub bob_pub key Hcast actor (signed_challenge s proof)) as [token Et].
  eapply (acts_refused _ _ _ (OApprove HOST token) _ _ Hi); try done.
  - intros. by eapply act_approve.
  - cbn in He |- *. destruct (shadow s); try done. by destruct (_ && _).
  - by apply Href.
Qed.

Lemma approve_idle g now :
  (forall rem, Grant.status g now <> StAwaitingApproval rem) ->
  exists e, Grant.pending_request g HOST now = Err e.
Proof. intros Hs. unfold Grant.pending_request. destruct (Grant.status g now) eqn:E; eauto. by destruct (Hs remaining). Qed.

Lemma pending_live_request p sat r d t k now :
  now < d ->
  Grant.pending_request (Pending (Clock.from_secs r) (Clock.from_secs d) (MkTtl (Clock.from_secs t)) (urandom env k)
    p sat) HOST (Clock.from_secs now) = Ok (request_of k t r).
Proof.
  intros Hlt. unfold Grant.pending_request. rewrite status_pending, (proj2 (Z.leb_gt _ _) Hlt).
  cbn [duration]. by rewrite as_secs_from_secs.
Qed.

(** A stranger's key, or a superseded challenge. *)
Lemma approve_invalid_acts opened s k g actor proof p sat r d t :
  inv opened s k g -> shadow s = ShPending p sat r d t -> sim_now s < d -> valid actor proof = false ->
  acts opened s (AApprove actor proof).
Proof.
  intros Hi Esh Hlt Hv. pose proof Hi as [_ Hr _ Hb Hl]. specialize (Hl _ _ _ _ _ Esh).
  rewrite Esh in Hr. destruct Hr as (_ & _ & _ & ->).
  eapply approve_refused_acts; [done|rewrite Esh; cbn [expected_result]; by rewrite Hv, andb_false_r|].
  intros token Et.
  assert (Hn : ~ (actor <> Charlie /\ signed_challenge s proof = challenge_string (request_of k t r))).
  { intros [Ha Ec]. destruct actor, proof; try done;
      cbn [signed_challenge] in Ec; by apply (stale_is_not_live _ _ _ Hb Hl). }
  destruct (judge_cast key_text alice_pub bob_pub key Hcast ledger_ok sim_secrets _ _ _
    (request_of k t r) (Clock.from_secs (sim_now s)) Et) as (verdict & Hj & Hd).
  rewrite decide_False in Hd by done. destruct Hd as [e ->].
  eapply approve_refuses_proof; [done|done|apply sim_policy|by apply pending_live_request|].
  intros v. exists v. apply Hj.
Qed.

Lemma approve_valid_acts opened s k g actor p sat r d t :
  inv opened s k g -> shadow s = ShPending p sat r d t -> sim_now s < d -> actor <> Charlie ->
  acts opened s (AApprove actor Fresh).
Proof.
  intros Hi Esh Hlt Hact. pose proof Hi as [_ Hr Hn Hb Hl]. specialize (Hl _ _ _ _ _ Esh).
  rewrite Esh in Hr. destruct Hr as (-> & Hrn & Ht & ->). set (now := sim_now s) in *.
  destruct (sign_total key_text alice_pub bob_pub key Hcast actor (signed_challenge s Fresh)) as [token Et].
  destruct (judge_cast key_text alice_pub bob_pub key Hcast ledger_ok sim_secrets _ _ _
    (request_of k t r) (Clock.from_secs now) Et) as (verdict & Hj & Hd).
  rewrite decide_True in Hd by (split; [done|cbn; by rewrite Hl]). subst verdict.
  destruct (evaluate_met (public_key_of (key Alice)) (public_key_of (key Bob)) p ({[actor]} ∪ sat) (now - r))
    as (o & Ho & Hmet).
  change (set_map actor_id ({[actor]} ∪ sat)) with (names ({[actor]} ∪ sat)) in Ho.
  rewrite names_add, <-from_secs_sub in Ho.
  assert (Ee : (now <? r + APPROVAL_WINDOW_SECS) && valid actor Fresh = true)
    by (rewrite (proj2 (Z.ltb_lt _ _) Hlt); by destruct actor).
  assert (Ha := from_secs_add now t). destruct (Hnonce k) as [Hlen Hu].
  eapply (acts_same _ _ _ (OApprove HOST token) _ _
    (evaluated (Pending (Clock.from_secs r) (Clock.from_secs (r + APPROVAL_WINDOW_SECS))
       (MkTtl (Clock.from_secs t)) (urandom env k) (profile_id p) ({[actor_id actor]} ∪ names sat)) o
       (MkTtl (Clock.from_secs t)) (Clock.from_secs now)) Hi); try done; rewrite ?Esh.
  - intros. by eapply act_approve.
  - apply answers_expected; [cbn [expected_result]; fold now; by rewrite Ee|].
    eapply (approve_answers env cfg Hio sim_hosts (cast_model key) sim_policy _ _ _ _ _ _ token); cbn [duration];
      rewrite ?Ha; try done.
    + apply from_secs_le; lia.
    + rewrite status_pending. by rewrite (proj2 (Z.leb_gt _ _) Hlt).
    + intros v. exists v. rewrite as_secs_from_secs. apply Hj.
    + apply resolve_gate.
    + apply from_secs_clock. unfold HORIZON, MAX_TTL_SECS in *. lia.
    + apply good_opening; lia.
    + apply good_pending; lia || done.
  - cbn [advance_shadow]. fold now. rewrite Ee. unfold evaluated. rewrite Hmet.
    destruct (met p ({[actor]} ∪ sat) (now - r)); cbn [opened_after refines].
    + cbn [duration]. rewrite Ha. split_and!; try done; lia.
    + rewrite names_add. split_and!; try done; lia.
  - cbn [advance_shadow]. fold now. rewrite Ee. destruct (met p ({[actor]} ∪ sat) (now - r)); [done|].
    intros ????? E. injection E as <- <- <- <- <-. eauto.
Qed.

Lemma approve_acts opened s k g actor proof :
  inv opened s k g -> acts opened s (AApprove actor proof).
Proof.
  intros Hi. pose proof Hi as [_ Hr _ _ _].
  destruct (shadow s) as [|p sat r d t|e] eqn:Esh; cbn [refines] in Hr.
  - subst g. eapply approve_refused_acts; [done|by rewrite Esh|]. intros token _.
    apply approve_refuses_idle; [done..|]. by apply approve_idle.
  - destruct (decide (sim_now s < d)) as [Hlt|Hge].
    + destruct (valid actor proof) eqn:Ev; [|by eapply approve_invalid_acts].
      assert (actor <> Charlie /\ proof = Fresh) as [? ->] by by destruct actor, proof.
      by eapply approve_valid_acts.
    + eapply approve_refused_acts; [done|rewrite Esh; cbn [expected_result];
        by rewrite (proj2 (Z.ltb_ge _ _)) by lia|]. intros token _.
      apply approve_refuses_idle; [done..|]. destruct Hr as (_ & _ & _ & ->). apply approve_idle.
      intros rem. rewrite status_pending. by rewrite (proj2 (Z.leb_le _ _)) by lia.
  - destruct Hr as (_ & _ & ->). eapply approve_refused_acts; [done|by rewrite Esh|]. intros token _.
    apply approve_refuses_idle; [done..|]. apply approve_idle. intros rem. rewrite status_open.
    by destruct (_ <=? _).
Qed.

(** *** The pass *)

Lemma acts_pass opened s k g g' :
  inv opened s k g -> gives g (pass env cfg (Clock.from_secs (sim_now s)) : M' _) tt g' ->
  let sh := advance_shadow (shadow s) APass (sim_now s) in
  refines env sh (opened_after (shadow s) sh opened (sim_now s)) (sim_now s) k g' ->
  (forall p sat r dl t, sh = ShPending p sat r dl t ->
     exists p0 sat0 dl0, shadow s = ShPending p0 sat0 r dl0 t) ->
  acts opened s APass.
Proof.
  intros Hi Hp sh Hr Hl. destruct (Hp (daemon s) (inv_stands _ _ _ _ Hi)) as (d & [] & g1 & E & Hs & _ & ->).
  exists d, None, (live s), (stale s), k, g'. split; [unfold act; by rewrite E|]. split; [done|]. apply inv_conclude.
  by eapply inv_moved.
Qed.

Lemma leb_from_secs a b : (Clock.from_secs a <=? Clock.from_secs b) = (a <=? b).
Proof. apply eq_true_iff_eq. rewrite !Z.leb_le. apply from_secs_le. Qed.

Lemma swept_pending r d ttl nonce p sat now :
  swept (Clock.from_secs now) (Pending r (Clock.from_secs d) ttl nonce p sat)
  = if d <=? now then Closed else Pending r (Clock.from_secs d) ttl nonce p sat.
Proof. unfold swept. cbn [reaped fst reaped_pending]. rewrite leb_from_secs. by destruct (d <=? now). Qed.

Lemma swept_open o e cs now :
  swept (Clock.from_secs now) (Open o (Clock.from_secs e) cs)
  = if e <=? now then NeedsRevert cs (Clock.from_secs now) else Open o (Clock.from_secs e) cs.
Proof. unfold swept. cbn [reaped fst]. rewrite leb_from_secs. by destruct (e <=? now). Qed.

(** A pass that sweeps to a grant it then leaves alone. *)
Lemma pass_rests g now :
  good (swept now g) -> (forall cs, Grant.status (swept now g) now <> StNeedsRevert cs) ->
  (forall rem, Grant.status (swept now g) now <> StAwaitingApproval rem) ->
  gives g (pass env cfg now : M' _) tt (swept now g).
Proof.
  intros Hg Hrev Hwait. eapply (pass_gives env cfg Hio sim_hosts (cast_model key) sim_policy); [done|..].
  - unfold needing_revert. rewrite hosts_only. destruct (Grant.status _ _) eqn:E; try apply gives_ret.
    by destruct (Hrev channels).
  - unfold awaiting_approval. rewrite hosts_only. destruct (Grant.status _ _) eqn:E; try apply gives_ret.
    by destruct (Hwait remaining).
Qed.

(** A pass at or after the expiry closes the grant. *)
Lemma pass_expires o e now :
  e <= now -> 0 <= now <= HORIZON ->
  gives (Open o (Clock.from_secs e) [Ssh]) (pass env cfg (Clock.from_secs now) : M' _) tt Closed.
Proof.
  intros Hle Hn. assert (Es : swept (Clock.from_secs now) (Open o (Clock.from_secs e) [Ssh])
    = NeedsRevert [Ssh] (Clock.from_secs now)) by (rewrite swept_open; by rewrite (proj2 (Z.leb_le _ _))).
  eapply (pass_gives env cfg Hio sim_hosts (cast_model key) sim_policy); rewrite ?Es.
  - apply good_reverting; auto using trunc_from_secs. apply from_secs_clock. lia.
  - unfold needing_revert. rewrite hosts_only. cbn [Grant.status]. cbn iota. cbn [for_each fst snd].
    eapply gives_bind; [|apply gives_ret].
    eapply gives_bind; [by apply drive_revert_gives|]. apply gives_ret.
  - unfold awaiting_approval. rewrite hosts_only. apply gives_ret.
Qed.

(** A pass over a live request opens it when the wait tips the gate. *)
Lemma pass_waits p sat r d t k now :
  0 <= r <= now -> now <= HORIZON -> d = r + APPROVAL_WINDOW_SECS -> now < d -> 0 < t <= MAX_TTL_SECS ->
  let g := Pending (Clock.from_secs r) (Clock.from_secs d) (MkTtl (Clock.from_secs t)) (urandom env k)
             (profile_id p) (names sat) in
  gives g (pass env cfg (Clock.from_secs now) : M' _) tt
    (if met p sat (now - r) && negb (met p sat 0)
     then Open (Clock.from_secs now) (Clock.from_secs (now + t)) [Ssh] else g).
Proof.
  intros Hr Hn Hd Hlt Ht g. destruct (Hnonce k) as [Hlen Hu].
  destruct (evaluate_met (public_key_of (key Alice)) (public_key_of (key Bob)) p sat (now - r)) as (o1 & Ho1 & Hm1).
  destruct (evaluate_met (public_key_of (key Alice)) (public_key_of (key Bob)) p sat 0) as (o2 & Ho2 & Hm2).
  assert (Es : swept (Clock.from_secs now) g = g)
    by (unfold g; rewrite swept_pending; by rewrite (proj2 (Z.leb_gt _ _))).
  assert (Est : Grant.status g (Clock.from_secs now) = StAwaitingApproval (Clock.from_secs d - Clock.from_secs now))
    by (unfold g; rewrite status_pending; by rewrite (proj2 (Z.leb_gt _ _))).
  assert (Ha := from_secs_add now t).
  eapply (pass_gives env cfg Hio sim_hosts (cast_model key) sim_policy g g); rewrite ?Es.
  - apply good_pending; lia || done.
  - unfold needing_revert. rewrite hosts_only, Est. apply gives_ret.
  - unfold awaiting_approval. rewrite hosts_only, Est. cbn [for_each].
    eapply gives_bind; [|apply gives_ret]. rewrite <-Hm1, <-Hm2, <-Ha.
    eapply (mature_wait_gives env cfg Hio sim_hosts (cast_model key)); cbn [duration]; rewrite ?Ha; try done.
    + apply from_secs_le. lia.
    + apply resolve_gate.
    + by rewrite from_secs_sub.
    + apply from_secs_clock. unfold HORIZON, MAX_TTL_SECS in *. lia.
    + apply good_opening; lia.
Qed.

Lemma pass_acts opened s k g : inv opened s k g -> acts opened s APass.
Proof.
  intros Hi. pose proof Hi as [_ Hr Hn _ _].
  destruct (shadow s) as [|p sat r d t|e] eqn:Esh; cbn [refines] in Hr.
  - subst g. eapply acts_pass; [done|by apply (pass_rests Closed)|by rewrite Esh|by rewrite Esh].
  - destruct Hr as (Hd & Hrn & Ht & ->). destruct (d <=? sim_now s) eqn:Ed.
    + eapply (acts_pass _ _ _ _ Closed); [done|..].
      * match type of Hi with inv _ _ _ ?g =>
          assert (Es : swept (Clock.from_secs (sim_now s)) g = Closed)
            by (rewrite swept_pending; by rewrite Ed);
          pose proof (pass_rests g (Clock.from_secs (sim_now s))) as Hp end.
        rewrite Es in Hp. by apply Hp.
      * rewrite Esh. cbn [advance_shadow]. by rewrite Ed.
      * rewrite Esh. cbn [advance_shadow]. by rewrite Ed.
    + pose proof Ed as Hlt. apply Z.leb_gt in Hlt.
      eapply acts_pass; [done|apply pass_waits; try done; lia|..]; rewrite Esh; cbn [advance_shadow]; rewrite Ed.
      * destruct (_ && _); cbn [opened_after refines]; split_and!; try done; lia.
      * destruct (_ && _); [done|]. eauto.
  - destruct Hr as (Ho & He & ->). destruct (e <=? sim_now s) eqn:Ee.
    + pose proof Ee as Hle. apply Z.leb_le in Hle.
      eapply acts_pass; [done|by apply pass_expires|..]; rewrite Esh; cbn [advance_shadow]; by rewrite Ee.
    + eapply acts_pass; [done|..].
      * match type of Hi with inv _ _ _ ?g =>
          assert (Es : swept (Clock.from_secs (sim_now s)) g = g)
            by (rewrite swept_open; by rewrite Ee);
          pose proof (pass_rests g (Clock.from_secs (sim_now s))) as Hp end.
        rewrite Es in Hp. apply Hp; [apply good_open; lia|..]; intros ?; rewrite status_open, Ee; done.
      * rewrite Esh. cbn [advance_shadow]. rewrite Ee. cbn [opened_after refines]. split_and!; done || lia.
      * rewrite Esh. cbn [advance_shadow]. by rewrite Ee.
Qed.

Lemma capped_acts opened s k g a :
  inv opened s k g -> capped_action (shadow s) opened (sim_now s) a = true -> acts opened s a.
Proof.
  intros Hi Hc. destruct a as [p ix|actor proof|ix| |secs|].
  - unfold capped_action in Hc. apply Nat.ltb_lt in Hc. destruct (shadow s) eqn:Esh;
      [by eapply open_accepted_acts|eapply open_refused_acts; [done..|by rewrite Esh]..].
  - by eapply approve_acts.
  - by eapply renew_acts.
  - by eapply close_acts.
  - by eapply advance_acts.
  - by eapply pass_acts.
Qed.

(** ** The step and the replay *)

Lemma step_agrees opened s k g a :
  inv opened s k g -> capped_action (shadow s) opened (sim_now s) a = true ->
  let now := time_after (sim_now s) a in
  let sh := advance_shadow (shadow s) a now in
  exists s', step env cfg key_text s a = Ok s' /\ shadow s' = sh /\ sim_now s' = now
    /\ (unrepeated s' = true -> exists k' g', inv (opened_after (shadow s) sh opened now) s' k' g').
Proof.
  intros Hi Hc now sh. destruct (capped_acts _ _ _ _ _ Hi Hc) as (d & resp & lv & st & k' & g' & Ea & He & Hs & Hr & Hi').
  fold now sh in Ea, He, Hr, Hi'.
  destruct (ask_runs OStatus now d g' _ (status_gives env cfg Hio sim_hosts g' (Clock.from_secs now)) Hs)
    as (d' & r & g1 & Es & Hs' & -> & ->).
  exists {| daemon := d'; shadow := sh; sim_now := now; live := lv; stale := st |}.
  split; [|split; [done|split; [done|]]].
  - unfold step. rewrite Ea. fold sh.
    replace (match resp with Some r => map_err Refused (check_result a r (shadow s) now) | None => Ok tt end)
      with (Ok (E := Fault Complaint) tt).
    + rewrite Es. cbn [rs_grants response from_option id]. by rewrite (refines_observed _ _ _ _ _ _ Hr).
    + destruct resp as [r|]; [|done]. unfold check_result. by rewrite bool_decide_eq_true_2.
  - intros Hun. exists k', g'. specialize (Hi' Hun) as []. by split.
Qed.

Lemma replay_agrees actions : forall i opened s k g,
  inv opened s k g -> capped (shadow s) opened (sim_now s) actions = true ->
  unrepeated_run env cfg key_text s actions = true ->
  exists s', replay_from env cfg key_text i s actions = Ok s'
    /\ shadow s' = shadow_run (shadow s) (sim_now s) actions.
Proof.
  induction actions as [|a rest IH]; intros i opened s k g Hi Hc Hu; [by exists s|].
  cbn [capped] in Hc. apply andb_true_iff in Hc as [Ha Hc].
  destruct (step_agrees _ _ _ _ _ Hi Ha) as (s' & Es & Esh & Enow & Hi').
  cbn [replay_from shadow_run unrepeated_run] in Hu |- *. rewrite Es in Hu |- *.
  apply andb_true_iff in Hu as [Hu Hrest]. destruct (Hi' Hu) as (k' & g' & Hi'').
  rewrite <-Esh, <-Enow in Hc |- *. rewrite <-Esh, <-Enow in Hi''. by eapply IH.
Qed.

Lemma inv_sim_new : inv 0 sim_new 0 Closed.
Proof. split; cbn; done. Qed.

(** C3. The daemon implements its shadow.  Whatever the simulated users do
    (requests under the three profiles, fresh and replayed proofs of the two
    approvers and of a stranger, renewals, closes, the clock, passes), in any
    order and number, as long as no accepted renewal reaches past 24 hours
    from the opening, the simulation never complains: every request is
    answered as the shadow expects, every [status] shows the shadow's state
    and remaining time to the second, nothing fails or panics, and the run
    ends in the state the shadow alone computes. *)
Theorem simulation_never_complains (actions : list Action)
    (Hcap : capped ShClosed 0 1000000 actions = true)
    (Hfresh : unrepeated_run env cfg key_text sim_new actions = true) :
  exists s, replay env ledger_ok key_text alice_pub bob_pub actions = Ok s
    /\ shadow s = shadow_run ShClosed 1000000 actions.
Proof. exact (replay_agrees actions 0 0 sim_new 0 Closed inv_sim_new Hcap Hfresh). Qed.
End Refinement.

(** ** Witness: a cast with transparent signatures *)

(** A key is its owner; a signature is the PEM text, naming signer and message. *)
#[local] Instance CastKeys : ApprovalKeys := {|
  SshPublicKey := Actor;
  ssh_from_openssh s :=
    if String.eqb s "alice" then Ok Alice else if String.eqb s "bob" then Ok Bob
    else if String.eqb s "charlie" then Ok Charlie else Err "key";
  p256_from_sec1 _ := Ok tt;
  ed25519_from_bytes _ := Ok tt;
|}.

Definition sig_head (a : Actor) : string := SSHSIG_BEGIN +:+ actor_id a +:+ ":".
Definition sig_text (a : Actor) (msg : list Z) : string := sig_head a +:+ hexlower_encode msg +:+ ".".

#[local] Instance CastFactors : FactorCrypto := {|
  hmac_sha1 key m := checksum 20 1 (key ++ m);
  hmac_sha256 key m := checksum 32 2 (key ++ m);
  factor_sha256 m := checksum 32 3 m;
  ecdsa_from_der der := Ok der;
  ecdsa_verify pk m sig := bool_decide (sig = ref_sign pk m);
  eddsa_from_slice bs := Ok bs;
  eddsa_verify pk m sig := bool_decide (sig = ref_sign pk m);
  PasswordHash := string;
  password_hash_new phc := Ok phc;
  hash_is_none _ := false;
  Factors.verify_password pw h := PvWrong;
  SshSig := string;
  sshsig_parse s := Ok s;
  sshsig_namespace _ := APPROVAL_NAMESPACE;
  sshsig_signer pk sig := starts_with (sig_head pk) sig;
  sshsig_verify pk _ m sig := String.eqb sig (sig_text pk m);
  assertion_from_slice _ := Err "json";
  client_data_from_slice _ := Err "json";
  debug_str s := s;
|}.

#[local] Instance CastPrincipal : PrincipalKeys := {|
  PrivateKey := Actor;
  private_from_openssh s := ssh_from_openssh s;
  is_encrypted _ := false;
  private_sign a ns msg := if String.eqb ns APPROVAL_NAMESPACE then Ok (sig_text a msg) else Err "namespace";
  sshsig_to_pem sig :=
    if starts_with SSHSIG_BEGIN (trim sig) && String.eqb (trim sig) sig then Ok sig else Err "pem";
  public_key_of a := a;
  public_to_openssh pk := Ok (actor_id pk);
|}.

(** A text that starts and ends in visible characters is trimmed already. *)
Lemma trim_ends q c s d :
  forallb (fun p => match p with "" => false | String a _ => negb (q a) end)
    (str_of_bytes <$> WHITE_SPACE) = true ->
  forallb (fun p => match p with "" => false | String a _ => negb (q a) end)
    ((fun w => str_of_bytes (rev w)) <$> WHITE_SPACE) = true ->
  q c = true -> q d = true ->
  trim (String c (s +:+ String d "")) = String c (s +:+ String d "").
Proof.
  intros H1 H2 Hc Hd. unfold trim, trim_start, trim_end.
  assert (E : forall fuel, trim_go fuel (str_of_bytes <$> WHITE_SPACE) (String c (s +:+ String d ""))
              = String c (s +:+ String d "")).
  { intros [|fuel]; [done|]. cbn [trim_go]. by rewrite (strip_any_none _ q). }
  rewrite E. change (String c (s +:+ String d "")) with ((String c s) +:+ String d "").
  rewrite rev_snoc.
  assert (E' : forall fuel, trim_go fuel ((fun w => str_of_bytes (rev w)) <$> WHITE_SPACE)
                 (String d (String.rev (String c s))) = String d (String.rev (String c s))).
  { intros [|fuel]; [done|]. cbn [trim_go]. by rewrite (strip_any_none _ q). }
  rewrite E', <-rev_snoc. apply rev_rev.
Qed.

Lemma sig_text_trim a msg : trim (sig_text a msg) = sig_text a msg.
Proof.
  assert (Hs : sig_text a msg
    = String "-" (("----BEGIN SSH SIGNATURE-----" +:+ actor_id a +:+ ":" +:+ hexlower_encode msg) +:+ "."))
    by (unfold sig_text, sig_head; by rewrite ?str_app_assoc).
  rewrite Hs. apply (trim_ends (fun c => Ascii.eqb c "-" || Ascii.eqb c ".")); by vm_compute.
Qed.

Lemma sig_head_text a b msg : starts_with (sig_head b) (sig_text a msg) = true -> a = b.
Proof. by destruct a, b; vm_compute. Qed.

Lemma sig_text_inj a msg msg' :
  Forall is_u8 msg -> Forall is_u8 msg' -> sig_text a msg = sig_text a msg' -> msg = msg'.
Proof.
  intros Hm Hm' E. unfold sig_text in E. apply (inj (String.app _)) in E.
  assert (Some msg = Some msg'); [|congruence].
  rewrite <-(hexlower_decode_encode msg), <-(hexlower_decode_encode msg') by done. apply f_equal.
  apply (f_equal String.rev) in E. rewrite !rev_snoc in E. injection E as E.
  apply (f_equal String.rev) in E. rewrite !rev_rev in E. exact E.
Qed.

#[local] Instance CastPrincipalLaws : PrincipalKeysLaws.
Proof.
  split; cbn -[sig_text sig_head trim SSHSIG_BEGIN starts_with String.eqb].
  - intros sig pem E. case_match eqn:Ec; [|done]. simplify_eq. by apply andb_true_iff in Ec as [? _].
  - intros sig pem E. case_match eqn:Ec; [|done]. simplify_eq.
    apply andb_true_iff in Ec as [_ Et%String.eqb_eq]. by rewrite Et.
  - intros a ns msg sig E. case_match eqn:Ec; [|done]. by apply String.eqb_eq in Ec.
  - intros a ns msg sig E. case_match; [|done]. simplify_eq. unfold sig_text, starts_with.
    by rewrite strip_prefix_app.
  - intros a ns msg sig pk E Hp. case_match; [|done]. simplify_eq. apply sig_head_text in Hp as ->.
    by apply String.eqb_eq.
  - intros pk line [= <-]. by destruct pk; vm_compute.
Qed.

Definition cast_env : Env := {| io_ok := fun _ => true; urandom := fun n => be_bytes 32 (Z.of_nat n) |}.

Definition cast_private (a : Actor) : PrivateKey := a.

Lemma cast_is_ok : cast_ok actor_id "alice" "bob" cast_private.
Proof.
  split.
  - by intros [].
  - intros a msg _. exists (sig_text a msg), (sig_text a msg). split; [done|].
    cbn -[sig_text trim SSHSIG_BEGIN starts_with]. rewrite sig_text_trim, String.eqb_refl.
    assert (E : starts_with SSHSIG_BEGIN (sig_text a msg) = true); [|by rewrite E].
    unfold sig_text, sig_head, starts_with. rewrite str_app_assoc. by rewrite strip_prefix_app.
  - by vm_compute.
  - by vm_compute.
  - intros a b msg sig [= <-]. cbn -[sig_text starts_with]. apply sig_head_text.
  - intros a msg msg' sig Hm Hm' [= <-]. cbn -[sig_text String.eqb]. intros E%String.eqb_eq.
    symmetry. by eapply sig_text_inj.
Qed.

(** The first committed seed. *)
Definition first_seed : list Action := gen_actions 120 0x0FA11B0C5EED0001.

#[local] Instance CastProofs : ProofVerifier Ledgers := DaemonProofs (fun _ => true) sim_secrets.

Lemma simulation_never_complains_witness :
  capped ShClosed 0 1000000 first_seed = true /\
  exists s, replay cast_env (fun _ => true) actor_id "alice" "bob" first_seed = Ok s
    /\ shadow s = shadow_run ShClosed 1000000 first_seed.
Proof.
  assert (Hc : capped ShClosed 0 1000000 first_seed = true) by (vm_compute; reflexivity).
  split; [exact Hc|].
  apply (simulation_never_complains actor_id "alice" "bob" cast_private cast_is_ok (fun _ => true) cast_env).
  - reflexivity.
  - intros n. split; [apply length_be_bytes|apply be_bytes_u8].
  - exact Hc.
  - vm_compute. reflexivity.
Defined.

(** All the committed seeds are within the theorem's reach. *)
Example committed_seeds_capped :
  forallb (fun seed => capped ShClosed 0 1000000 (gen_actions 120 seed)) FIXED_SEEDS = true.
Proof. vm_compute. reflexivity. Qed.

(** The shadow lets a 4-hour grant be renewed without end; the daemon accepts
    the renewal that passes 24 hours and then refuses its own state file, so
    the [status] that follows is fatal: the cap of the theorem is needed. *)
Example renewal_chain_breaks_the_daemon :
  let chain := [AOpen Solo 3; AApprove Alice Fresh] ++ concat (replicate 12 [AAdvance 7200; AAdvance 1; ARenew 3]) in
  replay cast_env (fun _ => true) actor_id "alice" "bob" chain
  = Err (31%nat, Refused (DaemonFatal (FInvalid (SpanExceedsCap HOST 86410)))).
Proof. vm_compute. reflexivity. Qed.
